(* ===== verification/_CoqProject ===== *)
-Q . S2P
Prelude.v
OrdMap.v
Text.v
Protocol.v
Metadata.v
Compression.v
Idempotency.v
Executor.v
Transport.v
Outbound.v
Middleware.v
Router.v
Dispatch.v
Telemetry.v
Adapters.v
Connection.v
Flow.v
Lifecycle.v
Session.v
Wire.v
Ingress.v
Events.v
System.v
Shutdown.v
Server.v
Acceptor.v
Descriptor.v
Tls.v
Policy.v
Schema.v
Bindings.v
Handlers.v
Backend.v
Json.v
RustSource.v
Naming.v
Generator.v
Agreement.v
Pipeline.v
Regeneration.v
Conformance.v
ConformanceServer.v
ConformanceObservability.v
