(* ===== verification/Prelude.v ===== *)
(** * MoonLightBridge: a verified model

    MoonLightBridge is an RPC runtime between a Rust server and its clients: a
    binary frame protocol with metadata and bounded compression, an asynchronous
    server with middleware, server streaming, cancellation and graceful
    shutdown, an idempotency cache, telemetry with its adapters, and a code
    generator that reads contracts in Rust or Protobuf, keeps schema locks and
    writes Rust bindings and Java clients.  This library models the Rust crates
    under [src/crates/] as executable definitions and proves what makes them
    correct.

    ** Files, and the code each models

    - [Prelude]: Rust's [Result], machine integers as [Z] with their bounds,
      bytes, big-endian integers, slices, the tactics and hint database of the
      development.
    - [OrdMap]: the [Ord] trait as a class with laws, [BTreeMap] as a strictly
      sorted association list, [BTreeSet] on top of it.
    - [Text]: decimal and hexadecimal texts, ASCII case, splitting.
    - [Protocol]: [moonlight-bridge-protocol/src/lib.rs].  Frame headers
      ([Frame::encode_into], [Frame::decode_header]), [PeerSettingsV2],
      [TraceContext], [ErrorCode] and their encoders and decoders.
    - [Metadata]: [moonlight-bridge-protocol/src/metadata.rs].  The owned map and
      its encoder, [Metadata::validate], the borrowed views
      ([reserved_entries], [get_reserved]) and [into_metadata].
    - [Compression]: [moonlight-bridge-protocol/src/compression.rs].
      [CompressionPolicy::encode]/[decode] and the shared [DecodedByteBudget],
      whose compare-exchange loop is a step relation over any number of threads.
    - [Idempotency]: [moonlight-bridge-server/src/idempotency.rs].  The cache as
      a transition system (admission and completion are the critical sections
      of its mutex) and [Revisioned].
    - [Executor]: the contract of the cache as an abstract machine (a key is
      idle, running, done or lost), and the refinement.
    - [Transport]: [read_frame], [read_frame_buffered], [write_frame] and the
      reader task of [moonlight-bridge-server/src/lib.rs]; the interface to
      tokio's semaphores.
    - [Outbound]: shaping of outbound frames, the byte-bounded response queue
      and the batching writer task of the same file.
    - [Middleware]: [moonlight-bridge-server/src/middleware.rs].  The single-use
      continuation [Next], panic containment, the cancellation guard.
    - [Router]: [Router] and [RouterBuilder] with every registration operation.
    - [Dispatch]: [request_payload], [Router::dispatch_observed] and
      [Router::dispatch_stream], with the begin and end of observations.
    - [Telemetry]: the trait [RequestObservation] as a class, [TelemetryChain],
      the lock-free [MoonLightMetrics] as interleaved atomic operations, the
      stages of a request task, the deferred observation.
    - [Adapters]: [moonlight-bridge-observability/src/prometheus.rs], [otel.rs]
      and [otlp.rs], [moonlight-bridge-sentry/src/lib.rs], by the calls they make.
    - [Connection]: the handshake and the connection loop [serve_connection] as
      a state machine: the reader task with the inbox it fills, one step per
      branch of the [select!], per poll of a request task (first poll, parsing,
      handler, every stream item) and per abort; and one for what the rest of
      the server does to the shared budgets.
    - [Flow]: the decoded-byte budget and the stream credits of a connection.
    - [Lifecycle]: what a connection does over its life: the form and addresses
      of the frames it queues, and how a drain ends.
    - [Session]: the contract of a connection as an abstract RPC session, and the
      refinement.
    - [Wire]: from the frames of a connection through queue, writer and socket
      to its peer, and what a client sees of its requests; how
      [serve_connection] ends.
    - [Ingress]: a connection with the byte stream of its client, from what the
      client writes through the reader and the inbox to the loop.
    - [Events]: [EventHub] and the event arm of a connection.
    - [System]: all connections of a server with what they share: the request
      bytes, the decoded-byte budget and the counters of health.
    - [Shutdown]: the drain of a whole server, to its end.
    - [Server]: limits and the drain protocol between [Server::run],
      [ServerHandle::begin_drain] and [ServerHandle::drain] ([drain.rs]) as
      interleaved atomic steps.
    - [Acceptor]: the accept loops of [Server::run] for TCP, TLS and Unix
      sockets, with connection permits and handshakes.
    - [Tls]: [moonlight-bridge-server/src/tls.rs].
    - [Descriptor], [Policy], [Schema], [Bindings]: the core of
      [moonlight-bridge-codegen/src]: the descriptor records, [policy.rs],
      [schema.rs], and from [lib.rs] the wire identifiers, their collision
      check and the builder calls of the generated registrations.
    - [Handlers]: what the generated closures do with a request, and the stream
      adapters of the server that they use.
    - [Json], [RustSource], [Regeneration]: [source.rs], from the syntax tree of
      a contract and the JSON value of its lock to the lines of the schema, and
      what regeneration keeps.
    - [Naming], [Generator], [Agreement]: the names and the text that [lib.rs]
      generates in Rust and Java, and what both sides have in common.
    - [Pipeline]: [compile_rust_api], [compile_rust_source_api] and the command
      line of [main.rs].
    - [Backend]: the services and the metrics endpoint of the example backends.
    - [Conformance], [ConformanceServer], [ConformanceObservability]: the unit
      tests of the crates as propositions about the definitions above, each
      under its own name and proved by evaluation; a concurrent test is the
      interleaving that its channels force.

    [Protocol], [Metadata] and [Compression] are used by everything on the
    connection; [Transport] and [Outbound] are the two directions of its socket;
    [Dispatch] runs a [Router] behind [Middleware]; [Connection] composes them,
    and [System] composes connections;
    [Acceptor] and [Server] are around the connections; [Telemetry] is what
    [Dispatch] reports to and the [Adapters] implement.  The generator closes the
    circle: what it accepts, the [Router] builds ([Bindings]), its handlers answer
    through [Dispatch] ([Handlers]), its two languages agree ([Agreement]), and
    what it generates again from changed sources its own lock check accepts
    ([Regeneration]).

    ** What the theorems show

    - Codecs: decoders accept exactly what encoders write, of canonical form and
      within the limits, on all inputs; round trips; every loop over untrusted
      bytes terminates.
    - Resources: decoded bytes, request bytes and response bytes stay within
      their budgets and are accounted for exactly, over all connections of a
      server together, and an idle server has all of them back; tasks of a
      connection stay within the negotiated limit; stream items stay within the
      credits granted; limits that the server accepts let every
      legal frame through.
    - Delivery: the reader loses, duplicates and reorders nothing, and what the
      writer writes is determined frame by frame; the loop takes the frames that
      the client wrote, from the first one on; a request is answered at most
      once, under its own identifiers; a stream is delivered in order within its
      credits, up to the items that the byte budget replaces by errors and the
      writer that stops; every frame that is queued is well formed and addressed
      by its kind; a connection refines an RPC session, and a client that uses
      fresh identifiers sees on the wire at most one answer to a unary request,
      and items or errors in their place, then at most one terminal frame, for a
      stream; what passes the response queue is what the peer reads from the
      socket; events arrive in order; a unary or streaming call through generated
      bindings gets the service's answer.
    - Telemetry: counters are exact under every interleaving; a chain shows each
      delegate what it would see alone; Prometheus follows the counters, Sentry
      hears of a request once, OpenTelemetry places stages where they were.
    - Isolation: middleware cannot be bypassed or run twice, also when a layer
      drops its continuation, and panics of layers and of handlers behind them
      are answered; a built router is its registration history, with scoped
      methods behind an authorization layer.
    - State machines: the idempotency cache refines an executor that runs an
      operation at most once unless a known outcome is forgotten; revisioned
      updates are linear; draining begins once, sends one GOAWAY, at most one
      GOODBYE, admits no request, and completes when the requests are answered;
      the shutdown of a whole server completes, with everything returned;
      connections stay within their limit.
    - Generator: the lock check decides a declarative compatibility relation, is
      reflexive on fresh snapshots and sound along histories; schemas generated
      again keep numbers, names and reservations; annotations reach the schema;
      stored policies are safe; generation succeeds exactly when it should;
      client and server agree on identifiers and policies; a build that succeeds
      gives a server that starts.

    Some theorems show behaviour that the code does not intend; they are
    stated at the concrete trace that exhibits it: [deferred_response_replaced]
    ([Outbound]), [unprotected_panic_unanswered] ([Dispatch]),
    [panicked_entry_leaks] and [reused_id_orphans_task] ([Connection]),
    [reused_id_two_answers] ([Session]), [item_replaced_in_stream] ([Wire]),
    [lagging_client_skips] ([Events]),
    [streams_beyond_negotiated] ([Connection]), [late_connection_stays]
    ([Lifecycle]), [drain_missed_at_startup] and [drain_wakeup_lost] ([Server]),
    [largest_enum_number_not_reservable]
    ([Schema]); and the examples [silence_times_out] and
    [arrived_frame_times_out] ([Transport]), [handshake_not_counted] and
    [nodelay_failure_stops_server] ([Acceptor]), [snapshot_torn] ([Telemetry]),
    [stale_snapshot_counts_twice] ([Adapters]), [nested_containers_flattened],
    [readded_field_still_reserved] and [negative_value_rejected]
    ([Regeneration]), [policy_names_collide] and [digit_parts_merge] ([Naming]),
    [client_overwritten] and [packageless_type_unknown] ([Agreement]).

    ** Modelling choices

    - Integers are [Z], with the source's checked, saturating and wrapping
      operations written out; [usize] has 64 bits.
    - [Result] is [result]; a panic of a builder or constructor is [None]; a
      future that never completes is the constructor [Pending] of [async].
    - Loops over a metadata block have fuel: one turn per block byte and one for
      the exit test.  Every entry takes at least seven bytes, so the fuel is
      never exhausted ([validate_loop_total] and the lemmas beside it).  The
      reader task has one unit of fuel per frame, and its theorem gives an
      amount that delivers the whole stream.  The turns of the writer are
      driven by the part of the queue that each of them sees.  The search for a
      free field number has fuel for every used number and the thousand that
      Protobuf keeps for itself ([number_fuel]), which always finds one.
    - Code outside the repository is an interface: zstd ([ZstdOps],
      [ZstdLaws]), tokio's semaphores ([SemaphoreOps], [SemaphoreLaws]) and
      broadcast channel ([BroadcastOps], [BroadcastLaws]),
      Protobuf reflection ([ReflectOps]), messages ([MessageOps],
      [MessageLaws]); the Protobuf compiler, PEM files and rustls are arguments;
      application handlers, middleware and telemetry are arbitrary functions.
      Each interface has a concrete instance that the witnesses use.
    - Generated code is a list of lines, with the texts of the source; Protobuf
      identifiers are ASCII, so case mappings are the ASCII ones.
    - A request task of a connection takes one step for its first poll, one to
      parse its request, one for its handler with the answer or the opened
      stream, and one per item; the steps of different tasks, of the loop and
      of other connections interleave freely.  A handler's own awaits are inside
      its step, and the frames of a step enter the response queue with it.
    - The frames of a connection, [cn_sent], are those that entered the channel
      of its response queue, after [ResponseQueue::send]: whether the byte
      budgets have room for a frame is a choice of the environment at each send,
      and without room an event is dropped, a response or stream item replaced by
      an error, and any other frame waits ([queue_form]).  The queue itself, with
      its semaphores, is in [Outbound]; [Wire] puts both together.  A wait for
      permits inside a send is not a step of its own.
    - The delivery of a stream is a sequence of turns, each with the credits that
      came before it, a deadline that may pass, and a response queue that takes
      its frame, replaces it or is gone.
    - Middleware is a program over its continuation: it awaits it, drops its
      future half way, and does this as often as it likes, one use after the
      other.  The flag of the continuation is taken by the call, so concurrent
      uses differ only in the order of events after the first.
    - The registrations of generated code are the builder calls that the emitted
      text spells ([generate_rust_method]); the closure of a method is a function
      of its identifier and its policy.  The text itself is in [Generator].
    - The reader holds the permits of a body from the moment it knows its length;
      they stay with the frame in the inbox, pass to its task when the loop
      admits it, and go back when the loop refuses the frame, when the read fails
      or when the inbox of a closed connection is dropped.  The inbox is the
      channel between reader and loop with the frame that waits for room in it.
    - Time is an argument where the code reads a clock; deadlines that expire are
      a choice of the environment.

    ** Not modelled

    Sockets and the calls on them; [tracing] output; the parsers of Rust, JSON,
    Protobuf and PEM texts, which are libraries; the text encoder of Prometheus;
    the initialisation of the Sentry client, which hands build-time settings to
    its library; the contract macros, which return their input;
    the main functions of the examples; the clients in other languages. *)
From Stdlib Require Export Strings.Byte Lia.
From stdpp Require Export base tactics numbers option list list_numbers gmap strings.

Declare Scope bridge_scope.
Delimit Scope bridge_scope with bridge.
Open Scope bridge_scope.
Global Open Scope Z_scope.

(** * Rust's [Result] *)

(** [result E A] is Rust's [Result<A, E>]; the error type comes first so that
    [result E] is a functor and the [?] operator is stdpp's monadic bind. *)
Inductive result (E A : Type) : Type :=
  | Ok (a : A)
  | Err (e : E).
Arguments Ok {E A} a.
Arguments Err {E A} e.

#[export] Instance result_eq_dec {E A} `{!EqDecision E, !EqDecision A} :
  EqDecision (result E A).
Proof. solve_decision. Defined.
#[export] Instance result_ret {E} : MRet (result E) := λ A a, Ok a.
#[export] Instance result_bind {E} : MBind (result E) := λ A B f r,
  match r with Ok a => f a | Err e => Err e end.
#[export] Instance result_fmap {E} : FMap (result E) := λ A B f r,
  match r with Ok a => Ok (f a) | Err e => Err e end.

Definition map_err {E F A} (f : E → F) (r : result E A) : result F A :=
  match r with Ok a => Ok a | Err e => Err (f e) end.

Definition ok_or {E A} (o : option A) (e : E) : result E A :=
  match o with Some a => Ok a | None => Err e end.

Definition ok {E A} (r : result E A) : option A :=
  match r with Ok a => Some a | Err _ => None end.

Definition is_ok {E A} (r : result E A) : bool :=
  match r with Ok _ => true | Err _ => false end.

Definition is_err {E A} (r : result E A) : bool := negb (is_ok r).

(** [guard_err b e] is the statement [if b { return Err(e); }]. *)
Definition guard_err {E} (b : bool) (e : E) : result E unit :=
  if b then Err e else Ok tt.

Lemma bind_Ok {E A B} (r : result E A) (f : A → result E B) b :
  (r ≫= f) = Ok b ↔ ∃ a, r = Ok a ∧ f a = Ok b.
Proof. destruct r; naive_solver. Qed.

Lemma bind_Err {E A B} (r : result E A) (f : A → result E B) e :
  (r ≫= f) = Err e ↔ r = Err e ∨ ∃ a, r = Ok a ∧ f a = Err e.
Proof. destruct r; naive_solver. Qed.

Lemma ok_bind {E A B} (a : A) (f : A → result E B) : (Ok a ≫= f) = f a.
Proof. done. Qed.

Lemma ok_or_bind {E A B} (a : A) (e : E) (f : A → result E B) :
  (ok_or (Some a) e ≫= f) = f a.
Proof. done. Qed.

Lemma map_err_Ok {E F A} (f : E → F) (r : result E A) a :
  map_err f r = Ok a ↔ r = Ok a.
Proof. destruct r; naive_solver. Qed.

Lemma ok_or_Ok {E A} (o : option A) (e : E) a : ok_or o e = Ok a ↔ o = Some a.
Proof. destruct o; naive_solver. Qed.

Lemma guard_err_Ok {E} (b : bool) (e : E) u : guard_err b e = Ok u ↔ b = false.
Proof. destruct b, u; naive_solver. Qed.

(** * Machine integers *)

(** Rust's unsigned integers are integers in the ranges below; [usize] is the
    64-bit one of the platforms the project builds for. *)
Definition u8_max : Z := 2 ^ 8 - 1.
Definition u16_max : Z := 2 ^ 16 - 1.
Definition u32_max : Z := 2 ^ 32 - 1.
Definition u64_max : Z := 2 ^ 64 - 1.
Definition usize_max : Z := u64_max.

(** [x.checked_add(y)] at type [usize]. *)
Definition checked_add (x y : Z) : option Z :=
  if x + y <=? usize_max then Some (x + y) else None.

(** [x.saturating_sub(y)] at an unsigned type. *)
Definition saturating_sub (x y : Z) : Z := Z.max 0 (x - y).

(** [u8::try_from], [u16::try_from], [u32::try_from] of a [usize]. *)
Definition try_into_max (max x : Z) : option Z := if x <=? max then Some x else None.

Lemma checked_add_Some x y z :
  checked_add x y = Some z ↔ z = x + y ∧ x + y ≤ usize_max.
Proof. unfold checked_add. case_match; naive_solver lia. Qed.

Lemma try_into_max_Some m x y : try_into_max m x = Some y ↔ y = x ∧ x ≤ m.
Proof. unfold try_into_max. case_match; naive_solver lia. Qed.

(** * Bytes *)

Abbreviation bytes := (list byte).

#[export] Instance byte_eq_dec : EqDecision byte := Byte.byte_eq_dec.

(** The value of a byte and the byte of a value's low eight bits. *)
Definition u8 (b : byte) : Z := Z.of_N (Byte.to_N b).
Definition b8 (z : Z) : byte := default x00 (Byte.of_N (Z.to_N (z mod 256))).

Lemma u8_range b : 0 ≤ u8 b < 256.
Proof. unfold u8. pose proof (Byte.to_N_bounded b). lia. Qed.

Lemma u8_b8 z : u8 (b8 z) = z mod 256.
Proof.
  unfold u8, b8. pose proof (Z.mod_pos_bound z 256 ltac:(lia)) as Hz.
  destruct (Byte.of_N (Z.to_N (z mod 256))) as [b|] eqn:E; simpl.
  - apply Byte.to_of_N in E. rewrite E. lia.
  - apply Byte.of_N_None_iff in E. lia.
Qed.

Lemma u8_inj a b : u8 a = u8 b → a = b.
Proof.
  unfold u8. intros H%N2Z.inj. apply (f_equal Byte.of_N) in H.
  rewrite !Byte.of_to_N in H. by simplify_eq.
Qed.

Lemma b8_u8 b : b8 (u8 b) = b.
Proof. apply u8_inj. rewrite u8_b8. apply Z.mod_small, u8_range. Qed.

#[export] Instance byte_countable : Countable byte :=
  inj_countable' u8 b8 b8_u8.

(** ** Lengths and slices *)

(** [v.len()] *)
Definition zlen {A} (l : list A) : Z := Z.of_nat (length l).

(** [&v[a..b]] at constant offsets known to be in range. *)
Definition sub {A} (a b : nat) (l : list A) : list A := take (b - a) (drop a l).

(** [v.get(a..b)] *)
Definition slice_get {A} (l : list A) (a b : Z) : option (list A) :=
  if (a <=? b) && (b <=? zlen l)
  then Some (take (Z.to_nat (b - a)) (drop (Z.to_nat a) l)) else None.

(** [v[i]] at a constant offset known to be in range. *)
Definition byte_at (i : nat) (l : bytes) : byte := default x00 (l !! i).

Lemma zlen_nonneg {A} (l : list A) : 0 ≤ zlen l.
Proof. unfold zlen. lia. Qed.

Lemma zlen_nil {A} : zlen (@nil A) = 0.
Proof. done. Qed.

Lemma zlen_cons {A} (x : A) l : zlen (x :: l) = 1 + zlen l.
Proof. unfold zlen. simpl. lia. Qed.

Lemma zlen_app {A} (l k : list A) : zlen (l ++ k) = zlen l + zlen k.
Proof. unfold zlen. rewrite length_app. lia. Qed.

Lemma zlen_0 {A} (l : list A) : zlen l = 0 ↔ l = [].
Proof. unfold zlen. destruct l; simpl; naive_solver lia. Qed.

Lemma sub_skip {A} n a b (p l : list A) :
  length p = n → (n ≤ a)%nat → sub a b (p ++ l) = sub (a - n) (b - n) l.
Proof.
  intros <- ?. unfold sub. rewrite drop_app_ge by done. f_equal. lia.
Qed.

Lemma sub_here {A} n (p l : list A) : length p = n → sub 0 n (p ++ l) = p.
Proof. intros <-. unfold sub. rewrite Nat.sub_0_r. apply take_app_length. Qed.

Lemma sub_all {A} n (l : list A) : length l = n → sub 0 n l = l.
Proof. intros <-. unfold sub. rewrite Nat.sub_0_r. apply firstn_all. Qed.

Lemma sub_split {A} a b c (l : list A) :
  (a ≤ b ≤ c)%nat → sub a c l = sub a b l ++ sub b c l.
Proof.
  intros. unfold sub.
  replace (drop b l) with (drop (b - a) (drop a l)) by (rewrite drop_drop; f_equal; lia).
  rewrite take_take_drop. f_equal. lia.
Qed.

Lemma length_sub {A} a b (l : list A) :
  (b ≤ length l)%nat → length (sub a b l) = (b - a)%nat.
Proof. intros. unfold sub. rewrite length_take, length_drop. lia. Qed.

Lemma sub_byte_at i l : (i < length l)%nat → sub i (S i) l = [byte_at i l].
Proof.
  intros Hi. unfold sub, byte_at. destruct (lookup_lt_is_Some_2 l i Hi) as [x Hx].
  rewrite Hx. rewrite (drop_S _ _ _ Hx). replace (S i - i)%nat with 1%nat by lia. done.
Qed.

Lemma byte_at_skip n i (p l : bytes) :
  length p = n → (n ≤ i)%nat → byte_at i (p ++ l) = byte_at (i - n) l.
Proof. intros <- ?. unfold byte_at. by rewrite lookup_app_r. Qed.

Lemma byte_at_here b l : byte_at 0 ([b] ++ l) = b.
Proof. done. Qed.

Lemma slice_get_Some {A} (l : list A) a b s :
  0 ≤ a → slice_get l a b = Some s →
  l = take (Z.to_nat a) l ++ s ++ drop (Z.to_nat b) l ∧ zlen s = b - a
  ∧ a ≤ b ≤ zlen l.
Proof.
  unfold slice_get, zlen. intros Ha H. case_match eqn:E; [|done].
  apply andb_prop in E as [E1 E2]. simplify_eq.
  rewrite length_take, length_drop. split; [|lia].
  rewrite <- (take_drop (Z.to_nat a) l) at 1. f_equal.
  rewrite <- (take_drop (Z.to_nat (b - a)) (drop (Z.to_nat a) l)) at 1. f_equal.
  rewrite drop_drop. f_equal. lia.
Qed.

Lemma slice_get_app {A} (l s r : list A) a b :
  a = zlen l → b = a + zlen s → slice_get (l ++ s ++ r) a b = Some s.
Proof.
  intros -> ->. unfold slice_get.
  assert ((zlen l <=? zlen l + zlen s) && (zlen l + zlen s <=? zlen (l ++ s ++ r))
    = true) as ->.
  { rewrite !zlen_app. pose proof (zlen_nonneg s). pose proof (zlen_nonneg r). lia. }
  f_equal. replace (Z.to_nat (zlen l + zlen s - zlen l)) with (length s)
    by (unfold zlen; lia).
  replace (Z.to_nat (zlen l)) with (length l) by (unfold zlen; lia).
  by rewrite drop_app_length, take_app_length.
Qed.

Lemma slice_get_prefix {A} (s r : list A) b :
  b = zlen s → slice_get (s ++ r) 0 b = Some s.
Proof. intros ->. by apply (slice_get_app [] s r). Qed.

(** ** Network byte order *)

(** [uN::from_be_bytes] *)
Definition be_val (l : bytes) : Z := foldl (λ acc b, acc * 256 + u8 b) 0 l.

(** [x.to_be_bytes()] of a width of [n] bytes. *)
Fixpoint be_bytes (n : nat) (z : Z) : bytes :=
  match n with
  | O => []
  | S n => be_bytes n (z / 256) ++ [b8 z]
  end.

Lemma length_be_bytes n z : length (be_bytes n z) = n.
Proof. revert z; induction n; intros; simpl; [done|]. rewrite length_app, IHn. simpl. lia. Qed.

Lemma zlen_be_bytes n z : zlen (be_bytes n z) = Z.of_nat n.
Proof. unfold zlen. by rewrite length_be_bytes. Qed.

Lemma be_val_snoc l b : be_val (l ++ [b]) = be_val l * 256 + u8 b.
Proof. unfold be_val. by rewrite foldl_app. Qed.

Lemma be_val_be_bytes n z : be_val (be_bytes n z) = z mod 256 ^ Z.of_nat n.
Proof.
  revert z; induction n as [|n IH]; intros z; simpl.
  { by rewrite Z.mod_1_r. }
  rewrite be_val_snoc, IH, u8_b8, Nat2Z.inj_succ, Z.pow_succ_r by lia.
  rewrite (Z.rem_mul_r z 256 (256 ^ Z.of_nat n)); lia.
Qed.

Lemma be_val_small n z :
  0 ≤ z < 256 ^ Z.of_nat n → be_val (be_bytes n z) = z.
Proof. intros. rewrite be_val_be_bytes. by apply Z.mod_small. Qed.

Lemma be_val_range l : 0 ≤ be_val l < 256 ^ zlen l.
Proof.
  induction l as [|b l IH] using rev_ind; [done|].
  rewrite be_val_snoc, zlen_app. change (zlen [b]) with 1.
  rewrite Z.pow_add_r by (pose proof (zlen_nonneg l); lia).
  pose proof (u8_range b). change (256 ^ 1) with 256. nia.
Qed.

Lemma be_bytes_be_val l : be_bytes (length l) (be_val l) = l.
Proof.
  induction l as [|b l IH] using rev_ind; [done|].
  rewrite length_app, be_val_snoc, Nat.add_comm. simpl.
  pose proof (u8_range b).
  replace ((be_val l * 256 + u8 b) / 256) with (be_val l).
  2: { apply Z.div_unique with (u8 b); lia. }
  rewrite IH. f_equal. f_equal. apply u8_inj. rewrite u8_b8.
  rewrite Z.add_comm, Z.mod_add by lia. by apply Z.mod_small.
Qed.

Lemma be_bytes_be_val_n n l : length l = n → be_bytes n (be_val l) = l.
Proof. intros <-. apply be_bytes_be_val. Qed.

#[global] Arguments be_bytes : simpl never.
#[global] Arguments zlen : simpl never.
#[global] Arguments slice_get : simpl never.
#[global] Arguments checked_add : simpl never.
#[global] Arguments try_into_max : simpl never.
#[global] Arguments be_val : simpl never.
#[global] Arguments b8 : simpl never.
#[global] Arguments u8 : simpl never.
#[global] Arguments sub : simpl never.
#[global] Arguments byte_at : simpl never.

(** ** Sums over lists *)

Definition zsum {A} (f : A → Z) (l : list A) : Z := foldr (λ x acc, f x + acc) 0 l.

Lemma NoDup_fmap_same {A B} (f : A → B) (l : list A) x y :
  NoDup (f <$> l) → x ∈ l → y ∈ l → f x = f y → x = y.
Proof.
  intros Hd [i Hi]%list_elem_of_lookup [j Hj]%list_elem_of_lookup Heq.
  assert (i = j) as ->; [|congruence].
  eapply (NoDup_lookup _ _ _ (f x) Hd); rewrite list_lookup_fmap; [by rewrite Hi|]. by rewrite Hj, Heq.
Qed.

Lemma zsum_app {A} (f : A → Z) l k : zsum f (l ++ k) = zsum f l + zsum f k.
Proof. induction l; simpl in *; lia. Qed.

Lemma zsum_insert {A} (f : A → Z) l i x y :
  l !! i = Some x → zsum f (<[i := y]> l) = zsum f l - f x + f y.
Proof.
  revert i. induction l as [|z l IH]; intros [|i] H; simplify_eq/=; [lia|].
  rewrite (IH i) by done. lia.
Qed.

Lemma zsum_nonneg {A} (f : A → Z) l : (∀ x, x ∈ l → 0 ≤ f x) → 0 ≤ zsum f l.
Proof.
  induction l as [|z l IH]; intros H; simpl; [lia|].
  pose proof (H z ltac:(set_solver)). assert (0 ≤ zsum f l); [|lia].
  apply IH. set_solver.
Qed.

Lemma zsum_elem_le {A} (f : A → Z) l i x :
  (∀ x, x ∈ l → 0 ≤ f x) → l !! i = Some x → f x ≤ zsum f l.
Proof.
  intros H Hi. rewrite <- (take_drop_middle l i x Hi), zsum_app. simpl.
  assert (0 ≤ zsum f (take i l)).
  { apply zsum_nonneg. intros y Hy. apply H. rewrite <- (take_drop i l). set_solver. }
  assert (0 ≤ zsum f (drop (S i) l)); [|lia].
  apply zsum_nonneg. intros y Hy. apply H. rewrite <- (take_drop (S i) l). set_solver.
Qed.

(** [s.as_bytes()] *)
Definition as_bytes (s : string) : bytes := String.list_byte_of_string s.

(** * Automation *)

Create HintDb bridge discriminated.
#[export] Hint Rewrite @zlen_nil @zlen_cons @zlen_app zlen_be_bytes : bridge.
#[export] Hint Resolve zlen_nonneg u8_range : bridge.

(** Splits a hypothesis that a computation with [?] returned [Ok]. *)
Ltac inv_ok :=
  repeat match goal with
  | H : (_ ≫= _) = Ok _ |- _ => apply bind_Ok in H as (? & ? & ?)
  | H : map_err _ _ = Ok _ |- _ => apply map_err_Ok in H
  | H : ok_or _ _ = Ok _ |- _ => apply ok_or_Ok in H
  | H : guard_err _ _ = Ok _ |- _ => apply guard_err_Ok in H
  | H : try_into_max _ _ = Some _ |- _ => apply try_into_max_Some in H as [-> H]
  | H : checked_add _ _ = Some _ |- _ => apply checked_add_Some in H as [-> H]
  | H : Ok _ = Ok _ |- _ => injection H as H; subst
  | H : Err _ = Ok _ |- _ => discriminate H
  | H : (if ?b then Err _ else _) = Ok _ |- _ =>
      let E := fresh "E" in destruct b eqn:E; [discriminate H|]
  end.

(** Computes [sub] and [byte_at] at constant offsets of a concatenation of
    pieces of constant lengths. *)
Ltac slice_pieces :=
  repeat first
    [ rewrite byte_at_here
    | rewrite sub_here by (rewrite ?length_be_bytes; simpl; lia)
    | rewrite sub_all by (rewrite ?length_be_bytes; simpl; lia)
    | erewrite sub_skip by
        first [ eapply length_be_bytes | eassumption | reflexivity
              | rewrite ?length_be_bytes; simpl; lia ]; cbn [Nat.sub]
    | erewrite byte_at_skip by
        first [ eapply length_be_bytes | eassumption | reflexivity
              | rewrite ?length_be_bytes; simpl; lia ]; cbn [Nat.sub] ].

(** Proves a closed decidable proposition by evaluation. *)
Ltac by_decide := apply (bool_decide_unpack _); vm_compute; exact I.

(** Turns boolean comparisons in hypotheses into propositions. *)
Ltac bool_to_prop :=
  repeat match goal with
  | H : andb _ _ = true |- _ => apply andb_prop in H as [? ?]
  | H : orb _ _ = false |- _ => apply orb_false_iff in H as [? ?]
  | H : negb _ = true |- _ => apply negb_true_iff in H
  | H : negb _ = false |- _ => apply negb_false_iff in H
  | H : (_ <=? _) = true |- _ => apply Z.leb_le in H
  | H : (_ <=? _) = false |- _ => apply Z.leb_gt in H
  | H : (_ <? _) = true |- _ => apply Z.ltb_lt in H
  | H : (_ <? _) = false |- _ => apply Z.ltb_ge in H
  | H : (_ =? _) = true |- _ => apply Z.eqb_eq in H
  | H : (_ =? _) = false |- _ => apply Z.eqb_neq in H
  end.
