(* ===== verification/OrdMap.v ===== *)
(** Rust's ordered collections: the [Ord] trait as a class of total orders and
    [BTreeMap]/[BTreeSet] as association lists kept strictly sorted by key, with
    the operations the crates use. Iteration order is the list order. *)
From Stdlib Require Export Sorted.
From S2P Require Import Prelude.

(** * The [Ord] trait *)

Class Ord (K : Type) : Type := cmp : K → K → comparison.

Class OrdLaws (K : Type) `{!Ord K} : Prop := {
  cmp_eq_iff : ∀ a b, cmp a b = Eq ↔ a = b;
  cmp_antisym : ∀ a b, cmp b a = CompOpp (cmp a b);
  cmp_lt_trans : ∀ a b c, cmp a b = Lt → cmp b c = Lt → cmp a c = Lt;
}.

#[export] Instance Z_ord : Ord Z := Z.compare.
#[export] Instance byte_ord : Ord byte := λ a b, Z.compare (u8 a) (u8 b).

(** Slices and strings compare lexicographically. *)
Fixpoint lex_cmp {K} `{!Ord K} (l k : list K) : comparison :=
  match l, k with
  | [], [] => Eq
  | [], _ :: _ => Lt
  | _ :: _, [] => Gt
  | x :: l, y :: k => match cmp x y with Eq => lex_cmp l k | c => c end
  end.
#[export] Instance list_ord {K} `{!Ord K} : Ord (list K) := lex_cmp.
#[export] Instance string_ord : Ord string := λ s t, lex_cmp (as_bytes s) (as_bytes t).

#[export] Instance Z_ord_laws : OrdLaws Z.
Proof.
  split; unfold cmp, Z_ord.
  - apply Z.compare_eq_iff.
  - intros. apply Z.compare_antisym.
  - intros a b c. rewrite !Z.compare_lt_iff. lia.
Qed.

#[export] Instance byte_ord_laws : OrdLaws byte.
Proof.
  split; unfold cmp, byte_ord.
  - intros a b. rewrite Z.compare_eq_iff. split; [apply u8_inj|by intros ->].
  - intros. apply Z.compare_antisym.
  - intros a b c. rewrite !Z.compare_lt_iff. lia.
Qed.

Lemma cmp_refl {K} `{OrdLaws K} (a : K) : cmp a a = Eq.
Proof. by apply cmp_eq_iff. Qed.

Lemma cmp_gt_lt {K} `{OrdLaws K} (a b : K) : cmp a b = Gt ↔ cmp b a = Lt.
Proof. rewrite (cmp_antisym a b). destruct (cmp a b); naive_solver. Qed.

Lemma cmp_lt_irrefl {K} `{OrdLaws K} (a : K) : cmp a a ≠ Lt.
Proof. by rewrite cmp_refl. Qed.

#[export] Instance list_ord_laws {K} `{OrdLaws K} : OrdLaws (list K).
Proof.
  split; unfold cmp, list_ord.
  - induction a as [|x a IH]; intros [|y b]; simpl; [done..|].
    destruct (cmp x y) eqn:E.
    + apply cmp_eq_iff in E as ->. rewrite IH. naive_solver.
    + split; [done|]. intros [= -> ->]. by rewrite cmp_refl in E.
    + split; [done|]. intros [= -> ->]. by rewrite cmp_refl in E.
  - induction a as [|x a IH]; intros [|y b]; simpl; [done..|].
    rewrite (cmp_antisym x y). destruct (cmp x y); simpl; auto.
  - induction a as [|x a IH]; intros [|y b] [|z c]; simpl; try done.
    destruct (cmp x y) eqn:E1; try done; destruct (cmp y z) eqn:E2; try done;
      try apply cmp_eq_iff in E1; try apply cmp_eq_iff in E2; subst; intros.
    + rewrite cmp_refl. eauto.
    + by match goal with E : cmp _ _ = Lt |- _ => rewrite E end.
    + by match goal with E : cmp _ _ = Lt |- _ => rewrite E end.
    + by rewrite (cmp_lt_trans x y z).
Qed.

Lemma as_bytes_inj s t : as_bytes s = as_bytes t → s = t.
Proof.
  unfold as_bytes. intros E. rewrite <- (String.string_of_list_byte_of_string s).
  by rewrite E, String.string_of_list_byte_of_string.
Qed.

#[export] Instance string_ord_laws : OrdLaws string.
Proof.
  split; unfold cmp, string_ord; intros.
  - etransitivity; [apply (cmp_eq_iff (as_bytes a) (as_bytes b))|]. split; [apply as_bytes_inj|by intros ->].
  - apply (cmp_antisym (as_bytes a) (as_bytes b)).
  - by eapply (cmp_lt_trans (as_bytes a) (as_bytes b)).
Qed.

(** Pairs compare lexicographically, as [Ordering::then_with] chains do. *)
#[export] Instance prod_ord {A B} `{!Ord A, !Ord B} : Ord (A * B) := λ p q,
  match cmp p.1 q.1 with Eq => cmp p.2 q.2 | c => c end.

Lemma prod_cmp {A B} `{!Ord A, !Ord B} (a a' : A) (b b' : B) :
  cmp (a, b) (a', b') = match cmp a a' with Eq => cmp b b' | c => c end.
Proof. done. Qed.

#[export] Instance prod_ord_laws {A B} `{OrdLaws A, OrdLaws B} : OrdLaws (A * B).
Proof.
  split.
  - intros [a b] [a' b']. rewrite prod_cmp. destruct (cmp a a') eqn:E.
    + apply cmp_eq_iff in E as ->. rewrite cmp_eq_iff. naive_solver.
    + split; [done|]. intros [= -> ->]. by rewrite cmp_refl in E.
    + split; [done|]. intros [= -> ->]. by rewrite cmp_refl in E.
  - intros [a b] [a' b']. rewrite !prod_cmp, (cmp_antisym a a').
    destruct (cmp a a'); simpl; auto using cmp_antisym.
  - intros [a b] [a' b'] [a2 b2]. rewrite !prod_cmp.
    destruct (cmp a a') eqn:E1; try done; destruct (cmp a' a2) eqn:E2; try done;
      try apply cmp_eq_iff in E1; try apply cmp_eq_iff in E2; subst; intros.
    + rewrite cmp_refl. by eapply cmp_lt_trans.
    + by match goal with E : cmp _ _ = Lt |- _ => rewrite E end.
    + by match goal with E : cmp _ _ = Lt |- _ => rewrite E end.
    + by rewrite (cmp_lt_trans a a' a2).
Qed.

(** An order pulled back along an injection. *)
Lemma ord_laws_inj {A B} `{!Ord A} `{OrdLaws B} (f : A → B) :
  (∀ x y, f x = f y → x = y) → (∀ x y : A, cmp x y = cmp (f x) (f y)) → OrdLaws A.
Proof.
  intros Hinj Hcmp. split; intros *; rewrite ?Hcmp.
  - rewrite cmp_eq_iff. split; [apply Hinj|by intros ->].
  - apply cmp_antisym.
  - apply cmp_lt_trans.
Qed.

(** * [BTreeMap] *)

Section BTreeMap.
Context {K V : Type} `{!Ord K}.

(** [map.get(&key)] *)
Fixpoint bt_get (k : K) (m : list (K * V)) : option V :=
  match m with
  | [] => None
  | (k', v) :: m =>
      match cmp k k' with Eq => Some v | Lt => None | Gt => bt_get k m end
  end.

(** [map.insert(key, value)] *)
Fixpoint bt_insert (k : K) (v : V) (m : list (K * V)) : list (K * V) :=
  match m with
  | [] => [(k, v)]
  | (k', v') :: m' =>
      match cmp k k' with
      | Lt => (k, v) :: m
      | Eq => (k, v) :: m'
      | Gt => (k', v') :: bt_insert k v m'
      end
  end.

(** [map.contains_key(&key)] *)
Definition bt_contains (k : K) (m : list (K * V)) : bool :=
  match bt_get k m with Some _ => true | None => false end.

Definition key_lt (p q : K * V) : Prop := cmp p.1 q.1 = Lt.

(** The representation invariant. *)
Definition bt_sorted (m : list (K * V)) : Prop := StronglySorted key_lt m.

Context `{!OrdLaws K}.

Lemma bt_sorted_cons p m : bt_sorted (p :: m) ↔ Forall (key_lt p) m ∧ bt_sorted m.
Proof. split; [inversion 1; subst; auto|intros []; by constructor]. Qed.

Lemma bt_get_below k m : Forall (λ q, cmp k q.1 = Lt) m → bt_get k m = None.
Proof. destruct 1 as [|[k' v] m Hk]; simpl in *; [done|]. by rewrite Hk. Qed.

Lemma key_lt_below k p m :
  cmp k p.1 = Lt → Forall (key_lt p) m → Forall (λ q, cmp k q.1 = Lt) m.
Proof. intros Hk Hf. eapply Forall_impl; [done|]. intros q. by apply cmp_lt_trans. Qed.

Lemma bt_get_elem k v m : bt_sorted m → bt_get k m = Some v ↔ (k, v) ∈ m.
Proof.
  induction m as [|[k' v'] m IH]; intros Hm; simpl; [set_solver|].
  apply bt_sorted_cons in Hm as [Hlt Hm]. rewrite elem_of_cons.
  destruct (cmp k k') eqn:E.
  - apply cmp_eq_iff in E as ->. split; [naive_solver|].
    intros [[= ->]|Hin]; [done|]. rewrite Forall_forall in Hlt.
    apply Hlt in Hin. by apply cmp_lt_irrefl in Hin.
  - split; [done|]. intros [[= -> ->]|Hin]; [by apply cmp_lt_irrefl in E|].
    rewrite Forall_forall in Hlt. apply Hlt in Hin. unfold key_lt in Hin. simpl in Hin.
    rewrite cmp_antisym, E in Hin. done.
  - rewrite (IH Hm). split; [by right|]. intros [[= -> ->]|]; [|done].
    by rewrite cmp_refl in E.
Qed.

Lemma bt_insert_Forall (P : K * V → Prop) k v m :
  P (k, v) → Forall P m → Forall P (bt_insert k v m).
Proof.
  intros Hp. induction 1 as [|[k' v'] m Hq Hm IH]; simpl; [auto|].
  destruct (cmp k k'); auto.
Qed.

Lemma bt_insert_sorted k v m : bt_sorted m → bt_sorted (bt_insert k v m).
Proof.
  induction m as [|[k' v'] m IH]; intros Hm; simpl.
  { apply bt_sorted_cons. split; [done|constructor]. }
  pose proof Hm as [Hlt Hm']%bt_sorted_cons. destruct (cmp k k') eqn:E.
  - apply cmp_eq_iff in E as ->. apply bt_sorted_cons. auto.
  - apply bt_sorted_cons. split; [|done]. constructor; [done|].
    by eapply (key_lt_below k (k', v')).
  - apply bt_sorted_cons. split; [|auto]. apply bt_insert_Forall; [|done].
    by apply cmp_gt_lt.
Qed.

Lemma bt_get_insert_eq k v m : bt_get k (bt_insert k v m) = Some v.
Proof.
  induction m as [|[k' v'] m IH]; simpl; [by rewrite cmp_refl|].
  destruct (cmp k k') eqn:E; simpl; [by rewrite cmp_refl..|by rewrite E].
Qed.

Lemma bt_get_insert_ne k k' v m :
  bt_sorted m → k ≠ k' → bt_get k (bt_insert k' v m) = bt_get k m.
Proof.
  intros Hm Hne. induction m as [|[k2 v2] m IH]; simpl.
  { destruct (cmp k k') eqn:E; try done. by apply cmp_eq_iff in E. }
  apply bt_sorted_cons in Hm as [Hlt Hm].
  destruct (cmp k' k2) eqn:E2; simpl.
  - apply cmp_eq_iff in E2 as ->.
    destruct (cmp k k2) eqn:E; try done. by apply cmp_eq_iff in E.
  - destruct (cmp k k') eqn:E; [by apply cmp_eq_iff in E| |done].
    by rewrite (cmp_lt_trans k k' k2).
  - destruct (cmp k k2); auto.
Qed.

(** Inserting above every key appends: the case of a canonical decoder. *)
Lemma bt_insert_snoc k v m :
  Forall (λ q, cmp q.1 k = Lt) m → bt_insert k v m = m ++ [(k, v)].
Proof.
  induction 1 as [|[k' v'] m Hk Hm IH]; simpl in *; [done|].
  apply cmp_gt_lt in Hk as ->. by rewrite IH.
Qed.

Lemma bt_get_above k m : Forall (λ q, cmp q.1 k = Lt) m → bt_get k m = None.
Proof.
  induction 1 as [|[k' v'] m Hk Hm IH]; simpl in *; [done|].
  by apply cmp_gt_lt in Hk as ->.
Qed.

Lemma bt_sorted_snoc k v m :
  bt_sorted (m ++ [(k, v)]) ↔ bt_sorted m ∧ Forall (λ q, cmp q.1 k = Lt) m.
Proof.
  induction m as [|p m IH]; simpl.
  { split; intros _; [split; constructor|].
    apply bt_sorted_cons. split; constructor. }
  rewrite !bt_sorted_cons, IH, Forall_app, !Forall_cons. unfold key_lt. simpl. naive_solver.
Qed.

Lemma bt_ext m1 m2 :
  bt_sorted m1 → bt_sorted m2 → (∀ k, bt_get k m1 = bt_get k m2) → m1 = m2.
Proof.
  revert m2. induction m1 as [|[k v] m1 IH]; intros [|[k' v'] m2] H1 H2 Hget; simpl in *.
  - done.
  - specialize (Hget k'). by rewrite cmp_refl in Hget.
  - specialize (Hget k). by rewrite cmp_refl in Hget.
  - apply bt_sorted_cons in H1 as [Hl1 H1], H2 as [Hl2 H2].
    assert (k = k') as <-.
    { apply cmp_eq_iff. pose proof (Hget k) as Hk. pose proof (Hget k') as Hk'.
      rewrite cmp_refl in Hk, Hk'. rewrite (cmp_antisym k k') in Hk'.
      destruct (cmp k k') eqn:E; [done|discriminate|discriminate]. }
    pose proof (Hget k) as Hk. rewrite cmp_refl in Hk. simplify_eq.
    f_equal. apply IH; [done..|]. intros k2. specialize (Hget k2).
    destruct (cmp k2 k) eqn:E; [|by rewrite !bt_get_below by (by eapply (key_lt_below k2 (k, _)))|done].
    apply cmp_eq_iff in E as ->. by rewrite !bt_get_below by done.
Qed.

Lemma bt_elem_ext m1 m2 :
  bt_sorted m1 → bt_sorted m2 → (∀ p, p ∈ m1 ↔ p ∈ m2) → m1 = m2.
Proof.
  intros H1 H2 H. apply bt_ext; [done..|]. intros k. apply option_eq. intros v.
  by rewrite !bt_get_elem, H.
Qed.

(** An insertion that agrees with what the map has. *)
Lemma bt_insert_elem k v m p :
  bt_sorted m → (∀ v', bt_get k m = Some v' → v' = v) →
  p ∈ bt_insert k v m ↔ p = (k, v) ∨ p ∈ m.
Proof.
  intros Hm Hk. destruct p as [k' v'].
  rewrite <- (bt_get_elem k' v' (bt_insert k v m)) by by apply bt_insert_sorted.
  rewrite <- bt_get_elem by done. destruct (cmp k' k) eqn:E.
  1: { apply cmp_eq_iff in E as ->. rewrite bt_get_insert_eq. naive_solver. }
  all: assert (k' ≠ k) by (intros ->; by rewrite cmp_refl in E);
    rewrite bt_get_insert_ne by done; naive_solver.
Qed.

(** Inserting the entries of a map in order rebuilds it. *)
Lemma bt_rebuild m : bt_sorted m → foldl (λ m p, bt_insert p.1 p.2 m) [] m = m.
Proof.
  induction m as [|[k v] m IH] using rev_ind; intros Hm; [done|].
  apply bt_sorted_snoc in Hm as [Hm Hlt]. rewrite foldl_app. simpl. rewrite IH by done.
  by apply bt_insert_snoc.
Qed.

(** Collecting entries of one map, in any order and with repetitions, gives a
    map of those entries. *)
Lemma bt_collect_elem goal l m p :
  bt_sorted goal → (∀ q, q ∈ l → q ∈ goal) → (∀ q, q ∈ m → q ∈ goal) → bt_sorted m →
  p ∈ foldl (λ m q, bt_insert q.1 q.2 m) m l ↔ p ∈ l ∨ p ∈ m.
Proof.
  intros Hg. revert m. induction l as [|[k v] l IH]; intros m Hl Hm Hs; simpl; [set_solver|].
  assert (∀ v', bt_get k m = Some v' → v' = v) as Hk.
  { intros v' Hv'%bt_get_elem%Hm; [|done]. rewrite <- bt_get_elem in Hv' by done.
    assert ((k, v) ∈ goal) as Hv by (apply Hl; set_solver).
    rewrite <- bt_get_elem in Hv by done. congruence. }
  rewrite IH; [|set_solver| |by apply bt_insert_sorted].
  - rewrite bt_insert_elem by done. set_solver.
  - intros q. rewrite bt_insert_elem by done. set_solver.
Qed.

Lemma bt_collect_sorted l m :
  bt_sorted m → bt_sorted (foldl (λ m (q : K * V), bt_insert q.1 q.2 m) m l).
Proof.
  revert m. induction l as [|q l IH]; intros m Hm; [done|]. apply IH. by apply bt_insert_sorted.
Qed.

(** Collecting entries with distinct keys keeps them all. *)
Lemma bt_collect_distinct (l : list (K * V)) p :
  NoDup l.*1 → p ∈ foldl (λ m q, bt_insert q.1 q.2 m) [] l ↔ p ∈ l.
Proof.
  revert p. induction l as [|[k v] l IH] using rev_ind; intros p; [done|].
  rewrite fmap_app, foldl_app. intros (Hl & Hdis & _)%NoDup_app. simpl. rewrite bt_insert_elem.
  - rewrite IH by done. set_solver.
  - apply bt_collect_sorted. constructor.
  - intros v' Hv%bt_get_elem; [|apply bt_collect_sorted; constructor].
    apply IH in Hv; [|done]. destruct (Hdis k); [|set_solver].
    apply list_elem_of_fmap. by exists (k, v').
Qed.

Lemma bt_sorted_nodup m : bt_sorted m → NoDup m.*1.
Proof.
  induction 1 as [|p m Hm IH Hp]; simpl; constructor; [|done].
  intros (q & Hq & Hin)%list_elem_of_fmap. rewrite Forall_forall in Hp.
  apply Hp in Hin. unfold key_lt in Hin. rewrite Hq in Hin. by apply cmp_lt_irrefl in Hin.
Qed.
End BTreeMap.

(** Changing the values keeps the order. *)
Lemma bt_sorted_map {K V W} `{!Ord K} (f : V → W) (m : list (K * V)) :
  bt_sorted m → bt_sorted (map (λ p, (p.1, f p.2)) m).
Proof.
  induction 1 as [|p m Hm IH Hp]; simpl; constructor; [done|].
  apply Forall_map. eapply Forall_impl; [exact Hp|]. done.
Qed.

#[export] Hint Resolve bt_insert_sorted : bridge.

(** * [BTreeSet] *)

(** A set is a map to [unit], as in Rust's own implementation. *)
Definition btset (K : Type) : Type := list (K * unit).

Section BTreeSet.
Context {K : Type} `{!Ord K}.

(** [set.insert(key)] *)
Definition bs_insert (k : K) (s : btset K) : btset K := bt_insert k tt s.

(** [set.contains(&key)] *)
Definition bs_contains (k : K) (s : btset K) : bool := bt_contains k s.

(** [set.extend(keys)], and [collect] when the set is empty. *)
Definition bs_extend (keys : list K) (s : btset K) : btset K := foldl (flip bs_insert) s keys.

(** [set.iter()] *)
Definition bs_iter (s : btset K) : list K := s.*1.

Context `{!OrdLaws K}.

Lemma bs_iter_get k (s : btset K) : bt_sorted s → k ∈ bs_iter s ↔ bt_get k s = Some tt.
Proof.
  intros Hs. unfold bs_iter. rewrite list_elem_of_fmap, bt_get_elem by done. split.
  - intros ([? []] & -> & ?). done.
  - intros ?. by exists (k, tt).
Qed.

Lemma bs_contains_iter k (s : btset K) : bt_sorted s → bs_contains k s = true ↔ k ∈ bs_iter s.
Proof.
  intros Hs. rewrite bs_iter_get by done. unfold bs_contains, bt_contains.
  destruct (bt_get k s) as [[]|]; naive_solver.
Qed.

Lemma bs_insert_iter k k' (s : btset K) :
  bt_sorted s → k ∈ bs_iter (bs_insert k' s) ↔ k = k' ∨ k ∈ bs_iter s.
Proof.
  intros Hs. rewrite !bs_iter_get by eauto with bridge. unfold bs_insert.
  destruct (cmp k k') eqn:E.
  1: { apply cmp_eq_iff in E as ->. rewrite bt_get_insert_eq. naive_solver. }
  all: assert (k ≠ k') as Hne by (intros ->; by rewrite cmp_refl in E);
    rewrite bt_get_insert_ne by done; naive_solver.
Qed.

Lemma bs_insert_sorted k (s : btset K) : bt_sorted s → bt_sorted (bs_insert k s).
Proof. apply bt_insert_sorted. Qed.

Lemma bs_extend_sorted keys (s : btset K) : bt_sorted s → bt_sorted (bs_extend keys s).
Proof. revert s. induction keys; simpl; intros; eauto using bs_insert_sorted. Qed.

Lemma bs_extend_iter k keys (s : btset K) :
  bt_sorted s → k ∈ bs_iter (bs_extend keys s) ↔ k ∈ keys ∨ k ∈ bs_iter s.
Proof.
  revert s. induction keys as [|k' keys IH]; simpl; intros s Hs; [set_solver|].
  rewrite IH by by apply bs_insert_sorted. rewrite bs_insert_iter by done. set_solver.
Qed.

Lemma bs_ext (s1 s2 : btset K) :
  bt_sorted s1 → bt_sorted s2 → (∀ k, k ∈ bs_iter s1 ↔ k ∈ bs_iter s2) → s1 = s2.
Proof.
  intros H1 H2 H. apply bt_ext; [done..|]. intros k. specialize (H k).
  rewrite !bs_iter_get in H by done.
  destruct (bt_get k s1) as [[]|], (bt_get k s2) as [[]|]; naive_solver.
Qed.
End BTreeSet.

#[export] Hint Resolve bs_insert_sorted bs_extend_sorted : bridge.
