(* ===== verification/Text.v ===== *)
(** Texts: decimal and hexadecimal formatting as the crates use it, ASCII case,
    splitting and joining. *)
From Stdlib Require Import Ascii DecimalString DecimalZ.
From S2P Require Import Prelude.

(** [n.to_string()] of an integer. *)
Definition to_decimal (n : Z) : string := NilZero.string_of_int (Z.to_int n).

(** ** Characters *)

Definition nl : string := String (ascii_of_nat 10) "".
Definition quoted (s : string) : string :=
  String (ascii_of_nat 34) "" +:+ s +:+ String (ascii_of_nat 34) "".

Definition is_ascii_uppercase (c : ascii) : bool :=
  (65 <=? N_of_ascii c)%N && (N_of_ascii c <=? 90)%N.
Definition is_ascii_lowercase (c : ascii) : bool :=
  (97 <=? N_of_ascii c)%N && (N_of_ascii c <=? 122)%N.
Definition is_ascii_digit (c : ascii) : bool :=
  (48 <=? N_of_ascii c)%N && (N_of_ascii c <=? 57)%N.
Definition to_ascii_uppercase (c : ascii) : ascii :=
  if is_ascii_lowercase c then ascii_of_N (N_of_ascii c - 32) else c.
Definition to_ascii_lowercase (c : ascii) : ascii :=
  if is_ascii_uppercase c then ascii_of_N (N_of_ascii c + 32) else c.

(** [value.split(p)]; [part] is what was read of the current part. *)
Fixpoint split_by (p : ascii → bool) (part value : string) : list string :=
  match value with
  | EmptyString => [part]
  | String c value =>
      if p c then part :: split_by p "" value else split_by p (part +:+ String c "") value
  end.

(** ** Hexadecimal *)

(** Lower-case hexadecimal digits. *)
Definition DIGITS : string := "0123456789abcdef".
Definition hex_digit (n : Z) : ascii := default "0"%char (String.get (Z.to_nat n) DIGITS).

(** Two digits per byte, the high half first. *)
Fixpoint hex (bytes : bytes) : string :=
  match bytes with
  | [] => ""
  | byte :: bytes =>
      String (hex_digit (Z.shiftr (u8 byte) 4))
        (String (hex_digit (Z.land (u8 byte) 15)) (hex bytes))
  end.

Lemma hex_digit_inj a b : 0 <= a < 16 → 0 <= b < 16 → hex_digit a = hex_digit b → a = b.
Proof.
  intros Ha Hb. assert (∃ i j, (i < 16)%nat ∧ (j < 16)%nat ∧ a = Z.of_nat i ∧ b = Z.of_nat j)
    as (i & j & Hi & Hj & -> & ->) by (exists (Z.to_nat a), (Z.to_nat b); lia).
  unfold hex_digit. rewrite !Nat2Z.id. clear Ha Hb. intros H.
  do 16 (destruct i as [|i]; [do 16 (destruct j as [|j]; [done || discriminate H|]); lia|]). lia.
Qed.

Lemma hex_length l : String.length (hex l) = (2 * length l)%nat.
Proof. induction l as [|b l IH]; simpl; [done|]. rewrite IH. lia. Qed.

(** Formatting loses nothing. *)
Lemma hex_inj l k : hex l = hex k → l = k.
Proof.
  revert k. induction l as [|a l IH]; intros [|b k] H; simpl in H; try done.
  injection H as H1 H2 H3. apply IH in H3 as ->. f_equal. apply u8_inj.
  pose proof (u8_range a) as Ra. pose proof (u8_range b) as Rb.
  rewrite !Z.shiftr_div_pow2 in H1 by lia. change (2 ^ 4) with 16 in H1.
  change 15 with (Z.ones 4) in H2. rewrite !Z.land_ones in H2 by lia. change (2 ^ 4) with 16 in H2.
  apply hex_digit_inj in H1; [|split; [apply Z.div_pos; lia|apply Z.div_lt_upper_bound; lia]..].
  apply hex_digit_inj in H2; [|apply Z.mod_pos_bound; lia..].
  rewrite (Z_div_mod_eq_full (u8 a) 16), (Z_div_mod_eq_full (u8 b) 16). congruence.
Qed.

(** ** Concatenation *)

Lemma append_nil_r (s : string) : s +:+ "" = s.
Proof. induction s as [|c s IH]; [done|]. by apply (f_equal (String c)). Qed.

Lemma append_assoc (a b c : string) : a +:+ b +:+ c = (a +:+ b) +:+ c.
Proof. induction a as [|x a IH]; [done|]. by apply (f_equal (String x)). Qed.

(** Prefixes of one length are found again. *)
Lemma append_inj_length (a a' b b' : string) :
  String.length a = String.length a' → a +:+ b = a' +:+ b' → a = a' ∧ b = b'.
Proof.
  revert a'. induction a as [|c a IH]; intros [|c' a'] Hl H; simpl in *; try done.
  injection H as -> H. apply IH in H as [-> ->]; [done|lia].
Qed.
