(* ===== verification/Protocol.v ===== *)
(** Wire primitives of [crates/moonlight-bridge-protocol/src/lib.rs]: frame
    headers, handshake settings, trace contexts and error codes, with their
    encoders, decoders and round trips. *)
From S2P Require Import Prelude.

(** * Constants *)

Definition MAGIC : Z := 0x4D4C4252.
Definition VERSION : Z := 2.
Definition HEADER_LEN : Z := 24.
Definition DEFAULT_MAX_BODY_LEN : Z := 8 * 1024 * 1024.
Definition DEFAULT_MAX_IN_FLIGHT : Z := 256.
Definition COMPRESSION_CODEC_NONE : Z := 1.
Definition COMPRESSION_CODEC_ZSTD : Z := Z.shiftl 1 1.
Definition FLAG_HAS_METADATA : Z := 1.
Definition KNOWN_FLAGS : Z := FLAG_HAS_METADATA.
Definition TRACE_CONTEXT_LEN : Z := 25.

Definition FEATURE_DEADLINES : Z := 1.
Definition FEATURE_CANCELLATION : Z := Z.shiftl 1 1.
Definition FEATURE_HEARTBEAT : Z := Z.shiftl 1 2.
Definition FEATURE_TRACE_CONTEXT : Z := Z.shiftl 1 3.
Definition FEATURE_SERVER_EVENTS : Z := Z.shiftl 1 4.
Definition FEATURE_HEALTH : Z := Z.shiftl 1 5.
Definition FEATURE_SERVER_STREAMING : Z := Z.shiftl 1 6.
Definition SERVER_FEATURES : Z :=
  foldl Z.lor FEATURE_DEADLINES
    [FEATURE_CANCELLATION; FEATURE_HEARTBEAT; FEATURE_TRACE_CONTEXT;
     FEATURE_SERVER_EVENTS; FEATURE_HEALTH; FEATURE_SERVER_STREAMING].

(** * Errors *)

Inductive ProtocolError : Set :=
  | InvalidMagic (magic : Z)
  | UnsupportedVersion (version : byte)
  | UnknownKind (kind : byte)
  | UnsupportedFlags (flags : Z)
  | BodyTooLarge (len : Z)
  | InvalidSettingsLength (len : Z)
  | InvalidSettingsValue
  | InvalidTraceContextLength (len : Z)
  | InvalidTraceSampling (value : byte)
  | InvalidMetadataLength (announced available : Z)
  | MetadataTooLarge (len : Z)
  | MetadataValueTooLarge (len : Z)
  | TooManyMetadataEntries (count : Z)
  | InvalidMetadataEntryLength
  | DuplicateMetadataKey
  | NonCanonicalMetadataOrder
  | InvalidUserMetadataKey
  | UnknownCriticalMetadataKey (key : Z)
  | UnknownErrorCode (code : Z).

#[export] Instance ProtocolError_eq_dec : EqDecision ProtocolError.
Proof. solve_decision. Defined.

(** * Trace context *)

Record TraceContext : Set := {
  trace_id : bytes;
  parent_span_id : bytes;
  sampled : bool;
}.

(** The lengths of the array types [[u8; 16]] and [[u8; 8]]. *)
Definition TraceContext_wf (t : TraceContext) : Prop :=
  length (trace_id t) = 16%nat ∧ length (parent_span_id t) = 8%nat.

Definition TraceContext_encode_into (self : TraceContext) (output : bytes) : bytes :=
  output ++ trace_id self ++ parent_span_id self
    ++ [if sampled self then x01 else x00].

Definition TraceContext_decode (input : bytes) : result ProtocolError TraceContext :=
  if zlen input <? TRACE_CONTEXT_LEN then Err (InvalidTraceContextLength (zlen input))
  else
    sampled ← (match byte_at 24 input with
               | x00 => Ok false
               | x01 => Ok true
               | value => Err (InvalidTraceSampling value)
               end);
    Ok {| trace_id := sub 0 16 input;
          parent_span_id := sub 16 24 input;
          sampled := sampled |}.

(** * Frame kinds *)

Module FrameKind.
Inductive FrameKind : Set :=
  | Request | Response | Error | Hello | Welcome | Cancel | Ping | Pong | Goodbye
  | Health | HealthStatus | Event | StreamItem | StreamEnd | StreamCredit | GoAway.
End FrameKind.
Abbreviation FrameKind := FrameKind.FrameKind.

#[export] Instance FrameKind_eq_dec : EqDecision FrameKind.
Proof. solve_decision. Defined.

(** [kind as u8] *)
Definition FrameKind_as_u8 (k : FrameKind) : Z :=
  match k with
  | FrameKind.Request => 1
  | FrameKind.Response => 2
  | FrameKind.Error => 3
  | FrameKind.Hello => 16
  | FrameKind.Welcome => 17
  | FrameKind.Cancel => 18
  | FrameKind.Ping => 19
  | FrameKind.Pong => 20
  | FrameKind.Goodbye => 21
  | FrameKind.Health => 22
  | FrameKind.HealthStatus => 23
  | FrameKind.Event => 24
  | FrameKind.StreamItem => 25
  | FrameKind.StreamEnd => 26
  | FrameKind.StreamCredit => 27
  | FrameKind.GoAway => 28
  end.

Definition FrameKind_try_from (value : byte) : result ProtocolError FrameKind :=
  match u8 value with
  | 1 => Ok FrameKind.Request
  | 2 => Ok FrameKind.Response
  | 3 => Ok FrameKind.Error
  | 16 => Ok FrameKind.Hello
  | 17 => Ok FrameKind.Welcome
  | 18 => Ok FrameKind.Cancel
  | 19 => Ok FrameKind.Ping
  | 20 => Ok FrameKind.Pong
  | 21 => Ok FrameKind.Goodbye
  | 22 => Ok FrameKind.Health
  | 23 => Ok FrameKind.HealthStatus
  | 24 => Ok FrameKind.Event
  | 25 => Ok FrameKind.StreamItem
  | 26 => Ok FrameKind.StreamEnd
  | 27 => Ok FrameKind.StreamCredit
  | 28 => Ok FrameKind.GoAway
  | _ => Err (UnknownKind value)
  end.

(** * Frames *)

Record Frame : Set := {
  kind : FrameKind;
  flags : Z;
  method_id : Z;
  request_id : Z;
  body : bytes;
}.

#[export] Instance Frame_eq_dec : EqDecision Frame.
Proof. solve_decision. Defined.

(** The widths of the header fields: [u16], [u32] and [u64]. *)
Definition Frame_wf (f : Frame) : Prop :=
  0 ≤ flags f ≤ u16_max ∧ 0 ≤ method_id f ≤ u32_max ∧ 0 ≤ request_id f ≤ u64_max.

Definition Frame_new (kind : FrameKind) (method_id request_id : Z) (body : bytes) : Frame :=
  {| kind := kind; flags := 0; method_id := method_id;
     request_id := request_id; body := body |}.

Definition with_flags (self : Frame) (flags : Z) : Frame :=
  {| kind := kind self; flags := flags; method_id := method_id self;
     request_id := request_id self; body := body self |}.

(** [flags & !KNOWN_FLAGS != 0] *)
Definition has_unknown_flags (flags : Z) : bool :=
  negb (Z.land flags (Z.lxor u16_max KNOWN_FLAGS) =? 0).

Definition Frame_encode_into (self : Frame) (output : bytes) : result ProtocolError bytes :=
  if has_unknown_flags (flags self) then Err (UnsupportedFlags (flags self))
  else
    body_len ← ok_or (try_into_max u32_max (zlen (body self))) (BodyTooLarge u32_max);
    let output := output ++ be_bytes 4 MAGIC in
    let output := output ++ [b8 VERSION] in
    let output := output ++ [b8 (FrameKind_as_u8 (kind self))] in
    let output := output ++ be_bytes 2 (flags self) in
    let output := output ++ be_bytes 4 body_len in
    let output := output ++ be_bytes 4 (method_id self) in
    let output := output ++ be_bytes 8 (request_id self) in
    Ok (output ++ body self).

Definition Frame_encode (self : Frame) : result ProtocolError bytes :=
  Frame_encode_into self [].

Record DecodedHeader : Set := {
  dh_kind : FrameKind;
  dh_flags : Z;
  dh_body_len : Z;
  dh_method_id : Z;
  dh_request_id : Z;
}.

Definition decode_header (header : bytes) (max_body_len : Z) :
    result ProtocolError DecodedHeader :=
  let magic := be_val (sub 0 4 header) in
  if negb (magic =? MAGIC) then Err (InvalidMagic magic) else
  if negb (u8 (byte_at 4 header) =? VERSION)
  then Err (UnsupportedVersion (byte_at 4 header)) else
  kind ← FrameKind_try_from (byte_at 5 header);
  let flags := be_val (sub 6 8 header) in
  if has_unknown_flags flags then Err (UnsupportedFlags flags) else
  let body_len := be_val (sub 8 12 header) in
  if max_body_len <? body_len then Err (BodyTooLarge body_len) else
  Ok {| dh_kind := kind; dh_flags := flags; dh_body_len := body_len;
        dh_method_id := be_val (sub 12 16 header);
        dh_request_id := be_val (sub 16 24 header) |}.

(** * Handshake settings *)

Record PeerSettingsV2 : Set := {
  max_body_len : Z;
  max_decoded_body_len : Z;
  max_metadata_len : Z;
  max_in_flight : Z;
  max_concurrent_streams : Z;
  initial_stream_credit : Z;
  compression_codecs : Z;
  features : Z;
  diagnostic_features : Z;
}.

#[export] Instance PeerSettingsV2_eq_dec : EqDecision PeerSettingsV2.
Proof. solve_decision. Defined.

(** The seven [u32] and two [u64] fields. *)
Definition PeerSettingsV2_wf (s : PeerSettingsV2) : Prop :=
  Forall (λ x, 0 ≤ x ≤ u32_max)
    [max_body_len s; max_decoded_body_len s; max_metadata_len s; max_in_flight s;
     max_concurrent_streams s; initial_stream_credit s; compression_codecs s]
  ∧ Forall (λ x, 0 ≤ x ≤ u64_max) [features s; diagnostic_features s].

Definition SETTINGS_BODY_LEN : Z := 44.

Definition PeerSettingsV2_encode (self : PeerSettingsV2) : bytes :=
  let body := be_bytes 4 (max_body_len self) in
  let body := body ++ be_bytes 4 (max_decoded_body_len self) in
  let body := body ++ be_bytes 4 (max_metadata_len self) in
  let body := body ++ be_bytes 4 (max_in_flight self) in
  let body := body ++ be_bytes 4 (max_concurrent_streams self) in
  let body := body ++ be_bytes 4 (initial_stream_credit self) in
  let body := body ++ be_bytes 4 (compression_codecs self) in
  let body := body ++ be_bytes 8 (features self) in
  body ++ be_bytes 8 (diagnostic_features self).

(** The final check of [PeerSettingsV2::decode]: a zero safety limit or a
    missing mandatory codec. *)
Definition settings_invalid (s : PeerSettingsV2) : bool :=
  (max_body_len s =? 0) || (max_decoded_body_len s =? 0) || (max_metadata_len s =? 0)
  || (max_in_flight s =? 0) || (max_concurrent_streams s =? 0)
  || (initial_stream_credit s =? 0) || (Z.land (compression_codecs s) 1 =? 0).

Definition PeerSettingsV2_decode (body : bytes) : result ProtocolError PeerSettingsV2 :=
  if negb (zlen body =? SETTINGS_BODY_LEN) then Err (InvalidSettingsLength (zlen body))
  else
    let settings :=
      {| max_body_len := be_val (sub 0 4 body);
         max_decoded_body_len := be_val (sub 4 8 body);
         max_metadata_len := be_val (sub 8 12 body);
         max_in_flight := be_val (sub 12 16 body);
         max_concurrent_streams := be_val (sub 16 20 body);
         initial_stream_credit := be_val (sub 20 24 body);
         compression_codecs := be_val (sub 24 28 body);
         features := be_val (sub 28 36 body);
         diagnostic_features := be_val (sub 36 44 body) |} in
    if settings_invalid settings then Err InvalidSettingsValue else Ok settings.

Definition PeerSettingsV2_default : PeerSettingsV2 :=
  {| max_body_len := DEFAULT_MAX_BODY_LEN;
     max_decoded_body_len := 16 * 1024 * 1024;
     max_metadata_len := 16 * 1024;
     max_in_flight := DEFAULT_MAX_IN_FLIGHT;
     max_concurrent_streams := 64;
     initial_stream_credit := 32;
     compression_codecs := Z.lor COMPRESSION_CODEC_NONE COMPRESSION_CODEC_ZSTD;
     features := SERVER_FEATURES;
     diagnostic_features := 0 |}.

(** * Error codes *)

Module ErrorCode.
Inductive ErrorCode : Set :=
  | UnknownMethod | InvalidRequest | DeadlineExceeded | Cancelled | ResourceExhausted
  | Internal | Unauthenticated | PermissionDenied | Unavailable | CompressionFailure
  | ReplayGap | FailedPrecondition | UnsupportedProtocol.
End ErrorCode.
Abbreviation ErrorCode := ErrorCode.ErrorCode.

#[export] Instance ErrorCode_eq_dec : EqDecision ErrorCode.
Proof. solve_decision. Defined.

(** [code as u16] *)
Definition ErrorCode_as_u16 (c : ErrorCode) : Z :=
  match c with
  | ErrorCode.UnknownMethod => 1
  | ErrorCode.InvalidRequest => 2
  | ErrorCode.DeadlineExceeded => 3
  | ErrorCode.Cancelled => 4
  | ErrorCode.ResourceExhausted => 5
  | ErrorCode.Internal => 6
  | ErrorCode.Unauthenticated => 7
  | ErrorCode.PermissionDenied => 8
  | ErrorCode.Unavailable => 9
  | ErrorCode.CompressionFailure => 10
  | ErrorCode.ReplayGap => 11
  | ErrorCode.FailedPrecondition => 12
  | ErrorCode.UnsupportedProtocol => 13
  end.

Definition ErrorCode_try_from (value : Z) : result ProtocolError ErrorCode :=
  match value with
  | 1 => Ok ErrorCode.UnknownMethod
  | 2 => Ok ErrorCode.InvalidRequest
  | 3 => Ok ErrorCode.DeadlineExceeded
  | 4 => Ok ErrorCode.Cancelled
  | 5 => Ok ErrorCode.ResourceExhausted
  | 6 => Ok ErrorCode.Internal
  | 7 => Ok ErrorCode.Unauthenticated
  | 8 => Ok ErrorCode.PermissionDenied
  | 9 => Ok ErrorCode.Unavailable
  | 10 => Ok ErrorCode.CompressionFailure
  | 11 => Ok ErrorCode.ReplayGap
  | 12 => Ok ErrorCode.FailedPrecondition
  | 13 => Ok ErrorCode.UnsupportedProtocol
  | other => Err (UnknownErrorCode other)
  end.

(** [message] is given by its UTF-8 bytes. *)
Definition ErrorCode_encode (self : ErrorCode) (message : bytes) : bytes :=
  be_bytes 2 (ErrorCode_as_u16 self) ++ message.

(** * Lemmas *)

Lemma FrameKind_as_u8_range k : 0 ≤ FrameKind_as_u8 k < 256.
Proof. by destruct k. Qed.

Lemma u8_b8_kind k : u8 (b8 (FrameKind_as_u8 k)) = FrameKind_as_u8 k.
Proof. by destruct k. Qed.

Lemma FrameKind_try_from_as k : FrameKind_try_from (b8 (FrameKind_as_u8 k)) = Ok k.
Proof. by destruct k. Qed.

Lemma FrameKind_try_from_Ok b k :
  FrameKind_try_from b = Ok k → b = b8 (FrameKind_as_u8 k).
Proof. destruct b; intros [= <-]; done. Qed.

Lemma has_unknown_flags_false z :
  0 ≤ z ≤ u16_max → has_unknown_flags z = false ↔ z = 0 ∨ z = 1.
Proof.
  intros Hz. unfold has_unknown_flags. split; [|by intros [->| ->]].
  intros H%negb_false_iff%Z.eqb_eq. unfold u16_max in Hz.
  assert (z = Z.land z 1) as Hland.
  { apply Z.bits_inj'. intros n Hn. rewrite Z.land_spec.
    destruct (decide (n = 0)) as [->|Hn0]; [by rewrite andb_true_r|].
    rewrite (Z.bits_above_log2 1 n), andb_false_r by (simpl; lia).
    destruct (decide (n < 16)).
    - apply (f_equal (λ x, Z.testbit x n)) in H.
      rewrite Z.land_spec, Z.bits_0 in H. apply andb_false_iff in H as [H|H]; [done|].
      assert (n ∈ seqZ 1 15) as Hin by (apply elem_of_seqZ; lia).
      repeat (apply elem_of_cons in Hin as [->|Hin]; [discriminate|]). set_solver.
    - destruct (decide (z = 0)) as [->|]; [apply Z.bits_0|].
      apply Z.bits_above_log2; [lia|]. apply Z.log2_lt_pow2; [lia|].
      apply Z.lt_le_trans with (2 ^ 16); [lia|]. apply Z.pow_le_mono_r; lia. }
  change 1 with (Z.ones 1) in Hland. rewrite Z.land_ones in Hland by lia.
  pose proof (Z.mod_pos_bound z (2 ^ 1) ltac:(lia)). change (2 ^ 1) with 2 in *. lia.
Qed.

(** The header that [Frame_encode_into] writes. *)
Definition header_of (f : Frame) : DecodedHeader :=
  {| dh_kind := kind f; dh_flags := flags f; dh_body_len := zlen (body f);
     dh_method_id := method_id f; dh_request_id := request_id f |}.

Definition header_bytes (d : DecodedHeader) : bytes :=
  be_bytes 4 MAGIC ++ [b8 VERSION] ++ [b8 (FrameKind_as_u8 (dh_kind d))]
  ++ be_bytes 2 (dh_flags d) ++ be_bytes 4 (dh_body_len d)
  ++ be_bytes 4 (dh_method_id d) ++ be_bytes 8 (dh_request_id d).

Definition DecodedHeader_wf (d : DecodedHeader) : Prop :=
  (dh_flags d = 0 ∨ dh_flags d = 1) ∧ 0 ≤ dh_body_len d ≤ u32_max
  ∧ 0 ≤ dh_method_id d ≤ u32_max ∧ 0 ≤ dh_request_id d ≤ u64_max.

Lemma length_header_bytes d : length (header_bytes d) = 24%nat.
Proof. unfold header_bytes. by rewrite !length_app, !length_be_bytes. Qed.

Lemma Frame_encode_into_Ok f output :
  has_unknown_flags (flags f) = false → zlen (body f) ≤ u32_max →
  Frame_encode_into f output = Ok (output ++ header_bytes (header_of f) ++ body f).
Proof.
  intros Hf Hl. unfold Frame_encode_into, try_into_max. rewrite Hf.
  apply Z.leb_le in Hl as ->. cbn. unfold header_bytes. f_equal. by rewrite <- !app_assoc.
Qed.

Lemma Frame_encode_into_inv f output out :
  Frame_encode_into f output = Ok out →
  has_unknown_flags (flags f) = false ∧ zlen (body f) ≤ u32_max
  ∧ out = output ++ header_bytes (header_of f) ++ body f.
Proof.
  intros H. pose proof H as H'. unfold Frame_encode_into in H.
  inv_ok.
  rewrite Frame_encode_into_Ok in H' by done. by simplify_eq.
Qed.

Lemma decode_header_bytes d max :
  DecodedHeader_wf d → dh_body_len d ≤ max →
  decode_header (header_bytes d) max = Ok d.
Proof.
  destruct d as [k fl len mid rid]. intros (Hf & Hl & Hm & Hr) Hmax. simpl in *.
  unfold decode_header, header_bytes. cbn [dh_kind dh_flags dh_body_len dh_method_id dh_request_id].
  slice_pieces. unfold u32_max, u64_max in *.
  rewrite !be_val_small by (first [lia | by vm_compute]).
  assert (has_unknown_flags fl = false) as -> by (by destruct Hf as [->| ->]).
  change (negb (MAGIC =? MAGIC)) with false.
  change (negb (u8 (b8 VERSION) =? VERSION)) with false.
  rewrite FrameKind_try_from_as. simpl. apply Z.ltb_ge in Hmax as ->. done.
Qed.

Lemma decode_header_inv h max d :
  length h = 24%nat → decode_header h max = Ok d →
  h = header_bytes d ∧ DecodedHeader_wf d ∧ dh_body_len d ≤ max.
Proof.
  intros Hlen H. unfold decode_header in H. inv_ok. bool_to_prop.
  match goal with H : FrameKind_try_from _ = _ |- _ => apply FrameKind_try_from_Ok in H end.
  assert (∀ a b n, (a ≤ b ≤ 24)%nat → (b - a = n)%nat →
    0 ≤ be_val (sub a b h) < 256 ^ Z.of_nat n) as Hr.
  { intros a b n ? <-. pose proof (be_val_range (sub a b h)) as Hb.
    unfold zlen in Hb. by rewrite length_sub in Hb by lia. }
  assert (∀ a b n, (a ≤ b ≤ 24)%nat → (b - a = n)%nat →
    be_bytes n (be_val (sub a b h)) = sub a b h) as Hb.
  { intros a b n ? <-. apply be_bytes_be_val_n, length_sub. lia. }
  split; [|split; [|done]].
  - unfold header_bytes.
    cbn [dh_kind dh_flags dh_body_len dh_method_id dh_request_id]. rewrite !Hb by lia.
    match goal with H : be_val _ = MAGIC |- _ => rewrite <- H end. rewrite Hb by lia.
    match goal with H : u8 _ = VERSION |- _ => rewrite <- H end. rewrite b8_u8.
    match goal with H : byte_at 5 h = _ |- _ => rewrite <- H end.
    rewrite <- !sub_byte_at by lia.
    rewrite <- !sub_split by lia. symmetry. apply sub_all. done.
  - unfold DecodedHeader_wf, u32_max, u64_max. simpl.
    pose proof (Hr 6 8 2)%nat. pose proof (Hr 8 12 4)%nat.
    pose proof (Hr 12 16 4)%nat. pose proof (Hr 16 24 8)%nat.
    rewrite has_unknown_flags_false in * by (unfold u16_max; lia). lia.
Qed.

(** The slices of a buffer, re-encoded at their width, are the slices. *)
Lemma be_bytes_sub a b n (l : bytes) :
  (a ≤ b ≤ length l)%nat → (b - a = n)%nat →
  be_bytes n (be_val (sub a b l)) = sub a b l.
Proof. intros ? <-. apply be_bytes_be_val_n, length_sub. lia. Qed.

Lemma be_val_sub_range a b n (l : bytes) :
  (a ≤ b ≤ length l)%nat → (b - a = n)%nat →
  0 ≤ be_val (sub a b l) ≤ 256 ^ Z.of_nat n - 1.
Proof.
  intros ? <-. pose proof (be_val_range (sub a b l)) as Hb.
  unfold zlen in Hb. rewrite length_sub in Hb by lia. lia.
Qed.

Lemma ErrorCode_try_from_as c : ErrorCode_try_from (ErrorCode_as_u16 c) = Ok c.
Proof. by destruct c. Qed.

Lemma length_PeerSettingsV2_encode s : length (PeerSettingsV2_encode s) = 44%nat.
Proof. unfold PeerSettingsV2_encode. by rewrite !length_app, !length_be_bytes. Qed.

Lemma PeerSettingsV2_decode_encode s :
  PeerSettingsV2_wf s → settings_invalid s = false →
  PeerSettingsV2_decode (PeerSettingsV2_encode s) = Ok s.
Proof.
  destruct s as [f1 f2 f3 f4 f5 f6 f7 f8 f9]. intros [H32 H64] Hinv.
  decompose_Forall_hyps.
  unfold PeerSettingsV2_decode. unfold zlen at 1. rewrite length_PeerSettingsV2_encode.
  unfold PeerSettingsV2_encode; cbn [max_body_len max_decoded_body_len max_metadata_len
    max_in_flight max_concurrent_streams initial_stream_credit compression_codecs
    features diagnostic_features].
  rewrite <- !app_assoc. slice_pieces. unfold u32_max, u64_max in *.
  rewrite !be_val_small by lia. change (negb (Z.of_nat 44 =? SETTINGS_BODY_LEN)) with false. by rewrite Hinv.
Qed.

Lemma PeerSettingsV2_decode_inv body s :
  PeerSettingsV2_decode body = Ok s →
  body = PeerSettingsV2_encode s ∧ PeerSettingsV2_wf s ∧ settings_invalid s = false.
Proof.
  unfold PeerSettingsV2_decode. intros H. inv_ok. bool_to_prop.
  assert (length body = 44%nat) as Hl by (unfold zlen, SETTINGS_BODY_LEN in *; lia).
  split; [|split; [|done]].
  - unfold PeerSettingsV2_encode; cbn [max_body_len max_decoded_body_len max_metadata_len
      max_in_flight max_concurrent_streams initial_stream_credit compression_codecs
      features diagnostic_features].
    rewrite !be_bytes_sub by lia. rewrite <- !sub_split by lia.
    symmetry. by apply sub_all.
  - unfold PeerSettingsV2_wf, u32_max, u64_max; cbn [max_body_len max_decoded_body_len
      max_metadata_len max_in_flight max_concurrent_streams initial_stream_credit
      compression_codecs features diagnostic_features].
    split; repeat apply Forall_cons_2; try apply Forall_nil_2;
      first [apply (be_val_sub_range _ _ 4) | apply (be_val_sub_range _ _ 8)]; lia.
Qed.

Lemma byte_at_24_sampled (l : bytes) (s : bool) :
  (match byte_at 24 l with
   | x00 => Ok false
   | x01 => Ok true
   | value => Err (InvalidTraceSampling value)
   end = Ok s) ↔ byte_at 24 l = if s then x01 else x00.
Proof. destruct (byte_at 24 l), s; naive_solver. Qed.

(** * Properties *)

(** C1 Header parsing is exactly the inverse of header writing: a 24-byte header
    is accepted under a body limit precisely when it is the canonical encoding of
    the returned fields, the flags are known, every field fits its width and the
    announced body does not exceed the limit. *)
Theorem decode_header_correct h max d :
  length h = 24%nat →
  decode_header h max = Ok d ↔
  h = header_bytes d ∧ DecodedHeader_wf d ∧ dh_body_len d ≤ max.
Proof.
  intros Hlen. split; [by apply decode_header_inv|].
  intros (-> & Hwf & Hmax). by apply decode_header_bytes.
Qed.

Lemma decode_header_correct_witness :
  let d := header_of (with_flags (Frame_new FrameKind.Request 42 99 [x68; x69]) 1) in
  decode_header (header_bytes d) 8 = Ok d.
Proof.
  intros d. apply (decode_header_correct (header_bytes d) 8 d).
  - apply length_header_bytes.
  - split; [done|]. unfold DecodedHeader_wf. vm_compute. naive_solver.
Defined.

(** The handshake settings codec is a bijection onto valid settings: a body
    decodes to [s] precisely when it is the 44-byte encoding of [s], all fields
    fit their widths, no safety limit is zero and the mandatory identity codec
    bit is set; every other body is rejected. *)
Theorem PeerSettingsV2_decode_correct body s :
  PeerSettingsV2_decode body = Ok s ↔
  body = PeerSettingsV2_encode s ∧ PeerSettingsV2_wf s ∧ settings_invalid s = false.
Proof.
  split; [apply PeerSettingsV2_decode_inv|].
  intros (-> & ? & ?). by apply PeerSettingsV2_decode_encode.
Qed.

(** A trace context decodes from the first 25 bytes of its input, whatever
    follows them, exactly when these are an encoding of it; every shorter input
    and every sampling byte other than zero and one is rejected. *)
Theorem TraceContext_decode_correct input t :
  TraceContext_decode input = Ok t ↔
  TraceContext_wf t ∧ ∃ rest, input = TraceContext_encode_into t [] ++ rest.
Proof.
  unfold TraceContext_decode, TraceContext_encode_into, TraceContext_wf. split.
  - intros H. inv_ok. bool_to_prop.
    match goal with H : _ = Ok _ |- _ => apply byte_at_24_sampled in H as Hb end.
    unfold zlen, TRACE_CONTEXT_LEN in *. simpl. rewrite !length_sub by lia.
    split; [done|]. exists (drop 25 input). rewrite <- !app_assoc.
    rewrite <- Hb, <- sub_byte_at by lia. rewrite !app_assoc, <- !sub_split by lia.
    unfold sub. simpl. by rewrite take_drop.
  - destruct t as [tid pid s]. simpl. intros [[H1 H2] [rest ->]].
    rewrite <- !app_assoc.
    assert ((zlen (tid ++ pid ++ [if s then x01 else x00] ++ rest)
      <? TRACE_CONTEXT_LEN) = false) as ->.
    { apply Z.ltb_ge. unfold zlen, TRACE_CONTEXT_LEN.
      rewrite !length_app, H1, H2. cbn [length]. lia. }
    slice_pieces. by destruct s.
Qed.

(** Error bodies round trip: the two-byte code of an encoded ERROR body
    decodes to the code it was built from and the rest is the message. *)
Theorem ErrorCode_encode_roundtrip c message :
  ErrorCode_try_from (be_val (take 2 (ErrorCode_encode c message))) = Ok c
  ∧ drop 2 (ErrorCode_encode c message) = message.
Proof. by destruct c. Qed.
