(* ===== verification/Metadata.v ===== *)
(** Canonical metadata blocks of [crates/moonlight-bridge-protocol/src/metadata.rs]:
    the owned map, its encoder, the validating borrowed decoder and its views. *)
From S2P Require Import Prelude OrdMap Protocol.

(** * Constants and data *)

Definition CRITICAL_BIT : Z := Z.shiftl 1 15.
Definition KEY_MASK : Z := Z.lxor u16_max CRITICAL_BIT.
Definition USER_KEY_ID : Z := 0x7fff.
Definition ENTRY_HEADER_LEN : Z := 7.

Record MetadataLimits : Set := {
  max_bytes : Z;
  max_entries : Z;
  max_value_bytes : Z;
}.

Definition MetadataLimits_default : MetadataLimits :=
  {| max_bytes := 16 * 1024; max_entries := 64; max_value_bytes := 8 * 1024 |}.

Module ReservedMetadataKey.
Inductive ReservedMetadataKey : Set :=
  | DeadlineMillis | TraceContext | IdempotencyKey | Authorization | RequiredScopes
  | CompressionCodec | OriginalLength | LogicalCallId | RetryAttempt | EventCursor
  | EventSequence | ContentType | DiagnosticCorrelation.
End ReservedMetadataKey.
Abbreviation ReservedMetadataKey := ReservedMetadataKey.ReservedMetadataKey.

#[export] Instance ReservedMetadataKey_eq_dec : EqDecision ReservedMetadataKey.
Proof. solve_decision. Defined.

(** [key as u16] *)
Definition ReservedMetadataKey_as_u16 (k : ReservedMetadataKey) : Z :=
  match k with
  | ReservedMetadataKey.DeadlineMillis => 1
  | ReservedMetadataKey.TraceContext => 2
  | ReservedMetadataKey.IdempotencyKey => 3
  | ReservedMetadataKey.Authorization => 4
  | ReservedMetadataKey.RequiredScopes => 5
  | ReservedMetadataKey.CompressionCodec => 6
  | ReservedMetadataKey.OriginalLength => 7
  | ReservedMetadataKey.LogicalCallId => 8
  | ReservedMetadataKey.RetryAttempt => 9
  | ReservedMetadataKey.EventCursor => 10
  | ReservedMetadataKey.EventSequence => 11
  | ReservedMetadataKey.ContentType => 12
  | ReservedMetadataKey.DiagnosticCorrelation => 13
  end.

(** [ReservedMetadataKey::try_from], whose error carries nothing. *)
Definition ReservedMetadataKey_try_from (value : Z) : option ReservedMetadataKey :=
  match value with
  | 1 => Some ReservedMetadataKey.DeadlineMillis
  | 2 => Some ReservedMetadataKey.TraceContext
  | 3 => Some ReservedMetadataKey.IdempotencyKey
  | 4 => Some ReservedMetadataKey.Authorization
  | 5 => Some ReservedMetadataKey.RequiredScopes
  | 6 => Some ReservedMetadataKey.CompressionCodec
  | 7 => Some ReservedMetadataKey.OriginalLength
  | 8 => Some ReservedMetadataKey.LogicalCallId
  | 9 => Some ReservedMetadataKey.RetryAttempt
  | 10 => Some ReservedMetadataKey.EventCursor
  | 11 => Some ReservedMetadataKey.EventSequence
  | 12 => Some ReservedMetadataKey.ContentType
  | 13 => Some ReservedMetadataKey.DiagnosticCorrelation
  | _ => None
  end.

(** User names are Rust strings, given by their UTF-8 bytes. *)
Inductive MetadataKey : Set :=
  | Reserved (key : ReservedMetadataKey)
  | User (name : bytes).

#[export] Instance MetadataKey_eq_dec : EqDecision MetadataKey.
Proof. solve_decision. Defined.

(** The derived orders: reserved keys by discriminant, before user names, which
    compare by their bytes. *)
#[export] Instance ReservedMetadataKey_ord : Ord ReservedMetadataKey := λ a b,
  cmp (ReservedMetadataKey_as_u16 a) (ReservedMetadataKey_as_u16 b).
#[export] Instance MetadataKey_ord : Ord MetadataKey := λ a b,
  match a, b with
  | Reserved a, Reserved b => cmp a b
  | Reserved _, User _ => Lt
  | User _, Reserved _ => Gt
  | User a, User b => cmp a b
  end.

Record Metadata : Set := { entries : list (MetadataKey * bytes) }.

(** * UTF-8, as [std::str::from_utf8] validates it *)

Definition in_range (lo hi : Z) (b : byte) : bool := (lo <=? u8 b) && (u8 b <=? hi).

Definition utf8_cont (b : byte) : bool := in_range 0x80 0xBF b.

Definition utf8_lead3 (b0 b1 : byte) : bool :=
  (u8 b0 =? 0xE0) && in_range 0xA0 0xBF b1
  || in_range 0xE1 0xEC b0 && utf8_cont b1
  || (u8 b0 =? 0xED) && in_range 0x80 0x9F b1
  || in_range 0xEE 0xEF b0 && utf8_cont b1.

Definition utf8_lead4 (b0 b1 : byte) : bool :=
  (u8 b0 =? 0xF0) && in_range 0x90 0xBF b1
  || in_range 0xF1 0xF3 b0 && utf8_cont b1
  || (u8 b0 =? 0xF4) && in_range 0x80 0x8F b1.

Fixpoint utf8_valid (l : bytes) : bool :=
  match l with
  | [] => true
  | b0 :: l1 =>
      if u8 b0 <? 0x80 then utf8_valid l1 else
      match l1 with
      | [] => false
      | b1 :: l2 =>
          if in_range 0xC2 0xDF b0 then utf8_cont b1 && utf8_valid l2 else
          match l2 with
          | [] => false
          | b2 :: l3 =>
              if in_range 0xE0 0xEF b0
              then utf8_lead3 b0 b1 && utf8_cont b2 && utf8_valid l3 else
              match l3 with
              | [] => false
              | b3 :: l4 =>
                  utf8_lead4 b0 b1 && utf8_cont b2 && utf8_cont b3 && utf8_valid l4
              end
          end
      end
  end.

(** [std::str::from_utf8]: the same bytes, when they are UTF-8. *)
Definition from_utf8 (l : bytes) : option bytes := if utf8_valid l then Some l else None.

(** * User keys *)

Definition user_key_byte (b : byte) : bool :=
  in_range 97 122 b || in_range 48 57 b || bool_decide (b ∈ as_bytes "-_.").

Definition validate_user_key (name : bytes) : result ProtocolError unit :=
  if bool_decide (name = []) || (u8_max <? zlen name) || negb (forallb user_key_byte name)
  then Err InvalidUserMetadataKey else Ok tt.

(** * The owned block *)

Definition Metadata_new : Metadata := {| entries := [] |}.

Definition Metadata_is_empty (self : Metadata) : bool := bool_decide (entries self = []).

Definition Metadata_insert (self : Metadata) (key : MetadataKey) (value : bytes) :
    result ProtocolError Metadata :=
  if bt_contains key (entries self) then Err DuplicateMetadataKey
  else Ok {| entries := bt_insert key value (entries self) |}.

Definition insert_reserved (self : Metadata) (key : ReservedMetadataKey) (value : bytes) :
    result ProtocolError Metadata :=
  Metadata_insert self (Reserved key) value.

Definition insert_user (self : Metadata) (name value : bytes) :
    result ProtocolError Metadata :=
  _ ← validate_user_key name;
  Metadata_insert self (User name) value.

Definition Metadata_get (self : Metadata) (key : MetadataKey) : option bytes :=
  bt_get key (entries self).

(** ** Encoding *)

(** The [try_fold] over the entries that computes the block length. *)
Fixpoint encoded_len_fold (total : Z) (l : list (MetadataKey * bytes)) :
    result ProtocolError Z :=
  match l with
  | [] => Ok total
  | (key, value) :: l =>
      let name_len := match key with Reserved _ => 0 | User name => zlen name end in
      total ← ok_or (length ← checked_add total ENTRY_HEADER_LEN;
                     length ← checked_add length name_len;
                     checked_add length (zlen value)) InvalidMetadataEntryLength;
      encoded_len_fold total l
  end.

(** The wire identifier and name that an entry is written under. *)
Definition tagged_name (key : MetadataKey) : Z * bytes :=
  match key with
  | Reserved key => (Z.lor CRITICAL_BIT (ReservedMetadataKey_as_u16 key), [])
  | User name => (USER_KEY_ID, name)
  end.

(** The [for] loop that writes the entries. It appends to [output], which keeps
    what was written before an error. *)
Fixpoint write_entries (l : list (MetadataKey * bytes)) (output : bytes) :
    bytes * result ProtocolError unit :=
  match l with
  | [] => (output, Ok tt)
  | (key, value) :: l =>
      let '(tagged_id, name) := tagged_name key in
      match try_into_max u8_max (zlen name), try_into_max u32_max (zlen value) with
      | None, _ => (output, Err InvalidUserMetadataKey)
      | Some _, None => (output, Err InvalidMetadataEntryLength)
      | Some name_len, Some value_len =>
          let output := output ++ be_bytes 2 tagged_id in
          let output := output ++ [b8 name_len] in
          let output := output ++ be_bytes 4 value_len in
          let output := output ++ name in
          let output := output ++ value in
          write_entries l output
      end
  end.

Definition encode_prefix (self : Metadata) (output : bytes) :
    bytes * result ProtocolError unit :=
  match encoded_len_fold 0 (entries self) with
  | Err e => (output, Err e)
  | Ok encoded_len =>
      match try_into_max u32_max encoded_len with
      | None => (output, Err (MetadataTooLarge u32_max))
      | Some encoded_len => write_entries (entries self) (output ++ be_bytes 4 encoded_len)
      end
  end.

(** * The borrowed view *)

Record RawEntry : Set := {
  key_id : Z;
  critical : bool;
  name : bytes;
  value : bytes;
  value_len : Z;
  end_ : Z;
}.

Definition raw_entry (block : bytes) (position : Z) : result ProtocolError RawEntry :=
  header_end ← ok_or (checked_add position ENTRY_HEADER_LEN) InvalidMetadataEntryLength;
  header ← ok_or (slice_get block position header_end) InvalidMetadataEntryLength;
  let tagged_id := be_val (sub 0 2 header) in
  let name_len := u8 (byte_at 2 header) in
  let value_len := be_val (sub 3 7 header) in
  value_start ← ok_or (checked_add header_end name_len) InvalidMetadataEntryLength;
  end_ ← ok_or (checked_add value_start value_len) InvalidMetadataEntryLength;
  name ← ok_or (slice_get block header_end value_start) InvalidMetadataEntryLength;
  value ← ok_or (slice_get block value_start end_) InvalidMetadataEntryLength;
  Ok {| key_id := Z.land tagged_id KEY_MASK;
        critical := negb (Z.land tagged_id CRITICAL_BIT =? 0);
        name := name;
        value := value;
        value_len := value_len;
        end_ := end_ |}.

(** The order check of the validation loop against the previous entry. *)
Definition check_order (previous_order : option (Z * bytes)) (entry : RawEntry) :
    result ProtocolError unit :=
  match previous_order with
  | None => Ok tt
  | Some (previous_id, previous_name) =>
      match (match cmp previous_id (key_id entry) with
             | Eq => cmp previous_name (name entry)
             | c => c
             end) with
      | Lt => Ok tt
      | Eq => Err DuplicateMetadataKey
      | Gt => Err NonCanonicalMetadataOrder
      end
  end.

(** The key check of the validation loop. *)
Definition check_key (entry : RawEntry) : result ProtocolError unit :=
  if key_id entry =? USER_KEY_ID then
    name ← ok_or (from_utf8 (name entry)) InvalidUserMetadataKey;
    validate_user_key name
  else if negb (bool_decide (name entry = [])) then Err InvalidUserMetadataKey
  else match ReservedMetadataKey_try_from (key_id entry) with
       | Some _ => Ok tt
       | None =>
           if critical entry then Err (UnknownCriticalMetadataKey (key_id entry)) else Ok tt
       end.

(** The [while] loop of [Metadata::validate]; [None] is running out of fuel. *)
Fixpoint validate_loop (fuel : nat) (block : bytes) (limits : MetadataLimits)
    (position count : Z) (previous_order : option (Z * bytes)) :
    option (result ProtocolError unit) :=
  match fuel with
  | O => None
  | S fuel =>
      if position <? zlen block then
        match
          (count ← ok_or (try_into_max u16_max (count + 1)) (TooManyMetadataEntries u16_max);
           _ ← guard_err (max_entries limits <? count) (TooManyMetadataEntries count);
           entry ← raw_entry block position;
           _ ← guard_err (max_value_bytes limits <? value_len entry)
                 (MetadataValueTooLarge (value_len entry));
           _ ← check_order previous_order entry;
           _ ← check_key entry;
           Ok (count, entry))
        with
        | Err e => Some (Err e)
        | Ok (count, entry) =>
            validate_loop fuel block limits (end_ entry) count
              (Some (key_id entry, name entry))
        end
      else Some (Ok tt)
  end.

(** Iterations that suffice for a block: every entry has a header. *)
Definition block_fuel (block : bytes) : nat := S (length block).

(** Out of fuel cannot happen ([validate_loop_total]). *)
Definition run_loop {A} (o : option (result ProtocolError A)) : result ProtocolError A :=
  match o with Some r => r | None => Err InvalidMetadataEntryLength end.

(** Returns the validated block, which stands for the borrowing
    [ValidatedMetadata], and the payload after it. *)
Definition Metadata_validate (input : bytes) (limits : MetadataLimits) :
    result ProtocolError (bytes * bytes) :=
  length_bytes ← ok_or (slice_get input 0 4) (InvalidMetadataLength 0 (zlen input));
  let announced := be_val length_bytes in
  let available := zlen input - 4 in
  let block_len := announced in
  if available <? block_len then Err (InvalidMetadataLength announced available) else
  if max_bytes limits <? announced then Err (MetadataTooLarge announced) else
  let block := take (Z.to_nat block_len) (drop 4 input) in
  _ ← run_loop (validate_loop (block_fuel block) block limits 0 0 None);
  Ok (block, drop (Z.to_nat (4 + block_len)) input).

(** The items that the iterator of [ValidatedMetadata::reserved_entries] yields. *)
Fixpoint reserved_entries_loop (fuel : nat) (block : bytes) (position : Z) :
    list (ReservedMetadataKey * bytes) :=
  match fuel with
  | O => []
  | S fuel =>
      if position <? zlen block then
        match raw_entry block position with
        | Err _ => []
        | Ok entry =>
            let rest := reserved_entries_loop fuel block (end_ entry) in
            match ReservedMetadataKey_try_from (key_id entry) with
            | Some key => (key, value entry) :: rest
            | None => rest
            end
        end
      else []
  end.

Definition reserved_entries (block : bytes) : list (ReservedMetadataKey * bytes) :=
  reserved_entries_loop (block_fuel block) block 0.

Fixpoint get_reserved_loop (fuel : nat) (block : bytes) (wanted position : Z) :
    option bytes :=
  match fuel with
  | O => None
  | S fuel =>
      if position <? zlen block then
        match raw_entry block position with
        | Err _ => None
        | Ok entry =>
            if key_id entry =? wanted then Some (value entry)
            else if wanted <? key_id entry then None
            else get_reserved_loop fuel block wanted (end_ entry)
        end
      else None
  end.

Definition get_reserved (block : bytes) (key : ReservedMetadataKey) : option bytes :=
  get_reserved_loop (block_fuel block) block (ReservedMetadataKey_as_u16 key) 0.

(** The key that [into_metadata] stores an entry under, if any. *)
Definition owned_key (entry : RawEntry) : result ProtocolError (option MetadataKey) :=
  if key_id entry =? USER_KEY_ID then
    name ← ok_or (from_utf8 (name entry)) InvalidUserMetadataKey;
    Ok (Some (User name))
  else Ok (Reserved <$> ReservedMetadataKey_try_from (key_id entry)).

Fixpoint into_metadata_loop (fuel : nat) (block : bytes) (metadata : Metadata)
    (position : Z) : option (result ProtocolError Metadata) :=
  match fuel with
  | O => None
  | S fuel =>
      if position <? zlen block then
        match
          (entry ← raw_entry block position;
           key ← owned_key entry;
           metadata ← (match key with
                       | Some key => Metadata_insert metadata key (value entry)
                       | None => Ok metadata
                       end);
           Ok (entry, metadata))
        with
        | Err e => Some (Err e)
        | Ok (entry, metadata) => into_metadata_loop fuel block metadata (end_ entry)
        end
      else Some (Ok metadata)
  end.

Definition into_metadata (block : bytes) : result ProtocolError Metadata :=
  run_loop (into_metadata_loop (block_fuel block) block Metadata_new 0).

Definition Metadata_decode (input : bytes) (limits : MetadataLimits) :
    result ProtocolError (Metadata * bytes) :=
  '(validated, payload) ← Metadata_validate input limits;
  metadata ← into_metadata validated;
  Ok (metadata, payload).

(** * Lemmas *)

(** ** Keys as wire positions *)

(** The pair that the wire order compares. *)
Definition order_of_key (k : MetadataKey) : Z * bytes :=
  match k with
  | Reserved k => (ReservedMetadataKey_as_u16 k, [])
  | User n => (USER_KEY_ID, n)
  end.

Definition order_of (e : RawEntry) : Z * bytes := (key_id e, name e).

Lemma ReservedMetadataKey_as_range k : 1 ≤ ReservedMetadataKey_as_u16 k ≤ 13.
Proof. destruct k; simpl; lia. Qed.

Lemma ReservedMetadataKey_try_from_as k :
  ReservedMetadataKey_try_from (ReservedMetadataKey_as_u16 k) = Some k.
Proof. by destruct k. Qed.

Lemma ReservedMetadataKey_try_from_Some z k :
  ReservedMetadataKey_try_from z = Some k → z = ReservedMetadataKey_as_u16 k.
Proof.
  unfold ReservedMetadataKey_try_from. intros H.
  repeat case_match; simplify_eq; done.
Qed.

Lemma order_of_key_inj a b : order_of_key a = order_of_key b → a = b.
Proof.
  destruct a as [a|a], b as [b|b]; simpl; intros [= H]; subst; try done.
  - apply (f_equal ReservedMetadataKey_try_from) in H.
    rewrite !ReservedMetadataKey_try_from_as in H. by simplify_eq.
  - pose proof (ReservedMetadataKey_as_range a). unfold USER_KEY_ID in *. lia.
  - pose proof (ReservedMetadataKey_as_range b). unfold USER_KEY_ID in *. lia.
Qed.

Lemma cmp_order_of_key (a b : MetadataKey) : cmp a b = cmp (order_of_key a) (order_of_key b).
Proof.
  destruct a as [a|a], b as [b|b]; simpl; rewrite prod_cmp.
  - change (cmp (Reserved a) (Reserved b)) with
      (cmp (ReservedMetadataKey_as_u16 a) (ReservedMetadataKey_as_u16 b)).
    by destruct (cmp (ReservedMetadataKey_as_u16 a) (ReservedMetadataKey_as_u16 b)).
  - pose proof (ReservedMetadataKey_as_range a).
    assert (cmp (ReservedMetadataKey_as_u16 a) USER_KEY_ID = Lt) as ->; [|done].
    apply Z.compare_lt_iff. unfold USER_KEY_ID. lia.
  - pose proof (ReservedMetadataKey_as_range b).
    assert (cmp USER_KEY_ID (ReservedMetadataKey_as_u16 b) = Gt) as ->; [|done].
    apply Z.compare_gt_iff. unfold USER_KEY_ID. lia.
  - by rewrite cmp_refl.
Qed.

#[export] Instance MetadataKey_ord_laws : OrdLaws MetadataKey.
Proof. apply (ord_laws_inj order_of_key order_of_key_inj cmp_order_of_key). Qed.

(** ** Raw entries *)

Lemma raw_entry_Ok block pos e :
  0 ≤ pos → raw_entry block pos = Ok e →
  pos + 7 ≤ end_ e ≤ zlen block ∧ value_len e = zlen (value e) ∧ zlen (name e) ≤ 255.
Proof.
  intros Hpos H. unfold raw_entry, ENTRY_HEADER_LEN in H. inv_ok.
  match goal with H : slice_get block pos _ = Some ?h |- _ =>
    pose proof (u8_range (byte_at 2 h)); pose proof (be_val_range (sub 3 7 h)) end.
  repeat match goal with
  | H : slice_get _ _ _ = Some _ |- _ =>
      apply slice_get_Some in H as (_ & ? & ?); [|lia]
  end. simpl. lia.
Qed.

(** The entries that the loops over a block visit from a position on. *)
Inductive scan (block : bytes) : Z → list RawEntry → Prop :=
  | scan_end pos : zlen block ≤ pos → scan block pos []
  | scan_step pos e es :
      pos < zlen block → raw_entry block pos = Ok e → scan block (end_ e) es →
      scan block pos (e :: es).

Lemma scan_length block pos es :
  0 ≤ pos → scan block pos es → 7 * zlen es ≤ Z.max 0 (zlen block - pos).
Proof.
  intros Hpos. induction 1 as [pos Hend|pos e es Hlt He Hs IH]; [unfold zlen; simpl; lia|].
  apply raw_entry_Ok in He as [? _]; [|done]. rewrite zlen_cons. lia.
Qed.

Lemma scan_fuel block es : scan block 0 es → (length es < block_fuel block)%nat.
Proof. intros H%scan_length; [|lia]. unfold block_fuel, zlen in *. lia. Qed.

(** ** What the validation loop establishes *)

Inductive valid_entries (limits : MetadataLimits) :
    option (Z * bytes) → Z → list RawEntry → Prop :=
  | valid_nil prev count : valid_entries limits prev count []
  | valid_cons prev count e es :
      count + 1 ≤ u16_max → count + 1 ≤ max_entries limits →
      value_len e ≤ max_value_bytes limits →
      check_order prev e = Ok tt → check_key e = Ok tt →
      valid_entries limits (Some (order_of e)) (count + 1) es →
      valid_entries limits prev count (e :: es).

Lemma validate_loop_inv fuel block limits pos count prev :
  0 ≤ pos →
  validate_loop fuel block limits pos count prev = Some (Ok tt) →
  ∃ es, scan block pos es ∧ valid_entries limits prev count es.
Proof.
  revert pos count prev. induction fuel as [|fuel IH]; intros pos count prev Hpos H; [done|].
  simpl in H. destruct (pos <? zlen block) eqn:Hlt; bool_to_prop.
  2: { exists []. split; [by constructor|constructor]. }
  case_match eqn:Hbody; [|done]. destruct a as [count' e]. inv_ok. simplify_eq.
  repeat match goal with u : unit |- _ => destruct u end.
  pose proof (raw_entry_Ok block pos e Hpos) as Hraw. edestruct Hraw as [? _]; [done|].
  apply IH in H as (es & Hs & Hv); [|lia]. bool_to_prop.
  exists (e :: es). split; [by econstructor|]. by constructor.
Qed.

Lemma validate_loop_complete fuel block limits pos count prev es :
  scan block pos es → valid_entries limits prev count es → (length es < fuel)%nat →
  validate_loop fuel block limits pos count prev = Some (Ok tt).
Proof.
  intros Hs. revert fuel count prev.
  induction Hs as [pos Hend|pos e es Hlt He Hs IH]; intros fuel count prev Hv Hfuel;
    (destruct fuel as [|fuel]; [simpl in Hfuel; lia|]); simpl.
  { by apply Z.ltb_ge in Hend as ->. }
  apply Z.ltb_lt in Hlt as ->. inversion Hv as [|? ? ? ? Hc1 Hc2 Hvl Ho Hk Hv']; subst.
  unfold try_into_max. apply Z.leb_le in Hc1 as ->. cbn.
  apply Z.ltb_ge in Hc2 as ->. cbn. rewrite He. cbn.
  apply Z.ltb_ge in Hvl as ->. cbn. rewrite Ho. cbn. rewrite Hk. cbn.
  apply IH; [done|]. simpl in Hfuel. lia.
Qed.

Lemma validate_loop_total_gen fuel block limits pos count prev :
  0 ≤ pos → Z.max 0 (zlen block - pos) < Z.of_nat fuel →
  is_Some (validate_loop fuel block limits pos count prev).
Proof.
  revert pos count prev. induction fuel as [|fuel IH]; intros pos count prev Hpos Hf; simpl.
  { lia. }
  destruct (pos <? zlen block) eqn:Hlt; bool_to_prop; [|done].
  case_match eqn:Hbody; [|done]. destruct a as [count' e]. inv_ok. simplify_eq.
  pose proof (raw_entry_Ok block pos e Hpos) as Hraw. edestruct Hraw as [? _]; [done|].
  apply IH; lia.
Qed.

(** ** Materializing a validated block *)

Definition stored (e : RawEntry) : option (MetadataKey * bytes) :=
  match owned_key e with Ok (Some k) => Some (k, value e) | _ => None end.

Lemma check_order_lt prev e :
  check_order (Some prev) e = Ok tt ↔ cmp prev (order_of e) = Lt.
Proof.
  destruct prev as [i n]. unfold check_order, order_of. rewrite prod_cmp.
  by case_match.
Qed.

(** A checked key is either skipped or stored under its wire position. *)
Lemma check_key_owned e :
  check_key e = Ok tt →
  ∃ ok, owned_key e = Ok ok ∧ ∀ k, ok = Some k → order_of_key k = order_of e.
Proof.
  unfold check_key, owned_key, order_of. destruct (key_id e =? USER_KEY_ID) eqn:Hid.
  - apply Z.eqb_eq in Hid. intros H. inv_ok.
    match goal with H : from_utf8 _ = _ |- _ =>
      rewrite H; unfold from_utf8 in H; case_match; simplify_eq end.
    eexists; split; [done|]. intros k [= <-]. simpl. by rewrite Hid.
  - intros H. case_bool_decide as Hn; simpl in H; [|done].
    destruct (ReservedMetadataKey_try_from (key_id e)) as [k|] eqn:Hk.
    + eexists; split; [done|]. intros ? [= <-]. simpl.
      by rewrite (ReservedMetadataKey_try_from_Some _ _ Hk), Hn.
    + eexists; split; [done|]. done.
Qed.

Lemma stored_order e k v :
  check_key e = Ok tt → stored e = Some (k, v) → order_of_key k = order_of e ∧ v = value e.
Proof.
  intros (ok & Hok & Hk)%check_key_owned. unfold stored. rewrite Hok.
  destruct ok; intros; simplify_eq; auto.
Qed.

Lemma valid_entries_above limits p count es :
  valid_entries limits (Some p) count es → Forall (λ e, cmp p (order_of e) = Lt) es.
Proof.
  remember (Some p) as prev eqn:Hp. intros H. revert p Hp.
  induction H as [|prev count e es Hc1 Hc2 Hvl Ho Hk Hv IH]; intros p ->; [constructor|].
  apply check_order_lt in Ho. constructor; [done|].
  eapply Forall_impl; [by apply IH|]. intros e' He'. by eapply cmp_lt_trans.
Qed.

Lemma valid_entries_keys limits prev count es :
  valid_entries limits prev count es → Forall (λ e, check_key e = Ok tt) es.
Proof. induction 1; constructor; auto. Qed.

Lemma stored_above k es :
  Forall (λ e, check_key e = Ok tt) es → Forall (λ e, cmp k (order_of e) = Lt) es →
  Forall (λ q, cmp k (order_of_key q.1) = Lt) (omap stored es).
Proof.
  induction 1 as [|e es Hk Hks IH]; intros Hlt; simpl; [constructor|].
  inversion Hlt; subst. destruct (stored e) as [[k' v]|] eqn:Hs; [|auto].
  constructor; [|auto]. simpl. by destruct (stored_order e k' v Hk Hs) as [-> _].
Qed.

Lemma stored_sorted limits prev count es :
  valid_entries limits prev count es → bt_sorted (omap stored es).
Proof.
  induction 1 as [|prev count e es Hc1 Hc2 Hvl Ho Hk Hv IH]; simpl; [constructor|].
  destruct (stored e) as [[k v]|] eqn:Hs; [|done]. apply bt_sorted_cons. split; [|done].
  pose proof (stored_above (order_of e) es) as Ha.
  eapply Forall_impl; [apply Ha; eauto using valid_entries_keys, valid_entries_above|].
  intros q Hq. unfold key_lt. rewrite cmp_order_of_key. simpl.
  by destruct (stored_order e k v Hk Hs) as [-> _].
Qed.

Lemma into_metadata_loop_spec fuel block limits pos count prev es m :
  scan block pos es → valid_entries limits prev count es → (length es < fuel)%nat →
  (∀ q, q ∈ m → Forall (λ e, cmp (order_of_key q.1) (order_of e) = Lt) es) →
  into_metadata_loop fuel block {| entries := m |} pos
  = Some (Ok {| entries := m ++ omap stored es |}).
Proof.
  intros Hs. revert fuel count prev m.
  induction Hs as [pos Hend|pos e es Hlt He Hs IH]; intros fuel count prev m Hv Hf Hm;
    (destruct fuel as [|fuel]; [simpl in Hf; lia|]); simpl in *.
  { apply Z.ltb_ge in Hend as ->. by rewrite app_nil_r. }
  apply Z.ltb_lt in Hlt as ->. rewrite He. cbn.
  inversion Hv as [|? ? ? ? Hc1 Hc2 Hvl Ho Hk Hv']; subst.
  destruct (check_key_owned e Hk) as (ok & Hok & Hord). unfold stored at 1. rewrite Hok. cbn.
  assert (∀ q, q ∈ m → cmp (order_of_key q.1) (order_of e) = Lt
    ∧ Forall (λ e, cmp (order_of_key q.1) (order_of e) = Lt) es) as Hm'.
  { intros q Hq. specialize (Hm q Hq). by inversion Hm. }
  destruct ok as [k|]; cbn.
  - unfold Metadata_insert, bt_contains. cbn.
    assert (Forall (λ q, cmp q.1 k = Lt) m) as Habove.
    { apply Forall_forall. intros q Hq. rewrite cmp_order_of_key, (Hord k) by done.
      by apply Hm'. }
    rewrite bt_get_above, bt_insert_snoc by done. cbn.
    erewrite IH; [|done|lia|].
    + by rewrite <- app_assoc.
    + intros q [Hq|Hq]%elem_of_app; [by apply Hm'|].
      apply list_elem_of_singleton in Hq as ->. simpl. rewrite (Hord k) by done.
      by eapply valid_entries_above.
  - eapply IH; [done|lia|]. intros q Hq. by apply Hm'.
Qed.

(** ** The borrowed lookups *)

Lemma stored_reserved e k :
  check_key e = Ok tt → key_id e = ReservedMetadataKey_as_u16 k →
  stored e = Some (Reserved k, value e).
Proof.
  intros (ok & Hok & Hord)%check_key_owned Hid. unfold stored. rewrite Hok.
  unfold owned_key in Hok. rewrite Hid, ReservedMetadataKey_try_from_as in Hok.
  pose proof (ReservedMetadataKey_as_range k) as Hr.
  assert ((ReservedMetadataKey_as_u16 k =? USER_KEY_ID) = false) as Hne
    by (unfold USER_KEY_ID; lia).
  rewrite Hne in Hok. cbn in Hok. by simplify_eq.
Qed.

Lemma get_reserved_loop_spec fuel block limits pos count prev es k :
  scan block pos es → valid_entries limits prev count es → (length es < fuel)%nat →
  get_reserved_loop fuel block (ReservedMetadataKey_as_u16 k) pos
  = bt_get (Reserved k) (omap stored es).
Proof.
  intros Hs. revert fuel count prev.
  induction Hs as [pos Hend|pos e es Hlt He Hs IH]; intros fuel count prev Hv Hf;
    (destruct fuel as [|fuel]; [simpl in Hf; lia|]); simpl in *.
  { by apply Z.ltb_ge in Hend as ->. }
  apply Z.ltb_lt in Hlt as ->. rewrite He.
  inversion Hv as [|? ? ? ? Hc1 Hc2 Hvl Ho Hk Hv']; subst.
  destruct (key_id e =? ReservedMetadataKey_as_u16 k) eqn:Hid; bool_to_prop.
  { rewrite (stored_reserved e k) by done. simpl. by rewrite cmp_refl. }
  assert (∀ k' v, stored e = Some (k', v) → cmp (Reserved k) k' =
    Z.compare (ReservedMetadataKey_as_u16 k) (key_id e)) as Hcmp.
  { intros k' v [Hk' _]%stored_order; [|done]. rewrite cmp_order_of_key, Hk'.
    unfold order_of. simpl. rewrite prod_cmp. unfold cmp at 1, Z_ord.
    destruct (Z.compare_spec (ReservedMetadataKey_as_u16 k) (key_id e)); lia || done. }
  destruct (ReservedMetadataKey_as_u16 k <? key_id e) eqn:Hw; bool_to_prop.
  - apply Z.compare_lt_iff in Hw as Hc.
    destruct (stored e) as [[k' v]|] eqn:Hse; simpl.
    { rewrite (Hcmp k' v), Hc by done. done. }
    symmetry. apply bt_get_below. eapply Forall_impl.
    { apply (stored_above (order_of e)); eauto using valid_entries_keys, valid_entries_above. }
    intros q Hq. simpl in Hq. rewrite cmp_order_of_key. eapply cmp_lt_trans; [|done].
    unfold order_of. simpl. rewrite prod_cmp. by unfold cmp at 1, Z_ord; rewrite Hc.
  - destruct (stored e) as [[k' v]|] eqn:Hse; simpl; [|eapply IH; [done|lia]].
    rewrite (Hcmp k' v) by done.
    assert (Z.compare (ReservedMetadataKey_as_u16 k) (key_id e) = Gt) as ->
      by (apply Z.compare_gt_iff; lia).
    eapply IH; [done|lia].
Qed.

(** The runtime-owned entries of an owned block, in key order. *)
Definition reserved_of (l : list (MetadataKey * bytes)) : list (ReservedMetadataKey * bytes) :=
  omap (λ q, match q.1 with Reserved k => Some (k, q.2) | User _ => None end) l.

Lemma reserved_entries_loop_spec fuel block limits pos count prev es :
  scan block pos es → valid_entries limits prev count es → (length es < fuel)%nat →
  reserved_entries_loop fuel block pos = reserved_of (omap stored es).
Proof.
  intros Hs. revert fuel count prev.
  induction Hs as [pos Hend|pos e es Hlt He Hs IH]; intros fuel count prev Hv Hf;
    (destruct fuel as [|fuel]; [simpl in Hf; lia|]); simpl in *.
  { by apply Z.ltb_ge in Hend as ->. }
  apply Z.ltb_lt in Hlt as ->. rewrite He.
  inversion Hv as [|? ? ? ? Hc1 Hc2 Hvl Ho Hk Hv']; subst.
  rewrite (IH fuel (count + 1) (Some (order_of e))) by (done || lia).
  destruct (ReservedMetadataKey_try_from (key_id e)) as [k|] eqn:Htf.
  { apply ReservedMetadataKey_try_from_Some in Htf.
    by rewrite (stored_reserved e k). }
  unfold stored at 2, owned_key. rewrite Htf. destruct (key_id e =? USER_KEY_ID); [|done].
  by destruct (from_utf8 (name e)).
Qed.

(** ** Encoded blocks scan back *)

Definition entry_tag (k : MetadataKey) : Z := (tagged_name k).1.
Definition entry_name (k : MetadataKey) : bytes := (tagged_name k).2.

Definition enc_entry (q : MetadataKey * bytes) : bytes :=
  be_bytes 2 (entry_tag q.1) ++ [b8 (zlen (entry_name q.1))] ++ be_bytes 4 (zlen q.2)
  ++ entry_name q.1 ++ q.2.

Lemma zlen_enc_entry q : zlen (enc_entry q) = 7 + zlen (entry_name q.1) + zlen q.2.
Proof. unfold enc_entry. autorewrite with bridge. lia. Qed.

Lemma entry_tag_range k : 0 ≤ entry_tag k < 256 ^ Z.of_nat 2.
Proof. by destruct k as [[]|]. Qed.

Lemma entry_tag_key k : Z.land (entry_tag k) KEY_MASK = (order_of_key k).1.
Proof. by destruct k as [[]|]. Qed.

Definition entry_fits (q : MetadataKey * bytes) : Prop :=
  zlen (entry_name q.1) ≤ u8_max ∧ zlen q.2 ≤ u32_max.

Definition enc_entries (l : list (MetadataKey * bytes)) : bytes := concat (map enc_entry l).

Lemma enc_entries_cons q l : enc_entries (q :: l) = enc_entry q ++ enc_entries l.
Proof. done. Qed.

Lemma write_entries_cons k v l output :
  entry_fits (k, v) →
  write_entries ((k, v) :: l) output = write_entries l (output ++ enc_entry (k, v)).
Proof.
  intros [H1 H2]. cbn [write_entries]. rewrite (surjective_pairing (tagged_name k)).
  unfold try_into_max, entry_name in *. cbn [fst snd] in *.
  apply Z.leb_le in H1 as ->, H2 as ->. f_equal. unfold enc_entry, entry_tag, entry_name.
  cbn [fst snd]. by rewrite <- !app_assoc.
Qed.

Lemma write_entries_complete l output :
  Forall entry_fits l → write_entries l output = (output ++ enc_entries l, Ok tt).
Proof.
  intros H. revert output. induction H as [|[k v] l Hf H IH]; intros output.
  { unfold enc_entries. simpl. by rewrite app_nil_r. }
  by rewrite write_entries_cons, IH, enc_entries_cons, app_assoc.
Qed.

Lemma write_entries_Ok l output out :
  write_entries l output = (out, Ok tt) →
  Forall entry_fits l ∧ out = output ++ enc_entries l.
Proof.
  revert output. induction l as [|[k v] l IH]; intros output H.
  { simpl in H. simplify_eq. unfold enc_entries. simpl. by rewrite app_nil_r. }
  assert (entry_fits (k, v)) as Hf.
  { cbn [write_entries] in H. rewrite (surjective_pairing (tagged_name k)) in H.
    split; repeat case_match; simplify_eq; inv_ok; done. }
  rewrite write_entries_cons in H by done. apply IH in H as [? ->].
  split; [by constructor|]. by rewrite enc_entries_cons, app_assoc.
Qed.

Lemma raw_entry_enc pre q post :
  entry_fits q → zlen (pre ++ enc_entry q ++ post) ≤ usize_max →
  ∃ e, raw_entry (pre ++ enc_entry q ++ post) (zlen pre) = Ok e
    ∧ order_of e = order_of_key q.1 ∧ value e = q.2 ∧ value_len e = zlen q.2
    ∧ end_ e = zlen pre + zlen (enc_entry q).
Proof.
  destruct q as [k v]. intros [Hn Hv] Hu. cbn [fst snd] in *.
  set (h := be_bytes 2 (entry_tag k) ++ [b8 (zlen (entry_name k))] ++ be_bytes 4 (zlen v)).
  assert (pre ++ enc_entry (k, v) ++ post = pre ++ h ++ entry_name k ++ v ++ post) as Hb.
  { unfold enc_entry, h. cbn [fst snd]. by rewrite <- !app_assoc. }
  assert (zlen h = 7) as Hh by (unfold h; autorewrite with bridge; lia).
  rewrite !zlen_app, zlen_enc_entry in Hu. cbn [fst snd] in Hu. unfold u8_max, u32_max in *.
  pose proof (zlen_nonneg pre). pose proof (zlen_nonneg post).
  pose proof (zlen_nonneg (entry_name k)). pose proof (zlen_nonneg v).
  assert (be_val (sub 0 2 h) = entry_tag k) as Htag.
  { unfold h. slice_pieces. apply be_val_small, entry_tag_range. }
  assert (u8 (byte_at 2 h) = zlen (entry_name k)) as Hnl.
  { unfold h. slice_pieces. rewrite u8_b8. apply Z.mod_small. lia. }
  assert (be_val (sub 3 7 h) = zlen v) as Hvl.
  { unfold h. slice_pieces. apply be_val_small. lia. }
  clearbody h. unfold raw_entry, ENTRY_HEADER_LEN. rewrite Hb.
  assert (∀ x y, x + y ≤ usize_max → checked_add x y = Some (x + y)) as Hadd.
  { intros. by apply checked_add_Some. }
  rewrite Hadd by lia. cbn. rewrite (slice_get_app pre h) by lia. cbn.
  rewrite Htag, Hnl, Hvl. rewrite Hadd by lia. cbn. rewrite Hadd by lia. cbn.
  rewrite (app_assoc pre h).
  rewrite (slice_get_app (pre ++ h) (entry_name k) (v ++ post) (zlen pre + 7))
    by (rewrite ?zlen_app; lia). cbn.
  rewrite (app_assoc (pre ++ h)).
  rewrite (slice_get_app _ v) by (rewrite ?zlen_app; lia). cbn.
  eexists; split; [done|]. unfold order_of. cbn [key_id name value value_len end_].
  rewrite zlen_enc_entry, entry_tag_key. cbn [fst snd].
  split_and!; [by destruct k|done|done|lia].
Qed.

(** An entry read back from the encoding of [q]. *)
Definition reads (q : MetadataKey * bytes) (e : RawEntry) : Prop :=
  order_of e = order_of_key q.1 ∧ value e = q.2 ∧ value_len e = zlen q.2.

Lemma scan_enc pre l :
  Forall entry_fits l → zlen (pre ++ enc_entries l) ≤ usize_max →
  ∃ es, scan (pre ++ enc_entries l) (zlen pre) es ∧ Forall2 reads l es.
Proof.
  intros H. revert pre. induction H as [|q l Hq H IH]; intros pre Hu.
  { exists []. split; [|constructor]. constructor. unfold enc_entries. simpl.
    rewrite app_nil_r. lia. }
  rewrite enc_entries_cons in *.
  destruct (raw_entry_enc pre q (enc_entries l) Hq Hu) as (e & He & Ho & Hv & Hl & Hend).
  destruct (IH (pre ++ enc_entry q)) as (es & Hs & Hes); [by rewrite <- app_assoc|].
  rewrite <- app_assoc in Hs. exists (e :: es). split; [|by constructor].
  apply scan_step; [|done|].
  - rewrite !zlen_app, zlen_enc_entry. pose proof (zlen_nonneg (entry_name q.1)).
    pose proof (zlen_nonneg q.2). pose proof (zlen_nonneg (enc_entries l)). lia.
  - rewrite Hend. by rewrite zlen_app in Hs.
Qed.

Lemma utf8_valid_ascii l : Forall (λ b, u8 b < 0x80) l → utf8_valid l = true.
Proof. induction 1 as [|b l Hb Hl IH]; simpl; [done|]. by apply Z.ltb_lt in Hb as ->. Qed.

Lemma user_key_byte_ascii b : user_key_byte b = true → u8 b < 0x80.
Proof. by destruct b; vm_compute. Qed.

Lemma validate_user_key_utf8 n : validate_user_key n = Ok tt → from_utf8 n = Some n.
Proof.
  unfold validate_user_key. intros H. inv_ok. bool_to_prop. unfold from_utf8.
  rewrite utf8_valid_ascii; [done|]. apply Forall_forall. intros b Hb.
  apply user_key_byte_ascii. rewrite forallb_forall in *.
  match goal with H : ∀ _, _ |- _ => by apply H, list_elem_of_In end.
Qed.

(** * Well-formed blocks *)

Definition key_valid (k : MetadataKey) : Prop :=
  match k with Reserved _ => True | User n => validate_user_key n = Ok tt end.

(** The invariant of [Metadata]: strictly sorted keys and valid user names. *)
Definition Metadata_wf (m : Metadata) : Prop :=
  bt_sorted (entries m) ∧ Forall (λ q, key_valid q.1) (entries m).

(** The limits that a decoder applies, on the side of an encoder. *)
Definition within_limits (limits : MetadataLimits) (m : Metadata) : Prop :=
  zlen (enc_entries (entries m)) ≤ max_bytes limits ≤ u32_max
  ∧ zlen (entries m) ≤ max_entries limits ≤ u16_max
  ∧ Forall (λ q, zlen q.2 ≤ max_value_bytes limits) (entries m).

Lemma reads_check_key q e :
  key_valid q.1 → reads q e → check_key e = Ok tt ∧ stored e = Some q.
Proof.
  destruct q as [k v]. intros Hk (Ho & Hv & Hl). unfold order_of in Ho.
  destruct k as [k|n]; injection Ho as Hid Hn; simpl in Hv; subst v.
  - assert (check_key e = Ok tt) as Hc; [|by rewrite (stored_reserved e k)].
    pose proof (ReservedMetadataKey_as_range k). unfold check_key, USER_KEY_ID.
    rewrite Hid, Hn, ReservedMetadataKey_try_from_as.
    destruct (_ =? 0x7fff) eqn:E; [lia|done].
  - simpl in Hk. unfold check_key, stored, owned_key. rewrite Hid, Hn, Z.eqb_refl.
    rewrite validate_user_key_utf8 by done. by cbn; rewrite Hk.
Qed.

Lemma reads_valid limits prev count l es :
  Forall2 reads l es → bt_sorted l → Forall (λ q, key_valid q.1) l →
  Forall (λ q, zlen q.2 ≤ max_value_bytes limits) l →
  (∀ p q, prev = Some p → q ∈ l → cmp p (order_of_key q.1) = Lt) →
  count + zlen l ≤ max_entries limits → max_entries limits ≤ u16_max →
  valid_entries limits prev count es ∧ omap stored es = l.
Proof.
  intros H. revert prev count.
  induction H as [|q e l es Hr H IH]; intros prev count Hs Hk Hv Hp Hc Hu.
  { split; [constructor|done]. }
  rewrite zlen_cons in Hc. pose proof (zlen_nonneg l).
  apply bt_sorted_cons in Hs as [Hlt Hs]. inversion Hk; inversion Hv; subst.
  destruct (reads_check_key q e) as [Hck Hst]; [done..|]. pose proof Hr as (Ho & _ & Hl).
  destruct (IH (Some (order_of e)) (count + 1)) as [Hval Hom]; [done..| |lia|done|].
  { intros p q' [= <-] Hq'. rewrite Ho, <- cmp_order_of_key.
    rewrite Forall_forall in Hlt. by apply Hlt. }
  split; [|cbn; by rewrite Hst, Hom].
  apply valid_cons; [lia..| |done|done]. destruct prev as [p|]; [|done].
  apply check_order_lt. rewrite Ho. apply Hp; [done|]. left.
Qed.

Lemma encoded_len_fold_spec total l :
  0 ≤ total → total + zlen (enc_entries l) ≤ usize_max →
  encoded_len_fold total l = Ok (total + zlen (enc_entries l)).
Proof.
  revert total. induction l as [|[k v] l IH]; intros total H0 H.
  { cbn. f_equal. unfold enc_entries, zlen. simpl. lia. }
  rewrite enc_entries_cons, zlen_app, zlen_enc_entry in *.
  cbn [encoded_len_fold fst snd] in *.
  assert (match k with Reserved _ => 0 | User n => zlen n end = zlen (entry_name k)) as ->
    by (by destruct k).
  pose proof (zlen_nonneg (entry_name k)). pose proof (zlen_nonneg v).
  pose proof (zlen_nonneg (enc_entries l)).
  assert (∀ x y, x + y ≤ usize_max → checked_add x y = Some (x + y)) as Hadd
    by (intros; by apply checked_add_Some).
  unfold ENTRY_HEADER_LEN.
  rewrite Hadd by lia. cbn. rewrite Hadd by lia. cbn. rewrite Hadd by lia. cbn.
  rewrite IH by lia. f_equal. lia.
Qed.

Lemma zlen_enc_entries_bound q l :
  q ∈ l → zlen (entry_name q.1) + zlen q.2 ≤ zlen (enc_entries l).
Proof.
  induction 1 as [q l|q p l Hq IH]; rewrite enc_entries_cons, zlen_app, zlen_enc_entry.
  - pose proof (zlen_nonneg (enc_entries l)). lia.
  - pose proof (zlen_nonneg (entry_name p.1)). pose proof (zlen_nonneg p.2). lia.
Qed.

Lemma wf_entry_fits m :
  Metadata_wf m → zlen (enc_entries (entries m)) ≤ u32_max →
  Forall entry_fits (entries m).
Proof.
  intros [_ Hk] Hlen. apply Forall_forall. intros [k v] Hq.
  pose proof (zlen_enc_entries_bound _ _ Hq) as Hb. simpl in Hb.
  pose proof (zlen_nonneg (entry_name k)). pose proof (zlen_nonneg v).
  rewrite Forall_forall in Hk. specialize (Hk _ Hq). split; simpl in *; [|lia].
  destruct k as [k|n]; [done|]. change (entry_name (User n)) with n in *.
  simpl in Hk. unfold validate_user_key in Hk. inv_ok. bool_to_prop. lia.
Qed.

Lemma encode_prefix_wf m output :
  Metadata_wf m → zlen (enc_entries (entries m)) ≤ u32_max →
  encode_prefix m output
  = (output ++ be_bytes 4 (zlen (enc_entries (entries m))) ++ enc_entries (entries m), Ok tt).
Proof.
  intros Hwf Hlen. unfold encode_prefix.
  rewrite encoded_len_fold_spec by (unfold usize_max, u64_max, u32_max in *; lia).
  unfold try_into_max. rewrite Z.add_0_l. apply Z.leb_le in Hlen as Hl. rewrite Hl.
  rewrite write_entries_complete by (by apply wf_entry_fits). by rewrite <- app_assoc.
Qed.

Lemma Metadata_validate_app limits block payload :
  zlen block ≤ max_bytes limits ≤ u32_max →
  run_loop (validate_loop (block_fuel block) block limits 0 0 None) = Ok tt →
  Metadata_validate (be_bytes 4 (zlen block) ++ block ++ payload) limits = Ok (block, payload).
Proof.
  intros [H1 H2] Hloop. pose proof (zlen_nonneg block). pose proof (zlen_nonneg payload).
  unfold Metadata_validate.
  rewrite slice_get_prefix by (by rewrite zlen_be_bytes). rewrite ok_or_bind. cbv zeta.
  rewrite be_val_small by (unfold u32_max in *; lia). rewrite !zlen_app, zlen_be_bytes.
  assert ((Z.of_nat 4 + (zlen block + zlen payload) - 4 <? zlen block) = false) as ->
    by (apply Z.ltb_ge; lia).
  apply Z.ltb_ge in H1 as ->.
  assert (∀ n (l : bytes), drop (4 + n) (be_bytes 4 (zlen block) ++ l) = drop n l) as Hd.
  { done. }
  pose proof (Hd 0%nat (block ++ payload)) as Hd0. cbn [Nat.add] in Hd0.
  rewrite Hd0, drop_0. replace (Z.to_nat (zlen block)) with (length block) by (unfold zlen; lia).
  rewrite take_app_length, Hloop, ok_bind. do 2 f_equal.
  replace (Z.to_nat (4 + zlen block)) with (4 + length block)%nat by (unfold zlen; lia).
  by rewrite Hd, drop_app_length.
Qed.

Lemma Metadata_validate_Ok input limits block payload :
  Metadata_validate input limits = Ok (block, payload) →
  input = be_bytes 4 (zlen block) ++ block ++ payload
  ∧ zlen block ≤ max_bytes limits
  ∧ ∃ es, scan block 0 es ∧ valid_entries limits None 0 es.
Proof.
  unfold Metadata_validate. intros H. inv_ok. bool_to_prop.
  match goal with H : slice_get _ 0 4 = Some ?l |- _ =>
    rename l into lb; apply slice_get_Some in H as (Hin & Hlb & Hle); [|lia] end.
  pose proof (be_val_range lb) as Hr. rewrite Hlb in Hr. simplify_eq.
  simpl in Hin.
  assert (length lb = 4%nat) as Hlb4 by (unfold zlen in Hlb; lia).
  set (n := be_val lb) in *.
  assert (zlen (take (Z.to_nat n) (drop 4 input)) = n) as Hz.
  { unfold zlen in *. rewrite length_take, length_drop. lia. }
  split_and!.
  - rewrite Hz. unfold n. rewrite be_bytes_be_val_n by done. rewrite Hin at 1. f_equal.
    replace (Z.to_nat (4 + be_val lb)) with (4 + Z.to_nat (be_val lb))%nat by lia.
    change (Z.to_nat 4) with 4%nat. rewrite <- drop_drop. fold n. by rewrite take_drop.
  - by rewrite Hz.
  - match goal with u : unit |- _ => destruct u end.
    unfold run_loop in *. case_match eqn:Hl; [|done]. subst.
    by eapply validate_loop_inv.
Qed.

Lemma valid_entries_count limits prev count es :
  valid_entries limits prev count es → count ≤ max_entries limits →
  count + zlen es ≤ max_entries limits.
Proof.
  induction 1 as [|prev count e es Hc1 Hc2 Hvl Ho Hk Hv IH]; intros Hc.
  - unfold zlen. simpl. lia.
  - rewrite zlen_cons. lia.
Qed.

Lemma length_omap_le {A B} (f : A → option B) l : zlen (omap f l) ≤ zlen l.
Proof.
  induction l as [|x l IH]; cbn; [done|].
  destruct (f x); rewrite ?zlen_cons; lia.
Qed.

Lemma stored_facts limits prev count block pos es :
  0 ≤ pos → scan block pos es → valid_entries limits prev count es →
  Forall (λ q, key_valid q.1) (omap stored es)
  ∧ Forall (λ q, zlen q.2 ≤ max_value_bytes limits) (omap stored es).
Proof.
  intros Hpos Hs. revert prev count.
  induction Hs as [pos Hend|pos e es Hlt He Hs IH]; intros prev count Hv; [by split; constructor|].
  inversion Hv as [|? ? ? ? Hc1 Hc2 Hvl Ho Hk Hv']; subst.
  apply raw_entry_Ok in He as (Hend & Hl & _); [|done].
  destruct (IH ltac:(lia) _ _ Hv') as [IH1 IH2]. cbn.
  destruct (stored e) as [[k v]|] eqn:Hst; [|done].
  destruct (stored_order e k v Hk Hst) as [Hok ->].
  split; constructor; try done; simpl; [|lia].
  destruct k as [k|n]; [done|]. simpl. unfold check_key in Hk.
  unfold order_of in Hok. injection Hok as Hid Hn. rewrite <- Hid in Hk. cbn in Hk.
  inv_ok. unfold from_utf8 in *. case_match; simplify_eq. by repeat match goal with u : unit |- _ => destruct u end.
Qed.

Lemma into_metadata_scan limits block es :
  scan block 0 es → valid_entries limits None 0 es →
  into_metadata block = Ok {| entries := omap stored es |}.
Proof.
  intros Hs Hv. unfold into_metadata, Metadata_new.
  erewrite (into_metadata_loop_spec _ _ _ _ _ _ _ []); [done|done|done| |].
  - by apply scan_fuel.
  - intros q Hq. by apply not_elem_of_nil in Hq.
Qed.

(** The encoding of a well-formed block within the limits validates, and the
    loops over it visit its entries. *)
Lemma encoded_block_valid m limits payload :
  Metadata_wf m → within_limits limits m →
  let block := enc_entries (entries m) in
  Metadata_validate (be_bytes 4 (zlen block) ++ block ++ payload) limits = Ok (block, payload)
  ∧ ∃ es, scan block 0 es ∧ valid_entries limits None 0 es ∧ omap stored es = entries m.
Proof.
  intros Hwf (Hb & [Hc Hcu] & Hv). destruct m as [l]. cbn [entries] in *.
  destruct (scan_enc [] l) as (es & Hs & Hr).
  { apply (wf_entry_fits {| entries := l |}); [done|]. simpl. lia. }
  { simpl. unfold usize_max, u64_max, u32_max in *. lia. }
  destruct Hwf as [Hsort Hk].
  destruct (reads_valid limits None 0 l es) as [Hval Hst]; [done..|lia|done|].
  change (zlen []) with 0 in Hs. change ([] ++ enc_entries l) with (enc_entries l) in Hs.
  split; [|by exists es].
  apply Metadata_validate_app; [done|].
  erewrite validate_loop_complete; [done|done|done|]. by apply scan_fuel.
Qed.

(** * Properties *)

(** C39 Validation of a metadata block terminates: with one iteration of fuel
    per block byte (plus the exit test) the validation loop always returns,
    because each accepted entry consumes at least its seven-byte header. *)
Theorem validate_loop_total block limits :
  is_Some (validate_loop (block_fuel block) block limits 0 0 None).
Proof.
  apply validate_loop_total_gen; [done|]. unfold block_fuel, zlen. lia.
Qed.

(** C2 Validation is sound: an accepted prefix splits its input exactly into a
    four-byte length, the block and the payload; the block stays within the byte
    limit; materializing it cannot fail, and the result is a well-formed map
    (sorted keys, valid user names) within the entry and value limits. *)
Theorem Metadata_validate_sound input limits block payload :
  0 ≤ max_entries limits →
  Metadata_validate input limits = Ok (block, payload) →
  input = be_bytes 4 (zlen block) ++ block ++ payload
  ∧ zlen block ≤ max_bytes limits
  ∧ ∃ m, into_metadata block = Ok m ∧ Metadata_wf m
      ∧ zlen (entries m) ≤ max_entries limits
      ∧ Forall (λ q, zlen q.2 ≤ max_value_bytes limits) (entries m).
Proof.
  intros Hme (Hin & Hmax & es & Hs & Hv)%Metadata_validate_Ok. split_and!; [done..|].
  exists {| entries := omap stored es |}. split; [by eapply into_metadata_scan|].
  destruct (stored_facts limits None 0 block 0 es) as [Hk Hvl]; [done..|].
  pose proof (length_omap_le stored es). pose proof (valid_entries_count _ _ _ _ Hv Hme).
  split_and!; [split; [by eapply stored_sorted|done]|simpl; lia|done].
Qed.

(** C31 Metadata round trips: a well-formed block within the decoder's limits is
    always encoded, and decoding the encoding followed by any payload returns the
    same block and that payload. *)
Theorem Metadata_roundtrip m limits payload :
  Metadata_wf m → within_limits limits m →
  ∃ out, encode_prefix m [] = (out, Ok tt)
    ∧ Metadata_decode (out ++ payload) limits = Ok (m, payload).
Proof.
  intros Hwf Hl. destruct (encoded_block_valid m limits payload Hwf Hl) as (Hval & es & Hs & Hv & Hst).
  rewrite encode_prefix_wf by (done || apply Hl || (destruct Hl; lia)).
  eexists; split; [done|]. cbn [app]. rewrite <- app_assoc.
  unfold Metadata_decode. rewrite Hval, ok_bind. erewrite into_metadata_scan by done.
  rewrite ok_bind, Hst. by destruct m.
Qed.

(** The allocation-free lookup agrees with the owned map: on a validated
    block, [get_reserved] returns exactly what looking the key up in the
    materialized metadata returns. *)
Theorem get_reserved_correct input limits block payload m key :
  Metadata_validate input limits = Ok (block, payload) →
  into_metadata block = Ok m →
  get_reserved block key = Metadata_get m (Reserved key).
Proof.
  intros (_ & _ & es & Hs & Hv)%Metadata_validate_Ok Hm.
  erewrite into_metadata_scan in Hm by done. simplify_eq. unfold get_reserved.
  eapply get_reserved_loop_spec; [done..|]. by apply scan_fuel.
Qed.

(** The borrowed iterator agrees with the owned map: on a validated block,
    [reserved_entries] yields exactly the runtime-owned entries of the
    materialized metadata, each once, in key order. *)
Theorem reserved_entries_correct input limits block payload m :
  Metadata_validate input limits = Ok (block, payload) →
  into_metadata block = Ok m →
  reserved_entries block = reserved_of (entries m).
Proof.
  intros (_ & _ & es & Hs & Hv)%Metadata_validate_Ok Hm.
  erewrite into_metadata_scan in Hm by done. simplify_eq. unfold reserved_entries.
  eapply reserved_entries_loop_spec; [done..|]. by apply scan_fuel.
Qed.

(** The owned block keeps its invariant: inserting a valid key preserves
    well-formedness, stores the value, leaves every other
    key alone and refuses a key that is present. *)
Theorem Metadata_insert_correct m key value :
  Metadata_wf m → key_valid key →
  match Metadata_insert m key value with
  | Ok m' =>
      Metadata_get m key = None ∧ Metadata_wf m' ∧ Metadata_get m' key = Some value
      ∧ ∀ k, k ≠ key → Metadata_get m' k = Metadata_get m k
  | Err e => e = DuplicateMetadataKey ∧ is_Some (Metadata_get m key)
  end.
Proof.
  intros [Hs Hk] Hkey. unfold Metadata_insert, bt_contains, Metadata_get.
  destruct (bt_get key (entries m)) as [v|] eqn:Hg; [by eauto|]. simpl.
  split_and!; [done| |apply bt_get_insert_eq|by intros; apply bt_get_insert_ne].
  split; [by apply bt_insert_sorted|by apply bt_insert_Forall].
Qed.

(** ** Witnesses *)

Definition sample_metadata : Metadata :=
  {| entries := [(Reserved ReservedMetadataKey.DeadlineMillis, be_bytes 4 250);
                 (User (as_bytes "tenant"), as_bytes "x")] |}.

Lemma sample_metadata_wf : Metadata_wf sample_metadata.
Proof.
  split.
  - repeat constructor.
  - repeat constructor.
Qed.

Definition sample_input : bytes := (encode_prefix sample_metadata []).1 ++ [x2a].

Lemma Metadata_validate_sound_witness :
  ∃ m, into_metadata (drop 4 (encode_prefix sample_metadata []).1) = Ok m.
Proof.
  destruct (Metadata_validate_sound sample_input MetadataLimits_default
    (drop 4 (encode_prefix sample_metadata []).1) [x2a]) as (_ & _ & m & Hm & _).
  - vm_compute; discriminate.
  - vm_compute; reflexivity.
  - exists m. exact Hm.
Defined.

Lemma Metadata_roundtrip_witness :
  ∃ out, encode_prefix sample_metadata [] = (out, Ok tt)
    ∧ Metadata_decode (out ++ [x2a]) MetadataLimits_default = Ok (sample_metadata, [x2a]).
Proof.
  apply Metadata_roundtrip; [apply sample_metadata_wf|].
  split_and!; try (vm_compute; discriminate). repeat constructor; vm_compute; discriminate.
Defined.

Lemma get_reserved_correct_witness :
  get_reserved (drop 4 (encode_prefix sample_metadata []).1)
    ReservedMetadataKey.DeadlineMillis = Some (be_bytes 4 250).
Proof.
  rewrite (get_reserved_correct sample_input MetadataLimits_default _ [x2a] sample_metadata);
    vm_compute; reflexivity.
Defined.

Lemma reserved_entries_correct_witness :
  reserved_entries (drop 4 (encode_prefix sample_metadata []).1)
  = [(ReservedMetadataKey.DeadlineMillis, be_bytes 4 250)].
Proof.
  rewrite (reserved_entries_correct sample_input MetadataLimits_default _ [x2a] sample_metadata);
    vm_compute; reflexivity.
Defined.

Lemma Metadata_insert_correct_witness :
  ∃ m', Metadata_insert sample_metadata (User (as_bytes "zone")) [x01] = Ok m'
    ∧ Metadata_wf m'.
Proof.
  pose proof (Metadata_insert_correct sample_metadata (User (as_bytes "zone")) [x01]
    sample_metadata_wf eq_refl) as H.
  destruct (Metadata_insert sample_metadata (User (as_bytes "zone")) [x01]) as [m'|e].
  - exists m'. split; [reflexivity|]. apply H.
  - destruct H as [_ H]. vm_compute in H. destruct H as [? H]. discriminate H.
Defined.
