(* ===== verification/Compression.v ===== *)
(** Bounded payload compression and the process-shared decoded-byte budget of
    [moonlight-bridge-protocol/src/compression.rs].  The zstd library is a
    parameter; the budget's compare-exchange loop is a step relation over
    interleaved threads, beside the run of one thread in isolation that the
    decoder uses. *)
From S2P Require Import Prelude.

Module CompressionCodec.
Inductive CompressionCodec := None | Zstd.
#[global] Instance CompressionCodec_eq_dec : EqDecision CompressionCodec.
Proof. solve_decision. Defined.
End CompressionCodec.
Abbreviation CompressionCodec := CompressionCodec.CompressionCodec.

Module CompressionError.
Inductive CompressionError :=
  | InvalidPolicy
  | InvalidBudget
  | UnknownCodec (value : Z)
  | CodecFailure
  | CorruptPayload
  | DecodedLengthTooLarge (announced maximum : Z)
  | DecodedLengthMismatch (announced actual : Z)
  | ExpansionRatioExceeded (compressed decoded maximum_ratio : Z)
  | DecodedBudgetExhausted (requested available : Z).
#[global] Instance CompressionError_eq_dec : EqDecision CompressionError.
Proof. solve_decision. Defined.
End CompressionError.
Abbreviation CompressionError := CompressionError.CompressionError.

Definition CompressionCodec_as_u8 (c : CompressionCodec) : Z :=
  match c with CompressionCodec.None => 0 | CompressionCodec.Zstd => 1 end.

Definition CompressionCodec_try_from (value : Z) : result CompressionError CompressionCodec :=
  match value with
  | 0 => Ok CompressionCodec.None
  | 1 => Ok CompressionCodec.Zstd
  | other => Err (CompressionError.UnknownCodec other)
  end.

Lemma CompressionCodec_try_from_as_u8 c :
  CompressionCodec_try_from (CompressionCodec_as_u8 c) = Ok c.
Proof. by destruct c. Qed.

(** ** Policies *)

Record CompressionPolicy := MkCompressionPolicy {
  min_payload_bytes : Z;
  min_savings_bytes : Z;
  max_decoded_body_len : Z;
  max_expansion_ratio : Z;
  compression_level : Z;
}.

Definition CompressionPolicy_default : CompressionPolicy :=
  {| min_payload_bytes := 1024;
     min_savings_bytes := 64;
     max_decoded_body_len := 16 * 1024 * 1024;
     max_expansion_ratio := 64;
     compression_level := 1 |}.

Record CompressedPayload := MkCompressedPayload {
  cp_codec : CompressionCodec;
  cp_original_len : Z;
  cp_bytes : bytes;
}.

Definition CompressionPolicy_validate (p : CompressionPolicy) : result CompressionError unit :=
  if (max_decoded_body_len p =? 0) || (max_expansion_ratio p =? 0)
  then Err CompressionError.InvalidPolicy
  else Ok tt.

(** * The decoded-byte budget *)

Record BudgetInner := MkBudgetInner {
  bi_capacity : Z;
  bi_used : Z;
}.

Record DecodedBytePermit := MkDecodedBytePermit { reserved : Z }.

Definition DecodedByteBudget_new (capacity : Z) : result CompressionError BudgetInner :=
  if capacity =? 0 then Err CompressionError.InvalidBudget
  else Ok {| bi_capacity := capacity; bi_used := 0 |}.

(** One turn of the loop before its compare-exchange: the value to install,
    from the value last observed. *)
Definition try_reserve_turn (capacity requested used : Z) : result CompressionError Z :=
  let available := saturating_sub capacity used in
  if requested >? available
  then Err (CompressionError.DecodedBudgetExhausted requested available)
  else match checked_add used requested with
       | None => Err (CompressionError.DecodedBudgetExhausted requested available)
       | Some updated => Ok updated
       end.

(** The loop of one thread that runs alone: [spurious] lists the outcomes of
    the weak compare-exchange's spurious failures, which re-read the counter. *)
Fixpoint try_reserve_loop (spurious : list bool) (b : BudgetInner) (requested used : Z)
    : result CompressionError (BudgetInner * DecodedBytePermit) :=
  match try_reserve_turn (bi_capacity b) requested used with
  | Err e => Err e
  | Ok updated =>
      let install :=
        Ok ({| bi_capacity := bi_capacity b; bi_used := updated |},
            {| reserved := requested |}) in
      match spurious with
      | true :: rest => try_reserve_loop rest b requested (bi_used b)
      | false :: _ | [] => install
      end
  end.

Definition try_reserve (spurious : list bool) (b : BudgetInner) (requested : Z)
    : result CompressionError (BudgetInner * DecodedBytePermit) :=
  try_reserve_loop spurious b requested (bi_used b).

(** [fetch_sub] wraps at the width of [usize]. *)
Definition DecodedBytePermit_drop (p : DecodedBytePermit) (b : BudgetInner) : BudgetInner :=
  {| bi_capacity := bi_capacity b;
     bi_used := (bi_used b - reserved p) mod 2 ^ 64 |}.

Definition budget_wf (b : BudgetInner) : Prop :=
  0 ≤ bi_used b ≤ bi_capacity b ∧ bi_capacity b ≤ usize_max.

Lemma try_reserve_turn_spec capacity requested used :
  0 ≤ used ≤ capacity → capacity ≤ usize_max → 0 ≤ requested →
  try_reserve_turn capacity requested used =
  if requested <=? capacity - used then Ok (used + requested)
  else Err (CompressionError.DecodedBudgetExhausted requested (capacity - used)).
Proof.
  intros. unfold try_reserve_turn, saturating_sub, checked_add.
  rewrite Z.max_r, Z.gtb_ltb by lia.
  destruct (capacity - used <? requested) eqn:E, (requested <=? capacity - used) eqn:E';
    bool_to_prop; try lia; [done|].
  by destruct (used + requested <=? usize_max) eqn:E''; bool_to_prop; [|lia].
Qed.

Lemma try_reserve_spec spurious b requested :
  budget_wf b → 0 ≤ requested →
  try_reserve spurious b requested =
  if requested <=? bi_capacity b - bi_used b
  then Ok ({| bi_capacity := bi_capacity b; bi_used := bi_used b + requested |},
           {| reserved := requested |})
  else Err (CompressionError.DecodedBudgetExhausted requested (bi_capacity b - bi_used b)).
Proof.
  intros [Hu Hc] Hr. unfold try_reserve.
  induction spurious as [|s sp IH]; simpl; rewrite try_reserve_turn_spec by lia;
    [|destruct s; [rewrite IH|]]; by destruct (_ <=? _).
Qed.

Lemma drop_reserved b n :
  budget_wf b → 0 ≤ n → n + bi_used b ≤ bi_capacity b →
  DecodedBytePermit_drop {| reserved := n |}
    {| bi_capacity := bi_capacity b; bi_used := bi_used b + n |} = b.
Proof.
  intros [Hu Hc] Hn Hle. destruct b as [c u]. unfold DecodedBytePermit_drop. simpl in *.
  f_equal. rewrite Z.mod_small; [lia|]. unfold usize_max, u64_max in *. lia.
Qed.

(** * Encoding and decoding payloads *)

(** What the code uses of the zstd crate: [zstd::bulk::compress(payload, level)]
    and [zstd::bulk::decompress(encoded, capacity)]; [None] is an error. *)
Class ZstdOps := {
  zstd_compress : bytes → Z → option bytes;
  zstd_decompress : bytes → Z → option bytes;
}.

(** The documented behaviour the properties rely on: decompression inverts
    compression when the output fits the capacity given. *)
Class ZstdLaws (Z0 : ZstdOps) : Prop := {
  zstd_roundtrip payload level compressed capacity :
    zstd_compress payload level = Some compressed → zlen payload ≤ capacity →
    zstd_decompress compressed capacity = Some payload;
}.

Section codec.
Context `{Z0 : ZstdOps}.

Definition CompressionPolicy_encode (p : CompressionPolicy) (payload : bytes)
    (codec : CompressionCodec) : result CompressionError CompressedPayload :=
  _ ← CompressionPolicy_validate p;
  original_len ←
    ok_or (try_into_max u32_max (zlen payload))
      (CompressionError.DecodedLengthTooLarge u32_max (max_decoded_body_len p));
  if original_len >? max_decoded_body_len p
  then Err (CompressionError.DecodedLengthTooLarge original_len (max_decoded_body_len p))
  else if bool_decide (codec = CompressionCodec.None) || (zlen payload <? min_payload_bytes p)
  then Ok {| cp_codec := CompressionCodec.None;
             cp_original_len := original_len;
             cp_bytes := payload |}
  else
    compressed ←
      ok_or (zstd_compress payload (compression_level p)) CompressionError.CodecFailure;
    let worthwhile :=
      match checked_add (zlen compressed) (min_savings_bytes p) with
      | Some minimum_original => minimum_original <=? zlen payload
      | None => false
      end in
    let within_ratio := zlen payload <=? zlen compressed * max_expansion_ratio p in
    if worthwhile && within_ratio
    then Ok {| cp_codec := codec; cp_original_len := original_len; cp_bytes := compressed |}
    else Ok {| cp_codec := CompressionCodec.None;
               cp_original_len := original_len;
               cp_bytes := payload |}.

(** The budget after the call and the call's result: on the error paths after
    the reservation the permit is dropped with the frame. *)
Definition decode_with_reservation (spurious : list bool) (p : CompressionPolicy)
    (codec : CompressionCodec) (encoded : bytes) (original_len : Z) (budget : BudgetInner)
    : BudgetInner * result CompressionError (bytes * option DecodedBytePermit) :=
  match CompressionPolicy_validate p with
  | Err e => (budget, Err e)
  | Ok _ =>
    if original_len >? max_decoded_body_len p
    then (budget, Err (CompressionError.DecodedLengthTooLarge original_len
                         (max_decoded_body_len p)))
    else if bool_decide (codec = CompressionCodec.None)
    then if negb (zlen encoded =? original_len)
         then (budget, Err (CompressionError.DecodedLengthMismatch original_len (zlen encoded)))
         else (budget, Ok (encoded, None))
    else
      let maximum_from_ratio := zlen encoded * max_expansion_ratio p in
      if original_len >? maximum_from_ratio
      then (budget, Err (CompressionError.ExpansionRatioExceeded (zlen encoded) original_len
                           (max_expansion_ratio p)))
      else
        match try_reserve spurious budget original_len with
        | Err e => (budget, Err e)
        | Ok (budget', reservation) =>
          match zstd_decompress encoded original_len with
          | None => (DecodedBytePermit_drop reservation budget',
                     Err CompressionError.CorruptPayload)
          | Some decoded =>
            if negb (zlen decoded =? original_len)
            then (DecodedBytePermit_drop reservation budget',
                  Err (CompressionError.DecodedLengthMismatch original_len (zlen decoded)))
            else (budget', Ok (decoded, Some reservation))
          end
        end
  end.

(** [decode] drops the reservation, when there is one, on return. *)
Definition CompressionPolicy_decode (spurious : list bool) (p : CompressionPolicy)
    (codec : CompressionCodec) (encoded : bytes) (original_len : Z) (budget : BudgetInner)
    : BudgetInner * result CompressionError bytes :=
  match decode_with_reservation spurious p codec encoded original_len budget with
  | (budget', Ok (decoded, Some reservation)) =>
      (DecodedBytePermit_drop reservation budget', Ok decoded)
  | (budget', Ok (decoded, None)) => (budget', Ok decoded)
  | (budget', Err e) => (budget', Err e)
  end.

(** ** What a successful encoding is *)

Lemma validate_Ok p u :
  CompressionPolicy_validate p = Ok u →
  max_decoded_body_len p ≠ 0 ∧ max_expansion_ratio p ≠ 0.
Proof. unfold CompressionPolicy_validate. case_match eqn:E; [done|]. intros. bool_to_prop. lia. Qed.

Lemma encode_inv p payload codec cp :
  CompressionPolicy_encode p payload codec = Ok cp →
  CompressionPolicy_validate p = Ok tt ∧
  cp_original_len cp = zlen payload ∧ zlen payload ≤ u32_max ∧
  zlen payload ≤ max_decoded_body_len p ∧
  (cp_codec cp = CompressionCodec.None ∧ cp_bytes cp = payload ∨
   codec = CompressionCodec.Zstd ∧ cp_codec cp = CompressionCodec.Zstd ∧
   min_payload_bytes p ≤ zlen payload ∧
   zlen (cp_bytes cp) + min_savings_bytes p ≤ zlen payload ∧
   zlen payload ≤ zlen (cp_bytes cp) * max_expansion_ratio p ∧
   zstd_compress payload (compression_level p) = Some (cp_bytes cp)).
Proof.
  unfold CompressionPolicy_encode. intros H. apply bind_Ok in H as ([] & Hv & H).
  inv_ok. rewrite Z.gtb_ltb in *. bool_to_prop. split_and!; [done| | lia | |].
  all: case_match eqn:Ec; inv_ok; [done || auto|]; repeat case_match; simplify_eq/=; auto.
  all: bool_to_prop; try discriminate.
  right. inv_ok. simplify_eq. bool_to_prop.
  destruct codec; [rewrite bool_decide_true in * by done; done|].
  split_and!; try done; lia.
Qed.

Definition budget_admits (b : BudgetInner) (cp : CompressedPayload) : Prop :=
  cp_codec cp = CompressionCodec.Zstd → cp_original_len cp ≤ bi_capacity b - bi_used b.

(** The reservation that decoding an encoded payload takes. *)
Definition charge_budget (b : BudgetInner) (n : Z) : BudgetInner :=
  {| bi_capacity := bi_capacity b; bi_used := bi_used b + n |}.

Definition decoding_charge (b : BudgetInner) (cp : CompressedPayload)
    : BudgetInner * option DecodedBytePermit :=
  match cp_codec cp with
  | CompressionCodec.None => (b, None)
  | CompressionCodec.Zstd =>
      (charge_budget b (cp_original_len cp), Some {| reserved := cp_original_len cp |})
  end.

Lemma decode_with_reservation_encoded `{!ZstdLaws Z0} spurious p payload codec cp budget :
  CompressionPolicy_encode p payload codec = Ok cp → budget_wf budget →
  budget_admits budget cp →
  decode_with_reservation spurious p (cp_codec cp) (cp_bytes cp) (cp_original_len cp) budget
  = ((decoding_charge budget cp).1, Ok (payload, (decoding_charge budget cp).2)).
Proof.
  intros (Hv & Hlen & Hu & Hmax & Hcase)%encode_inv Hwf Hadm.
  unfold decode_with_reservation, decoding_charge, budget_admits in *.
  rewrite Hv, Hlen in *. rewrite Z.gtb_ltb, (proj2 (Z.ltb_ge _ _)) by lia.
  pose proof (zlen_nonneg payload).
  destruct Hcase as [(-> & ->) | (_ & Hc & _ & _ & Hr & Hz)].
  - rewrite bool_decide_true by done. by rewrite Z.eqb_refl.
  - rewrite Hc. rewrite Z.gtb_ltb, (proj2 (Z.ltb_ge _ _)) by lia. cbn [bool_decide].
    rewrite try_reserve_spec, (proj2 (Z.leb_le _ _)) by auto.
    rewrite (zstd_roundtrip _ _ _ _ Hz), Z.eqb_refl by lia. done.
Qed.

Lemma decode_encoded `{!ZstdLaws Z0} spurious p payload codec cp budget :
  CompressionPolicy_encode p payload codec = Ok cp → budget_wf budget →
  budget_admits budget cp →
  CompressionPolicy_decode spurious p (cp_codec cp) (cp_bytes cp) (cp_original_len cp) budget
  = (budget, Ok payload).
Proof.
  intros He Hwf Hadm. unfold CompressionPolicy_decode.
  rewrite (decode_with_reservation_encoded spurious p payload codec cp budget He Hwf Hadm).
  apply encode_inv in He as (_ & Hlen & _). pose proof (zlen_nonneg payload).
  unfold decoding_charge, budget_admits in *. destruct (cp_codec cp); [done|]. simpl.
  f_equal. apply drop_reserved; try done; [lia|]. specialize (Hadm eq_refl). lia.
Qed.

Lemma decode_with_reservation_Ok spurious p codec encoded n budget budget' decoded permit :
  budget_wf budget → 0 ≤ n →
  decode_with_reservation spurious p codec encoded n budget = (budget', Ok (decoded, permit)) →
  zlen decoded = n ∧ n ≤ max_decoded_body_len p ∧
  (codec = CompressionCodec.None ∧ decoded = encoded ∧ permit = None ∧ budget' = budget ∨
   codec = CompressionCodec.Zstd ∧ n ≤ zlen encoded * max_expansion_ratio p ∧
   permit = Some {| reserved := n |} ∧ bi_capacity budget' = bi_capacity budget ∧
   bi_used budget' = bi_used budget + n ∧ budget_wf budget').
Proof.
  intros Hwf Hn. unfold decode_with_reservation.
  destruct (CompressionPolicy_validate p); [|done]. rewrite !Z.gtb_ltb.
  case_match; [done|]. case_match eqn:Ec.
  { apply bool_decide_eq_true in Ec. case_match; [done|]. intros. simplify_eq.
    bool_to_prop. split_and!; try lia. by left. }
  case_match; [done|]. rewrite try_reserve_spec by done.
  destruct (n <=? bi_capacity budget - bi_used budget) eqn:Eb; [|done].
  destruct (zstd_decompress _ _); [|done]. case_match; [done|].
  intros. simplify_eq. bool_to_prop. split_and!; try lia. right.
  destruct codec; [by rewrite bool_decide_true in Ec|].
  unfold budget_wf in *. simpl. split_and!; try done; lia.
Qed.

Lemma decode_with_reservation_Err spurious p codec encoded n budget budget' e :
  budget_wf budget → 0 ≤ n →
  decode_with_reservation spurious p codec encoded n budget = (budget', Err e) →
  budget' = budget.
Proof.
  intros Hwf Hn. unfold decode_with_reservation.
  repeat (case_match; try naive_solver); try (unfold CompressionPolicy_validate in *; naive_solver);
  rewrite try_reserve_spec in * by done; case_match; simplify_eq; bool_to_prop;
  intros; simplify_eq; symmetry; symmetry; apply drop_reserved; auto; lia.
Qed.
End codec.

(** * Interleaved reservations *)

(** A thread is outside [try_reserve], in its loop with the value it last
    observed, or holds a permit. *)
Inductive budget_thread :=
  | Idle
  | Trying (requested seen : Z)
  | Holding (permit : DecodedBytePermit).

Record budget_world := MkBudgetWorld {
  bw_budget : BudgetInner;
  bw_threads : list budget_thread;
}.

Definition set_used (b : BudgetInner) (u : Z) : BudgetInner :=
  {| bi_capacity := bi_capacity b; bi_used := u |}.

(** The atomic steps: the initial load, the return of an error, the
    compare-exchange (which installs only over the value it expected, and may
    fail spuriously), the drop of a permit. *)
Inductive budget_step : budget_world → budget_world → Prop :=
  | step_load b ts i requested :
      ts !! i = Some Idle → 0 ≤ requested ≤ usize_max →
      budget_step (MkBudgetWorld b ts)
        (MkBudgetWorld b (<[i := Trying requested (bi_used b)]> ts))
  | step_refuse b ts i requested seen e :
      ts !! i = Some (Trying requested seen) →
      try_reserve_turn (bi_capacity b) requested seen = Err e →
      budget_step (MkBudgetWorld b ts) (MkBudgetWorld b (<[i := Idle]> ts))
  | step_exchange b ts i requested updated :
      ts !! i = Some (Trying requested (bi_used b)) →
      try_reserve_turn (bi_capacity b) requested (bi_used b) = Ok updated →
      budget_step (MkBudgetWorld b ts)
        (MkBudgetWorld (set_used b updated)
           (<[i := Holding {| reserved := requested |}]> ts))
  | step_retry b ts i requested seen updated :
      ts !! i = Some (Trying requested seen) →
      try_reserve_turn (bi_capacity b) requested seen = Ok updated →
      budget_step (MkBudgetWorld b ts)
        (MkBudgetWorld b (<[i := Trying requested (bi_used b)]> ts))
  | step_drop b ts i permit :
      ts !! i = Some (Holding permit) →
      budget_step (MkBudgetWorld b ts)
        (MkBudgetWorld (DecodedBytePermit_drop permit b) (<[i := Idle]> ts)).

Definition thread_reserved (t : budget_thread) : Z :=
  match t with Holding p => reserved p | _ => 0 end.

(** Observed values are values the counter had; permits are non-negative. *)
Definition thread_wf (capacity : Z) (t : budget_thread) : Prop :=
  match t with
  | Idle => True
  | Trying requested seen => 0 ≤ requested ∧ 0 ≤ seen ≤ capacity
  | Holding p => 0 ≤ reserved p
  end.

Definition budget_inv (capacity : Z) (w : budget_world) : Prop :=
  bi_capacity (bw_budget w) = capacity ∧ budget_wf (bw_budget w) ∧
  bi_used (bw_budget w) = zsum thread_reserved (bw_threads w) ∧
  Forall (thread_wf capacity) (bw_threads w).

Lemma Forall_insert_wf {A} (P : A → Prop) l i x : Forall P l → P x → Forall P (<[i := x]> l).
Proof. intros. by apply Forall_insert. Qed.

Lemma thread_reserved_nonneg capacity ts t :
  Forall (thread_wf capacity) ts → t ∈ ts → 0 ≤ thread_reserved t.
Proof. rewrite Forall_forall. intros H Ht. specialize (H t Ht). destruct t; simpl in *; lia. Qed.

Lemma budget_step_inv capacity w w' :
  budget_inv capacity w → budget_step w w' → budget_inv capacity w'.
Proof.
  intros (Hc & Hwf & Hs & Hts) Hstep.
  assert (∀ i t, bw_threads w !! i = Some t → thread_wf capacity t) as Hget
    by (intros i t Hi; by eapply Forall_lookup_1).
  destruct Hstep; simpl in *; unfold budget_inv; simpl;
    match goal with H : _ !! _ = Some _ |- _ =>
      pose proof (Hget _ _ H) as Hi; pose proof (zsum_insert thread_reserved _ _ _ Idle H);
      erewrite zsum_insert by exact H end;
    simpl in *; destruct Hwf as [Hu Hcap].
  - split_and!; try done; try lia. apply Forall_insert_wf; [done|]. simpl. lia.
  - split_and!; try done; try lia. by apply Forall_insert_wf.
  - rewrite try_reserve_turn_spec in H0 by lia. case_match; [|done]. simplify_eq.
    bool_to_prop. unfold budget_wf. simpl. split_and!; try done; try lia.
    apply Forall_insert_wf; [done|]. simpl. lia.
  - split_and!; try done; try lia. apply Forall_insert_wf; [done|]. simpl. lia.
  - assert (reserved permit ≤ zsum thread_reserved ts).
    { apply (zsum_elem_le thread_reserved ts i (Holding permit)); [|done].
      intros. by eapply thread_reserved_nonneg. }
    unfold budget_wf. simpl.
    rewrite Z.mod_small by (unfold usize_max, u64_max in *; lia).
    split_and!; try done; try lia.
    by apply Forall_insert_wf.
Qed.

Definition budget_start (capacity : Z) (n : nat) : budget_world :=
  {| bw_budget := {| bi_capacity := capacity; bi_used := 0 |};
     bw_threads := replicate n Idle |}.

Lemma zsum_replicate_idle n : zsum thread_reserved (replicate n Idle) = 0.
Proof. induction n; simpl in *; lia. Qed.

Lemma budget_start_inv capacity n :
  0 ≤ capacity ≤ usize_max → budget_inv capacity (budget_start capacity n).
Proof.
  intros. unfold budget_inv, budget_wf. simpl. rewrite zsum_replicate_idle.
  split_and!; try done; try lia. by apply Forall_replicate.
Qed.

Lemma budget_reachable_inv capacity w w' :
  budget_inv capacity w → rtc budget_step w w' → budget_inv capacity w'.
Proof. intros H. induction 1; [done|]. eauto using budget_step_inv. Qed.

(** * Properties *)

(** C32 Whatever [CompressionPolicy::encode] produces, the same policy decodes
    back to the original payload, whether or not it was compressed, provided
    the shared budget has room for it; the budget is as before afterwards.  The
    compressed form is kept only when it saves at least [min_savings_bytes],
    so compression never makes a payload longer. *)
Theorem compression_roundtrip `{Z0 : ZstdOps} (L : ZstdLaws Z0) spurious p payload codec cp budget :
  CompressionPolicy_encode p payload codec = Ok cp →
  0 ≤ min_savings_bytes p → budget_wf budget → budget_admits budget cp →
  CompressionPolicy_decode spurious p (cp_codec cp) (cp_bytes cp) (cp_original_len cp) budget
  = (budget, Ok payload) ∧
  zlen (cp_bytes cp) ≤ zlen payload ∧
  (cp_codec cp = CompressionCodec.Zstd →
   zlen (cp_bytes cp) + min_savings_bytes p ≤ zlen payload).
Proof.
  intros He Hm Hb Ha. split; [by eapply decode_encoded|].
  apply encode_inv in He as (_ & _ & _ & _ & [[Hc ->]|(_ & _ & _ & Hs & _)]).
  - split; [lia|]. by rewrite Hc.
  - split; [lia|done].
Qed.

(** C16 A decoded payload has exactly the announced length, which is within the
    policy's decoded-size bound and, for compressed data, within the expansion
    ratio, and its bytes stay charged to the shared budget while the permit
    lives; on every error path the budget is left as it was. *)
Theorem decode_with_reservation_bounded `{Z0 : ZstdOps} spurious p codec encoded n budget :
  budget_wf budget → 0 ≤ n →
  let '(budget', r) := decode_with_reservation spurious p codec encoded n budget in
  match r with
  | Err _ => budget' = budget
  | Ok (decoded, permit) =>
      zlen decoded = n ∧ n ≤ max_decoded_body_len p ∧
      budget_wf budget' ∧ bi_capacity budget' = bi_capacity budget ∧
      match permit with
      | None => codec = CompressionCodec.None ∧ decoded = encoded ∧ budget' = budget
      | Some permit =>
          codec = CompressionCodec.Zstd ∧ n ≤ zlen encoded * max_expansion_ratio p ∧
          reserved permit = n ∧ bi_used budget' = bi_used budget + n ∧
          DecodedBytePermit_drop permit budget' = budget
      end
  end.
Proof.
  intros Hwf Hn. destruct (decode_with_reservation _ _ _ _ _ _) as [b' [[d q]|e]] eqn:E.
  - apply decode_with_reservation_Ok in E as (? & ? & [(-> & -> & -> & ->)|(-> & ? & -> & Hc & Hu & Hwf')]);
      [done| |done|done].
    split_and!; try done.
    rewrite <- (drop_reserved budget n); [|done|done|destruct Hwf'; lia].
    by rewrite <- Hc, <- Hu; destruct b'.
  - by eapply decode_with_reservation_Err.
Qed.

(** C17 Under every interleaving of the budget's atomic steps, by any number of
    threads, the counter equals the sum of the permits held and never exceeds
    the capacity, so no drop of a permit wraps around. *)
Theorem budget_never_exceeded capacity n w :
  0 ≤ capacity ≤ usize_max →
  rtc budget_step (budget_start capacity n) w →
  bi_used (bw_budget w) = zsum thread_reserved (bw_threads w) ∧
  bi_used (bw_budget w) ≤ capacity ∧
  (∀ i permit, bw_threads w !! i = Some (Holding permit) →
     bi_used (DecodedBytePermit_drop permit (bw_budget w))
     = bi_used (bw_budget w) - reserved permit).
Proof.
  intros Hc Hr.
  destruct (budget_reachable_inv capacity _ _ (budget_start_inv capacity n Hc) Hr)
    as (Hcap & [Hu Hm] & Hs & Hts).
  split_and!; [done|lia|]. intros i permit Hi. unfold DecodedBytePermit_drop. simpl.
  pose proof (Forall_lookup_1 _ _ _ _ Hts Hi) as Hp. simpl in Hp.
  pose proof (zsum_elem_le thread_reserved _ _ _
    (λ t, thread_reserved_nonneg capacity _ t Hts) Hi) as Hle.
  simpl in Hle. apply Z.mod_small. unfold usize_max, u64_max in *. lia.
Qed.

(** ** A concrete codec *)

(** A codec that stores one byte and a count for a constant payload, and the
    payload itself otherwise. *)
Definition is_run (p : bytes) : bool :=
  match p with
  | [] => false
  | b :: _ => bool_decide (p = replicate (length p) b) && (zlen p <=? u32_max)
  end.

Definition run_compress (p : bytes) (level : Z) : option bytes :=
  match p with
  | b :: _ => if is_run p then Some (x01 :: b :: be_bytes 4 (zlen p)) else Some (x00 :: p)
  | [] => Some [x00]
  end.

Definition run_decompress (c : bytes) (capacity : Z) : option bytes :=
  let p := match c with
           | x01 :: b :: n => replicate (Z.to_nat (be_val n)) b
           | _ :: p => p
           | [] => []
           end in
  if zlen p <=? capacity then Some p else None.

#[export] Instance run_ops : ZstdOps :=
  {| zstd_compress := run_compress; zstd_decompress := run_decompress |}.

Lemma run_laws : ZstdLaws run_ops.
Proof.
  constructor. intros p level c capacity H Hle. simpl in *.
  unfold run_decompress. assert (match c with
           | x01 :: b :: n => replicate (Z.to_nat (be_val n)) b
           | _ :: p => p
           | [] => []
           end = p) as ->.
  2: { by rewrite (proj2 (Z.leb_le _ _)). }
  unfold run_compress in H. destruct p as [|b p]; [by simplify_eq|].
  destruct (is_run (b :: p)) eqn:E; [|by simplify_eq].
  unfold is_run in E. apply andb_prop in E as [E%bool_decide_eq_true Hz].
  bool_to_prop. simplify_eq. rewrite be_val_small.
  - rewrite E at 2. unfold zlen. by rewrite Nat2Z.id.
  - unfold u32_max in Hz. pose proof (zlen_nonneg (b :: p)). simpl. lia.
Qed.

Definition witness_policy : CompressionPolicy :=
  {| min_payload_bytes := 8; min_savings_bytes := 4; max_decoded_body_len := 64;
     max_expansion_ratio := 8; compression_level := 1 |}.
Definition witness_payload : bytes := replicate 32 x61.
Definition witness_budget : BudgetInner := {| bi_capacity := 100; bi_used := 40 |}.

Lemma compression_roundtrip_witness :
  ∃ cp, CompressionPolicy_encode witness_policy witness_payload CompressionCodec.Zstd = Ok cp ∧
    cp_codec cp = CompressionCodec.Zstd ∧ zlen (cp_bytes cp) = 6 ∧
    CompressionPolicy_decode [true] witness_policy (cp_codec cp) (cp_bytes cp)
      (cp_original_len cp) witness_budget = (witness_budget, Ok witness_payload).
Proof.
  eexists. split; [vm_compute; reflexivity|]. split; [done|]. split; [done|].
  refine (proj1 (compression_roundtrip run_laws [true] witness_policy witness_payload
    CompressionCodec.Zstd _ witness_budget _ _ _ _)).
  - vm_compute. reflexivity.
  - vm_compute. discriminate.
  - vm_compute. repeat split; discriminate.
  - intros _. vm_compute. discriminate.
Defined.

Lemma decode_with_reservation_bounded_witness :
  ∃ decoded permit b',
    decode_with_reservation [] witness_policy CompressionCodec.Zstd
      [x01; x61; x00; x00; x00; x20] 32 witness_budget = (b', Ok (decoded, Some permit)) ∧
    reserved permit = 32 ∧ bi_used b' = 72.
Proof.
  pose proof (decode_with_reservation_bounded [] witness_policy CompressionCodec.Zstd
    [x01; x61; x00; x00; x00; x20] 32 witness_budget) as H.
  destruct (decode_with_reservation _ _ _ _ _ _) as [b' r] eqn:E.
  vm_compute in E. injection E as <- <-.
  destruct H as (_ & _ & _ & _ & _ & _ & Hr & Hu & _);
    [vm_compute; repeat split; discriminate|lia|].
  do 3 eexists. split; [reflexivity|]. split; [exact Hr|exact Hu].
Defined.

Lemma budget_never_exceeded_witness :
  ∃ w, rtc budget_step (budget_start 100 2) w ∧
    bw_threads w !! 0%nat = Some (Holding {| reserved := 60 |}) ∧
    bi_used (bw_budget w) ≤ 100.
Proof.
  set (w := MkBudgetWorld {| bi_capacity := 100; bi_used := 60 |}
              [Holding {| reserved := 60 |}; Idle]).
  assert (rtc budget_step (budget_start 100 2) w) as Hr.
  { eapply rtc_l.
    { apply (step_load _ [Idle; Idle] 0%nat 60); [done|]. split; vm_compute; discriminate. }
    apply rtc_once.
    exact (step_exchange {| bi_capacity := 100; bi_used := 0 |} [Trying 60 0; Idle] 0%nat 60 60
             eq_refl eq_refl). }
  exists w. split; [exact Hr|]. split; [done|].
  apply (budget_never_exceeded 100 2 w); [split; vm_compute; discriminate|exact Hr].
Defined.
