(* ===== verification/Idempotency.v ===== *)
(** The idempotency cache and the revisioned value of
    [moonlight-bridge-server/src/idempotency.rs].  The cache's mutex makes the
    admission part of [execute] and the completion part of its worker atomic;
    they are the steps of the model, interleaved in any order.  [Arc<Entry>]
    is an index into a store of write-once cells. *)
From S2P Require Import Prelude.

Module IdempotencyError.
Inductive IdempotencyError (E : Type) :=
  | Operation (e : E)
  | Overloaded
  | Indeterminate.
Arguments Operation {E} e.
Arguments Overloaded {E}.
Arguments Indeterminate {E}.
End IdempotencyError.
Abbreviation IdempotencyError := IdempotencyError.IdempotencyError.

Record Idempotent (V : Type) := MkIdempotent { value : V; replayed : bool }.
Arguments MkIdempotent {V} value replayed.
Arguments value {V}.
Arguments replayed {V}.

Definition is_indeterminate {V E} (r : result (IdempotencyError E) V) : bool :=
  match r with Err IdempotencyError.Indeterminate => true | _ => false end.

(** [Entry]: the write-once cell with its completion instant. *)
Abbreviation Entry V E := (option (Z * result (IdempotencyError E) V)).

Section cache.
Context {K V E : Type} `{HK : Countable K}.

Record CacheState := MkCacheState {
  entries : gmap K nat;
  completed : list K;
}.

(** The cache with the store of entries and the workers it has spawned. *)
Record IdempotencyCache := MkIdempotencyCache {
  state : CacheState;
  capacity : Z;
  ttl : Z;
  cells : list (Entry V E);
  workers : gmap nat K;
}.

(** [new]; [None] is the panic of its assertions. *)
Definition IdempotencyCache_new (cap t : Z) : option IdempotencyCache :=
  if (cap >? 0) && negb (t =? 0)
  then Some {| state := {| entries := ∅; completed := [] |};
               capacity := cap; ttl := t; cells := []; workers := ∅ |}
  else None.

(** The loop that removes completed entries up to an expired key. *)
Fixpoint expire_until (key : K) (completed : list K) (entries : gmap K nat) : CacheState :=
  match completed with
  | [] => {| entries := entries; completed := [] |}
  | oldest :: rest =>
      if decide (oldest = key)
      then {| entries := delete oldest entries; completed := rest |}
      else expire_until key rest (delete oldest entries)
  end.

(** The loop that evicts the oldest completed entry; the flag is [evicted]. *)
Fixpoint evict_oldest (completed : list K) (entries : gmap K nat) : bool * CacheState :=
  match completed with
  | [] => (false, {| entries := entries; completed := [] |})
  | oldest :: rest =>
      match entries !! oldest with
      | Some _ => (true, {| entries := delete oldest entries; completed := rest |})
      | None => evict_oldest rest entries
      end
  end.

Definition entry_live (c : IdempotencyCache) (now : Z) (e : Entry V E) : bool :=
  match e with
  | None => true
  | Some (done, r) => is_indeterminate r || (now - done <? ttl c)
  end.

Definition with_state (c : IdempotencyCache) (s : CacheState) : IdempotencyCache :=
  {| state := s; capacity := capacity c; ttl := ttl c;
     cells := cells c; workers := workers c |}.

(** A fresh entry for [key], put in the map, and its spawned worker. *)
Definition spawn_entry (c : IdempotencyCache) (key : K) (s : CacheState) : IdempotencyCache :=
  let id := length (cells c) in
  {| state := {| entries := <[key := id]> (entries s); completed := completed s |};
     capacity := capacity c;
     ttl := ttl c;
     cells := cells c ++ [None];
     workers := <[id := key]> (workers c) |}.

(** [execute] up to its wait loop: the cache after it and the entry to wait
    on with the [replayed] flag. *)
Definition execute_admit (now : Z) (key : K) (c : IdempotencyCache)
    : IdempotencyCache * result (IdempotencyError E) (nat * bool) :=
  let st := state c in
  match entries st !! key with
  | Some id =>
      if entry_live c now (default None (cells c !! id))
      then (c, Ok (id, true))
      else (spawn_entry c key (expire_until key (completed st) (entries st)),
            Ok (length (cells c), false))
  | None =>
      if Z.of_nat (size (entries st)) >=? capacity c
      then match evict_oldest (completed st) (entries st) with
           | (false, st') => (with_state c st', Err IdempotencyError.Overloaded)
           | (true, st') => (spawn_entry c key st', Ok (length (cells c), false))
           end
      else (spawn_entry c key st, Ok (length (cells c), false))
  end.

(** The outcome of the operation: a panic, caught, or its result. *)
Inductive operation_outcome :=
  | Panicked
  | Returned (r : result E V).

Definition worker_result (o : operation_outcome) : result (IdempotencyError E) V :=
  match o with
  | Panicked => Err IdempotencyError.Indeterminate
  | Returned r => map_err IdempotencyError.Operation r
  end.

(** [OnceCell::set] keeps the first value. *)
Definition once_set (e : Entry V E) (x : Z * result (IdempotencyError E) V) : Entry V E :=
  match e with None => Some x | Some y => Some y end.

(** The end of a worker, under the lock. *)
Definition worker_finish (now : Z) (id : nat) (key : K) (o : operation_outcome)
    (c : IdempotencyCache) : IdempotencyCache :=
  let r := worker_result o in
  let determinate := negb (is_indeterminate r) in
  {| state := {| entries := entries (state c);
                 completed := if determinate then completed (state c) ++ [key]
                              else completed (state c) |};
     capacity := capacity c;
     ttl := ttl c;
     cells := alter (λ e, once_set e (now, r)) id (cells c);
     workers := delete id (workers c) |}.

(** One turn of [execute]'s wait loop: [None] waits on. *)
Definition wait_turn (c : IdempotencyCache) (id : nat) (rep : bool)
    : option (result (IdempotencyError E) (Idempotent V)) :=
  match cells c !! id with
  | Some (Some (_, r)) => Some (v ← r; Ok (MkIdempotent v rep))
  | _ => None
  end.

(** ** Interleavings *)

Inductive cache_event :=
  | Execute (key : K)
  | Finish (id : nat) (o : operation_outcome)
  | Elapse (d : Z).

Definition cache_world : Type := Z * IdempotencyCache.

Inductive cache_step : cache_event → cache_world → cache_world → Prop :=
  | step_execute now c key :
      cache_step (Execute key) (now, c) (now, (execute_admit now key c).1)
  | step_finish now c id key o :
      workers c !! id = Some key →
      cache_step (Finish id o) (now, c) (now, worker_finish now id key o c)
  | step_elapse now c d :
      0 ≤ d → cache_step (Elapse d) (now, c) (now + d, c).

Definition cache_moves (w w' : cache_world) : Prop := ∃ ev, cache_step ev w w'.
End cache.
Arguments CacheState K {_ _}.
Arguments IdempotencyCache K V E {_ _}.

Section invariant.
Context {K V E : Type} `{HK : Countable K}.
Implicit Types (c : IdempotencyCache K V E) (s : CacheState K).

(** [done_at c key t]: the entry of [key] completed at instant [t]. *)
Definition done_at c (key : K) (t : Z) : Prop :=
  ∃ id r, entries (state c) !! key = Some id ∧ cells c !! id = Some (Some (t, r)).

(** What is known of the entry of a key: it waits for its worker, or has
    completed and is in the completion queue exactly when determinate. *)
Definition entry_ok c (key : K) (id : nat) : Prop :=
  match cells c !! id with
  | None => False
  | Some None => workers c !! id = Some key ∧ key ∉ completed (state c)
  | Some (Some (_, r)) => key ∈ completed (state c) ↔ is_indeterminate r = false
  end.

Record cache_inv (now : Z) c : Prop := {
  inv_capacity : 0 < capacity c;
  inv_size : Z.of_nat (size (entries (state c))) ≤ capacity c;
  inv_entry key id : entries (state c) !! key = Some id → entry_ok c key id;
  inv_worker id key : workers c !! id = Some key →
    entries (state c) !! key = Some id ∧ cells c !! id = Some None;
  inv_nodup : NoDup (completed (state c));
  inv_completed key : key ∈ completed (state c) → is_Some (entries (state c) !! key);
  inv_past id t r : cells c !! id = Some (Some (t, r)) → t ≤ now;
  inv_order i j k k' t t' : (i ≤ j)%nat →
    completed (state c) !! i = Some k → completed (state c) !! j = Some k' →
    done_at c k t → done_at c k' t' → t ≤ t';
  inv_served id : cells c !! id = Some None → is_Some (workers c !! id);
}.

Lemma done_at_inj c k t t' : done_at c k t → done_at c k t' → t = t'.
Proof. intros (?&?&?&?) (?&?&?&?). naive_solver. Qed.

(** ** The loops over the completion queue *)

Lemma expire_until_spec key l1 l2 (m : gmap K nat) :
  key ∉ l1 →
  completed (expire_until key (l1 ++ key :: l2) m) = l2 ∧
  ∀ k, entries (expire_until key (l1 ++ key :: l2) m) !! k =
       if decide (k ∈ l1 ++ [key]) then None else m !! k.
Proof.
  revert m. induction l1 as [|o l1 IH]; intros m Hk; simpl.
  - rewrite decide_True by done. split; [done|]. intros k. simpl.
    destruct (decide (k ∈ [key])) as [->%list_elem_of_singleton|Hn].
    + by rewrite lookup_delete_eq.
    + rewrite lookup_delete_ne; [done|set_solver].
  - rewrite decide_False by set_solver.
    destruct (IH (delete o m)) as [Hc Hm]; [set_solver|]. split; [done|].
    intros k. rewrite Hm. destruct (decide (k = o)) as [->|].
    + rewrite lookup_delete_eq. repeat case_decide; set_solver.
    + rewrite lookup_delete_ne by done. repeat case_decide; set_solver.
Qed.

Lemma evict_oldest_spec (l : list K) (m : gmap K nat) :
  (∀ k, k ∈ l → is_Some (m !! k)) →
  evict_oldest l m = match l with
                     | [] => (false, {| entries := m; completed := [] |})
                     | o :: rest => (true, {| entries := delete o m; completed := rest |})
                     end.
Proof.
  intros Hl. destruct l as [|o rest]; [done|]. simpl.
  by destruct (Hl o) as [? ->]; [set_solver|].
Qed.

(** ** Removing a prefix of the completion queue *)

Definition drops (l1 l2 : list K) c s : Prop :=
  completed (state c) = l1 ++ l2 ∧ completed s = l2 ∧
  ∀ k, entries s !! k = if decide (k ∈ l1) then None else entries (state c) !! k.

Lemma drops_refl c : drops [] (completed (state c)) c (state c).
Proof. split_and!; [done|done|]. intros k. by rewrite decide_False by set_solver. Qed.

Lemma drops_size l1 l2 c s now :
  cache_inv now c → drops l1 l2 c s →
  (size (entries s) + length l1 = size (entries (state c)))%nat.
Proof.
  intros Hi (Hc & Hs & Hm).
  assert (NoDup l1 ∧ ∀ k, k ∈ l1 → is_Some (entries (state c) !! k)) as [Hnd Hin].
  { destruct Hi. rewrite Hc in *. split; [by apply NoDup_app in inv_nodup0 as [? _]|].
    set_solver. }
  clear Hi Hc Hs. revert Hm Hnd Hin. generalize (entries s), (entries (state c)). intros m' m.
  revert m. induction l1 as [|o l1 IH]; intros m Hm Hnd Hin; simpl.
  - rewrite Nat.add_0_r. f_equal. apply map_eq. intros k. rewrite Hm.
    by rewrite decide_False by set_solver.
  - apply NoDup_cons in Hnd as [Ho Hnd]. destruct (Hin o) as [id Hid]; [set_solver|].
    rewrite <- (insert_delete_id m o id Hid), map_size_insert_None by apply lookup_delete_eq.
    rewrite <- (IH (delete o m)); [lia| |done|].
    + intros k. rewrite Hm. destruct (decide (k = o)) as [->|].
      * rewrite lookup_delete_eq. repeat case_decide; set_solver.
      * rewrite lookup_delete_ne by done. repeat case_decide; set_solver.
    + intros k Hk. rewrite lookup_delete_ne by set_solver. apply Hin. set_solver.
Qed.

(** A pending or indeterminate entry survives. *)
Lemma drops_keep l1 l2 c s now key id :
  cache_inv now c → drops l1 l2 c s → entries (state c) !! key = Some id →
  key ∉ completed (state c) → entries s !! key = Some id.
Proof.
  intros Hi (Hc & _ & Hm) Hk Hn. rewrite Hm, decide_False; [done|]. rewrite Hc in Hn. set_solver.
Qed.

Lemma drops_inv l1 l2 c s now :
  cache_inv now c → drops l1 l2 c s → cache_inv now (with_state c s).
Proof.
  intros Hi Hd. pose proof (drops_size _ _ _ _ _ Hi Hd) as Hsz.
  pose proof Hd as (Hc & Hs & Hm). destruct Hi as [Hcap Hsize Hent Hwk Hnd Hcmp Hpast Hord Hsv].
  assert (∀ k id, entries s !! k = Some id → k ∉ l1 ∧ entries (state c) !! k = Some id) as Hsub.
  { intros k id. rewrite Hm. case_decide; naive_solver. }
  assert (NoDup l2 ∧ ∀ k, k ∈ l1 → k ∉ l2) as [Hnd2 Hdj].
  { rewrite Hc in Hnd. apply NoDup_app in Hnd. naive_solver. }
  split; simpl; try done; try lia.
  - intros k id [Hk1 Hk]%Hsub. specialize (Hent k id Hk). unfold entry_ok in *. simpl.
    rewrite Hs, Hc in *. destruct (cells c !! id) as [[[]|]|]; set_solver.
  - intros id k Hk. destruct (Hwk id k Hk) as [Hk1 Hk2]. split; [|done].
    specialize (Hent k id Hk1). unfold entry_ok in Hent. rewrite Hk2 in Hent.
    rewrite Hm, decide_False; [done|]. rewrite Hc in Hent. set_solver.
  - by rewrite Hs.
  - intros k Hk. rewrite Hs in Hk. rewrite Hm, decide_False by set_solver.
    apply Hcmp. rewrite Hc. set_solver.
  - intros i j k k' t t' Hij Hk Hk' (id & r & Hid & Hr) (id' & r' & Hid' & Hr'). simpl in *.
    rewrite Hs in *.
    apply (Hord (length l1 + i)%nat (length l1 + j)%nat k k'); [lia| | | |].
    + rewrite Hc, lookup_app_r by lia. rewrite <- Hk. f_equal. lia.
    + rewrite Hc, lookup_app_r by lia. rewrite <- Hk'. f_equal. lia.
    + exists id, r. split; [|done]. by apply Hsub in Hid as [_ ?].
    + exists id', r'. split; [|done]. by apply Hsub in Hid' as [_ ?].
Qed.

Lemma cells_snoc_lookup (l : list (Entry V E)) id x :
  (l ++ [None]) !! id = Some x → l !! id = Some x ∨ id = length l ∧ x = None.
Proof.
  intros [?|[Hge Hx]]%lookup_app_Some; [by left|].
  apply list_lookup_singleton_Some in Hx as [Hx <-]. right. split; [lia|done].
Qed.

Lemma spawn_entry_inv now c key s :
  cache_inv now (with_state c s) → entries s !! key = None →
  Z.of_nat (size (entries s)) < capacity c → cache_inv now (spawn_entry c key s).
Proof.
  intros [Hcap Hsize Hent Hwk Hnd Hcmp Hpast Hord Hsv] Hk Hlt. simpl in *.
  assert (∀ k id, entries s !! k = Some id → is_Some (cells c !! id)) as Hids.
  { intros k id Hid. specialize (Hent k id Hid). unfold entry_ok in Hent. simpl in Hent.
    by destruct (cells c !! id). }
  assert (key ∉ completed s) as Hkc by (intros Hin; destruct (Hcmp key Hin); congruence).
  assert (∀ k t, done_at (spawn_entry c key s) k t → k ∈ completed s →
    done_at (with_state c s) k t) as Hdone.
  { intros k t (id & r & Hid & Hr) Hc. simpl in *.
    rewrite lookup_insert_ne in Hid by set_solver. exists id, r. split; [done|].
    simpl. apply cells_snoc_lookup in Hr as [?|[_ ?]]; done. }
  split; simpl; try done.
  - rewrite map_size_insert_None by done. lia.
  - intros k id Hid. unfold entry_ok. simpl. destruct (decide (k = key)) as [->|Hne].
    + rewrite lookup_insert_eq in Hid. injection Hid as <-.
      rewrite lookup_app_r, Nat.sub_diag by lia. simpl. by rewrite lookup_insert_eq.
    + rewrite lookup_insert_ne in Hid by done. destruct (Hids k id Hid) as [x Hx].
      specialize (Hent k id Hid). unfold entry_ok in Hent. simpl in Hent.
      rewrite (lookup_app_l_Some _ _ _ _ Hx). rewrite Hx in Hent.
      destruct x as [[]|]; [done|]. split; [|by apply Hent].
      rewrite lookup_insert_ne; [by apply Hent|]. apply lookup_lt_Some in Hx. lia.
  - intros id k Hid. destruct (decide (id = length (cells c))) as [->|Hne].
    + rewrite lookup_insert_eq in Hid. injection Hid as ->. split; [by rewrite lookup_insert_eq|].
      by rewrite lookup_app_r, Nat.sub_diag by lia.
    + rewrite lookup_insert_ne in Hid by done. destruct (Hwk id k Hid) as [H1 H2].
      rewrite lookup_insert_ne by (intros ->; congruence). split; [done|].
      by apply lookup_app_l_Some.
  - intros k Hin. destruct (decide (k = key)) as [->|]; [by rewrite lookup_insert_eq|].
    rewrite lookup_insert_ne by done. auto.
  - intros id t r [Hr|[_ [=]]]%cells_snoc_lookup. eauto.
  - intros i j k k' t t' Hij Hi Hj Hd Hd'. eapply (Hord i j k k'); eauto;
      apply Hdone; eauto using list_elem_of_lookup_2.
  - intros id [Hr|[-> _]]%cells_snoc_lookup.
    + destruct (decide (id = length (cells c))) as [->|]; [by rewrite lookup_insert_eq|].
      rewrite lookup_insert_ne by done. auto.
    + by rewrite lookup_insert_eq.
Qed.

(** ** Admission *)

(** An entry that is not live is in the completion queue. *)
Lemma not_live_completed now c key id :
  cache_inv now c → entries (state c) !! key = Some id →
  entry_live c now (default None (cells c !! id)) = false →
  key ∈ completed (state c) ∧ ∃ t, done_at c key t ∧ ttl c ≤ now - t.
Proof.
  intros Hi Hk Hl. pose proof (inv_entry _ _ Hi key id Hk) as He. unfold entry_ok in He.
  destruct (cells c !! id) as [[[t r]|]|] eqn:Hc; simpl in Hl; try done.
  bool_to_prop. split; [by apply He|]. exists t. split; [|lia]. by exists id, r.
Qed.

(** The states [execute_admit] may leave, by branch. *)
Inductive admitted (now : Z) (key : K) c :
    IdempotencyCache K V E → result (IdempotencyError E) (nat * bool) → Prop :=
  | adm_replay id :
      entries (state c) !! key = Some id →
      entry_live c now (default None (cells c !! id)) = true →
      admitted now key c c (Ok (id, true))
  | adm_expired id l1 l2 s :
      entries (state c) !! key = Some id →
      entry_live c now (default None (cells c !! id)) = false →
      drops (l1 ++ [key]) l2 c s →
      admitted now key c (spawn_entry c key s) (Ok (length (cells c), false))
  | adm_overloaded :
      entries (state c) !! key = None →
      Z.of_nat (size (entries (state c))) = capacity c →
      completed (state c) = [] →
      admitted now key c c (Err IdempotencyError.Overloaded)
  | adm_evict o l2 s :
      entries (state c) !! key = None →
      Z.of_nat (size (entries (state c))) = capacity c →
      drops [o] l2 c s →
      admitted now key c (spawn_entry c key s) (Ok (length (cells c), false))
  | adm_room :
      entries (state c) !! key = None →
      Z.of_nat (size (entries (state c))) < capacity c →
      admitted now key c (spawn_entry c key (state c)) (Ok (length (cells c), false)).

Lemma execute_admit_cases now key c :
  cache_inv now c →
  admitted now key c (execute_admit now key c).1 (execute_admit now key c).2.
Proof.
  intros Hi. unfold execute_admit. destruct (entries (state c) !! key) as [id|] eqn:Hk.
  - destruct (entry_live _ _ _) eqn:Hl; [by eapply adm_replay|].
    destruct (not_live_completed _ _ _ _ Hi Hk Hl) as [Hin _].
    apply list_elem_of_split_l in Hin as (l1 & l2 & Hc & Hn).
    destruct (expire_until_spec key l1 l2 (entries (state c)) Hn) as [Hs Hm].
    rewrite <- Hc in *. eapply (adm_expired _ _ _ id l1 l2); [done|done|].
    split_and!; [by rewrite <- app_assoc|done|done].
  - rewrite Z.geb_leb. pose proof (inv_size _ _ Hi). destruct (_ <=? _) eqn:Hf; bool_to_prop.
    + rewrite evict_oldest_spec by apply (inv_completed _ _ Hi).
      destruct (completed (state c)) as [|o l2] eqn:Hc; simpl.
      * replace (with_state c _) with c; [by apply adm_overloaded; [|lia|]|].
        destruct c as [[]]; simpl in *; by subst.
      * eapply (adm_evict _ _ _ o l2); [done|lia|]. split_and!; [done|done|].
        intros k. simpl. destruct (decide (k = o)) as [->|].
        -- by rewrite lookup_delete_eq, decide_True by set_solver.
        -- by rewrite lookup_delete_ne, decide_False by set_solver.
    + by apply adm_room; [|lia].
Qed.

Lemma admitted_inv now key c c' r :
  cache_inv now c → admitted now key c c' r → cache_inv now c'.
Proof.
  intros Hi Ha. pose proof (inv_size _ _ Hi) as Hsz.
  destruct Ha as [| id l1 l2 s Hk _ Hd | | o l2 s Hk Hf Hd | Hk Hlt]; try done.
  - pose proof (drops_size _ _ _ _ _ Hi Hd) as Hs. rewrite length_app in Hs. simpl in Hs.
    apply spawn_entry_inv; [by eapply drops_inv| |lia].
    destruct Hd as (_ & _ & ->). rewrite decide_True by set_solver. done.
  - pose proof (drops_size _ _ _ _ _ Hi Hd) as Hs. simpl in Hs.
    apply spawn_entry_inv; [by eapply drops_inv| |lia].
    destruct Hd as (_ & _ & ->). by case_decide.
  - apply spawn_entry_inv; [|done|lia]. eapply drops_inv; [done|apply drops_refl].
Qed.

(** ** Completion *)

Lemma worker_finish_cells now id key o c id' :
  cells c !! id = Some None →
  cells (worker_finish now id key o c) !! id' =
  if decide (id' = id) then Some (Some (now, worker_result o)) else cells c !! id'.
Proof.
  intros Hc. cbn [worker_finish cells]. case_decide as Hd; [subst id'|].
  - by rewrite list_lookup_alter_eq, Hc.
  - by rewrite list_lookup_alter_ne.
Qed.

Lemma worker_finish_queue now id key o c :
  completed (state (worker_finish now id key o c)) =
  if is_indeterminate (worker_result o) then completed (state c)
  else completed (state c) ++ [key].
Proof.
  cbn [worker_finish state completed]. by destruct (is_indeterminate (worker_result o)).
Qed.

(** A worker's cell is the entry of its key and of no other. *)
Lemma worker_owns now id key c :
  cache_inv now c → workers c !! id = Some key →
  entries (state c) !! key = Some id ∧ cells c !! id = Some None ∧
  key ∉ completed (state c) ∧ ∀ k, entries (state c) !! k = Some id → k = key.
Proof.
  intros Hi Hw. destruct (inv_worker _ _ Hi id key Hw) as [Hk Hc].
  pose proof (inv_entry _ _ Hi key id Hk) as He. unfold entry_ok in He. rewrite Hc in He.
  split_and!; [done|done|naive_solver|]. intros k Hk'.
  pose proof (inv_entry _ _ Hi k id Hk') as He'. unfold entry_ok in He'. rewrite Hc in He'.
  destruct He'. congruence.
Qed.

(** Completion instants stay ordered along the queue: the new one is last. *)
Lemma worker_finish_order now id key o c :
  let c' := worker_finish now id key o c in
  cache_inv now c → workers c !! id = Some key →
  ∀ i j k k' t t', (i ≤ j)%nat →
    completed (state c') !! i = Some k → completed (state c') !! j = Some k' →
    done_at c' k t → done_at c' k' t' → t ≤ t'.
Proof.
  intros c' Hi Hw i j k k' t t' Hij. destruct (worker_owns _ _ _ _ Hi Hw) as (Hk & Hc & Hnc & Hinj).
  unfold c'. rewrite worker_finish_queue. intros Hki Hkj Hd Hd'.
  pose proof (λ id', worker_finish_cells now id key o c id' Hc) as Hcells.
  assert (∀ k, k ∈ completed (state c) → ∀ t, done_at c' k t → done_at c k t) as Hdone.
  { intros k1 Hin t1 (id' & r' & Hid & Hr). unfold c' in Hr. rewrite Hcells in Hr. simpl in Hid.
    case_decide; [subst id'|by exists id', r']. apply Hinj in Hid. by subst k1. }
  assert (∀ k t, done_at c' k t → t ≤ now) as Hle.
  { intros ? ? (id' & r' & _ & Hr). unfold c' in Hr. rewrite Hcells in Hr.
    case_decide; [simplify_eq; lia|]. by eapply inv_past. }
  assert (done_at c' key now) as Hnow.
  { exists id, (worker_result o). unfold c'. rewrite Hcells, decide_True by done. done. }
  pose proof (inv_order _ _ Hi) as Hord. destruct (is_indeterminate (worker_result o)).
  { eapply (Hord i j k k'); eauto using list_elem_of_lookup_2. }
  apply lookup_app_Some in Hkj as [Hkj|[Hj Hkj]].
  - rewrite lookup_app_l in Hki by (apply lookup_lt_Some in Hkj; lia).
    eapply (Hord i j k k'); eauto using list_elem_of_lookup_2.
  - apply list_lookup_singleton_Some in Hkj as [_ <-].
    rewrite (done_at_inj _ _ _ _ Hd' Hnow). eauto.
Qed.

Lemma worker_finish_inv now id key o c :
  cache_inv now c → workers c !! id = Some key → cache_inv now (worker_finish now id key o c).
Proof.
  intros Hi Hw. pose proof Hi as [Hcap Hsize Hent Hwk Hnd Hcmp Hpast Hord Hsv].
  destruct (worker_owns _ _ _ _ Hi Hw) as (Hk & Hc & Hnc & Hinj).
  pose proof (λ id', worker_finish_cells now id key o c id' Hc) as Hcells.
  pose proof (worker_finish_queue now id key o c) as Hq.
  split; try done.
  - intros k id' Hid. unfold entry_ok. rewrite Hcells, Hq. simpl in *.
    destruct (decide (id' = id)) as [->|Hne].
    + assert (k = key) as -> by auto. destruct (is_indeterminate _); set_solver.
    + specialize (Hent k id' Hid). unfold entry_ok in Hent. rewrite lookup_delete_ne by done.
      assert (k ≠ key) by congruence.
      destruct (is_indeterminate (worker_result o)); [done|].
      assert (k ∈ completed (state c) ++ [key] ↔ k ∈ completed (state c)) as Hkq by set_solver.
      by destruct (cells c !! id') as [[[]|]|]; rewrite ?Hkq.
  - intros id' k Hid. simpl in Hid. apply lookup_delete_Some in Hid as [Hne Hid].
    destruct (Hwk id' k Hid). rewrite Hcells, decide_False by done. done.
  - rewrite Hq. destruct (is_indeterminate _); [done|].
    apply NoDup_app. split_and!; [done|set_solver|apply NoDup_singleton].
  - intros k. rewrite Hq. simpl. destruct (is_indeterminate _); [auto|].
    rewrite elem_of_app, list_elem_of_singleton. intros [?| ->]; [auto|by rewrite Hk].
  - intros id' t r'. rewrite Hcells. case_decide; [|eauto]. intros ?; simplify_eq; lia.
  - by apply worker_finish_order.
  - intros id'. rewrite Hcells. case_decide; [done|]. simpl.
    rewrite lookup_delete_ne by done. auto.
Qed.

Lemma cache_inv_later now now' c : cache_inv now c → now ≤ now' → cache_inv now' c.
Proof.
  intros [] Hle. split; try done. intros id t r Hr. specialize (inv_past0 _ _ _ Hr). lia.
Qed.

Lemma cache_step_inv ev now c now' c' :
  cache_inv now c → cache_step ev (now, c) (now', c') → cache_inv now' c'.
Proof.
  intros Hi Hs. inversion Hs; subst.
  - eapply admitted_inv, execute_admit_cases; done.
  - by apply worker_finish_inv.
  - eapply cache_inv_later; [done|lia].
Qed.

Lemma cache_reachable_inv (w w' : cache_world) :
  cache_inv w.1 w.2 → rtc cache_moves w w' → cache_inv w'.1 w'.2.
Proof.
  intros Hi. induction 1 as [|[] [] ? [ev Hs]]; [done|]. eauto using cache_step_inv.
Qed.

Lemma new_inv now cap t c : IdempotencyCache_new cap t = Some c → cache_inv now c.
Proof.
  unfold IdempotencyCache_new. case_match eqn:Hc; [|done]. intros [= <-].
  apply andb_prop in Hc as [Hc _]. rewrite Z.gtb_ltb in Hc. bool_to_prop.
  split; simpl; rewrite ?map_size_empty; try done; try lia.
  - apply NoDup_nil_2.
  - set_solver.
Qed.

(** ** Stability *)

(** A completed cell keeps its value. *)
Lemma cell_stable ev now c now' c' id x :
  cache_step ev (now, c) (now', c') → cells c !! id = Some (Some x) →
  cells c' !! id = Some (Some x).
Proof.
  intros Hs Hx. inversion Hs; subst; [| |done].
  - unfold execute_admit. repeat case_match; simpl; try done; by apply lookup_app_l_Some.
  - simpl. rewrite list_lookup_alter. case_decide; [by subst; rewrite Hx|done].
Qed.

(** The entry of a key that is not in the completion queue stays. *)
Lemma entry_stable ev now c now' c' key id :
  cache_inv now c → cache_step ev (now, c) (now', c') →
  entries (state c) !! key = Some id → key ∉ completed (state c) →
  entries (state c') !! key = Some id.
Proof.
  intros Hi Hs Hk Hn. inversion Hs as [? ? k| |]; subst; [|done|done].
  destruct (execute_admit_cases now' k c Hi) as [| ? l1 l2 s Hk' _ Hd | | o l2 s Hk' _ Hd | Hk' _];
    try done; simpl.
  - assert (key ∈ completed (state c) ∨ key ≠ k) as [?|Hne].
    { destruct Hd as (-> & _ & _). destruct (decide (key = k)); set_solver. }
    + done.
    + rewrite lookup_insert_ne by done. by eapply drops_keep.
  - rewrite lookup_insert_ne by congruence. by eapply drops_keep.
  - by rewrite lookup_insert_ne by congruence.
Qed.

(** An operation whose worker panicked. *)
Definition pinned c (key : K) (id : nat) : Prop :=
  entries (state c) !! key = Some id ∧
  ∃ t, cells c !! id = Some (Some (t, Err IdempotencyError.Indeterminate)).

Lemma pinned_stable (w w' : cache_world) key id :
  cache_inv w.1 w.2 → rtc cache_moves w w' → pinned w.2 key id →
  cache_inv w'.1 w'.2 ∧ pinned w'.2 key id.
Proof.
  intros Hi Hr. induction Hr as [|[now c] [now' c'] ? [ev Hs] _ IH]; [done|].
  intros [Hk [t Ht]]. apply IH; [by eapply cache_step_inv|]. split.
  - eapply entry_stable; [done|done|done|]. pose proof (inv_entry _ _ Hi key id Hk) as He.
    unfold entry_ok in He. simpl in *. rewrite Ht in He. simpl in He. intros ?%He. done.
  - exists t. by eapply cell_stable.
Qed.

Lemma expired_prefix now c key id l1 l2 s k :
  cache_inv now c → entries (state c) !! key = Some id →
  entry_live c now (default None (cells c !! id)) = false →
  drops (l1 ++ [key]) l2 c s → k ∈ l1 ++ [key] →
  ∃ t, done_at c k t ∧ ttl c ≤ now - t.
Proof.
  intros Hi Hk Hl (Hc & _ & _) Hin.
  destruct (not_live_completed _ _ _ _ Hi Hk Hl) as (_ & tk & Hd & Ht).
  assert (k ∈ completed (state c)) as Hkc by (rewrite Hc; set_solver).
  destruct (inv_completed _ _ Hi k Hkc) as [ik Hik].
  pose proof (inv_entry _ _ Hi k ik Hik) as He. unfold entry_ok in He.
  destruct (cells c !! ik) as [[[t r]|]|] eqn:Hcell; [|by destruct He|done].
  exists t. split; [by exists ik, r|].
  apply list_elem_of_lookup in Hin as [i Hin].
  assert (t ≤ tk); [|lia].
  eapply (inv_order _ _ Hi i (length l1) k key); [| | |by exists ik, r|done].
  - apply lookup_lt_Some in Hin. rewrite length_app in Hin. simpl in Hin. lia.
  - rewrite Hc. by apply lookup_app_l_Some.
  - rewrite Hc, <- app_assoc, lookup_app_r, Nat.sub_diag by lia. done.
Qed.

(** * Properties of the cache *)

(** The outcome of the operation of [k] is known and may be forgotten. *)
Definition determinate c (k : K) : Prop :=
  ∃ id t r, entries (state c) !! k = Some id ∧ cells c !! id = Some (Some (t, r)) ∧
            is_indeterminate r = false.

Lemma completed_determinate now c k :
  cache_inv now c → k ∈ completed (state c) ↔ determinate c k.
Proof.
  intros Hi. split.
  - intros Hin. destruct (inv_completed _ _ Hi k Hin) as [id Hid].
    pose proof (inv_entry _ _ Hi k id Hid) as He. unfold entry_ok in He.
    destruct (cells c !! id) as [[[t r]|]|] eqn:Hc; [|by destruct He|done].
    exists id, t, r. split_and!; [done|done|by apply He].
  - intros (id & t & r & Hid & Hc & Hr). pose proof (inv_entry _ _ Hi k id Hid) as He.
    unfold entry_ok in He. rewrite Hc in He. by apply He.
Qed.

(** C7 In every reachable state the cache holds at most [capacity] entries,
    every running worker owns the entry of its key and no key has two workers,
    and every entry a caller may wait on either has its result or has a
    running worker that will set it. *)
Theorem idempotency_single_flight cap t c0 now0 (w : cache_world) :
  IdempotencyCache_new cap t = Some c0 →
  rtc (cache_moves (K := K) (V := V) (E := E)) (now0, c0) w →
  let c := w.2 in
  Z.of_nat (size (entries (state c))) ≤ capacity c ∧
  (∀ id id' key, workers c !! id = Some key → workers c !! id' = Some key → id = id') ∧
  (∀ id key, workers c !! id = Some key →
     execute_admit w.1 key c = (c, Ok (id, true))) ∧
  (∀ id, (id < length (cells c))%nat →
     is_Some (workers c !! id) ∨ ∀ rep, is_Some (wait_turn c id rep)).
Proof.
  intros Hn Hr. pose proof (cache_reachable_inv (now0, c0) w (new_inv now0 _ _ _ Hn) Hr) as Hi.
  simpl in *. split_and!.
  - apply (inv_size _ _ Hi).
  - intros id id' key [H1 _]%(inv_worker _ _ Hi) [H2 _]%(inv_worker _ _ Hi). congruence.
  - intros id key [H1 H2]%(inv_worker _ _ Hi). unfold execute_admit. by rewrite H1, H2.
  - intros id [x Hx]%lookup_lt_is_Some. destruct x as [[u r]|].
    + right. intros rep. unfold wait_turn. by rewrite Hx.
    + left. by eapply inv_served.
Qed.

(** Admission, on every branch: a live entry is shared as it is; otherwise
    a fresh entry with its own worker is installed, and the entries that
    disappear are completed ones only: all past their time to live when the
    key's own entry had expired, and just one, when the cache was full, if the
    key was absent.  [Overloaded] is returned exactly when the key is absent
    and the cache is full of pending and indeterminate operations. *)
Theorem execute_admit_correct now key c :
  cache_inv now c →
  let '(c', r) := execute_admit now key c in
  cache_inv now c' ∧
  match r with
  | Ok (id, true) =>
      c' = c ∧ entries (state c) !! key = Some id ∧
      ∀ t v, cells c !! id = Some (Some (t, v)) → is_indeterminate v = false → now - t < ttl c
  | Ok (id, false) =>
      id = length (cells c) ∧ entries (state c') !! key = Some id ∧
      cells c' = cells c ++ [None] ∧ workers c' = <[id := key]> (workers c) ∧
      (∀ k, k ≠ key → entries (state c') !! k ≠ entries (state c) !! k →
         entries (state c') !! k = None ∧ determinate c k ∧
         ((is_Some (entries (state c) !! key) ∧ ∃ t, done_at c k t ∧ ttl c ≤ now - t) ∨
          (entries (state c) !! key = None ∧ head (completed (state c)) = Some k ∧
           Z.of_nat (size (entries (state c))) = capacity c)))
  | Err e =>
      e = IdempotencyError.Overloaded ∧ c' = c ∧ entries (state c) !! key = None ∧
      Z.of_nat (size (entries (state c))) = capacity c ∧ ∀ k, ¬ determinate c k
  end.
Proof.
  intros Hi. pose proof (execute_admit_cases now key c Hi) as Ha.
  pose proof (admitted_inv _ _ _ _ _ Hi Ha) as Hi'.
  destruct (execute_admit now key c) as [c' r]. simpl in *. split; [done|]. clear Hi'.
  destruct Ha as [id Hk Hl | id l1 l2 s Hk Hl Hd | Hk Hf Hc | o l2 s Hk Hf Hd | Hk Hlt].
  - split_and!; [done|done|]. intros t v Hc Hv. rewrite Hc in Hl. simpl in Hl.
    rewrite Hv in Hl. simpl in Hl. by bool_to_prop.
  - split_and!; [done|by apply lookup_insert_eq|done|done|]. intros k Hne. simpl.
    rewrite lookup_insert_ne by done. pose proof Hd as (Hc & _ & Hm). rewrite Hm.
    case_decide as Hin; [|done]. intros _. split_and!; [done| |].
    + apply (completed_determinate _ _ _ Hi). rewrite Hc. set_solver.
    + left. split; [by rewrite Hk|]. by eapply expired_prefix.
  - split_and!; try done. intros k Hk'. apply (completed_determinate _ _ _ Hi) in Hk'.
    rewrite Hc in Hk'. set_solver.
  - split_and!; [done|by apply lookup_insert_eq|done|done|]. intros k Hne. simpl.
    rewrite lookup_insert_ne by done. pose proof Hd as (Hc & _ & Hm). rewrite Hm.
    case_decide as Hin; [|done]. intros _. apply list_elem_of_singleton in Hin as ->.
    split_and!; [done| |].
    + apply (completed_determinate _ _ _ Hi). rewrite Hc. set_solver.
    + right. rewrite Hc. done.
  - split_and!; [done|by apply lookup_insert_eq|done|done|]. intros k Hne. simpl.
    by rewrite lookup_insert_ne by done.
Qed.

(** An operation whose worker panicked is pinned: whatever happens later,
    every caller that uses its key replays the indeterminate outcome, and the
    operation is never run again. *)
Theorem indeterminate_pinned (w w' : cache_world) key id t :
  cache_inv w.1 w.2 →
  entries (state w.2) !! key = Some id →
  cells w.2 !! id = Some (Some (t, Err IdempotencyError.Indeterminate)) →
  rtc cache_moves w w' →
  execute_admit w'.1 key w'.2 = (w'.2, Ok (id, true)) ∧
  wait_turn w'.2 id true = Some (Err IdempotencyError.Indeterminate).
Proof.
  intros Hi Hk Hc Hr.
  destruct (pinned_stable w w' key id Hi Hr ltac:(split; eauto)) as [Hi' [Hk' [t' Hc']]].
  unfold execute_admit, wait_turn. by rewrite Hk', Hc'.
Qed.

(** All callers that share an entry get the same result: once the wait loop
    of one of them can return, it returns that result for every caller of that
    entry at every later moment, whatever else the cache does. *)
Theorem callers_agree (w w' : cache_world) id rep r :
  wait_turn (K := K) (V := V) (E := E) w.2 id rep = Some r →
  rtc cache_moves w w' →
  ∀ rep', wait_turn w'.2 id rep' =
          Some (v ← r; Ok (MkIdempotent (value v) rep')).
Proof.
  intros Hw Hr rep'. unfold wait_turn in Hw.
  destruct (cells w.2 !! id) as [[[t x]|]|] eqn:Hc; [|done|done]. injection Hw as <-.
  assert (cells w'.2 !! id = Some (Some (t, x))) as Hc'.
  { revert Hc. induction Hr as [|[] [] ? [ev Hs] _ IH]; [done|]. intros Hc.
    apply IH. by eapply cell_stable. }
  unfold wait_turn. rewrite Hc'. by destruct x.
Qed.
End invariant.

(** * Revisioned values *)

Section revisioned.
Context {T R : Type}.

Record RevisionState := MkRevisionState { revision : Z; rvalue : T }.
Record RevisionConflict := MkRevisionConflict { expected : Z; actual : Z }.

Definition Revisioned_new (v : T) : RevisionState := {| revision := 0; rvalue := v |}.

Definition Revisioned_read (s : RevisionState) : Z * T := (revision s, rvalue s).

(** [update], under the write lock; [None] is the panic on overflow of the
    counter, after the value has been updated. *)
Definition Revisioned_update (expected_revision : Z) (update : T → T * R) (s : RevisionState)
    : RevisionState * option (result RevisionConflict (Z * R)) :=
  if negb (revision s =? expected_revision)
  then (s, Some (Err {| expected := expected_revision; actual := revision s |}))
  else
    let '(v, output) := update (rvalue s) in
    match checked_add (revision s) 1 with
    | None => ({| revision := revision s; rvalue := v |}, None)
    | Some r => ({| revision := r; rvalue := v |}, Some (Ok (r, output)))
    end.

Definition request : Type := Z * (T → T * R).

(** A history of requests in the order they get the lock: the final state and
    the requests that were accepted. *)
Fixpoint update_history (reqs : list request) (s : RevisionState)
    : RevisionState * list request :=
  match reqs with
  | [] => (s, [])
  | (e, f) :: rest =>
      let '(s', out) := Revisioned_update e f s in
      let '(s'', acc) := update_history rest s' in
      (s'', match out with Some (Ok _) => (e, f) :: acc | _ => acc end)
  end.

Lemma Revisioned_update_cases e f s :
  revision s < u64_max →
  revision s = e ∧
    Revisioned_update e f s =
      ({| revision := revision s + 1; rvalue := (f (rvalue s)).1 |},
       Some (Ok (revision s + 1, (f (rvalue s)).2))) ∨
  revision s ≠ e ∧
    Revisioned_update e f s =
      (s, Some (Err {| expected := e; actual := revision s |})).
Proof.
  intros Hlt. unfold Revisioned_update. destruct (revision s =? e) eqn:He; bool_to_prop; simpl.
  - left. split; [done|]. destruct (f (rvalue s)) as [v out]. unfold checked_add, usize_max.
    by rewrite (proj2 (Z.leb_le _ _)) by lia.
  - by right.
Qed.

(** C36 Optimistic concurrency: in any history of update requests, the accepted
    ones are those whose expected revisions are consecutive from the starting
    revision, so no two accepted updates were computed from the same revision;
    the counter counts them and the value is the result of applying exactly
    them in order. *)
Theorem revisioned_linear (reqs : list request) (s s' : RevisionState) (acc : list request) :
  revision s + zlen reqs ≤ u64_max →
  update_history reqs s = (s', acc) →
  map fst acc = seqZ (revision s) (zlen acc) ∧
  revision s' = revision s + zlen acc ∧
  rvalue s' = foldl (λ v r, (r.2 v).1) (rvalue s) acc.
Proof.
  revert s s' acc. induction reqs as [|[e f] reqs IH]; intros s s' acc Hb; simpl.
  { intros [= <- <-]. rewrite zlen_nil, Z.add_0_r. done. }
  rewrite zlen_cons in Hb. pose proof (zlen_nonneg reqs).
  destruct (Revisioned_update_cases e f s ltac:(lia)) as [[<- ->]|[_ ->]].
  - destruct (update_history reqs _) as [s1 acc1] eqn:Hrun. intros [= <- <-].
    apply IH in Hrun as (Hm & Hr & Hv); simpl in *; [|lia].
    rewrite zlen_cons. pose proof (zlen_nonneg acc1). split_and!; [|lia|done].
    rewrite seqZ_cons by lia. simpl. rewrite Hm. unfold Z.succ. do 2 f_equal; lia.
  - destruct (update_history reqs s) as [s1 acc1] eqn:Hrun. intros [= <- <-].
    apply IH in Hrun; [done|lia].
Qed.
End revisioned.

(** * Witnesses *)

Section witnesses.
Let cache := IdempotencyCache Z Z Z.

(** A cache of one slot, time to live 10, whose operation 7 panicked. *)
Definition witness_new : cache :=
  {| state := {| entries := ∅; completed := [] |};
     capacity := 1; ttl := 10; cells := []; workers := ∅ |}.
Definition witness_running : cache := (execute_admit 0 7 witness_new).1.
Definition witness_panicked : cache := worker_finish 0 0%nat 7 Panicked witness_running.
Definition witness_done : cache := worker_finish 0 0%nat 7 (Returned (Ok 5)) witness_running.

Lemma witness_running_moves : rtc cache_moves (0, witness_new) (0, witness_running).
Proof. apply rtc_once. exists (Execute 7). constructor. Defined.

Lemma idempotency_single_flight_witness :
  rtc cache_moves (0, witness_new) (0, witness_running) ∧
  execute_admit 0 7 witness_running = (witness_running, Ok (0%nat, true)).
Proof.
  split; [apply witness_running_moves|].
  apply (idempotency_single_flight 1 10 witness_new 0 (0, witness_running)); [done| |done].
  apply witness_running_moves.
Defined.

Lemma witness_inv (o : operation_outcome) :
  cache_inv 0 (worker_finish 0 0%nat 7 o witness_running).
Proof.
  apply worker_finish_inv; [|done].
  eapply (cache_reachable_inv (0, witness_new) (0, witness_running)).
  - by apply (new_inv 0 1 10).
  - apply witness_running_moves.
Defined.

Lemma execute_admit_correct_witness :
  ∃ id, (execute_admit 20 7 witness_done).2 = Ok (id, false) ∧
        cache_inv 20 (execute_admit 20 7 witness_done).1.
Proof.
  exists 1%nat. split; [reflexivity|].
  apply (execute_admit_correct 20 7 witness_done).
  eapply cache_inv_later; [apply witness_inv|lia].
Defined.

Lemma indeterminate_pinned_witness :
  execute_admit 50 7 witness_panicked = (witness_panicked, Ok (0%nat, true)) ∧
  wait_turn witness_panicked 0%nat true = Some (Err IdempotencyError.Indeterminate).
Proof.
  apply (indeterminate_pinned (0, witness_panicked) (50, witness_panicked) 7 0%nat 0).
  - apply witness_inv.
  - reflexivity.
  - reflexivity.
  - apply rtc_once. exists (Elapse 50). apply (step_elapse 0 witness_panicked 50). lia.
Defined.

Lemma callers_agree_witness :
  wait_turn (execute_admit 0 8 witness_done).1 0%nat true = Some (Ok (MkIdempotent 5 true)).
Proof.
  refine (callers_agree (0, witness_done) (0, (execute_admit 0 8 witness_done).1) 0%nat false
    (Ok (MkIdempotent 5 false)) _ _ true).
  - reflexivity.
  - apply rtc_once. exists (Execute 8). constructor.
Defined.

Lemma revisioned_linear_witness :
  let reqs : list request :=
    [(0, λ v, (v + 5, v)); (0, λ v, (v + 7, v)); (1, λ v, (v * 2, v))] in
  map fst (update_history reqs (Revisioned_new 1)).2 = [0; 1] ∧
  rvalue (update_history reqs (Revisioned_new 1)).1 = 12.
Proof.
  pose proof (revisioned_linear
    [(0, λ v, (v + 5, v)); (0, λ v, (v + 7, v)); (1, λ v : Z, (v * 2, v))]
    (Revisioned_new 1) _ _ ltac:(vm_compute; discriminate) eq_refl) as (Hm & _ & Hv).
  split; [exact Hm|exact Hv].
Defined.
End witnesses.
