(* ===== verification/Executor.v ===== *)
(** The contract of the idempotency cache, as an abstract machine, and the
    proof that the cache of [moonlight-bridge-server/src/idempotency.rs]
    refines it.  The machine knows nothing of capacity, time to live,
    completion queue or entries: a key is idle, running, done with an outcome
    that may be forgotten at any moment, or lost for ever. *)
From S2P Require Import Prelude Idempotency.

(** * The abstract executor *)

Section executor.
Context {K V E : Type} `{HK : Countable K}.
Let outcome := operation_outcome (V := V) (E := E).

(** What a caller or an operation can see. *)
Inductive label :=
  | Run (key : K)
  | Join (key : K)
  | Refuse (key : K)
  | End (key : K) (o : outcome).

(** A key that is absent is idle. *)
Inductive phase :=
  | Running
  | Done (r : result (IdempotencyError E) V)
  | Lost.

Definition ended (o : outcome) : phase :=
  match o with Panicked => Lost | Returned r => Done (map_err IdempotencyError.Operation r) end.

Inductive executor_step : option label → gmap K phase → gmap K phase → Prop :=
  | ex_run m key : m !! key = None → executor_step (Some (Run key)) m (<[key := Running]> m)
  | ex_join m key : is_Some (m !! key) → executor_step (Some (Join key)) m m
  | ex_refuse m key : m !! key = None → executor_step (Some (Refuse key)) m m
  | ex_end m key o :
      m !! key = Some Running → executor_step (Some (End key o)) m (<[key := ended o]> m)
  | ex_forget m key r : m !! key = Some (Done r) → executor_step None m (delete key m).

(** The labels of a run; the silent steps leave none. *)
Inductive trace {A} (step : option label → A → A → Prop) : list label → A → A → Prop :=
  | trace_nil a : trace step [] a a
  | trace_cons l a b c ls :
      step l a b → trace step ls b c → trace step (option_list l ++ ls) a c.

(** * The labels of the cache *)

Definition admission_label (key : K) (r : result (IdempotencyError E) (nat * bool)) : label :=
  match r with
  | Ok (_, false) => Run key
  | Ok (_, true) => Join key
  | Err _ => Refuse key
  end.

Definition event_label (w : cache_world (K := K) (V := V) (E := E))
    (ev : cache_event (K := K) (V := V) (E := E)) : option label :=
  match ev with
  | Execute key => Some (admission_label key (execute_admit w.1 key w.2).2)
  | Finish id o => (λ key, End key o) <$> workers w.2 !! id
  | Elapse _ => None
  end.

Definition cache_labelled (l : option label) (w w' : cache_world) : Prop :=
  ∃ ev, cache_step ev w w' ∧ l = event_label w ev.
End executor.
Arguments label K V E : clear implicits.
Arguments phase V E : clear implicits.

(** * The refinement *)

Section refinement.
Context {K V E : Type} `{HK : Countable K}.
Implicit Types (c : IdempotencyCache K V E) (m : gmap K (phase V E)).

Definition phase_of (e : option (Entry V E)) : phase V E :=
  match e with
  | Some (Some (_, r)) => if is_indeterminate r then Lost else Done r
  | _ => Running
  end.

(** The abstraction function. *)
Definition executor_of c : gmap K (phase V E) :=
  (λ id, phase_of (cells c !! id)) <$> entries (state c).

Lemma trace_app {A} (step : option (label K V E) → A → A → Prop) ls1 ls2 a b d :
  trace step ls1 a b → trace step ls2 b d → trace step (ls1 ++ ls2) a d.
Proof. induction 1; [done|]. rewrite <- app_assoc. intros. econstructor; eauto. Qed.

Lemma trace_once {A} (step : option (label K V E) → A → A → Prop) l a b :
  step l a b → trace step (option_list l) a b.
Proof. intros. rewrite <- (app_nil_r (option_list l)). econstructor; [done|constructor]. Qed.

(** Determinate outcomes are forgotten one at a time. *)
Lemma forget_all (l : list K) m m' :
  (∀ k, m' !! k = if decide (k ∈ l) then None else m !! k) →
  (∀ k, k ∈ l → ∃ r, m !! k = Some (Done r)) → NoDup l →
  trace executor_step [] m m'.
Proof.
  revert m. induction l as [|o l IH]; intros m Hm Hd Hn.
  { replace m' with m; [constructor|]. apply map_eq. intros k. rewrite Hm.
    by rewrite decide_False by set_solver. }
  apply NoDup_cons in Hn as [Ho Hn]. destruct (Hd o) as [r Hr]; [set_solver|].
  apply (trace_cons _ None _ (delete o m) m' []); [by eapply ex_forget|]. apply IH; [| |done].
  - intros k. rewrite Hm. destruct (decide (k = o)) as [->|].
    + rewrite lookup_delete_eq. repeat case_decide; set_solver.
    + rewrite lookup_delete_ne by done. repeat case_decide; set_solver.
  - intros k Hk. rewrite lookup_delete_ne by set_solver. apply Hd. set_solver.
Qed.

Lemma executor_of_determinate c k : determinate c k → ∃ r, executor_of c !! k = Some (Done r).
Proof.
  intros (id & t & r & Hid & Hc & Hr). unfold executor_of. rewrite lookup_fmap, Hid. simpl.
  rewrite Hc. simpl. rewrite Hr. eauto.
Qed.

Lemma drops_forget now l1 l2 c s :
  cache_inv now c → drops l1 l2 c s →
  trace executor_step [] (executor_of c) (executor_of (with_state c s)).
Proof.
  intros Hi (Hc & Hs & Hm). apply (forget_all l1).
  - intros k. unfold executor_of. rewrite !lookup_fmap. simpl. rewrite Hm. by case_decide.
  - intros k Hk. eapply executor_of_determinate, completed_determinate; [done|].
    rewrite Hc. set_solver.
  - pose proof (inv_nodup _ _ Hi) as Hn. rewrite Hc in Hn. by apply NoDup_app in Hn as [? _].
Qed.

Lemma spawn_runs now c key s :
  cache_inv now (with_state c s) → entries s !! key = None →
  trace executor_step [Run key] (executor_of (with_state c s)) (executor_of (spawn_entry c key s)).
Proof.
  intros Hi Hk.
  replace (executor_of (spawn_entry c key s))
    with (<[key := Running]> (executor_of (with_state c s))).
  { apply (trace_once _ (Some (Run key))). constructor. unfold executor_of. simpl.
    by rewrite lookup_fmap, Hk. }
  apply map_eq. intros k. unfold executor_of. simpl. destruct (decide (k = key)) as [->|Hne].
  - rewrite lookup_insert_eq, lookup_fmap, lookup_insert_eq. simpl.
    by rewrite lookup_app_r, Nat.sub_diag by lia.
  - rewrite lookup_insert_ne, !lookup_fmap, lookup_insert_ne by done.
    destruct (entries s !! k) as [id|] eqn:Hid; [|done]. simpl. do 2 f_equal.
    pose proof (inv_entry _ _ Hi k id Hid) as He. unfold entry_ok in He. simpl in He.
    destruct (cells c !! id) as [x|] eqn:Hx; [|done]. by rewrite (lookup_app_l_Some _ _ _ _ Hx).
Qed.

Lemma admission_refines now key c :
  cache_inv now c →
  trace executor_step [admission_label key (execute_admit now key c).2]
    (executor_of c) (executor_of (execute_admit now key c).1).
Proof.
  intros Hi. assert (∀ l1 l2 s, drops l1 l2 c s → entries s !! key = None →
    trace executor_step [Run key] (executor_of c) (executor_of (spawn_entry c key s))) as Hrun.
  { intros l1 l2 s Hd Hk. apply (trace_app _ [] [Run key] _ (executor_of (with_state c s))).
    - by eapply drops_forget.
    - eapply spawn_runs; [by eapply drops_inv|done]. }
  destruct (execute_admit_cases now key c Hi) as [id Hk | id l1 l2 s Hk _ Hd | Hk | o l2 s Hk _ Hd | Hk];
    simpl.
  - apply (trace_once _ (Some (Join key))). constructor. unfold executor_of.
    rewrite lookup_fmap, Hk. by eexists.
  - eapply Hrun; [done|]. destruct Hd as (_ & _ & ->). by rewrite decide_True by set_solver.
  - apply (trace_once _ (Some (Refuse key))). constructor. unfold executor_of.
    by rewrite lookup_fmap, Hk.
  - eapply Hrun; [done|]. destruct Hd as (_ & _ & ->). by case_decide.
  - eapply Hrun; [apply drops_refl|done].
Qed.

Lemma completion_refines now id key o c :
  cache_inv now c → workers c !! id = Some key →
  executor_step (Some (End key o)) (executor_of c) (executor_of (worker_finish now id key o c)).
Proof.
  intros Hi Hw. destruct (worker_owns _ _ _ _ Hi Hw) as (Hk & Hc & _ & Hinj).
  replace (executor_of (worker_finish now id key o c))
    with (<[key := ended o]> (executor_of c)).
  { constructor. unfold executor_of. rewrite lookup_fmap, Hk. simpl. by rewrite Hc. }
  apply map_eq. intros k. unfold executor_of. rewrite lookup_fmap.
  change (entries (state (worker_finish now id key o c))) with (entries (state c)).
  destruct (decide (k = key)) as [->|Hne].
  - rewrite lookup_insert_eq, Hk. cbn [fmap option_fmap option_map].
    rewrite worker_finish_cells, decide_True by done. by destruct o as [|[]].
  - rewrite lookup_insert_ne, lookup_fmap by done.
    destruct (entries (state c) !! k) as [id'|] eqn:Hid; [|done]. cbn [fmap option_fmap option_map].
    rewrite worker_finish_cells by done. by rewrite decide_False by (intros ->; auto).
Qed.

Lemma cache_simulation l (w w' : cache_world) :
  cache_inv w.1 w.2 → cache_labelled l w w' →
  trace executor_step (option_list l) (executor_of w.2) (executor_of w'.2).
Proof.
  intros Hi (ev & Hs & ->). destruct Hs as [now c key|now c id key o Hw|now c d]; simpl in *.
  - by apply admission_refines.
  - rewrite Hw. simpl. by eapply (trace_once _ (Some _)), completion_refines.
  - constructor.
Qed.

Lemma cache_trace_refines ls (w w' : cache_world) :
  cache_inv w.1 w.2 → trace cache_labelled ls w w' →
  trace executor_step ls (executor_of w.2) (executor_of w'.2).
Proof.
  intros Hi Ht. induction Ht as [|l w w1 w2 ls Hs _ IH]; [constructor|].
  eapply trace_app; [by apply cache_simulation|]. apply IH.
  destruct Hs as (ev & Hs & _), w, w1. by eapply cache_step_inv.
Qed.

(** * At most once *)

Lemma trace_split {A} (step : option (label K V E) → A → A → Prop) ls1 l ls2 a d :
  trace step (ls1 ++ l :: ls2) a d →
  ∃ b b', trace step ls1 a b ∧ step (Some l) b b' ∧ trace step ls2 b' d.
Proof.
  remember (ls1 ++ l :: ls2) as ls eqn:Hls. intros Ht. revert ls1 Hls.
  induction Ht as [|o a a1 d ls Hs Ht IH]; intros ls1 Hls; [by destruct ls1|].
  destruct o as [x|]; simpl in Hls.
  - destruct ls1 as [|y ls1]; simplify_eq/=.
    + exists a, a1. split_and!; [constructor|done|done].
    + destruct (IH ls1 eq_refl) as (b & b' & H1 & H2 & H3). exists b, b'.
      split_and!; [|done|done]. by apply (trace_cons _ (Some y) _ a1).
  - destruct (IH ls1 Hls) as (b & b' & H1 & H2 & H3). exists b, b'.
    split_and!; [|done|done]. by apply (trace_cons _ None _ a1).
Qed.

(** A key stays busy until its operation returns. *)
Definition busy m (key : K) : Prop :=
  m !! key = Some Running ∨ m !! key = Some Lost.

Lemma busy_step l m m' key :
  executor_step l m m' → busy m key → (∀ r, l ≠ Some (End key (Returned r))) → busy m' key.
Proof.
  unfold busy. intros Hs Hb Hl.
  destruct Hs as [m k Hk|m k Hk|m k Hk|m k o Hk|m k r Hk]; try done;
    destruct (decide (k = key)) as [->|]; rewrite ?lookup_insert_ne, ?lookup_delete_ne by done;
    try done; rewrite ?lookup_insert_eq; simpl.
  - by left.
  - destruct o as [|r]; [by right|]. by destruct (Hl r).
  - destruct Hb; congruence.
Qed.

Lemma busy_trace ls m m' key :
  trace executor_step ls m m' → busy m key → (∀ r, End key (Returned r) ∉ ls) → busy m' key.
Proof.
  induction 1 as [|l m m1 m' ls Hs _ IH]; [done|]. intros Hb Hn. apply IH.
  - eapply busy_step; [done|done|]. intros r ->. apply (Hn r). simpl. set_solver.
  - intros r Hin. apply (Hn r). set_solver.
Qed.

Lemma lost_trace ls m m' key :
  trace executor_step ls m m' → m !! key = Some Lost → m' !! key = Some Lost.
Proof.
  induction 1 as [|l m m1 m' ls Hs _ IH]; [done|]. intros Hb. apply IH.
  destruct Hs; rewrite ?lookup_insert_ne, ?lookup_delete_ne by congruence; done.
Qed.

(** The labels that say a key was idle. *)
Definition idle_label (key : K) (l : label K V E) : Prop := l = Run key ∨ l = Refuse key.

Lemma idle_label_idle key l m m' :
  executor_step (Some l) m m' → idle_label key l → m !! key = None.
Proof. intros Hs [-> | ->]; by inversion Hs. Qed.

Lemma trace_until_returned m m' key l t1 t2 t3 :
  trace executor_step (t1 ++ Run key :: t2 ++ l :: t3) m m' → idle_label key l →
  ∃ r, End key (Returned r) ∈ t2.
Proof.
  intros (m1 & m2 & _ & Hrun & Ht)%trace_split Hl.
  apply trace_split in Ht as (m3 & m4 & Ht & Hl' & _).
  apply idle_label_idle with (key := key) in Hl'; [|done].
  assert (busy m2 key) as Hb by (inversion Hrun; left; by rewrite lookup_insert_eq).
  clear Hrun m1 Hl. revert m2 Ht Hb. induction t2 as [|x t2 IH]; intros m2 Ht Hb.
  { destruct (busy_trace _ _ _ key Ht Hb) as [?|?]; [set_solver|congruence|congruence]. }
  destruct (trace_split _ [] x t2 _ _ Ht) as (b & b' & H1 & H2 & H3).
  assert (busy b key) as Hb' by (eapply busy_trace; [done|done|set_solver]).
  destruct x as [k|k|k|k [|r]]; try (destruct (decide (k = key)) as [->|]);
    try (destruct (IH b' H3) as [r' Hr];
         [eapply busy_step; [done|done|congruence]|exists r'; set_solver]).
  exists r. set_solver.
Qed.

Lemma trace_after_panic m m' key l t1 t2 :
  trace executor_step (t1 ++ End key Panicked :: t2) m m' → l ∈ t2 → ¬ idle_label key l.
Proof.
  intros (m1 & m2 & _ & He & Ht)%trace_split (t3 & t4 & ->)%list_elem_of_split Hl.
  apply trace_split in Ht as (m3 & m4 & Ht & Hl' & _).
  apply idle_label_idle with (key := key) in Hl'; [|done].
  apply (lost_trace _ _ _ key) in Ht; [congruence|]. inversion He. by rewrite lookup_insert_eq.
Qed.

(** * Properties *)

(** C20 Refinement: every run of the idempotency cache, under any interleaving
    of callers, workers and the clock, shows its callers and operations
    exactly a run of the abstract executor, whose keys are idle, running, done
    or lost and whose only liberty is to forget a determinate outcome; the
    abstraction function gives the executor's state at its end. *)
Theorem cache_refines_executor cap t c0 now0 ls (w : cache_world) :
  IdempotencyCache_new cap t = Some c0 →
  trace cache_labelled ls (now0, c0) w →
  trace executor_step ls ∅ (executor_of w.2).
Proof.
  intros Hn Ht. pose proof (new_inv now0 _ _ _ Hn) as Hi.
  replace (∅ : gmap K (phase V E)) with (executor_of c0).
  - by apply (cache_trace_refines ls (now0, c0) w).
  - unfold IdempotencyCache_new in Hn. case_match; [|done]. simplify_eq. apply fmap_empty.
Qed.

(** C21 At most once: between two runs of the operation of a key, or a run and a
    refusal, an operation of that key has returned a value or an error of its
    own, whatever expires, is evicted or panics; once it has panicked, the key
    is neither run nor refused again. *)
Theorem operations_at_most_once cap t c0 now0 ls (w : cache_world) key :
  IdempotencyCache_new cap t = Some c0 →
  trace (cache_labelled (K := K) (V := V) (E := E)) ls (now0, c0) w →
  (∀ t1 t2 t3 l, ls = t1 ++ Run key :: t2 ++ l :: t3 → idle_label key l →
     ∃ r, End key (Returned r) ∈ t2) ∧
  (∀ t1 t2 l, ls = t1 ++ End key Panicked :: t2 → l ∈ t2 → ¬ idle_label key l).
Proof.
  intros Hn Ht. apply cache_trace_refines in Ht; [|by apply (new_inv now0 cap t)].
  split; intros; subst; [by eapply trace_until_returned|by eapply trace_after_panic].
Qed.
End refinement.

(** * Witnesses *)

Section witnesses.

(** One slot: operation 7 runs, returns, is joined, expires and runs again. *)
Definition witness_labels : list (label Z Z Z) :=
  [Run 7; End 7 (Returned (Ok 5)); Join 7; Run 7].

Definition witness_expired : IdempotencyCache Z Z Z := (execute_admit 20 7 witness_done).1.

Lemma witness_trace : trace cache_labelled witness_labels (0, witness_new) (20, witness_expired).
Proof.
  apply (trace_cons _ (Some (Run 7)) _ (0, witness_running)).
  { exists (Execute 7). split; [constructor|done]. }
  apply (trace_cons _ (Some (End 7 (Returned (Ok 5)))) _ (0, witness_done)).
  { exists (Finish 0%nat (Returned (Ok 5))). split; [by constructor|done]. }
  apply (trace_cons _ (Some (Join 7)) _ (0, witness_done)).
  { exists (Execute 7). split; [|done]. apply (step_execute 0 witness_done 7). }
  apply (trace_cons _ None _ (20, witness_done)).
  { exists (Elapse 20). split; [|done]. apply (step_elapse 0 witness_done 20). lia. }
  apply (trace_cons _ (Some (Run 7)) _ (20, witness_expired)); [|constructor].
  exists (Execute 7). split; [constructor|done].
Qed.

Lemma cache_refines_executor_witness :
  trace executor_step witness_labels ∅ (executor_of witness_expired).
Proof.
  apply (cache_refines_executor 1 10 witness_new 0 witness_labels (20, witness_expired)); [done|].
  apply witness_trace.
Defined.

Lemma operations_at_most_once_witness :
  ∃ r, End 7 (Returned r) ∈ [End 7 (Returned (Ok 5)); (Join 7 : label Z Z Z)].
Proof.
  destruct (operations_at_most_once 1 10 witness_new 0 witness_labels (20, witness_expired) 7)
    as [H _]; [done|apply witness_trace|].
  apply (H [] _ [] (Run 7)); [done|by left].
Defined.
End witnesses.
