(* ===== verification/Transport.v ===== *)
(** Framed transport of [moonlight-bridge-server/src/lib.rs]: reading one frame
    from a byte stream, with and without the shared request-byte budget, and
    writing one.  A stream is the bytes that arrive, followed by the end of the
    stream or by silence. *)
From S2P Require Import Prelude Protocol.

(** * I/O errors *)

Module ErrorKind.
Inductive ErrorKind := UnexpectedEof | InvalidData | BrokenPipe | TimedOut | Other.
#[global] Instance ErrorKind_eq_dec : EqDecision ErrorKind.
Proof. solve_decision. Defined.
End ErrorKind.

(** What [io::Error::new] wraps. *)
Inductive IoSource :=
  | Message (text : string)
  | Protocol (e : ProtocolError).

Record IoError := MkIoError { ekind : ErrorKind.ErrorKind; source : IoSource }.

Definition io_error (k : ErrorKind.ErrorKind) (text : string) : IoError := MkIoError k (Message text).
Definition invalid_data (e : ProtocolError) : IoError := MkIoError ErrorKind.InvalidData (Protocol e).

(** An asynchronous operation either returns or waits for something that does
    not come. *)
Inductive async (A : Type) :=
  | Ready (a : A)
  | Pending.
Arguments Ready {A} a.
Arguments Pending {A}.

Definition async_then {E A B} (m : async (result E A)) (f : A → async (result E B))
    : async (result E B) :=
  match m with
  | Ready (Ok a) => f a
  | Ready (Err e) => Ready (Err e)
  | Pending => Pending
  end.

(** [let p = m.await?; k] *)
Notation "'await' p ':=' m ';;' k" := (async_then m (λ p, k))
  (at level 10, p pattern, m at level 99, k at level 200)
  : bridge_scope.

(** [tokio::time::timeout], given that the timer fires when nothing else can. *)
Definition timeout_io {A} (text : string) (m : async (result IoError A)) : result IoError A :=
  match m with
  | Ready r => r
  | Pending => Err (io_error ErrorKind.TimedOut text)
  end.

(** * Byte streams *)

Record Stream := MkStream { arrived : bytes; closed : bool }.

(** [reader.read_exact] of [n] bytes: waits for them, or fails at the end. *)
Definition read_exact (s : Stream) (n : Z) : async (result IoError (bytes * Stream)) :=
  if n <=? zlen (arrived s)
  then Ready (Ok (take (Z.to_nat n) (arrived s),
                  {| arrived := drop (Z.to_nat n) (arrived s); closed := closed s |}))
  else if closed s
  then Ready (Err (io_error ErrorKind.UnexpectedEof "early eof"))
  else Pending.

Definition frame_of (d : DecodedHeader) (body : bytes) : Frame :=
  with_flags (Frame_new (dh_kind d) (dh_method_id d) (dh_request_id d) body) (dh_flags d).

Definition read_frame (s : Stream) (max_body_len : Z) : async (result IoError (Frame * Stream)) :=
  await (header, s) := read_exact s HEADER_LEN;;
  await decoded := Ready (map_err invalid_data (decode_header header max_body_len));;
  await (body, s) := read_exact s (dh_body_len decoded);;
  Ready (Ok (frame_of decoded body, s)).

Definition write_frame (written : bytes) (f : Frame) : result IoError bytes :=
  encoded ← map_err invalid_data (Frame_encode f);
  Ok (written ++ encoded).

(** * Semaphores *)

(** What the server uses of [tokio::sync::Semaphore]: the free permits, taking
    several at once or waiting for them ([None] when it was closed), and giving
    them back by dropping the permit. *)
Class SemaphoreOps := {
  Semaphore : Type;
  available_permits : Semaphore → Z;
  is_closed : Semaphore → bool;
  try_acquire_many : Semaphore → Z → option Semaphore;
  acquire_many : Semaphore → Z → async (option Semaphore);
  release_permits : Semaphore → Z → Semaphore;
}.

(** Its documented behaviour: permits are taken all or none, only from free
    ones, and an open semaphore with enough of them does not make one wait. *)
Class SemaphoreLaws (S0 : SemaphoreOps) : Prop := {
  try_acquire_takes s n s' :
    try_acquire_many s n = Some s' →
    n ≤ available_permits s ∧ available_permits s' = available_permits s - n;
  acquire_takes s n s' :
    acquire_many s n = Ready (Some s') →
    n ≤ available_permits s ∧ available_permits s' = available_permits s - n ∧
    is_closed s' = is_closed s;
  acquire_ready s n :
    is_closed s = false → n ≤ available_permits s →
    ∃ s', acquire_many s n = Ready (Some s');
  release_gives s n : available_permits (release_permits s n) = available_permits s + n;
}.

(** * The buffered reader *)

Record BufferedFrame := MkBufferedFrame {
  bf_frame : Frame;
  bf_permit : option Z;
  bf_received_at : option Z;
}.

Section reader.
Context `{S0 : SemaphoreOps}.

Definition read_timed_out : IoError :=
  io_error ErrorKind.TimedOut "MoonLightBridge frame read timed out".

(** One call of the reader: the frame with the permits it holds, the rest of
    the stream and the budget.  Permits taken before an error go back. *)
Definition read_frame_buffered (s : Stream) (max_body_len : Z) (budget : Semaphore)
    (stamp : bool) (now : Z) : Semaphore * result IoError (BufferedFrame * Stream) :=
  let header_read : async (result IoError (DecodedHeader * Stream)) :=
    await (header, s) := read_exact s HEADER_LEN;;
    await decoded := Ready (map_err invalid_data (decode_header header max_body_len));;
    Ready (Ok (decoded, s)) in
  match header_read with
  | Pending => (budget, Err read_timed_out)
  | Ready (Err e) => (budget, Err e)
  | Ready (Ok (decoded, s)) =>
      let read_body permit budget released :=
        match read_exact s (dh_body_len decoded) with
        | Pending => (released, Err read_timed_out)
        | Ready (Err e) => (released, Err e)
        | Ready (Ok (body, s)) =>
            (budget, Ok ({| bf_frame := frame_of decoded body;
                            bf_permit := permit;
                            bf_received_at := if stamp then Some now else None |}, s))
        end in
      if dh_body_len decoded =? 0 then read_body None budget budget
      else
        match acquire_many budget (dh_body_len decoded) with
        | Pending => (budget, Err read_timed_out)
        | Ready None =>
            (budget, Err (io_error ErrorKind.BrokenPipe "request byte budget closed"))
        | Ready (Some budget) =>
            read_body (Some (dh_body_len decoded)) budget
              (release_permits budget (dh_body_len decoded))
        end
  end.

(** The reader task: frames until the first error, at most [fuel] of them. *)
Fixpoint reader_task (fuel : nat) (s : Stream) (max_body_len : Z) (budget : Semaphore)
    : list BufferedFrame * option IoError :=
  match fuel with
  | O => ([], None)
  | S fuel =>
      match read_frame_buffered s max_body_len budget false 0 with
      | (budget', Ok (f, s')) =>
          let '(fs, e) := reader_task fuel s' max_body_len budget' in (f :: fs, e)
      | (_, Err e) => ([], Some e)
      end
  end.
End reader.

(** * Lemmas *)

Definition permits_of (f : BufferedFrame) : Z := default 0 (bf_permit f).

(** A frame the encoder accepts, within the reader's limit. *)
Definition sendable (max : Z) (f : Frame) : Prop :=
  Frame_wf f ∧ has_unknown_flags (flags f) = false ∧ zlen (body f) ≤ max.

Definition frame_bytes (f : Frame) : bytes := header_bytes (header_of f) ++ body f.

Lemma zlen_frame_bytes f : zlen (frame_bytes f) = HEADER_LEN + zlen (body f).
Proof. unfold frame_bytes. rewrite zlen_app. unfold zlen at 1. by rewrite length_header_bytes. Qed.

Lemma Frame_encode_bytes max f :
  sendable max f → max ≤ u32_max → Frame_encode f = Ok (frame_bytes f).
Proof.
  intros (_ & Hf & Hl) Hm. unfold Frame_encode. rewrite Frame_encode_into_Ok by (done || lia).
  done.
Qed.

Lemma header_of_wf max f : sendable max f → max ≤ u32_max → DecodedHeader_wf (header_of f).
Proof.
  intros ((Hf & Hm & Hr) & Hu & Hl) Hmax. pose proof (zlen_nonneg (body f)).
  unfold DecodedHeader_wf. simpl. split_and!; try lia. by apply has_unknown_flags_false.
Qed.

Lemma frame_of_header f : frame_of (header_of f) (body f) = f.
Proof. by destruct f. Qed.

Lemma read_exact_app p r c n :
  n = zlen p → read_exact (MkStream (p ++ r) c) n = Ready (Ok (p, MkStream r c)).
Proof.
  intros ->. unfold read_exact. simpl. rewrite zlen_app. pose proof (zlen_nonneg r).
  rewrite (proj2 (Z.leb_le _ _)) by lia.
  replace (Z.to_nat (zlen p)) with (length p) by (unfold zlen; lia).
  by rewrite take_app_length, drop_app_length.
Qed.

Lemma read_exact_Ok s n p s' :
  0 ≤ n → read_exact s n = Ready (Ok (p, s')) →
  arrived s = p ++ arrived s' ∧ closed s' = closed s ∧ zlen p = n.
Proof.
  intros Hn. unfold read_exact. destruct (n <=? _) eqn:E; [|by destruct (closed s)].
  intros [= <- <-]. bool_to_prop. simpl. split_and!; [by rewrite take_drop|done|].
  unfold zlen in *. rewrite length_take. lia.
Qed.

Lemma read_frame_written max f r c :
  sendable max f → max ≤ u32_max →
  read_frame (MkStream (frame_bytes f ++ r) c) max = Ready (Ok (f, MkStream r c)).
Proof.
  intros Hs Hm. unfold read_frame, frame_bytes. rewrite <- app_assoc.
  rewrite read_exact_app by (unfold zlen; by rewrite length_header_bytes). simpl.
  rewrite decode_header_bytes; [|by eapply header_of_wf|apply Hs]. simpl.
  rewrite read_exact_app by done. simpl. by rewrite frame_of_header.
Qed.

Lemma read_frame_Ok s max f s' :
  read_frame s max = Ready (Ok (f, s')) →
  arrived s = frame_bytes f ++ arrived s' ∧ closed s' = closed s ∧ sendable max f.
Proof.
  unfold read_frame. destruct (read_exact s HEADER_LEN) as [[[h s1]|]|] eqn:Eh; try done.
  cbn [async_then].
  destruct (decode_header h max) as [d|] eqn:Ed; [|done].
  cbn [async_then map_err].
  destruct (read_exact s1 _) as [[[b s2]|]|] eqn:Eb; try done. intros [= <- <-].
  apply read_exact_Ok in Eh as (Ha & Hc & Hl); [|done].
  apply decode_header_inv in Ed as (-> & (Hf & Hbl & Hmid & Hrid) & Hmax);
    [|unfold zlen, HEADER_LEN in Hl; lia].
  apply read_exact_Ok in Eb as (Hb & Hc2 & Hl2); [|lia].
  assert (header_of (frame_of d b) = d) as Hd.
  { destruct d. unfold header_of, frame_of in *. simpl in *. by rewrite Hl2. }
  split; [|split; [congruence|]].
  - unfold frame_bytes. rewrite Hd, <- app_assoc. rewrite Ha, Hb. done.
  - split_and!; simpl; [| |lia].
    + unfold Frame_wf. simpl. unfold u16_max. destruct Hf as [-> | ->]; lia.
    + by destruct Hf as [-> | ->].
Qed.

Definition buffered (f : Frame) : BufferedFrame :=
  {| bf_frame := f;
     bf_permit := if zlen (body f) =? 0 then None else Some (zlen (body f));
     bf_received_at := None |}.

Section reader_lemmas.
Context `{S0 : SemaphoreOps} {S0_laws : SemaphoreLaws S0}.
Implicit Types (budget : Semaphore).

(** The buffered reader reads what the plain one reads, and charges it. *)
Lemma read_frame_buffered_Ok s max budget stamp now budget' bf s' :
  read_frame_buffered s max budget stamp now = (budget', Ok (bf, s')) →
  read_frame s max = Ready (Ok (bf_frame bf, s')) ∧
  permits_of bf = zlen (body (bf_frame bf)) ∧
  available_permits budget' = available_permits budget - permits_of bf ∧
  (permits_of bf = 0 ∨ permits_of bf ≤ available_permits budget).
Proof.
  unfold read_frame_buffered, read_frame.
  destruct (read_exact s HEADER_LEN) as [[[h s1]|]|] eqn:Eh; try done. cbn [async_then].
  destruct (decode_header h max) as [d|] eqn:Ed; [|done]. cbn [async_then map_err].
  apply read_exact_Ok in Eh as (_ & _ & Hl); [|done].
  apply decode_header_inv in Ed as (_ & (_ & Hbl & _) & _); [|unfold zlen, HEADER_LEN in Hl; lia].
  destruct (dh_body_len d =? 0) eqn:E0.
  - destruct (read_exact s1 _) as [[[b s2]|]|] eqn:Eb; try done. cbn [async_then].
    intros [= <- <- <-]. apply read_exact_Ok in Eb as (_ & _ & Hb); [|lia]. bool_to_prop.
    unfold permits_of. simpl. split_and!; [done|lia|lia|by left].
  - destruct (acquire_many _ _) as [[b1|]|] eqn:Ea; try done.
    destruct (read_exact s1 _) as [[[b s2]|]|] eqn:Eb; try done. cbn [async_then].
    intros [= <- <- <-]. apply read_exact_Ok in Eb as (_ & _ & Hb); [|lia].
    apply acquire_takes in Ea as (Hle & Hav & _). unfold permits_of. simpl.
    split_and!; [done|lia|lia|by right].
Qed.

Lemma read_frame_buffered_Err s max budget stamp now budget' e :
  read_frame_buffered s max budget stamp now = (budget', Err e) →
  available_permits budget' = available_permits budget.
Proof.
  unfold read_frame_buffered. destruct (await (_, _) := _;; _) as [[[d s1]|]|]; try naive_solver.
  destruct (dh_body_len d =? 0).
  - destruct (read_exact s1 _) as [[[]|]|]; naive_solver.
  - destruct (acquire_many _ _) as [[b1|]|] eqn:Ea; try naive_solver.
    apply acquire_takes in Ea as (_ & Hav & _).
    destruct (read_exact s1 _) as [[[]|]|]; intros; simplify_eq; rewrite release_gives; lia.
Qed.

Lemma read_frame_buffered_written max f r c budget now :
  sendable max f → max ≤ u32_max → is_closed budget = false →
  zlen (body f) ≤ available_permits budget →
  ∃ budget',
    read_frame_buffered (MkStream (frame_bytes f ++ r) c) max budget false now
    = (budget', Ok (buffered f, MkStream r c)) ∧
    is_closed budget' = false ∧
    available_permits budget' = available_permits budget - zlen (body f).
Proof.
  intros Hs Hm Hc Hb. unfold read_frame_buffered, frame_bytes. rewrite <- app_assoc.
  rewrite read_exact_app by (unfold zlen; by rewrite length_header_bytes). cbn [async_then].
  rewrite decode_header_bytes; [|by eapply header_of_wf|apply Hs]. cbn [async_then map_err].
  unfold buffered. cbn [header_of dh_body_len]. destruct (zlen (body f) =? 0) eqn:E0.
  - bool_to_prop. rewrite read_exact_app by done. exists budget.
    change (frame_of _ (body f)) with (frame_of (header_of f) (body f)).
    rewrite frame_of_header. split_and!; [done|done|lia].
  - destruct (acquire_ready budget (zlen (body f)) Hc Hb) as [b' Ha]. rewrite Ha.
    apply acquire_takes in Ha as (_ & Hav & Hcl). rewrite read_exact_app by done. exists b'.
    change (frame_of _ (body f)) with (frame_of (header_of f) (body f)).
    rewrite frame_of_header. split_and!; [done|congruence|done].
Qed.
End reader_lemmas.

(** * Properties *)

(** Framing is exact in both directions: [read_frame] returns a frame if and
    only if the bytes at the front of the stream are exactly what [write_frame]
    writes for it, its body is within the limit and its flags are known; the
    rest of the stream is untouched. *)
Theorem read_frame_exact s max f s' :
  max ≤ u32_max →
  read_frame s max = Ready (Ok (f, s')) ↔
  sendable max f ∧ closed s' = closed s ∧
  ∃ written, write_frame [] f = Ok written ∧ arrived s = written ++ arrived s'.
Proof.
  intros Hm. split.
  - intros (Ha & Hc & Hs)%read_frame_Ok. split_and!; [done|done|].
    exists (frame_bytes f). unfold write_frame.
    by rewrite (Frame_encode_bytes max) by done.
  - intros (Hs & Hc & w & Hw & Ha). unfold write_frame in Hw.
    rewrite (Frame_encode_bytes max) in Hw by done. injection Hw as <-.
    destruct s as [a c], s' as [a' c']. simpl in *. subst. by apply read_frame_written.
Qed.

(** The buffered reader agrees with [read_frame], holds exactly as many
    request-byte permits as the frame has body bytes, never overdraws the shared
    budget, and gives every permit back when the read fails or times out. *)
Theorem read_frame_buffered_accounting `{S0 : SemaphoreOps} (L : SemaphoreLaws S0)
    s max budget stamp now :
  0 ≤ available_permits budget →
  let '(budget', r) := read_frame_buffered s max budget stamp now in
  match r with
  | Ok (bf, s') =>
      read_frame s max = Ready (Ok (bf_frame bf, s')) ∧
      permits_of bf = zlen (body (bf_frame bf)) ∧
      0 ≤ available_permits budget' ∧
      available_permits budget' + permits_of bf = available_permits budget
  | Err _ => available_permits budget' = available_permits budget
  end.
Proof.
  intros H0. destruct (read_frame_buffered _ _ _ _ _) as [budget' [[bf s']|e]] eqn:E.
  - apply read_frame_buffered_Ok in E as (Hr & Hp & Hav & Hle). split_and!; try done; lia.
  - by apply read_frame_buffered_Err in E.
Qed.

Lemma reader_task_reads `{S0 : SemaphoreOps} (L : SemaphoreLaws S0) fs max budget :
  max ≤ u32_max → is_closed budget = false → Forall (sendable max) fs →
  zsum (λ f, zlen (body f)) fs ≤ available_permits budget →
  reader_task (S (length fs)) (MkStream (concat (map frame_bytes fs)) true) max budget
  = (map buffered fs, Some (io_error ErrorKind.UnexpectedEof "early eof")).
Proof.
  intros Hm Hc Hall. revert budget Hc. induction Hall as [|f fs Hf Hall IH]; intros budget Hc Hb.
  - done.
  - cbn [zsum foldr] in Hb. fold (zsum (λ f, zlen (body f)) fs) in Hb.
    assert (0 ≤ zsum (λ f, zlen (body f)) fs)
      by (apply zsum_nonneg; intros; apply zlen_nonneg).
    cbn [length map concat]. remember (S (length fs)) as n. cbn [reader_task].
    destruct (read_frame_buffered_written max f (concat (map frame_bytes fs)) true budget 0)
      as (b' & -> & Hc' & Hav); [done|done|done|lia|]. subst n.
    rewrite IH; [done|done|lia].
Qed.

(** The reader task delivers a stream of frames without loss, duplication or
    reordering: from the concatenated encodings of frames that fit the limit and
    the budget it produces exactly those frames, and reports the clean end of
    the stream only after the last one. *)
Theorem reader_task_delivers `{S0 : SemaphoreOps} (L : SemaphoreLaws S0) fs max budget :
  max ≤ u32_max → is_closed budget = false → Forall (sendable max) fs →
  zsum (λ f, zlen (body f)) fs ≤ available_permits budget →
  reader_task (S (length fs)) (MkStream (concat (map frame_bytes fs)) true) max budget
  = (map buffered fs, Some (io_error ErrorKind.UnexpectedEof "early eof")).
Proof. apply (reader_task_reads L). Qed.

(** ** A counting semaphore *)

Record counting := MkCounting { free : Z; shut : bool }.

#[export] Instance counting_ops : SemaphoreOps :=
  {| Semaphore := counting;
     available_permits := free;
     is_closed := shut;
     try_acquire_many s n :=
       if negb (shut s) && (n <=? free s) then Some (MkCounting (free s - n) (shut s)) else None;
     acquire_many s n :=
       if shut s then Ready None
       else if n <=? free s then Ready (Some (MkCounting (free s - n) (shut s))) else Pending;
     release_permits s n := MkCounting (free s + n) (shut s) |}.

Lemma counting_laws : SemaphoreLaws counting_ops.
Proof.
  split; simpl.
  - intros [a []] n s'; simpl; [done|]. case_match; [|done]. intros [= <-]. bool_to_prop. done.
  - intros [a []] n s'; simpl; [done|]. case_match; [|done]. intros [= <-]. bool_to_prop. done.
  - intros [a []] n; simpl; [done|]. intros _ Hle. rewrite (proj2 (Z.leb_le _ _)) by done. eauto.
  - done.
Qed.

(** ** Witnesses *)

Definition sample_frame : Frame := Frame_new FrameKind.Ping 0 7 [x01; x02].

Lemma sample_frame_sendable : sendable 16 sample_frame.
Proof. repeat split; vm_compute; congruence. Qed.

Lemma read_frame_exact_witness :
  read_frame (MkStream (frame_bytes sample_frame ++ [xff]) false) 16
  = Ready (Ok (sample_frame, MkStream [xff] false)).
Proof.
  apply (read_frame_exact _ 16); [vm_compute; discriminate|].
  split; [apply sample_frame_sendable|]. split; [reflexivity|].
  exists (frame_bytes sample_frame). split; vm_compute; reflexivity.
Defined.

Lemma read_frame_buffered_accounting_witness :
  ∃ budget' bf s',
    read_frame_buffered (MkStream (frame_bytes sample_frame) true) 16
      (MkCounting 10 false) true 5 = (budget', Ok (bf, s')) ∧
    available_permits budget' + permits_of bf = 10.
Proof.
  pose proof (read_frame_buffered_accounting counting_laws (MkStream (frame_bytes sample_frame) true) 16
    (MkCounting 10 false) true 5 ltac:(vm_compute; discriminate)) as H.
  destruct (read_frame_buffered _ _ _ _ _) as [budget' r] eqn:E.
  vm_compute in E. injection E as <- <-.
  do 3 eexists. split; [reflexivity|]. apply H.
Defined.

Lemma reader_task_delivers_witness :
  reader_task 3 (MkStream (frame_bytes sample_frame ++ frame_bytes sample_frame) true) 16
    (MkCounting 10 false)
  = ([buffered sample_frame; buffered sample_frame],
     Some (io_error ErrorKind.UnexpectedEof "early eof")).
Proof.
  pose proof (reader_task_delivers counting_laws [sample_frame; sample_frame] 16 (MkCounting 10 false)) as H.
  cbn [map concat length] in H. rewrite app_nil_r in H. apply H.
  - vm_compute; discriminate.
  - reflexivity.
  - repeat constructor; vm_compute; congruence.
  - vm_compute; discriminate.
Defined.

(** ** The read timeout covers more than a frame *)

(** It runs before the first byte of a frame, so that a silent connection is
    closed, and while the reader waits for permits that others hold, so that a
    frame which has arrived as a whole can time out. *)
Example silence_times_out :
  read_frame_buffered (MkStream [] false) 16 (MkCounting 10 false) false 0
  = (MkCounting 10 false, Err read_timed_out).
Proof. reflexivity. Qed.

Example arrived_frame_times_out :
  read_frame_buffered (MkStream (frame_bytes sample_frame) false) 16 (MkCounting 1 false) false 0
  = (MkCounting 1 false, Err read_timed_out).
Proof. reflexivity. Qed.
