(* ===== verification/Outbound.v ===== *)
(** The outbound half of a connection in [moonlight-bridge-server/src/lib.rs]:
    error frames, fitting and compressing frames for the wire, the byte-bounded
    response queue and the batching writer task. *)
From S2P Require Import Prelude OrdMap Compression Protocol Metadata Transport.

(** * Shaping outbound frames *)

Definition error_frame (request : Frame) (code : ErrorCode) (message : bytes) : Frame :=
  Frame_new FrameKind.Error (method_id request) (request_id request)
    (ErrorCode_encode code message).

(** [frame.kind = Error; frame.flags = 0; frame.body = body] *)
Definition into_error (frame : Frame) (body : bytes) : Frame :=
  {| kind := FrameKind.Error; flags := 0; method_id := method_id frame;
     request_id := request_id frame; body := body |}.

Definition set_body (frame : Frame) (fl : Z) (body : bytes) : Frame :=
  {| kind := kind frame; flags := fl; method_id := method_id frame;
     request_id := request_id frame; body := body |}.

Definition fit_outbound_frame (frame : Frame) (max_body_len : Z) : Frame :=
  if zlen (body frame) <=? max_body_len then frame
  else into_error frame
         (if max_body_len >=? 2 then ErrorCode_encode ErrorCode.ResourceExhausted [] else []).

Definition compressible (k : FrameKind) : bool :=
  match k with
  | FrameKind.Response | FrameKind.Event | FrameKind.StreamItem => true
  | _ => false
  end.

Definition metadata_limits (max_metadata_len : Z) : MetadataLimits :=
  {| max_bytes := max_metadata_len;
     max_entries := max_entries MetadataLimits_default;
     max_value_bytes := max_value_bytes MetadataLimits_default |}.

Section outbound.
Context `{Z0 : ZstdOps}.

(** The frame's metadata and the offset of its payload; [None] leaves the frame
    as it is. *)
Definition outbound_metadata (frame : Frame) (max_metadata_len : Z) : option (Metadata * Z) :=
  if negb (Z.land (flags frame) FLAG_HAS_METADATA =? 0)
  then match Metadata_decode (body frame) (metadata_limits max_metadata_len) with
       | Ok (metadata, payload) => Some (metadata, zlen (body frame) - zlen payload)
       | Err _ => None
       end
  else Some (Metadata_new, 0).

(** The entries that announce a compressed payload. *)
Definition announce_compression (metadata : Metadata) (c : CompressedPayload)
    : result ProtocolError Metadata :=
  if bool_decide (cp_codec c = CompressionCodec.Zstd)
  then metadata ← insert_reserved metadata ReservedMetadataKey.CompressionCodec
                    [b8 (CompressionCodec_as_u8 (cp_codec c))];
       insert_reserved metadata ReservedMetadataKey.OriginalLength
         (be_bytes 4 (cp_original_len c))
  else Ok metadata.

Definition compress_outbound_frame (frame : Frame) (codecs : Z) (policy : CompressionPolicy)
    (max_metadata_len : Z) : Frame :=
  let fail message :=
    into_error frame (ErrorCode_encode ErrorCode.CompressionFailure (as_bytes message)) in
  if (Z.land codecs COMPRESSION_CODEC_ZSTD =? 0) || negb (compressible (kind frame))
  then frame
  else
    match outbound_metadata frame max_metadata_len with
    | None => frame
    | Some (metadata, payload_offset) =>
        let payload := drop (Z.to_nat payload_offset) (body frame) in
        match CompressionPolicy_encode policy payload CompressionCodec.Zstd with
        | Err _ => fail "response compression failed"
        | Ok compressed =>
            match announce_compression metadata compressed with
            | Err _ => fail "response metadata conflict"
            | Ok metadata =>
                if negb (Metadata_is_empty metadata)
                then
                  let '(prefix, r) := encode_prefix metadata [] in
                  if is_err r || (saturating_sub (zlen prefix) 4 >? max_metadata_len)
                  then fail "response metadata too large"
                  else set_body frame (Z.lor (flags frame) FLAG_HAS_METADATA)
                         (prefix ++ cp_bytes compressed)
                else set_body frame (Z.land (flags frame) (Z.lxor u16_max FLAG_HAS_METADATA))
                       (cp_bytes compressed)
            end
        end
    end.

(** What the writer does to every frame it takes. *)
Definition outbound_frame (negotiated : PeerSettingsV2) (policy : CompressionPolicy)
    (frame : Frame) : Frame :=
  let frame := fit_outbound_frame frame (max_decoded_body_len negotiated) in
  let frame := compress_outbound_frame frame (compression_codecs negotiated) policy
                 (max_metadata_len negotiated) in
  fit_outbound_frame frame (max_body_len negotiated).

(** * The writer task *)

Definition WRITER_BATCH_BYTES : Z := 512 * 1024.
Definition MAX_BATCH_FRAMES : nat := 64.

Context (negotiated : PeerSettingsV2) (policy : CompressionPolicy).
Let outbound : Frame → Frame := outbound_frame negotiated policy.

(** The inner [while] loop: [visible] frames can be taken from the channel.
    Returns the buffer, the frames added, the deferred one and what is left. *)
Fixpoint fill_batch (room : nat) (encoded : bytes) (visible : list Frame)
    : result IoError (bytes * list Frame * option Frame * list Frame) :=
  match room, visible with
  | S room, queued :: rest =>
      let queued := outbound queued in
      let frame_len := HEADER_LEN + zlen (body queued) in
      if zlen encoded + frame_len >? WRITER_BATCH_BYTES
      then Ok (encoded, [], Some queued, rest)
      else
        encoded ← map_err invalid_data (Frame_encode_into queued encoded);
        '(encoded, added, deferred, rest) ← fill_batch room encoded rest;
        Ok (encoded, queued :: added, deferred, rest)
  | _, _ => Ok (encoded, [], None, visible)
  end.

Record WriterState := MkWriterState {
  ws_deferred : option Frame;
  ws_channel : list Frame;
}.

(** One turn of the outer loop, up to [write_all]: the bytes written and the
    frames they hold.  [visible] is how many queued frames [try_recv] finds;
    [None] is the end of the channel. *)
Definition writer_turn (visible : nat) (st : WriterState)
    : option (result IoError (bytes * list Frame * WriterState)) :=
  match (match ws_deferred st with
         | Some frame => Some (frame, ws_channel st)
         | None => match ws_channel st with
                   | [] => None
                   | frame :: rest => Some (frame, rest)
                   end
         end) with
  | None => None
  | Some (frame, channel) =>
      Some (let first := outbound frame in
            encoded ← map_err invalid_data (Frame_encode_into first []);
            '(encoded, added, deferred, rest) ←
              fill_batch (MAX_BATCH_FRAMES - 1) encoded (take visible channel);
            Ok (encoded, first :: added,
                {| ws_deferred := deferred; ws_channel := rest ++ drop visible channel |}))
  end.

(** A run of the writer, given what each turn can see: the batches written. *)
Fixpoint writer_run (visibles : list nat) (st : WriterState)
    : result IoError (list (bytes * list Frame) * WriterState) :=
  match visibles with
  | [] => Ok ([], st)
  | visible :: visibles =>
      match writer_turn visible st with
      | None => Ok ([], st)
      | Some turn =>
          '(encoded, frames, st) ← turn;
          '(batches, st) ← writer_run visibles st;
          Ok ((encoded, frames) :: batches, st)
      end
  end.
End outbound.

(** * The response queue *)

Section queue.
Context `{S0 : SemaphoreOps}.

(** The queue's channel with the byte permits each queued response holds. *)
Record ResponseQueue := MkResponseQueue {
  rq_queued : list (Frame * Z);
  rq_capacity : nat;
  rq_open : bool;
  rq_global_bytes : Semaphore;
  rq_connection_bytes : Semaphore;
}.

Definition with_budgets (q : ResponseQueue) (connection global : Semaphore) : ResponseQueue :=
  {| rq_queued := rq_queued q; rq_capacity := rq_capacity q; rq_open := rq_open q;
     rq_global_bytes := global; rq_connection_bytes := connection |}.

(** The frame with its permits, taken at once or not at all. *)
Definition queue_try_reserve (q : ResponseQueue) (frame : Frame)
    : result Frame (ResponseQueue * (Frame * Z)) :=
  bytes ← ok_or (try_into_max u32_max (HEADER_LEN + zlen (body frame))) frame;
  connection ← ok_or (try_acquire_many (rq_connection_bytes q) bytes) frame;
  global ← ok_or (try_acquire_many (rq_global_bytes q) bytes) frame;
  Ok (with_budgets q connection global, (frame, bytes)).

(** [acquire_many_owned(bytes).await] with its error mapped. *)
Definition acquire_or_closed (s : Semaphore) (n : Z) : async (result IoError Semaphore) :=
  match acquire_many s n with
  | Ready (Some s) => Ready (Ok s)
  | Ready None => Ready (Err (io_error ErrorKind.BrokenPipe "response budget closed"))
  | Pending => Pending
  end.

(** [reserve] waits for the permits. *)
Definition queue_reserve (q : ResponseQueue) (frame : Frame)
    : async (result IoError (ResponseQueue * (Frame * Z))) :=
  await bytes :=
    Ready (ok_or (try_into_max u32_max (HEADER_LEN + zlen (body frame)))
             (io_error ErrorKind.InvalidData "response frame is too large"));;
  await connection := acquire_or_closed (rq_connection_bytes q) bytes;;
  await global := acquire_or_closed (rq_global_bytes q) bytes;;
  Ready (Ok (with_budgets q connection global, (frame, bytes))).

(** [self.sender.send(queued).await] *)
Definition channel_send (q : ResponseQueue) (item : Frame * Z)
    : async (result IoError ResponseQueue) :=
  if negb (rq_open q) then Ready (Err (io_error ErrorKind.BrokenPipe "response writer closed"))
  else if (length (rq_queued q) <? rq_capacity q)%nat
  then Ready (Ok {| rq_queued := rq_queued q ++ [item]; rq_capacity := rq_capacity q;
                    rq_open := rq_open q; rq_global_bytes := rq_global_bytes q;
                    rq_connection_bytes := rq_connection_bytes q |})
  else Pending.

Definition rejected_frame (frame : Frame) : Frame :=
  Frame_new FrameKind.Error (method_id frame) (request_id frame)
    (ErrorCode_encode ErrorCode.ResourceExhausted (as_bytes "response byte budget exhausted")).

(** [send]: the queue after it.  A pending call holds nothing once dropped. *)
Definition queue_send (q : ResponseQueue) (frame : Frame) : async (result IoError ResponseQueue) :=
  match queue_try_reserve q frame with
  | Ok (q, item) => channel_send q item
  | Err frame =>
      match kind frame with
      | FrameKind.Event => Ready (Ok q)
      | FrameKind.Response | FrameKind.StreamItem =>
          await (q, item) := queue_reserve q (rejected_frame frame);; channel_send q item
      | _ => await (q, item) := queue_reserve q frame;; channel_send q item
      end
  end.

(** What [send] puts into the channel for a frame, by the outcome of
    [try_reserve]: without room for its bytes an event is dropped, a response or
    stream item is replaced by an error, and any other frame waits for its
    permits in [reserve]. *)
Definition queue_form (room : bool) (frame : Frame) : list Frame :=
  if room then [frame]
  else
    match kind frame with
    | FrameKind.Event => []
    | FrameKind.Response | FrameKind.StreamItem => [rejected_frame frame]
    | _ => [frame]
    end.

(** The frames in the channel. *)
Definition queued_frames (q : ResponseQueue) : list Frame := map fst (rq_queued q).

(** The writer takes the head; its permits are released after the write. *)
Definition queue_pop (q : ResponseQueue) : option (Frame * ResponseQueue) :=
  match rq_queued q with
  | [] => None
  | (frame, n) :: rest =>
      Some (frame,
            {| rq_queued := rest; rq_capacity := rq_capacity q; rq_open := rq_open q;
               rq_global_bytes := release_permits (rq_global_bytes q) n;
               rq_connection_bytes := release_permits (rq_connection_bytes q) n |})
  end.
End queue.

(** * Lemmas *)

(** Frames the runtime makes: header fields in range, known flags. *)
Definition frame_ok (f : Frame) : Prop := Frame_wf f ∧ has_unknown_flags (flags f) = false.

Lemma sendable_ok max f : sendable max f ↔ frame_ok f ∧ zlen (body f) ≤ max.
Proof. unfold sendable, frame_ok. naive_solver. Qed.

Lemma into_error_ok f b : frame_ok f → frame_ok (into_error f b).
Proof.
  intros [(Hf & Hm & Hr) _]. split; [|done]. unfold Frame_wf. simpl. unfold u16_max.
  split_and!; lia.
Qed.

Lemma set_body_ok f fl b : frame_ok f → fl = 0 ∨ fl = 1 → frame_ok (set_body f fl b).
Proof.
  intros [(Hf & Hm & Hr) _] Hfl. unfold frame_ok, Frame_wf. simpl. unfold u16_max.
  destruct Hfl as [-> | ->]; split_and!; try done; lia.
Qed.

Lemma frame_ok_flags f : frame_ok f → flags f = 0 ∨ flags f = 1.
Proof. intros [(Hf & _) Hu]. by apply has_unknown_flags_false. Qed.

Lemma fit_outbound_frame_fits f max : 0 ≤ max → zlen (body (fit_outbound_frame f max)) ≤ max.
Proof.
  intros Hm. unfold fit_outbound_frame. destruct (_ <=? max) eqn:E; bool_to_prop; [done|].
  rewrite Z.geb_leb. destruct (2 <=? max) eqn:E2; bool_to_prop; [|done].
  unfold ErrorCode_encode. cbn [body into_error]. rewrite zlen_app, zlen_be_bytes, zlen_nil. lia.
Qed.

Lemma fit_outbound_frame_ok f max : frame_ok f → frame_ok (fit_outbound_frame f max).
Proof. unfold fit_outbound_frame. case_match; eauto using into_error_ok. Qed.

Lemma fit_outbound_frame_id f max : zlen (body f) ≤ max → fit_outbound_frame f max = f.
Proof. intros H. unfold fit_outbound_frame. by rewrite (proj2 (Z.leb_le _ _)). Qed.

Section outbound_lemmas.
Context `{Z0 : ZstdOps}.

Lemma compress_outbound_frame_ok f codecs policy max :
  frame_ok f → frame_ok (compress_outbound_frame f codecs policy max).
Proof.
  intros Hf. unfold compress_outbound_frame. pose proof (frame_ok_flags f Hf) as Hfl.
  repeat (case_match; [eauto using into_error_ok|] || case_match); eauto using into_error_ok;
    apply set_body_ok; try done; destruct Hfl as [-> | ->]; simpl; auto.
Qed.

Lemma outbound_frame_sendable negotiated policy f :
  0 ≤ max_body_len negotiated → frame_ok f →
  sendable (max_body_len negotiated) (outbound_frame negotiated policy f).
Proof.
  intros Hm Hf. apply sendable_ok. unfold outbound_frame. split.
  - apply fit_outbound_frame_ok, compress_outbound_frame_ok, fit_outbound_frame_ok, Hf.
  - by apply fit_outbound_frame_fits.
Qed.

Context (negotiated : PeerSettingsV2) (policy : CompressionPolicy).
Let outbound : Frame → Frame := outbound_frame negotiated policy.
Hypothesis Hmax : 0 ≤ max_body_len negotiated ≤ u32_max.

Lemma encode_outbound f output :
  frame_ok f → Frame_encode_into (outbound f) output = Ok (output ++ frame_bytes (outbound f)).
Proof.
  intros Hf. destruct (outbound_frame_sendable negotiated policy f) as (_ & Hu & Hl);
    [lia|done|]. apply Frame_encode_into_Ok; [done|]. unfold outbound. lia.
Qed.

(** The permits a frame takes, which is its length on the wire. *)
Definition frame_cost (f : Frame) : Z := HEADER_LEN + zlen (body f).

Definition batch_bytes (frames : list Frame) : bytes := concat (map frame_bytes frames).

(** Filling takes frames while there is room; it stops at the end of what is
    visible, at the count, or at a frame that does not fit, which it defers. *)
Lemma fill_batch_spec room encoded visible :
  Forall frame_ok visible →
  ∃ taken d rest,
    let encoded' := encoded ++ batch_bytes (map outbound taken) in
    fill_batch negotiated policy room encoded visible =
      Ok (encoded', map outbound taken, outbound <$> d, rest) ∧
    visible = taken ++ option_list d ++ rest ∧ (length taken ≤ room)%nat ∧
    (taken = [] ∨ zlen encoded' ≤ WRITER_BATCH_BYTES) ∧
    match d with
    | Some f => (length taken < room)%nat ∧ WRITER_BATCH_BYTES < zlen encoded' + frame_cost (outbound f)
    | None => rest = [] ∨ length taken = room
    end.
Proof.
  intros Hall. revert room encoded. induction Hall as [|f fs Hf Hall IH]; intros room encoded.
  { exists [], None, []. rewrite app_nil_r. destruct room; simpl; split_and!; auto; lia. }
  destruct room as [|room].
  { exists [], None, (f :: fs). rewrite app_nil_r. simpl. split_and!; auto. }
  cbn [fill_batch]. fold outbound. rewrite Z.gtb_ltb. destruct (_ <? _) eqn:E; bool_to_prop.
  { exists [], (Some f), fs. rewrite app_nil_r. unfold frame_cost. simpl. split_and!; auto; lia. }
  rewrite encode_outbound by done. cbn [map_err]. rewrite ok_bind.
  destruct (IH room (encoded ++ frame_bytes (outbound f)))
    as (taken & d & rest & -> & -> & Hr & Hb & Hd).
  rewrite ok_bind. exists (f :: taken), d, rest. rewrite <- app_assoc in *.
  split_and!; [done|done|simpl; lia| |].
  - right. destruct Hb as [-> |Hb]; [|done].
    unfold batch_bytes. cbn [map concat]. rewrite app_nil_r, zlen_app, zlen_frame_bytes. lia.
  - destruct d; [destruct Hd; split; [simpl; lia|done]|]. destruct Hd; [by left|right; simpl; lia].
Qed.

(** ** What the writer is to write *)

(** The frames of one batch; [bt_again] tells that the first of them was put off
    by the batch before, after it had been shaped. *)
Record Batch := MkBatch {
  bt_again : bool;
  bt_frames : list Frame;
}.

(** Every frame is shaped for the wire, one that was put off a second time. *)
Definition batch_out (b : Batch) : list Frame :=
  match bt_frames b with
  | [] => []
  | f :: fs => outbound (if bt_again b then outbound f else f) :: map outbound fs
  end.

Definition batch_written (b : Batch) : bytes * list Frame := (batch_bytes (batch_out b), batch_out b).

(** Whether a batch that saw [visible] frames behind its first puts off the next
    one: it saw it, its count allowed it, but its bytes did not. *)
Definition puts_off (visible : nat) (b : Batch) (rest : list Frame) : bool :=
  match rest with
  | [] => false
  | f :: _ =>
      (length (bt_frames b) <? MAX_BATCH_FRAMES)%nat && (length (bt_frames b) <=? visible)%nat &&
      (WRITER_BATCH_BYTES <? zlen (batch_bytes (batch_out b)) + frame_cost (outbound f))
  end.

(** A batch takes all it may: it ends at the 64th frame, at the last it saw, at
    the end of the queue, or at one it puts off. *)
Definition batch_full (visible : nat) (b : Batch) (rest : list Frame) : Prop :=
  rest = [] ∨ length (bt_frames b) = MAX_BATCH_FRAMES ∨ length (bt_frames b) = S visible ∨
  puts_off visible b rest = true.

Record batch_ok (b : Batch) : Prop := {
  batch_count : (1 ≤ length (bt_frames b) ≤ MAX_BATCH_FRAMES)%nat;
  batch_size : length (bt_frames b) = 1%nat ∨
               zlen (batch_bytes (batch_out b)) ≤ WRITER_BATCH_BYTES;
  batch_frames : Forall (sendable (max_body_len negotiated)) (batch_out b);
}.

(** The queue [fs] is cut into batches, given what each turn sees; [again] tells
    that the first frame of [fs] was put off.  The rest is still held. *)
Inductive batched : bool → list nat → list Frame → list Batch → bool → list Frame → Prop :=
  | batched_stop again visibles fs :
      visibles = [] ∨ fs = [] → batched again visibles fs [] again fs
  | batched_turn again visible visibles b rest bs again' left :
      bt_again b = again → batch_ok b → batch_full visible b rest →
      batched (puts_off visible b rest) visibles rest bs again' left →
      batched again (visible :: visibles) (bt_frames b ++ rest) (b :: bs) again' left.

(** The writer between two turns. *)
Definition writer_with (again : bool) (fs : list Frame) : WriterState :=
  match again, fs with
  | true, f :: fs => {| ws_deferred := Some (outbound f); ws_channel := fs |}
  | _, _ => {| ws_deferred := None; ws_channel := fs |}
  end.

Lemma outbound_ok f : frame_ok f → frame_ok (outbound f).
Proof. intros Hf. eapply sendable_ok, (outbound_frame_sendable negotiated policy); [lia|done]. Qed.

Lemma batch_out_sendable b :
  Forall frame_ok (bt_frames b) → Forall (sendable (max_body_len negotiated)) (batch_out b).
Proof.
  unfold batch_out. destruct (bt_frames b) as [|f fs]; [constructor|].
  intros [Hf Hfs]%Forall_cons. constructor.
  - apply outbound_frame_sendable; [lia|]. destruct (bt_again b); auto using outbound_ok.
  - apply Forall_map. eapply Forall_impl; [exact Hfs|]. intros g Hg. by apply outbound_frame_sendable; [lia|].
Qed.

(** Where filling stops tells whether the next frame was put off. *)
Lemma filled_batch_full again visible f fs taken d rest :
  let b := MkBatch again (f :: taken) in
  let left := option_list d ++ rest ++ drop visible fs in
  take visible fs = taken ++ option_list d ++ rest →
  match d with
  | Some x => (length taken < MAX_BATCH_FRAMES - 1)%nat ∧
      WRITER_BATCH_BYTES < zlen (frame_bytes (outbound (if again then outbound f else f))
                                 ++ batch_bytes (map outbound taken)) + frame_cost (outbound x)
  | None => rest = [] ∨ length taken = (MAX_BATCH_FRAMES - 1)%nat
  end →
  batch_full visible b left ∧ puts_off visible b left = bool_decide (is_Some d).
Proof.
  intros b left Htake Hd. unfold batch_full, puts_off. subst left b.
  change (batch_out _) with (outbound (if again then outbound f else f) :: map outbound taken).
  unfold batch_bytes in *. cbn [concat map bt_frames length]. destruct d as [x|].
  - destruct Hd as [Hl Hd]. apply (f_equal length) in Htake.
    rewrite length_take, !length_app in Htake. simpl in Htake. simpl (option_list _ ++ _).
    rewrite (proj2 (Nat.ltb_lt _ _)), (proj2 (Nat.leb_le _ _)), (proj2 (Z.ltb_lt _ _))
      by (unfold MAX_BATCH_FRAMES in *; lia). split; [by do 3 right|done].
  - simpl (option_list _ ++ _) in *. rewrite bool_decide_false by (by intros [? [=]]).
    assert (length taken = visible ∨ length taken = (MAX_BATCH_FRAMES - 1)%nat ∨
      rest ++ drop visible fs = []) as Hend.
    { destruct Hd as [->|Hd]; [|by right; left]. simpl in *. rewrite app_nil_r in Htake.
      destruct (decide (length fs ≤ visible)%nat) as [Hle|Hgt].
      - right; right. by apply drop_ge.
      - left. rewrite <- Htake, length_take. lia. }
    split.
    + unfold MAX_BATCH_FRAMES in *. destruct Hend as [->|[->| ->]]; auto.
    + destruct Hend as [He|[He| ->]]; [..|done]; destruct (rest ++ _); try done.
      * rewrite (proj2 (Nat.leb_gt _ _)) by lia. by rewrite andb_false_r.
      * rewrite (proj2 (Nat.ltb_ge _ _)) by (unfold MAX_BATCH_FRAMES in *; lia). done.
Qed.

Lemma writer_turn_spec again visible f fs :
  Forall frame_ok (f :: fs) →
  ∃ b rest,
    writer_turn negotiated policy visible (writer_with again (f :: fs))
      = Some (Ok (batch_written b, writer_with (puts_off visible b rest) rest)) ∧
    f :: fs = bt_frames b ++ rest ∧ bt_again b = again ∧ batch_ok b ∧ batch_full visible b rest.
Proof.
  intros [Hf Hfs]%Forall_cons. unfold writer_turn.
  set (g := if again then outbound f else f). assert (frame_ok g) as Hg
    by (unfold g; destruct again; auto using outbound_ok).
  replace (match ws_deferred _ with Some frame => _ | None => _ end) with (Some (g, fs))
    by (by destruct again).
  cbn iota. fold outbound. rewrite encode_outbound by done. cbn [map_err]. rewrite ok_bind, app_nil_l.
  destruct (fill_batch_spec (MAX_BATCH_FRAMES - 1) (frame_bytes (outbound g)) (take visible fs))
    as (taken & d & rest & -> & Htake & Hlen & Hb & Hd); [by apply Forall_take|].
  rewrite ok_bind. set (b := MkBatch again (f :: taken)).
  set (left := option_list d ++ rest ++ drop visible fs).
  assert (fs = taken ++ left) as Hsplit.
  { rewrite <- (take_drop visible fs) at 1. rewrite Htake. unfold left. by rewrite <- !app_assoc. }
  assert (batch_out b = outbound g :: map outbound taken) as Hout by done.
  destruct (filled_batch_full again visible f fs taken d rest Htake Hd) as [Hfull Hput].
  fold b left in Hfull, Hput.
  exists b, left. split; [|split; [by rewrite Hsplit|split; [done|split; [|done]]]].
  - unfold batch_written, batch_bytes. rewrite Hout, Hput. cbn [map concat].
    unfold left. by destruct d.
  - split.
    + simpl. unfold MAX_BATCH_FRAMES in *. lia.
    + unfold batch_bytes. rewrite Hout. destruct Hb as [-> |Hb]; [by left|by right].
    + apply batch_out_sendable. simpl. constructor; [done|]. rewrite Hsplit in Hfs.
      by apply Forall_app in Hfs as [Ht _].
Qed.

(** ** Shaping twice *)

(** Frames that compression leaves alone. *)
Definition uncompressed (f : Frame) : Prop :=
  Z.land (compression_codecs negotiated) COMPRESSION_CODEC_ZSTD = 0 ∨ compressible (kind f) = false.

Lemma uncompressed_outbound f :
  uncompressed f →
  outbound f = fit_outbound_frame (fit_outbound_frame f (max_decoded_body_len negotiated))
                 (max_body_len negotiated).
Proof.
  intros Hu. unfold outbound, outbound_frame, compress_outbound_frame.
  replace (_ || _) with true; [done|]. symmetry. apply orb_true_iff.
  destruct Hu as [->|Hk]; [by left|right]. unfold fit_outbound_frame. case_match; [by rewrite Hk|done].
Qed.

Lemma fit_outbound_uncompressed f max : uncompressed f → uncompressed (fit_outbound_frame f max).
Proof. unfold fit_outbound_frame, uncompressed. case_match; [done|]. by right. Qed.

(** Fitting to both limits a second time changes nothing. *)
Lemma uncompressed_idempotent f :
  0 ≤ max_decoded_body_len negotiated → uncompressed f → outbound (outbound f) = outbound f.
Proof.
  intros Hm Hu. rewrite (uncompressed_outbound (outbound f)).
  2: { rewrite uncompressed_outbound by done. by do 2 apply fit_outbound_uncompressed. }
  rewrite uncompressed_outbound by done. set (f1 := fit_outbound_frame f _).
  assert (zlen (body f1) ≤ max_decoded_body_len negotiated) as H1 by (by apply fit_outbound_frame_fits).
  rewrite (fit_outbound_frame_id (fit_outbound_frame f1 _) (max_decoded_body_len negotiated)).
  { apply fit_outbound_frame_id, fit_outbound_frame_fits. lia. }
  unfold fit_outbound_frame. destruct (_ <=? max_body_len negotiated) eqn:E; bool_to_prop; [done|].
  rewrite Z.geb_leb. destruct (2 <=? max_body_len negotiated) eqn:E2; bool_to_prop; [|done].
  unfold ErrorCode_encode. cbn [body into_error]. rewrite zlen_app, zlen_be_bytes, zlen_nil. lia.
Qed.

Lemma batch_out_uncompressed b :
  0 ≤ max_decoded_body_len negotiated → Forall uncompressed (bt_frames b) →
  batch_out b = map outbound (bt_frames b).
Proof.
  intros Hm. unfold batch_out. destruct (bt_frames b) as [|f fs]; [done|].
  intros [Hf _]%Forall_cons. simpl. f_equal. destruct (bt_again b); [|done].
  by apply uncompressed_idempotent.
Qed.

Lemma batches_out_uncompressed bs :
  0 ≤ max_decoded_body_len negotiated → Forall uncompressed (concat (map bt_frames bs)) →
  concat (map batch_out bs) = map outbound (concat (map bt_frames bs)).
Proof.
  intros Hm. induction bs as [|b bs IH]; [done|]. simpl. rewrite Forall_app. intros [Hb Hbs].
  by rewrite batch_out_uncompressed, IH, map_app.
Qed.

(** ** Runs *)

Lemma batched_split again visibles fs bs again' left :
  batched again visibles fs bs again' left → fs = concat (map bt_frames bs) ++ left.
Proof. induction 1 as [|????????? _ _ _ IH]; [done|]. simpl. rewrite <- app_assoc. by rewrite <- IH. Qed.

Lemma batched_ok again visibles fs bs again' left :
  batched again visibles fs bs again' left → Forall batch_ok bs.
Proof. induction 1; by constructor. Qed.

(** Each turn writes a frame at least. *)
Lemma batched_all again visibles fs bs again' left :
  batched again visibles fs bs again' left → (length fs ≤ length visibles)%nat → left = [].
Proof.
  induction 1 as [again visibles fs [->| ->]|again v visibles b rest bs again' left _ Hb _ _ IH];
    [by destruct fs; simpl; [|lia]|done|].
  intros Hle. apply IH. pose proof (batch_count _ Hb). rewrite length_app in Hle. simpl in Hle. lia.
Qed.

Lemma writer_run_batched again visibles fs :
  Forall frame_ok fs →
  ∃ bs again' left,
    writer_run negotiated policy visibles (writer_with again fs)
      = Ok (map batch_written bs, writer_with again' left) ∧
    batched again visibles fs bs again' left.
Proof.
  revert again fs. induction visibles as [|v visibles IH]; intros again fs Hall.
  { exists [], again, fs. split; [done|]. constructor. by left. }
  destruct fs as [|f fs].
  { exists [], again, []. split; [by destruct again|]. constructor. by right. }
  destruct (writer_turn_spec again v f fs Hall) as (b & rest & Ht & Hsplit & Ha & Hb & Hfull).
  cbn [writer_run]. rewrite Ht. rewrite ok_bind.
  destruct (IH (puts_off v b rest) rest) as (bs & again' & left & Hrun & Hbs).
  { rewrite Hsplit in Hall. by apply Forall_app in Hall as [_ ?]. }
  unfold batch_written at 1. rewrite Hrun, ok_bind. exists (b :: bs), again', left. split; [done|].
  rewrite Hsplit. by apply batched_turn.
Qed.
End outbound_lemmas.

(** * Properties *)

Section outbound_properties.
Context `{Z0 : ZstdOps}.

(** C9 The writer task loses, duplicates and reorders nothing, and what it
    writes is determined exactly: whatever part of the queue each turn sees, the
    queue is cut into batches of consecutive frames and what is still held, with
    at most one batch for each turn, and a queue of n frames is written in n
    turns.  A batch holds at most 64 frames and takes all it may; it exceeds 512
    KiB only when it is a single frame; its bytes are the concatenation of the
    encodings of its frames, each shaped for the wire, and no frame exceeds the
    negotiated body limit, so encoding never fails.  A frame is shaped once,
    with one exception: the first frame of a batch that the batch before put
    off, because it had taken it from the queue and its bytes did not fit, is
    shaped twice.  For frames that compression leaves alone the second shaping
    changes nothing, so what is written is exactly the queue, each frame shaped
    once. *)
Theorem writer_delivers negotiated policy visibles fs :
  0 ≤ max_body_len negotiated ≤ u32_max → 0 ≤ max_decoded_body_len negotiated →
  Forall frame_ok fs →
  ∃ bs again left,
    writer_run negotiated policy visibles {| ws_deferred := None; ws_channel := fs |}
      = Ok (map (batch_written negotiated policy) bs, writer_with negotiated policy again left) ∧
    batched negotiated policy false visibles fs bs again left ∧
    fs = concat (map bt_frames bs) ++ left ∧
    ((length fs ≤ length visibles)%nat → left = []) ∧
    (Forall (uncompressed negotiated) fs →
     concat (map (batch_out negotiated policy) bs)
     = map (outbound_frame negotiated policy) (concat (map bt_frames bs))).
Proof.
  intros Hmax Hdec Hall.
  destruct (writer_run_batched negotiated policy Hmax false visibles fs Hall)
    as (bs & again & left & Hrun & Hb).
  exists bs, again, left. pose proof (batched_split _ _ _ _ _ _ _ _ Hb) as Hfs.
  split; [exact Hrun|]. split; [done|]. split; [done|]. split; [by eapply batched_all|].
  rewrite Hfs, Forall_app. intros [Hu _]. by apply batches_out_uncompressed.
Qed.
End outbound_properties.

(** What the queue does to a frame, case by case. *)
Lemma queue_form_cases room f :
  queue_form room f = [f] ∨
  room = false ∧ kind f = FrameKind.Event ∧ queue_form room f = [] ∨
  room = false ∧ (kind f = FrameKind.Response ∨ kind f = FrameKind.StreamItem) ∧
    queue_form room f = [rejected_frame f].
Proof. unfold queue_form. destruct room; [by left|]. destruct (kind f); auto 6. Qed.

(** The frames that the connection's loop sends are queued as they are. *)
Lemma queue_form_kept room f :
  kind f ≠ FrameKind.Event → kind f ≠ FrameKind.Response → kind f ≠ FrameKind.StreamItem →
  queue_form room f = [f].
Proof. unfold queue_form. destruct room, (kind f); done. Qed.

Section queue_lemmas.
Context `{S0 : SemaphoreOps} {S0_laws : SemaphoreLaws S0}.

Lemma channel_send_Ok q item q' :
  channel_send q item = Ready (Ok q') →
  (length (rq_queued q) < rq_capacity q)%nat ∧ rq_queued q' = rq_queued q ++ [item] ∧
  rq_capacity q' = rq_capacity q ∧ rq_global_bytes q' = rq_global_bytes q ∧
  rq_connection_bytes q' = rq_connection_bytes q.
Proof.
  unfold channel_send. destruct (rq_open q); [|done]. cbn [negb].
  destruct (_ <? _)%nat eqn:E; [|done]. apply Nat.ltb_lt in E. by intros [= <-].
Qed.

(** [q'] is [q] after one more frame was queued with its permits. *)
Record enqueued (q q' : ResponseQueue) (g : Frame) : Prop := {
  enq_queue : rq_queued q' = rq_queued q ++ [(g, frame_cost g)];
  enq_room : (length (rq_queued q') ≤ rq_capacity q')%nat;
  enq_connection : available_permits (rq_connection_bytes q')
                   = available_permits (rq_connection_bytes q) - frame_cost g;
  enq_global : available_permits (rq_global_bytes q')
               = available_permits (rq_global_bytes q) - frame_cost g;
  enq_fits : frame_cost g ≤ available_permits (rq_connection_bytes q) ∧
             frame_cost g ≤ available_permits (rq_global_bytes q);
}.

(** [q1] is [q] with the permits of [g] taken. *)
Record reserved_for (q q1 : ResponseQueue) (g : Frame) : Prop := {
  rf_queue : rq_queued q1 = rq_queued q;
  rf_connection : available_permits (rq_connection_bytes q1)
                  = available_permits (rq_connection_bytes q) - frame_cost g;
  rf_global : available_permits (rq_global_bytes q1)
              = available_permits (rq_global_bytes q) - frame_cost g;
  rf_fits : frame_cost g ≤ available_permits (rq_connection_bytes q) ∧
            frame_cost g ≤ available_permits (rq_global_bytes q);
}.

Lemma enqueue_reserved q q1 g q' :
  reserved_for q q1 g → channel_send q1 (g, frame_cost g) = Ready (Ok q') → enqueued q q' g.
Proof.
  intros [Hq1 Hc Hg Hf] (Hlt & Hq & Hcap & Hgl & Hcn)%channel_send_Ok. rewrite Hq1 in *.
  split; rewrite ?Hcn, ?Hgl; try done. rewrite Hq, Hcap, length_app. simpl. lia.
Qed.

Lemma queue_try_reserve_Ok q f q1 item :
  queue_try_reserve q f = Ok (q1, item) → item = (f, frame_cost f) ∧ reserved_for q q1 f.
Proof.
  unfold queue_try_reserve. intros H. inv_ok. simplify_eq.
  repeat match goal with H : try_acquire_many _ _ = Some _ |- _ =>
    apply try_acquire_takes in H as [? ?] end. done.
Qed.

Lemma queue_try_reserve_Err q f f' : queue_try_reserve q f = Err f' → f' = f.
Proof.
  unfold queue_try_reserve. intros H.
  repeat (apply bind_Err in H as [H|(? & _ & H)];
    [by unfold ok_or in H; case_match; simplify_eq|]). done.
Qed.

Lemma acquire_or_closed_Ok s n s' :
  acquire_or_closed s n = Ready (Ok s') →
  n ≤ available_permits s ∧ available_permits s' = available_permits s - n.
Proof.
  unfold acquire_or_closed. destruct (acquire_many s n) as [[s1|]|] eqn:E; try done.
  intros [= <-]. by apply acquire_takes in E as (? & ? & _).
Qed.

Lemma queue_reserve_Ok q g q1 item :
  queue_reserve q g = Ready (Ok (q1, item)) → item = (g, frame_cost g) ∧ reserved_for q q1 g.
Proof.
  unfold queue_reserve. fold (frame_cost g).
  destruct (try_into_max _ _) as [n|] eqn:En; [|done].
  apply try_into_max_Some in En as [-> _]. cbn [ok_or async_then].
  destruct (acquire_or_closed (rq_connection_bytes q) _) as [[c|]|] eqn:Ec; try done.
  cbn [async_then].
  destruct (acquire_or_closed (rq_global_bytes q) _) as [[g'|]|] eqn:Eg; try done.
  cbn [async_then]. intros [= <- <-]. apply acquire_or_closed_Ok in Ec as [Hc Hc'].
  by apply acquire_or_closed_Ok in Eg as [Hg Hg'].
Qed.

Lemma queue_reserve_send q g q' :
  (await (q1, item) := queue_reserve q g;; channel_send q1 item) = Ready (Ok q') →
  enqueued q q' g.
Proof.
  destruct (queue_reserve q g) as [[[q1 item]|]|] eqn:E; try done. cbn [async_then].
  apply queue_reserve_Ok in E as [-> ?]. by eapply enqueue_reserved.
Qed.

(** Sending adds the frame's form in the queue, with its permits, or nothing. *)
Lemma queue_send_Ok q f q' :
  queue_send q f = Ready (Ok q') →
  q' = q ∧ queue_form (is_ok (queue_try_reserve q f)) f = [] ∨
  ∃ g, queue_form (is_ok (queue_try_reserve q f)) f = [g] ∧ enqueued q q' g.
Proof.
  unfold queue_send. destruct (queue_try_reserve q f) as [[q1 item]|f'] eqn:E; cbn [is_ok queue_form].
  - apply queue_try_reserve_Ok in E as [-> ?]. intros Hs. right. exists f.
    split; [done|]. by eapply enqueue_reserved.
  - apply queue_try_reserve_Err in E as ->. intros Hs.
    destruct (kind f) eqn:Ek; try (right; eexists; split; [done|by apply queue_reserve_send]).
    left. by injection Hs as <-.
Qed.

Lemma queue_send_form q f q' :
  queue_send q f = Ready (Ok q') →
  queued_frames q' = queued_frames q ++ queue_form (is_ok (queue_try_reserve q f)) f.
Proof.
  unfold queued_frames. intros [[-> ->]|(g & -> & [-> _ _ _ _])]%queue_send_Ok.
  - by rewrite app_nil_r.
  - by rewrite map_app.
Qed.

(** ** The queue over time *)

(** What happens to a queue: frames are sent to it, with or without room in the
    byte budgets, and the writer takes them. *)
Inductive queue_event :=
  | Sent (room : bool) (f : Frame)
  | Taken (f : Frame).

(** The other connections use the global budget between the events. *)
Inductive queue_trace : ResponseQueue → list queue_event → ResponseQueue → Prop :=
  | qt_stop q : queue_trace q [] q
  | qt_send q f q1 evs q' :
      queue_send q f = Ready (Ok q1) → queue_trace q1 evs q' →
      queue_trace q (Sent (is_ok (queue_try_reserve q f)) f :: evs) q'
  | qt_take q f q1 evs q' :
      queue_pop q = Some (f, q1) → queue_trace q1 evs q' → queue_trace q (Taken f :: evs) q'
  | qt_others q global evs q' :
      queue_trace (with_budgets q (rq_connection_bytes q) global) evs q' → queue_trace q evs q'.

Definition queue_in (evs : list queue_event) : list Frame :=
  evs ≫= λ ev, match ev with Sent room f => queue_form room f | Taken _ => [] end.
Definition queue_out (evs : list queue_event) : list Frame :=
  evs ≫= λ ev, match ev with Sent _ _ => [] | Taken f => [f] end.

(** The queue is first in, first out: what the writer took and what is left are
    what was there at first and the forms of what was sent. *)
Lemma queue_trace_fifo q evs q' :
  queue_trace q evs q' →
  queued_frames q ++ queue_in evs = queue_out evs ++ queued_frames q'.
Proof.
  induction 1 as [q|q f q1 evs q' Hs _ IH|q f q1 evs q' Hp _ IH|q global evs q' _ IH]; simpl.
  - by rewrite app_nil_r.
  - apply queue_send_form in Hs. rewrite app_assoc, <- Hs. exact IH.
  - unfold queue_pop, queued_frames in *. destruct (rq_queued q) as [|[g n] rest]; [done|].
    injection Hp as <- <-. simpl in *. by rewrite IH.
  - exact IH.
Qed.
End queue_lemmas.

(** The response queue never overdraws its byte budgets: free permits plus
    the bytes of the queued frames stay constant for the connection and for the
    process, free permits stay non-negative, and the channel capacity holds.
    What is queued is the frame itself or, when a response or stream item does
    not fit, an error frame with the same method and request identifiers; only
    an event may be dropped, and then nothing changes. *)
Theorem queue_send_accounting `{S0 : SemaphoreOps} (L : SemaphoreLaws S0) q frame q' :
  0 ≤ available_permits (rq_connection_bytes q) → 0 ≤ available_permits (rq_global_bytes q) →
  Forall (λ x, x.2 = frame_cost x.1) (rq_queued q) →
  queue_send q frame = Ready (Ok q') →
  0 ≤ available_permits (rq_connection_bytes q') ∧ 0 ≤ available_permits (rq_global_bytes q') ∧
  available_permits (rq_connection_bytes q') + zsum snd (rq_queued q')
    = available_permits (rq_connection_bytes q) + zsum snd (rq_queued q) ∧
  available_permits (rq_global_bytes q') + zsum snd (rq_queued q')
    = available_permits (rq_global_bytes q) + zsum snd (rq_queued q) ∧
  Forall (λ x, x.2 = frame_cost x.1) (rq_queued q') ∧
  (q' = q ∧ kind frame = FrameKind.Event ∨
   ∃ g, rq_queued q' = rq_queued q ++ [(g, frame_cost g)] ∧
        (length (rq_queued q') ≤ rq_capacity q')%nat ∧
        method_id g = method_id frame ∧ request_id g = request_id frame ∧
        (g = frame ∨ kind g = FrameKind.Error ∧
                     (kind frame = FrameKind.Response ∨ kind frame = FrameKind.StreamItem))).
Proof.
  intros Hc Hg Hall Hs. pose proof (queue_form_cases (is_ok (queue_try_reserve q frame)) frame) as Hform.
  apply queue_send_Ok in Hs as [[-> Hnil]|(g & Hform' & [Hq Hroom Hcn Hgl [Hf1 Hf2]])].
  { split_and!; try done. left. split; [done|]. rewrite Hnil in Hform.
    by destruct Hform as [?|[(_ & ? & _)|(_ & _ & ?)]]. }
  rewrite Hcn, Hgl, Hq, !zsum_app. simpl. split_and!; try lia.
  - apply Forall_app. split; [done|]. by repeat constructor.
  - right. exists g. rewrite Hq in Hroom. rewrite Hform' in Hform.
    destruct Hform as [[= ->]|[(_ & _ & ?)|(_ & Hk & [= ->])]]; [|done|]; split_and!; auto.
Qed.

(** ** A deferred response is shaped twice *)

(** When the second of two frames does not fit the batch it is deferred after
    it was shaped, and the next turn shapes it again. *)
Lemma writer_reshapes `{Z0 : ZstdOps} negotiated policy f g :
  0 ≤ max_body_len negotiated ≤ u32_max → frame_ok f → frame_ok g →
  let outbound := outbound_frame negotiated policy in
  zlen (frame_bytes (outbound f)) + zlen (frame_bytes (outbound g)) > WRITER_BATCH_BYTES →
  writer_run negotiated policy [1%nat; 0%nat] {| ws_deferred := None; ws_channel := [f; g] |}
  = Ok ([(frame_bytes (outbound f), [outbound f]);
         (frame_bytes (outbound (outbound g)), [outbound (outbound g)])],
        {| ws_deferred := None; ws_channel := [] |}).
Proof.
  intros Hmax Hf Hg outbound Hbig. subst outbound. unfold writer_run, writer_turn.
  cbn [ws_deferred ws_channel]. rewrite encode_outbound by done. cbn [map_err]. rewrite ok_bind.
  change (MAX_BATCH_FRAMES - 1)%nat with (S 62)%nat. cbn [take fill_batch].
  rewrite (zlen_frame_bytes (outbound_frame negotiated policy g)) in Hbig.
  rewrite app_nil_l, Z.gtb_ltb, (proj2 (Z.ltb_lt _ _)) by lia.
  rewrite !ok_bind. cbn [drop app ws_deferred ws_channel].
  rewrite encode_outbound by (done || eapply sendable_ok, outbound_frame_sendable; done || lia).
  done.
Qed.

(** A codec that stores one half of a payload whose halves are equal. *)
Definition halve (p : bytes) : bytes := take (length p / 2) p.
Definition half_compress (p : bytes) (level : Z) : option bytes :=
  Some (if bool_decide (p = halve p ++ halve p) then x01 :: halve p else x00 :: p).
Definition half_decompress (c : bytes) (capacity : Z) : option bytes :=
  let p := match c with
           | x01 :: h => h ++ h
           | _ :: p => p
           | [] => []
           end in
  if zlen p <=? capacity then Some p else None.

Definition half_ops : ZstdOps :=
  {| zstd_compress := half_compress; zstd_decompress := half_decompress |}.

Lemma half_laws : ZstdLaws half_ops.
Proof.
  constructor. intros p level c capacity [= <-] Hle. cbn [zstd_decompress half_ops].
  unfold half_decompress.
  destruct (bool_decide (p = halve p ++ halve p)) eqn:E.
  - apply bool_decide_eq_true in E. rewrite <- E. by rewrite (proj2 (Z.leb_le _ _)).
  - by rewrite (proj2 (Z.leb_le _ _)).
Qed.

Definition resent_policy : CompressionPolicy :=
  {| min_payload_bytes := 1; min_savings_bytes := 1;
     Compression.max_decoded_body_len := 16 * 1024 * 1024;
     max_expansion_ratio := 64; compression_level := 1 |}.

(** A fourteen-byte response whose compressed form compresses again. *)
Definition resent_response : Frame :=
  Frame_new FrameKind.Response 5 9
    [x02; x03; x04; x01; x02; x03; x04; x02; x03; x04; x01; x02; x03; x04].

Definition large_pong : Frame :=
  Frame_new FrameKind.Pong 0 8 (replicate (Z.to_nat WRITER_BATCH_BYTES) x00).

Lemma zlen_large_pong : zlen (body large_pong) = WRITER_BATCH_BYTES.
Proof. unfold zlen, large_pong. cbn [body Frame_new]. rewrite length_replicate. apply Z2Nat.id. vm_compute. discriminate. Qed.

Lemma outbound_large_pong :
  @outbound_frame half_ops PeerSettingsV2_default resent_policy large_pong = large_pong.
Proof.
  pose proof zlen_large_pong as Hz. assert (kind large_pong = FrameKind.Pong) as Hk by reflexivity.
  revert Hz Hk. generalize large_pong. intros f Hz Hk. unfold outbound_frame.
  rewrite (fit_outbound_frame_id f) by (rewrite Hz; vm_compute; discriminate).
  unfold compress_outbound_frame. rewrite Hk. cbn [compressible negb]. rewrite orb_true_r.
  apply fit_outbound_frame_id. rewrite Hz. vm_compute. discriminate.
Qed.

(** A compressed response that is deferred to the next batch is shaped a
    second time, and when its compressed bytes compress again the repeated
    codec entry is refused: with the default settings and a codec that inverts
    correctly, the response that alone would be sent compressed is, behind a
    frame that fills the batch, replaced by an error frame. *)
Theorem deferred_response_replaced :
  ∃ (Z0 : ZstdOps) policy f g,
    ZstdLaws Z0 ∧ frame_ok f ∧ frame_ok g ∧ kind g = FrameKind.Response ∧
    let outbound := outbound_frame PeerSettingsV2_default policy in
    kind (outbound g) = FrameKind.Response ∧
    ∃ batches st,
      writer_run PeerSettingsV2_default policy [1%nat; 0%nat]
        {| ws_deferred := None; ws_channel := [f; g] |} = Ok (batches, st) ∧
      concat (map snd batches) =
        [f; error_frame g ErrorCode.CompressionFailure (as_bytes "response metadata conflict")].
Proof.
  exists half_ops, resent_policy, large_pong, resent_response.
  split; [apply half_laws|].
  assert (frame_ok large_pong) as Hf.
  { split; [|reflexivity]. unfold Frame_wf, large_pong. cbn [flags method_id request_id Frame_new].
    repeat split; vm_compute; congruence. }
  assert (frame_ok resent_response) as Hg by (split; [repeat split; vm_compute; congruence|done]).
  split; [exact Hf|]. split; [exact Hg|]. split; [reflexivity|]. cbv zeta.
  split; [vm_compute; reflexivity|]. do 2 eexists. split.
  - apply (@writer_reshapes half_ops); [split; vm_compute; congruence|exact Hf|exact Hg|].
    rewrite outbound_large_pong, !zlen_frame_bytes, zlen_large_pong.
    set (z := zlen _). assert (0 ≤ z) by (apply zlen_nonneg). unfold HEADER_LEN. lia.
  - cbn [map snd concat app]. rewrite outbound_large_pong. f_equal.
Qed.

(** ** Witnesses *)

Lemma writer_delivers_witness :
  ∃ bs again,
    @writer_run half_ops PeerSettingsV2_default resent_policy [2%nat; 2%nat]
      {| ws_deferred := None; ws_channel := [resent_response; resent_response] |}
    = Ok (map (@batch_written half_ops PeerSettingsV2_default resent_policy) bs,
          @writer_with half_ops PeerSettingsV2_default resent_policy again []) ∧
    concat (map bt_frames bs) = [resent_response; resent_response].
Proof.
  destruct (@writer_delivers half_ops PeerSettingsV2_default resent_policy [2%nat; 2%nat]
    [resent_response; resent_response]) as (bs & again & left & Hr & _ & Hs & Hd & _).
  - split; vm_compute; congruence.
  - vm_compute. congruence.
  - repeat constructor; vm_compute; congruence.
  - assert (left = []) as -> by (apply Hd; simpl; lia). exists bs, again.
    split; [exact Hr|]. rewrite app_nil_r in Hs. symmetry. exact Hs.
Defined.

Definition sample_queue : ResponseQueue :=
  {| rq_queued := []; rq_capacity := 4; rq_open := true;
     rq_global_bytes := MkCounting 1000 false;
     rq_connection_bytes := MkCounting 60 false |}.

Lemma queue_send_accounting_witness :
  ∃ q', queue_send sample_queue (Frame_new FrameKind.Response 5 9 (replicate 50 x00))
        = Ready (Ok q') ∧
    rq_queued q' = [(rejected_frame (Frame_new FrameKind.Response 5 9 []), 56)] ∧
    0 ≤ available_permits (rq_connection_bytes q').
Proof.
  eexists. split; [vm_compute; reflexivity|]. split; [vm_compute; reflexivity|].
  apply (queue_send_accounting counting_laws sample_queue
    (Frame_new FrameKind.Response 5 9 (replicate 50 x00))).
  - vm_compute; discriminate.
  - vm_compute; discriminate.
  - constructor.
  - vm_compute; reflexivity.
Defined.
