(* ===== verification/Middleware.v ===== *)
(** The middleware chain of [moonlight-bridge-server/src/middleware.rs]: request
    contexts, the single-use continuation [Next], panic containment and the
    cancellation guard.  Application code is a program that returns, panics,
    hangs, invokes its continuation and goes on with the answer, or gives the
    invocation up. *)
From S2P Require Import Prelude Protocol Metadata Transport.

(** [HandlerError] of [lib.rs]; its message by its bytes. *)
Record HandlerError := MkHandlerError { code : ErrorCode; message : bytes }.

#[export] Instance HandlerError_eq_dec : EqDecision HandlerError.
Proof. solve_decision. Defined.

Definition HandlerError_internal (text : string) : HandlerError :=
  {| code := ErrorCode.Internal; message := as_bytes text |}.

Record PeerIdentity := MkPeerIdentity { tls_leaf_certificate : bytes }.

Record RequestContext := MkRequestContext {
  rc_method_id : Z;
  rc_request_id : Z;
  rc_deadline : option Z;
  rc_metadata : Metadata;
  rc_required_scopes : list string;
  rc_peer_identity : option PeerIdentity;
}.

(** * Application code *)

(** How a handler's future ends. *)
Inductive outcome :=
  | Returned (r : result HandlerError bytes)
  | Panicked
  | Hung.

Definition handler_fn : Type := bytes → outcome.

(** A middleware invocation: it ends, awaits [next.run(context, body)] and goes
    on with the result, or drops that future, as a timeout does, when it got past
    [steps] events, and goes on without it. *)
Inductive program :=
  | Finish (o : outcome)
  | RunNext (context : RequestContext) (body : bytes) (k : result HandlerError bytes → program)
  | DropNext (context : RequestContext) (body : bytes) (steps : nat) (k : program).

Definition middleware_fn : Type := RequestContext → bytes → program.

(** What a request caused, in order. *)
Inductive chain_event :=
  | Entered (layer : nat)
  | Handled (body : bytes).

Definition run_answer : Type := list chain_event * async (result HandlerError bytes).

(** [catch_unwind] around a future. *)
Definition contain (o : outcome) (text : string) : async (result HandlerError bytes) :=
  match o with
  | Returned r => Ready r
  | Panicked => Ready (Err (HandlerError_internal text))
  | Hung => Pending
  end.

Definition called_twice : result HandlerError bytes :=
  Err (HandlerError_internal "middleware continuation was invoked more than once").

(** The program of one layer, given its continuation and its [called] flag. *)
Fixpoint run_layer (run_next : RequestContext → bytes → run_answer) (called : bool)
    (p : program) : run_answer :=
  match p with
  | Finish o => ([], contain o "middleware panicked")
  | RunNext context body k =>
      if called then run_layer run_next true (k called_twice)
      else
        let '(events, answer) := run_next context body in
        match answer with
        | Pending => (events, Pending)
        | Ready r =>
            let '(events', answer') := run_layer run_next true (k r) in
            (events ++ events', answer')
        end
  | DropNext context body steps k =>
      let events := if called then [] else take steps (run_next context body).1 in
      let '(events', answer) := run_layer run_next true k in
      (events ++ events', answer)
  end.

(** [Next::run] of a fresh continuation at [index]; [layers] is what is left of
    the chain from there. *)
Fixpoint Next_run (index : nat) (layers : list middleware_fn) (handler : handler_fn)
    (context : RequestContext) (body : bytes) : run_answer :=
  match layers with
  | layer :: layers =>
      let '(events, answer) :=
        run_layer (Next_run (S index) layers handler) false (layer context body) in
      (Entered index :: events, answer)
  | [] => ([Handled body], contain (handler body) "handler panicked")
  end.

(** [Next::root(layers, handler).run(context, body)] *)
Definition Next_root_run (layers : list middleware_fn) (handler : handler_fn) :=
  Next_run 0 layers handler.

(** * Cancellation *)

(** The flag of one request, shared by all clones of its signal: created low,
    only ever raised, and read by whoever holds a clone. *)
Definition RequestCancellation : Type := bool.
Definition RequestCancellation_new : RequestCancellation := false.
Definition RequestCancellation_cancel (_ : RequestCancellation) : RequestCancellation := true.
Definition is_cancelled (signal : RequestCancellation) : bool := signal.

(** The guard of a request: dropping it before completion raises the signal. *)
Record CancellationGuard := MkCancellationGuard { signal : RequestCancellation; completed : bool }.

Definition CancellationGuard_new : CancellationGuard :=
  {| signal := RequestCancellation_new; completed := false |}.
Definition CancellationGuard_complete (g : CancellationGuard) : CancellationGuard :=
  {| signal := signal g; completed := true |}.
Definition CancellationGuard_drop (g : CancellationGuard) : RequestCancellation :=
  if completed g then signal g else RequestCancellation_cancel (signal g).

(** * Lemmas *)

(** Events of a continuation are the rest of the chain, entered in order, and
    the handler if every layer of it went on. *)
Definition chain_trace (index : nat) (n : nat) (events : list chain_event) : Prop :=
  (∃ k, (k ≤ n)%nat ∧ events = map Entered (seq index k)) ∨
  ∃ body, events = map Entered (seq index n) ++ [Handled body].

Lemma run_layer_trace run_next called p :
  (run_layer run_next called p).1 = [] ∨
  called = false ∧ ∃ context body,
    (run_layer run_next called p).1 `prefix_of` (run_next context body).1.
Proof.
  assert (∀ p, (run_layer run_next true p).1 = []) as Htrue.
  { clear p. intros p. induction p as [o|c b k IH|c b n k IH]; simpl; [done|apply IH|].
    by destruct (run_layer run_next true k). }
  destruct p as [o|c b k|c b n k]; simpl; [by left|..].
  - destruct called; [left; apply Htrue|].
    right. split; [done|]. exists c, b. destruct (run_next c b) as [ev [r|]]; simpl; [|done].
    pose proof (Htrue (k r)) as Ht. destruct (run_layer run_next true (k r)). simpl in *.
    by rewrite Ht, app_nil_r.
  - pose proof (Htrue k) as Ht. destruct (run_layer run_next true k) as [ev' a]. simpl in *. subst ev'.
    rewrite app_nil_r. destruct called; [by left|]. right. split; [done|]. exists c, b. apply prefix_take.
Qed.

Lemma take_entered m i k : take m (map Entered (seq i k)) = map Entered (seq i (m `min` k)).
Proof.
  change (map Entered) with (fmap (M := list) Entered). rewrite <- fmap_take.
  f_equal. apply take_seq.
Qed.

(** What a chain that is given up has done is the beginning of what it does. *)
Lemma chain_trace_prefix index n events events' :
  events `prefix_of` events' → chain_trace index n events' → chain_trace index n events.
Proof.
  intros [more Hev] Ht. destruct (decide (length events ≤ n)%nat) as [Hle|Hgt].
  - left. assert (events = take (length events) events') as He by (by rewrite Hev, take_app_length).
    destruct Ht as [(k & Hk & Hm)|[b Hm]]; rewrite Hm in He.
    + rewrite take_entered in He. eexists. split; [|exact He]. lia.
    + rewrite take_app_le in He by (rewrite length_map, length_seq; lia).
      rewrite take_entered in He. eexists. split; [|exact He]. lia.
  - destruct Ht as [(k & Hk & Hm)|[b Hm]]; rewrite Hm in Hev; apply (f_equal length) in Hev as Hl;
      rewrite ?length_app, length_map, length_seq in Hl; simpl in Hl; [lia|].
    right. exists b. destruct more; [by rewrite app_nil_r in Hev|simpl in Hl; lia].
Qed.

Lemma Next_run_trace layers handler : ∀ index context body,
  chain_trace index (length layers) (Next_run index layers handler context body).1.
Proof.
  induction layers as [|layer layers IH]; intros index context body; simpl.
  { right. by exists body. }
  pose proof (run_layer_trace (Next_run (S index) layers handler) false (layer context body)) as Hl.
  destruct (run_layer _ _ _) as [ev ans]. simpl in *.
  destruct Hl as [-> |Hl].
  - left. exists 1%nat. split; [lia|done].
  - destruct Hl as (_ & c & b & Hpre).
    pose proof (chain_trace_prefix _ _ _ _ Hpre (IH (S index) c b)) as Hc.
    destruct Hc as [(k & Hk & ->)|[b' ->]].
    + left. exists (S k). split; [lia|done].
    + right. by exists b'.
Qed.

Definition hangs_never (p : program) : Prop :=
  (fix go p := match p with
               | Finish o => o ≠ Hung
               | RunNext _ _ k => ∀ r, go (k r)
               | DropNext _ _ _ k => go k
               end) p.

Lemma run_layer_ready run_next called p :
  hangs_never p → (∀ c b, ∃ r, (run_next c b).2 = Ready r) →
  ∃ r, (run_layer run_next called p).2 = Ready r.
Proof.
  intros Hp Hn. revert called. induction p as [o|c b k IH|c b n k IH]; intros called; simpl in *.
  - destruct o; simpl; eauto; done.
  - destruct called; [by apply IH|]. destruct (Hn c b) as [r Hr].
    destruct (run_next c b) as [ev ans]. simpl in Hr. subst ans.
    destruct (IH r (Hp r) true) as [r' Hr'].
    destruct (run_layer run_next true (k r)). simpl in *. eauto.
  - destruct (IH Hp true) as [r Hr]. destruct (run_layer run_next true k). simpl in *. eauto.
Qed.

(** ** How a layer ends *)

(** The outcome that a layer's program comes to, given what its continuation
    answers: only its first use of the continuation reaches it. *)
Inductive layer_ends (next : RequestContext → bytes → async (result HandlerError bytes))
    : bool → program → outcome → Prop :=
  | le_finish called o : layer_ends next called (Finish o) o
  | le_next c b k r o :
      next c b = Ready r → layer_ends next true (k r) o → layer_ends next false (RunNext c b k) o
  | le_again c b k o :
      layer_ends next true (k called_twice) o → layer_ends next true (RunNext c b k) o
  | le_drop called c b n k o :
      layer_ends next true k o → layer_ends next called (DropNext c b n k) o.

(** The answer of a layer is its outcome, with a panic contained. *)
Lemma run_layer_ends run_next called p r :
  (run_layer run_next called p).2 = Ready r ↔
  ∃ o, layer_ends (λ c b, (run_next c b).2) called p o ∧ contain o "middleware panicked" = Ready r.
Proof.
  revert called. induction p as [o|c b k IH|c b n k IH]; intros called; simpl.
  - split; [intros H; exists o; split; [constructor|done]|].
    intros (o' & He & Hc). by inversion He; subst.
  - destruct called.
    { rewrite IH. split; intros (o & He & Hc); exists o; (split; [|done]); [by constructor|].
      by inversion He; subst. }
    destruct (run_next c b) as [ev [a|]] eqn:Hn.
    + specialize (IH a true). destruct (run_layer run_next true (k a)) as [ev' a']. simpl in *.
      rewrite IH. split; intros (o & He & Hc); exists o; (split; [|done]).
      * eapply le_next; [|exact He]. by rewrite Hn.
      * inversion He as [|? ? ? ? ? Hnext| |]; subst. rewrite Hn in Hnext. by injection Hnext as ->.
    + simpl. split; [done|]. intros (o & He & _). inversion He as [|? ? ? ? ? Hnext| |]; subst.
      by rewrite Hn in Hnext.
  - specialize (IH true). destruct (run_layer run_next true k) as [ev' a']. simpl in *. rewrite IH.
    split; intros (o & He & Hc); exists o; (split; [|done]); [by constructor|by inversion He; subst].
Qed.

(** A chain of code that does not hang always answers. *)
Lemma chain_ready layers handler :
  Forall (λ layer, ∀ c b, hangs_never (layer c b)) layers → (∀ b, handler b ≠ Hung) →
  ∀ index c b, ∃ r, (Next_run index layers handler c b).2 = Ready r.
Proof.
  intros Hl Hh. induction Hl as [|layer layers Hlayer Hl IH]; intros index c b; simpl.
  - specialize (Hh b). destruct (handler b); simpl; eauto; done.
  - destruct (run_layer_ready (Next_run (S index) layers handler) false (layer c b)) as [r Hr];
      [apply Hlayer|apply IH|]. destruct (run_layer _ _ _). simpl in *. eauto.
Qed.

(** A layer that lets a request through, and its answer back. *)
Definition forwards (layer : middleware_fn) : Prop :=
  ∀ context body, layer context body = RunNext context body (λ r, Finish (Returned r)).

Lemma forwarded_answer layers handler : Forall forwards layers → ∀ index context body,
  (Next_run index layers handler context body).2 = contain (handler body) "handler panicked".
Proof.
  induction 1 as [|layer layers Hf _ IH]; intros index context body; [done|]. simpl. rewrite Hf. simpl.
  specialize (IH (S index) context body).
  destruct (Next_run (S index) layers handler context body) as [ev [a|]]; simpl in *; done.
Qed.

(** * Properties *)

(** C8 No middleware can be bypassed: whatever the layers do, including calling
    their continuation several times or not at all, or dropping it half way, they
    are entered in registration order without gaps, the handler runs at most once,
    and it runs only if every layer was entered and handed the request on. *)
Theorem middleware_no_bypass layers handler context body :
  let events := (Next_root_run layers handler context body).1 in
  chain_trace 0 (length layers) events ∧
  (∀ b, Handled b ∈ events → events = map Entered (seq 0 (length layers)) ++ [Handled b]).
Proof.
  intros events. pose proof (Next_run_trace layers handler 0 context body) as Ht.
  fold (Next_root_run layers handler context body) in Ht. fold events in Ht.
  split; [done|]. intros b Hb. destruct Ht as [(k & _ & Hev)|[b' Hev]]; rewrite Hev in *.
  - apply list_elem_of_fmap in Hb as (? & ? & _). done.
  - apply elem_of_app in Hb as [Hb|Hb].
    + apply list_elem_of_fmap in Hb as (? & ? & _). done.
    + apply list_elem_of_singleton in Hb. by simplify_eq.
Qed.

(** ** Witness *)

Definition sample_context : RequestContext :=
  {| rc_method_id := 1; rc_request_id := 2; rc_deadline := None; rc_metadata := Metadata_new;
     rc_required_scopes := []; rc_peer_identity := None |}.

(** A layer that calls its continuation twice and answers with the second
    result, and one that panics. *)
Definition twice_layer : middleware_fn := λ c b,
  RunNext c b (λ _, RunNext c b (λ r, Finish (Returned r))).
Definition panicking_layer : middleware_fn := λ _ _, Finish Panicked.

Example twice_is_refused :
  Next_root_run [twice_layer] (λ b, Returned (Ok b)) sample_context [x01]
  = ([Entered 0; Handled [x01]], Ready called_twice).
Proof. reflexivity. Qed.
