(* ===== verification/Router.v ===== *)
(** Route registration of [moonlight-bridge-server/src/lib.rs]: the builder with
    its panics, and the router it freezes into. *)
From S2P Require Import Prelude Protocol Metadata Transport Middleware.

(** A stream a handler opened: its items, then its end, silence or a panic. *)
Inductive stream_tail := TailEnds | TailHangs | TailPanics.

Record server_stream := MkServerStream {
  stream_items : list (result HandlerError bytes);
  stream_last : stream_tail;
}.

(** How the future that opens a stream ends. *)
Inductive stream_outcome :=
  | Opened (s : server_stream)
  | OpenFailed (e : HandlerError)
  | OpenPanicked
  | OpenHung.

Definition stream_handler_fn : Type := bytes → stream_outcome.

Record RequestInfo := MkRequestInfo {
  ri_method_id : Z;
  ri_method_name : option string;
  ri_request_id : Z;
  ri_request_bytes : Z;
  ri_trace_context : option TraceContext;
}.

(** A telemetry adapter starts an observation or not; an observation says
    whether it wants detailed timing. *)
Definition telemetry_fn : Type := RequestInfo → option bool.

Record Router := MkRouter {
  handlers : gmap Z handler_fn;
  stream_handlers : gmap Z stream_handler_fn;
  method_names : gmap Z string;
  required_scopes : gmap Z (list string);
  middleware : list middleware_fn;
  telemetry : option telemetry_fn;
}.

Record RouterBuilder := MkRouterBuilder {
  b_handlers : gmap Z handler_fn;
  b_stream_handlers : gmap Z stream_handler_fn;
  b_method_names : gmap Z string;
  b_required_scopes : gmap Z (list string);
  b_middleware : list middleware_fn;
  b_authorization_configured : bool;
  b_unsecured_scopes_allowed : bool;
  b_telemetry : option telemetry_fn;
}.

Definition Router_builder : RouterBuilder :=
  {| b_handlers := ∅; b_stream_handlers := ∅; b_method_names := ∅; b_required_scopes := ∅;
     b_middleware := []; b_authorization_configured := false;
     b_unsecured_scopes_allowed := false; b_telemetry := None |}.

Definition is_streaming (r : Router) (id : Z) : bool :=
  bool_decide (is_Some (stream_handlers r !! id)).

(** * Builder operations; [None] is a panic *)

Definition contains {A} (m : gmap Z A) (id : Z) : bool := bool_decide (is_Some (m !! id)).

(** [assert!(c)] *)
Definition assert_ (c : bool) : option unit := if c then Some tt else None.

Definition builder_method_name (b : RouterBuilder) (id : Z) (name : string)
    : option RouterBuilder :=
  _ ← assert_ (contains (b_handlers b) id || contains (b_stream_handlers b) id);
  _ ← assert_ (negb (bool_decide (name = ""%string)));
  let previous := b_method_names b !! id in
  let b := {| b_handlers := b_handlers b; b_stream_handlers := b_stream_handlers b;
              b_method_names := <[id := name]> (b_method_names b);
              b_required_scopes := b_required_scopes b; b_middleware := b_middleware b;
              b_authorization_configured := b_authorization_configured b;
              b_unsecured_scopes_allowed := b_unsecured_scopes_allowed b;
              b_telemetry := b_telemetry b |} in
  _ ← assert_ (negb (bool_decide (is_Some previous)));
  Some b.

Definition builder_layer (b : RouterBuilder) (m : middleware_fn) : RouterBuilder :=
  {| b_handlers := b_handlers b; b_stream_handlers := b_stream_handlers b;
     b_method_names := b_method_names b; b_required_scopes := b_required_scopes b;
     b_middleware := b_middleware b ++ [m];
     b_authorization_configured := b_authorization_configured b;
     b_unsecured_scopes_allowed := b_unsecured_scopes_allowed b;
     b_telemetry := b_telemetry b |}.

Definition builder_authorization_layer (b : RouterBuilder) (m : middleware_fn) : RouterBuilder :=
  {| b_handlers := b_handlers b; b_stream_handlers := b_stream_handlers b;
     b_method_names := b_method_names b; b_required_scopes := b_required_scopes b;
     b_middleware := b_middleware b ++ [m];
     b_authorization_configured := true;
     b_unsecured_scopes_allowed := b_unsecured_scopes_allowed b;
     b_telemetry := b_telemetry b |}.

Definition builder_allow_unsecured_scopes (b : RouterBuilder) : RouterBuilder :=
  {| b_handlers := b_handlers b; b_stream_handlers := b_stream_handlers b;
     b_method_names := b_method_names b; b_required_scopes := b_required_scopes b;
     b_middleware := b_middleware b;
     b_authorization_configured := b_authorization_configured b;
     b_unsecured_scopes_allowed := true;
     b_telemetry := b_telemetry b |}.

Definition builder_telemetry (b : RouterBuilder) (t : telemetry_fn) : RouterBuilder :=
  {| b_handlers := b_handlers b; b_stream_handlers := b_stream_handlers b;
     b_method_names := b_method_names b; b_required_scopes := b_required_scopes b;
     b_middleware := b_middleware b;
     b_authorization_configured := b_authorization_configured b;
     b_unsecured_scopes_allowed := b_unsecured_scopes_allowed b;
     b_telemetry := Some t |}.

Definition with_routes (b : RouterBuilder) (hs : gmap Z handler_fn)
    (ss : gmap Z stream_handler_fn) (scopes : gmap Z (list string)) : RouterBuilder :=
  {| b_handlers := hs; b_stream_handlers := ss;
     b_method_names := b_method_names b; b_required_scopes := scopes;
     b_middleware := b_middleware b;
     b_authorization_configured := b_authorization_configured b;
     b_unsecured_scopes_allowed := b_unsecured_scopes_allowed b;
     b_telemetry := b_telemetry b |}.

Definition builder_route (b : RouterBuilder) (id : Z) (h : handler_fn) : option RouterBuilder :=
  _ ← assert_ (negb (contains (b_stream_handlers b) id));
  let previous := b_handlers b !! id in
  let b := with_routes b (<[id := h]> (b_handlers b)) (b_stream_handlers b)
             (b_required_scopes b) in
  _ ← assert_ (negb (bool_decide (is_Some previous)));
  Some b.

Definition builder_route_scoped (b : RouterBuilder) (id : Z) (scopes : list string)
    (h : handler_fn) : option RouterBuilder :=
  _ ← assert_ (negb (contains (b_stream_handlers b) id));
  let previous := b_handlers b !! id in
  let b := with_routes b (<[id := h]> (b_handlers b)) (b_stream_handlers b)
             (b_required_scopes b) in
  _ ← assert_ (negb (bool_decide (is_Some previous)));
  Some (with_routes b (b_handlers b) (b_stream_handlers b)
          (<[id := scopes]> (b_required_scopes b))).

Definition builder_route_stream (b : RouterBuilder) (id : Z) (h : stream_handler_fn)
    : option RouterBuilder :=
  _ ← assert_ (negb (contains (b_handlers b) id) && negb (contains (b_stream_handlers b) id));
  Some (with_routes b (b_handlers b) (<[id := h]> (b_stream_handlers b))
          (b_required_scopes b)).

Definition builder_route_stream_scoped (b : RouterBuilder) (id : Z) (scopes : list string)
    (h : stream_handler_fn) : option RouterBuilder :=
  _ ← assert_ (negb (contains (b_handlers b) id) && negb (contains (b_stream_handlers b) id));
  Some (with_routes b (b_handlers b) (<[id := h]> (b_stream_handlers b))
          (<[id := scopes]> (b_required_scopes b))).

Definition has_scoped_routes (b : RouterBuilder) : bool :=
  existsb (λ p, negb (bool_decide (p.2 = []))) (map_to_list (b_required_scopes b)).

Definition builder_build (b : RouterBuilder) : option Router :=
  _ ← assert_ (negb (has_scoped_routes b) || b_authorization_configured b
               || b_unsecured_scopes_allowed b);
  Some {| handlers := b_handlers b; stream_handlers := b_stream_handlers b;
          method_names := b_method_names b; required_scopes := b_required_scopes b;
          middleware := b_middleware b; telemetry := b_telemetry b |}.

(** * Histories of registration *)

Inductive builder_op :=
  | OMethodName (id : Z) (name : string)
  | OLayer (m : middleware_fn)
  | OAuthorization (m : middleware_fn)
  | OAllowUnsecured
  | OTelemetry (t : telemetry_fn)
  | ORoute (id : Z) (h : handler_fn)
  | ORouteScoped (id : Z) (scopes : list string) (h : handler_fn)
  | ORouteStream (id : Z) (h : stream_handler_fn)
  | ORouteStreamScoped (id : Z) (scopes : list string) (h : stream_handler_fn).

Definition apply_op (o : builder_op) (b : RouterBuilder) : option RouterBuilder :=
  match o with
  | OMethodName id name => builder_method_name b id name
  | OLayer m => Some (builder_layer b m)
  | OAuthorization m => Some (builder_authorization_layer b m)
  | OAllowUnsecured => Some (builder_allow_unsecured_scopes b)
  | OTelemetry t => Some (builder_telemetry b t)
  | ORoute id h => builder_route b id h
  | ORouteScoped id scopes h => builder_route_scoped b id scopes h
  | ORouteStream id h => builder_route_stream b id h
  | ORouteStreamScoped id scopes h => builder_route_stream_scoped b id scopes h
  end.

Fixpoint apply_ops (ops : list builder_op) (b : RouterBuilder) : option RouterBuilder :=
  match ops with
  | [] => Some b
  | o :: ops => b ← apply_op o b; apply_ops ops b
  end.

Definition build_router (ops : list builder_op) : option Router :=
  b ← apply_ops ops Router_builder; builder_build b.

(** ** What an operation registers *)

Definition op_layer (o : builder_op) : option middleware_fn :=
  match o with OLayer m | OAuthorization m => Some m | _ => None end.
Definition op_method (o : builder_op) : option Z :=
  match o with
  | ORoute id _ | ORouteScoped id _ _ | ORouteStream id _ | ORouteStreamScoped id _ _ => Some id
  | _ => None
  end.
Definition op_handler (o : builder_op) : option (Z * handler_fn) :=
  match o with ORoute id h | ORouteScoped id _ h => Some (id, h) | _ => None end.
Definition op_stream (o : builder_op) : option (Z * stream_handler_fn) :=
  match o with ORouteStream id h | ORouteStreamScoped id _ h => Some (id, h) | _ => None end.
Definition op_scopes (o : builder_op) : option (Z * list string) :=
  match o with
  | ORouteScoped id s _ | ORouteStreamScoped id s _ => Some (id, s)
  | _ => None
  end.
Definition op_name (o : builder_op) : option (Z * string) :=
  match o with OMethodName id name => Some (id, name) | _ => None end.
Definition op_telemetry (o : builder_op) : option telemetry_fn :=
  match o with OTelemetry t => Some t | _ => None end.
Definition is_authorization (o : builder_op) : bool :=
  match o with OAuthorization _ => true | _ => false end.
Definition is_allow_unsecured (o : builder_op) : bool :=
  match o with OAllowUnsecured => true | _ => false end.

Lemma assert_Some c u : assert_ c = Some u ↔ c = true.
Proof. unfold assert_. destruct c, u; naive_solver. Qed.

(** The builder after a history: every table is what the history registered. *)
Record builder_after (ops : list builder_op) (b : RouterBuilder) : Prop := {
  ba_handlers id h : b_handlers b !! id = Some h ↔ (id, h) ∈ omap op_handler ops;
  ba_streams id h : b_stream_handlers b !! id = Some h ↔ (id, h) ∈ omap op_stream ops;
  ba_scopes id s : b_required_scopes b !! id = Some s ↔ (id, s) ∈ omap op_scopes ops;
  ba_methods : NoDup (omap op_method ops);
  ba_middleware : b_middleware b = omap op_layer ops;
  ba_authorization : b_authorization_configured b = existsb is_authorization ops;
  ba_unsecured : b_unsecured_scopes_allowed b = existsb is_allow_unsecured ops;
  ba_names id n : b_method_names b !! id = Some n ↔ (id, n) ∈ omap op_name ops;
  ba_named id n : (id, n) ∈ omap op_name ops → n ≠ ""%string ∧ id ∈ omap op_method ops;
  ba_telemetry : b_telemetry b = last (omap op_telemetry ops);
}.

Lemma lookup_snoc {A} (m : gmap Z A) l id x :
  (∀ k y, m !! k = Some y ↔ (k, y) ∈ l) → m !! id = None →
  ∀ k y, <[id := x]> m !! k = Some y ↔ (k, y) ∈ l ++ [(id, x)].
Proof.
  intros Hm Hid k y. rewrite elem_of_app, list_elem_of_singleton.
  destruct (decide (k = id)) as [->|Hne].
  - rewrite lookup_insert_eq. split; [intros [= ->]; by right|].
    intros [Hin%Hm|Heq]; [congruence|by simplify_eq].
  - rewrite lookup_insert_ne, Hm by done. split; [by left|]. intros [?|?]; [done|by simplify_eq].
Qed.

Lemma op_method_cases (ops : list builder_op) id :
  id ∈ omap op_method ops ↔
  (∃ h, (id, h) ∈ omap op_handler ops) ∨ (∃ h, (id, h) ∈ omap op_stream ops).
Proof.
  setoid_rewrite list_elem_of_omap. split.
  - intros (o & Ho & Hid). destruct o; simplify_eq/=;
      [left|left|right|right]; eexists; eexists; (split; [exact Ho|done]).
  - intros [(h & o & Ho & Hid)|(h & o & Ho & Hid)]; exists o; split; try done;
      by destruct o; simplify_eq/=.
Qed.

Lemma op_scopes_method (ops : list builder_op) id s : (id, s) ∈ omap op_scopes ops → id ∈ omap op_method ops.
Proof.
  rewrite !list_elem_of_omap. intros (o & Ho & Hid). exists o. split; [done|].
  by destruct o; simplify_eq/=.
Qed.

Lemma contains_false {A} (m : gmap Z A) id : contains m id = false ↔ m !! id = None.
Proof. unfold contains. rewrite bool_decide_eq_false, <- eq_None_not_Some. done. Qed.

(** A method identifier no operation registered is in no table. *)
Lemma builder_after_fresh ops b id :
  builder_after ops b → b_handlers b !! id = None → b_stream_handlers b !! id = None →
  b_required_scopes b !! id = None ∧ id ∉ omap op_method ops.
Proof.
  intros [Hh Hs Hsc _ _ _ _ _ _ _] H1 H2.
  assert (id ∉ omap op_method ops) as Hn.
  { intros [[h Hin%Hh]|[h Hin%Hs]]%op_method_cases; congruence. }
  split; [|done]. destruct (b_required_scopes b !! id) as [s|] eqn:E; [|done].
  apply Hsc, op_scopes_method in E. done.
Qed.

Lemma existsb_snoc {A} (f : A → bool) l x : existsb f (l ++ [x]) = existsb f l || f x.
Proof. rewrite existsb_app. simpl. by rewrite orb_false_r. Qed.

Ltac solve_snoc :=
  rewrite ?omap_app; simpl; rewrite ?app_nil_r, ?existsb_snoc; simpl; rewrite ?orb_false_r;
  first [done | by f_equal | by apply lookup_snoc | by rewrite last_snoc].

(** Only registered methods are named, and with a name. *)
Lemma builder_after_named ops b o b' :
  builder_after ops b → apply_op o b = Some b' →
  ∀ id n, (id, n) ∈ omap op_name (ops ++ [o]) → n ≠ ""%string ∧ id ∈ omap op_method (ops ++ [o]).
Proof.
  intros Hb Ho id n. rewrite !omap_app, !elem_of_app. intros [Hin|Hin].
  { destruct (ba_named _ _ Hb id n Hin). auto. }
  destruct o; try by apply not_elem_of_nil in Hin.
  apply list_elem_of_singleton in Hin as [= -> ->]. cbn [apply_op] in Ho.
  unfold builder_method_name in Ho.
  apply bind_Some in Ho as ([] & Hreg%assert_Some & Ho).
  apply bind_Some in Ho as ([] & Hne%assert_Some & _). bool_to_prop.
  apply bool_decide_eq_false in Hne. split; [done|]. left. apply op_method_cases.
  apply orb_prop in Hreg as [[h Hh]%bool_decide_eq_true|[h Hh]%bool_decide_eq_true].
  - left. exists h. by apply (ba_handlers _ _ Hb).
  - right. exists h. by apply (ba_streams _ _ Hb).
Qed.

Lemma builder_after_op ops b o b' :
  builder_after ops b → apply_op o b = Some b' → builder_after (ops ++ [o]) b'.
Proof.
  intros Hb Ho. pose proof (builder_after_named _ _ _ _ Hb Ho) as Hnd'.
  pose proof Hb as [Hh Hs Hsc Hm Hmw Hau Hun Hnm _ Htl]. revert Ho Hnd'.
  destruct o; simpl;
    unfold builder_method_name, builder_route, builder_route_scoped, builder_route_stream,
      builder_route_stream_scoped;
    intros Ho Hnd'; repeat (apply bind_Some in Ho as ([] & ?%assert_Some & Ho)); bool_to_prop;
    injection Ho as <-;
    repeat match goal with
    | H : contains _ _ = false |- _ => apply contains_false in H
    | H : bool_decide (is_Some _) = false |- _ => apply bool_decide_eq_false, eq_None_not_Some in H
    end.
  1-5: split; try exact Hnd'; intros; try solve_snoc.
  1-2: by rewrite existsb_snoc, orb_true_r.
  all: destruct (builder_after_fresh ops b id Hb) as [Hfs Hfm]; [done|done|].
  all: split; try exact Hnd'; try solve_snoc.
  all: rewrite omap_app; simpl; apply NoDup_app; split_and!;
    [done|set_solver|apply NoDup_singleton].
Qed.

Lemma builder_after_ops ops ops' b b' :
  builder_after ops b → apply_ops ops' b = Some b' → builder_after (ops ++ ops') b'.
Proof.
  revert ops b. induction ops' as [|o ops' IH]; intros ops b Hb; simpl.
  - intros [= <-]. by rewrite app_nil_r.
  - intros (b1 & Ho & Hr)%bind_Some. rewrite cons_middle, (assoc_L (++)).
    eapply IH; [|done]. by eapply builder_after_op.
Qed.

Lemma builder_after_start : builder_after [] Router_builder.
Proof.
  split; simpl; intros; rewrite ?lookup_empty; try done;
    try (split; [done|by intros ?%not_elem_of_nil]); [apply NoDup_nil_2|].
  by match goal with H : _ ∈ [] |- _ => apply not_elem_of_nil in H end.
Qed.

Lemma has_scoped_routes_iff b :
  has_scoped_routes b = true ↔ ∃ id s, b_required_scopes b !! id = Some s ∧ s ≠ [].
Proof.
  unfold has_scoped_routes. rewrite existsb_exists. setoid_rewrite <- list_elem_of_In. split.
  - intros ([id s] & Hin%elem_of_map_to_list & Hne%negb_true_iff%bool_decide_eq_false). eauto.
  - intros (id & s & Hid & Hne). exists (id, s). rewrite elem_of_map_to_list. split; [done|].
    by apply negb_true_iff, bool_decide_eq_false.
Qed.

(** * Properties *)

(** C38 A router that was built is exactly what its registration history says:
    the unary and the streaming routes, each method identifier registered once
    and never both ways; the required scopes of the methods that were registered
    with scopes, and of no other; the names that were given, each to a method
    that is registered and none empty; the layers in registration order; and the
    telemetry adapter set last.  It fails closed: if the history registers a
    method with scopes, it installs an authorization layer, which is among the
    router's layers, or says explicitly that unsecured scopes are allowed. *)
Theorem router_built_correct ops r :
  build_router ops = Some r →
  NoDup (omap op_method ops) ∧
  (∀ id h, handlers r !! id = Some h ↔ (id, h) ∈ omap op_handler ops) ∧
  (∀ id h, stream_handlers r !! id = Some h ↔ (id, h) ∈ omap op_stream ops) ∧
  (∀ id scopes, required_scopes r !! id = Some scopes ↔ (id, scopes) ∈ omap op_scopes ops) ∧
  (∀ id name, method_names r !! id = Some name ↔ (id, name) ∈ omap op_name ops) ∧
  (∀ id name, (id, name) ∈ omap op_name ops → name ≠ ""%string ∧ id ∈ omap op_method ops) ∧
  middleware r = omap op_layer ops ∧ telemetry r = last (omap op_telemetry ops) ∧
  (∀ id scopes, (id, scopes) ∈ omap op_scopes ops → scopes ≠ [] →
     (∃ m, OAuthorization m ∈ ops ∧ m ∈ middleware r) ∨ OAllowUnsecured ∈ ops).
Proof.
  unfold build_router. intros (b & Hb & Hr)%bind_Some.
  apply (builder_after_ops [] ops) in Hb as [Hh Hs Hsc Hm Hmw Hau Hun Hnm Hnd Htl];
    [|apply builder_after_start].
  unfold builder_build in Hr. apply bind_Some in Hr as ([] & Ha%assert_Some & [= <-]). simpl.
  split_and!; try done. intros id scopes Hid%Hsc Hne.
  rewrite (proj2 (has_scoped_routes_iff b)), Hau, Hun in Ha by eauto. simpl in Ha.
  apply orb_prop in Ha as [Ha|Ha]; apply existsb_exists in Ha as (o & Ho%list_elem_of_In & Hk);
    destruct o; try done.
  - left. exists m. split; [done|]. rewrite Hmw. apply list_elem_of_omap.
    by exists (OAuthorization m).
  - by right.
Qed.

(** ** Witness *)

Definition sample_ops : list builder_op :=
  [ORouteScoped 5 ["admin"%string] (λ b, Returned (Ok b));
   OAuthorization (λ c b, RunNext c b (λ r, Finish (Returned r)));
   OMethodName 5 "Users/Get"%string;
   ORouteStream 6 (λ b, Opened {| stream_items := [Ok b]; stream_last := TailEnds |})].

Lemma router_built_correct_witness :
  ∃ r, build_router sample_ops = Some r ∧ length (middleware r) = 1%nat ∧
    ((∃ m, OAuthorization m ∈ sample_ops ∧ m ∈ middleware r) ∨ OAllowUnsecured ∈ sample_ops).
Proof.
  eexists. split; [reflexivity|]. split; [reflexivity|].
  destruct (router_built_correct sample_ops _ eq_refl) as (_ & _ & _ & _ & _ & _ & _ & _ & H).
  apply (H 5 ["admin"%string]); [left|discriminate].
Defined.

(** A scoped route without an authorization layer does not build, and neither
    does a method registered twice. *)
Example unsecured_scopes_refused :
  build_router [ORouteScoped 5 ["admin"%string] (λ b, Returned (Ok b))] = None.
Proof. reflexivity. Qed.
Example duplicate_method_refused :
  build_router [ORoute 5 (λ b, Returned (Ok b));
                ORouteStream 5 (λ b, OpenHung)] = None.
Proof. reflexivity. Qed.
