(* ===== verification/Dispatch.v ===== *)
(** Request dispatch of [moonlight-bridge-server/src/lib.rs]: parsing the request
    frame, running a unary handler behind the middleware with its deadline, and
    delivering a server stream under credits. *)
From S2P Require Import Prelude OrdMap Compression Protocol Metadata Transport Outbound.
From S2P Require Import Middleware Router.

(** * Parsing a request *)

Record RequestCompression := MkRequestCompression {
  rc_codecs : Z;
  rc_policy : CompressionPolicy;
}.

(** Durations are milliseconds; the decompression timing is not kept. *)
Record ParsedRequest := MkParsedRequest {
  pr_deadline : option Z;
  pr_trace_context : option TraceContext;
  pr_metadata : option Metadata;
  pr_payload : bytes;
  pr_decoded_permit : option DecodedBytePermit;
}.

Definition rejection : Type := ErrorCode * string.

(** The four values the loop over the reserved entries collects. *)
Record reserved_values := MkReservedValues {
  deadline_value : option bytes;
  trace_value : option bytes;
  codec_value : option bytes;
  original_value : option bytes;
}.

Definition collect_reserved (acc : reserved_values) (e : ReservedMetadataKey * bytes)
    : reserved_values :=
  match e with
  | (ReservedMetadataKey.DeadlineMillis, v) =>
      {| deadline_value := Some v; trace_value := trace_value acc;
         codec_value := codec_value acc; original_value := original_value acc |}
  | (ReservedMetadataKey.TraceContext, v) =>
      {| deadline_value := deadline_value acc; trace_value := Some v;
         codec_value := codec_value acc; original_value := original_value acc |}
  | (ReservedMetadataKey.CompressionCodec, v) =>
      {| deadline_value := deadline_value acc; trace_value := trace_value acc;
         codec_value := Some v; original_value := original_value acc |}
  | (ReservedMetadataKey.OriginalLength, v) =>
      {| deadline_value := deadline_value acc; trace_value := trace_value acc;
         codec_value := codec_value acc; original_value := Some v |}
  | _ => acc
  end.

Definition no_values : reserved_values :=
  {| deadline_value := None; trace_value := None; codec_value := None; original_value := None |}.

(** [value.try_into()] to [[u8; 4]] and [u32::from_be_bytes]. *)
Definition u32_of (v : bytes) : option Z :=
  if bool_decide (length v = 4%nat) then Some (be_val v) else None.

Definition parse_deadline (v : option bytes) : result rejection (option Z) :=
  match v with
  | None => Ok None
  | Some v =>
      millis ← ok_or (u32_of v)
                 (ErrorCode.InvalidRequest, "deadline metadata must contain four bytes"%string);
      if millis =? 0
      then Err (ErrorCode.InvalidRequest, "deadline must be greater than zero"%string)
      else Ok (Some millis)
  end.

Definition parse_trace (v : option bytes) : result rejection (option TraceContext) :=
  match v with
  | None => Ok None
  | Some v =>
      if negb (zlen v =? TRACE_CONTEXT_LEN)
      then Err (ErrorCode.InvalidRequest, "trace-context metadata must contain 25 bytes"%string)
      else t ← map_err (λ _, (ErrorCode.InvalidRequest, "invalid trace context"%string))
                 (TraceContext_decode v);
           Ok (Some t)
  end.

Definition parse_compression (codec original : option bytes)
    : result rejection (option (CompressionCodec * Z)) :=
  match codec, original with
  | None, None => Ok None
  | Some [codec], Some original =>
      codec ← map_err (λ _, (ErrorCode.CompressionFailure, "unsupported compression codec"%string))
                (CompressionCodec_try_from (u8 codec));
      original ← ok_or (u32_of original)
                   (ErrorCode.CompressionFailure, "invalid original payload length"%string);
      Ok (Some (codec, original))
  | _, _ => Err (ErrorCode.CompressionFailure, "incomplete compression metadata"%string)
  end.

Section dispatch.
Context `{Z0 : ZstdOps}.

(** What the metadata of a request says, and where its payload starts. *)
Definition request_metadata (frame : Frame) (max_metadata_len : Z) (retain_metadata : bool)
    : result rejection (option Z * option TraceContext * option (CompressionCodec * Z)
                        * option Metadata * Z) :=
  if negb (Z.land (flags frame) FLAG_HAS_METADATA =? 0)
  then
    '(validated, payload) ←
      map_err (λ _, (ErrorCode.InvalidRequest, "invalid request metadata"%string))
        (Metadata_validate (body frame) (metadata_limits max_metadata_len));
    let values := foldl collect_reserved no_values (reserved_entries validated) in
    deadline ← parse_deadline (deadline_value values);
    trace_context ← parse_trace (trace_value values);
    compression ← parse_compression (codec_value values) (original_value values);
    metadata ← (if retain_metadata
                then m ← map_err (λ _, (ErrorCode.InvalidRequest, "invalid request metadata"%string))
                           (into_metadata validated);
                     Ok (Some m)
                else Ok None);
    Ok (deadline, trace_context, compression, metadata, zlen (body frame) - zlen payload)
  else Ok (None, None, None, if retain_metadata then Some Metadata_new else None, 0).

(** The budget after the call and the parsed request. *)
Definition request_payload (spurious : list bool) (frame : Frame) (max_metadata_len : Z)
    (compression : RequestCompression) (retain_metadata : bool) (budget : BudgetInner)
    : BudgetInner * result rejection ParsedRequest :=
  match request_metadata frame max_metadata_len retain_metadata with
  | Err e => (budget, Err e)
  | Ok (deadline, trace_context, compression_metadata, metadata, payload_offset) =>
      let encoded_payload := drop (Z.to_nat payload_offset) (body frame) in
      let parsed payload permit :=
        {| pr_deadline := deadline; pr_trace_context := trace_context;
           pr_metadata := metadata; pr_payload := payload; pr_decoded_permit := permit |} in
      match compression_metadata with
      | None => (budget, Ok (parsed encoded_payload None))
      | Some (codec, original_length) =>
          if negb (bool_decide (codec = CompressionCodec.Zstd))
             || (Z.land (rc_codecs compression) COMPRESSION_CODEC_ZSTD =? 0)
          then (budget, Err (ErrorCode.CompressionFailure,
                             "compression codec was not negotiated"%string))
          else
            match decode_with_reservation spurious (rc_policy compression) codec encoded_payload
                    original_length budget with
            | (budget, Err _) =>
                (budget, Err (ErrorCode.CompressionFailure, "compressed payload rejected"%string))
            | (budget, Ok (payload, permit)) => (budget, Ok (parsed payload permit))
            end
      end
  end.

Definition release_permit (permit : option DecodedBytePermit) (budget : BudgetInner)
    : BudgetInner :=
  match permit with
  | Some p => DecodedBytePermit_drop p budget
  | None => budget
  end.

(** * Unary dispatch *)

Inductive RequestOutcome :=
  | Success (response_bytes : Z)
  | Failure (c : ErrorCode).

(** Calls made on the telemetry adapter and its observation.  [Kept] hands the
    open observation to the writer with its outcome; [Dropped] is its drop
    without a finish. *)
Inductive observation_event :=
  | Started (info : RequestInfo)
  | Finished (o : RequestOutcome)
  | Kept (o : RequestOutcome)
  | Dropped.

(** How the request task fares. *)
Inductive task_end :=
  | Responded (f : Frame)
  | Unwound
  | Stuck.

Record dispatch_result := MkDispatchResult {
  d_end : task_end;
  d_budget : BudgetInner;
  d_chain : list chain_event;
  d_observed : list observation_event;
  d_cancelled : bool;
}.

Definition finish_observation (o : option bool) (out : RequestOutcome) : list observation_event :=
  match o with Some _ => [Finished out] | None => [] end.

Definition defer_or_finish (o : option bool) (detailed : bool) (out : RequestOutcome)
    : list observation_event :=
  if negb detailed then finish_observation o out
  else match o with Some _ => [Kept out] | None => [] end.

Definition drop_observation (o : option bool) : list observation_event :=
  match o with Some _ => [Dropped] | None => [] end.

(** The invocation of the handler: through the chain when the metadata was
    kept, directly otherwise. *)
Definition invoke (r : Router) (frame : Frame) (handler : handler_fn) (now : Z)
    (peer : option PeerIdentity) (parsed : ParsedRequest) : list chain_event * outcome :=
  match pr_metadata parsed with
  | Some metadata =>
      let context :=
        {| rc_method_id := method_id frame; rc_request_id := request_id frame;
           rc_deadline := (λ d, now + d) <$> pr_deadline parsed;
           rc_metadata := metadata;
           rc_required_scopes := default [] (required_scopes r !! method_id frame);
           rc_peer_identity := peer |} in
      let '(events, answer) := Next_root_run (middleware r) handler context (pr_payload parsed) in
      (events, match answer with Ready a => Returned a | Pending => Hung end)
  | None => ([Handled (pr_payload parsed)], handler (pr_payload parsed))
  end.

(** The frame that answers a finished invocation, and what its observation hears. *)
Definition answer_frame (frame : Frame) (max_response_body_len : Z) (observation : option bool)
    (detailed : bool) (result : result HandlerError bytes) : Frame * list observation_event :=
  match result with
  | Ok response =>
      if zlen response >? max_response_body_len
      then (error_frame frame ErrorCode.ResourceExhausted
              (as_bytes "response exceeds negotiated body limit"),
            finish_observation observation (Failure ErrorCode.ResourceExhausted))
      else (Frame_new FrameKind.Response (method_id frame) (request_id frame) response,
            defer_or_finish observation detailed (Success (zlen response)))
  | Err e =>
      (error_frame frame (code e) (message e),
       defer_or_finish observation detailed (Failure (code e)))
  end.

(** What follows the parsing of a unary request, up to its answer.  [late] tells
    that the deadline, when there is one, passes before the invocation ends;
    [budget] is the budget with the reservation of the parsed payload. *)
Definition dispatch_parsed (r : Router) (frame : Frame) (max_response_body_len : Z)
    (peer : option PeerIdentity) (now : Z) (late : bool) (parsed : ParsedRequest)
    (budget : BudgetInner) : dispatch_result :=
  let budget' := release_permit (pr_decoded_permit parsed) budget in
  let info :=
    {| ri_method_id := method_id frame;
       ri_method_name := method_names r !! method_id frame;
       ri_request_id := request_id frame;
       ri_request_bytes := zlen (pr_payload parsed);
       ri_trace_context := pr_trace_context parsed |} in
  let observation := t ← telemetry r; t info in
  let started := match observation with Some _ => [Started info] | None => [] end in
  let detailed := default false observation in
  let respond events f obs cancelled :=
    {| d_end := Responded f; d_budget := budget'; d_chain := events;
       d_observed := started ++ obs; d_cancelled := cancelled |} in
  match handlers r !! method_id frame with
  | None =>
      respond []
        (error_frame frame ErrorCode.UnknownMethod (as_bytes "method is not registered"))
        (finish_observation observation (Failure ErrorCode.UnknownMethod)) false
  | Some handler =>
      let '(events, o) := invoke r frame handler now peer parsed in
      if bool_decide (is_Some (pr_deadline parsed))
         && (late || match o with Hung => true | _ => false end)
      then respond events
             (error_frame frame ErrorCode.DeadlineExceeded
                (as_bytes "request deadline exceeded"))
             (finish_observation observation (Failure ErrorCode.DeadlineExceeded))
             (CancellationGuard_drop CancellationGuard_new)
      else
        let cancelled :=
          CancellationGuard_drop (CancellationGuard_complete CancellationGuard_new) in
        match o with
        | Hung =>
            {| d_end := Stuck; d_budget := budget; d_chain := events;
               d_observed := started; d_cancelled := false |}
        | Panicked =>
            {| d_end := Unwound; d_budget := budget'; d_chain := events;
               d_observed := started ++ drop_observation observation;
               d_cancelled := CancellationGuard_drop CancellationGuard_new |}
        | Returned result =>
            let '(f, obs) := answer_frame frame max_response_body_len observation detailed result in
            respond events f obs cancelled
        end
  end.

(** [retain_metadata]: the metadata is kept for the middleware. *)
Definition keeps_metadata (r : Router) : bool := negb (bool_decide (length (middleware r) = 0%nat)).

Definition dispatch_observed (spurious : list bool) (r : Router) (frame : Frame)
    (max_response_body_len max_metadata_len : Z) (compression : RequestCompression)
    (peer : option PeerIdentity) (now : Z) (late : bool) (budget : BudgetInner)
    : dispatch_result :=
  match request_payload spurious frame max_metadata_len compression (keeps_metadata r) budget with
  | (budget, Err (code, text)) =>
      {| d_end := Responded (error_frame frame code (as_bytes text)); d_budget := budget;
         d_chain := []; d_observed := []; d_cancelled := false |}
  | (budget, Ok parsed) =>
      dispatch_parsed r frame max_response_body_len peer now late parsed budget
  end.

(** * Stream delivery *)

(** How the delivery of a stream ends: with its outcome and its terminal frame,
    with an item that the writer no longer takes, or with the task unwinding;
    or it has not ended. *)
Inductive delivery_end :=
  | Delivered (o : RequestOutcome)
  | Deserted
  | DeliveryUnwound
  | Waiting.

Definition deadline_error (frame : Frame) : Frame :=
  error_frame frame ErrorCode.DeadlineExceeded (as_bytes "request deadline exceeded").

Definition stream_item (frame : Frame) (item : bytes) : Frame :=
  Frame_new FrameKind.StreamItem (method_id frame) (request_id frame) item.

Definition stream_end (frame : Frame) : Frame :=
  Frame_new FrameKind.StreamEnd (method_id frame) (request_id frame) [].

(** How far a stream gets before its items: an error frame instead, a stream to
    deliver, the task unwinding, or no end. *)
Inductive opening :=
  | OpenRefused (f : Frame) (c : ErrorCode)
  | OpenDelivers (s : server_stream)
  | OpenUnwinds
  | OpenWaits.

(** The handler's future; [late] tells that the deadline passes before it is
    ready. *)
Definition opening_of (frame : Frame) (has_deadline late : bool) (opened : stream_outcome)
    : opening :=
  let expired := OpenRefused (deadline_error frame) ErrorCode.DeadlineExceeded in
  if has_deadline && late then expired
  else
    match opened with
    | OpenHung => if has_deadline then expired else OpenWaits
    | OpenPanicked => OpenUnwinds
    | OpenFailed e => OpenRefused (error_frame frame (code e) (message e)) (code e)
    | Opened s => OpenDelivers s
    end.

(** What follows the parsing of a streaming request, up to the opened stream:
    the middleware run first, around an identity handler, and may replace the
    payload. *)
Definition open_stream (r : Router) (frame : Frame) (peer : option PeerIdentity) (now : Z)
    (late : bool) (parsed : ParsedRequest) : list chain_event * opening :=
  match stream_handlers r !! method_id frame with
  | None =>
      ([], OpenRefused
             (error_frame frame ErrorCode.UnknownMethod (as_bytes "method is not registered"))
             ErrorCode.UnknownMethod)
  | Some handler =>
      let '(chain, before) :=
        match pr_metadata parsed with
        | Some _ => invoke r frame (λ b, Returned (Ok b)) now peer parsed
        | None => ([], Returned (Ok (pr_payload parsed)))
        end in
      (chain,
       match before with
       | Returned (Err e) => OpenRefused (error_frame frame (code e) (message e)) (code e)
       | Returned (Ok payload) =>
           opening_of frame (bool_decide (is_Some (pr_deadline parsed))) late (handler payload)
       | Panicked | Hung => OpenWaits
       end)
  end.

(** What the delivery loop holds between two turns. *)
Record Delivery := MkDelivery {
  dv_items : list (result HandlerError bytes);
  dv_tail : stream_tail;
  dv_deadline : bool;
  dv_bytes : Z;
}.

Definition delivery_of (parsed : ParsedRequest) (s : server_stream) : Delivery :=
  {| dv_items := stream_items s; dv_tail := stream_last s;
     dv_deadline := bool_decide (is_Some (pr_deadline parsed)); dv_bytes := 0 |}.

(** One turn: an item goes out and takes a credit, the terminal frame goes out,
    the stream panics, or an await has nothing to complete it yet. *)
Inductive turn :=
  | TurnItem (f : Frame) (d : Delivery)
  | TurnEnd (f : Frame) (o : RequestOutcome)
  | TurnUnwound
  | TurnWaits.

(** [late]: the deadline passes at one of the turn's awaits. *)
Definition stream_turn (frame : Frame) (max_response_body_len : Z) (late : bool) (credits : Z)
    (d : Delivery) : turn :=
  if dv_deadline d && late
  then TurnEnd (deadline_error frame) (Failure ErrorCode.DeadlineExceeded)
  else
    match dv_items d with
    | Ok item :: items =>
        if zlen item <=? max_response_body_len
        then if 0 <? credits
             then TurnItem (stream_item frame item)
                    {| dv_items := items; dv_tail := dv_tail d; dv_deadline := dv_deadline d;
                       dv_bytes := dv_bytes d + zlen item |}
             else TurnWaits
        else TurnEnd (error_frame frame ErrorCode.ResourceExhausted
                        (as_bytes "stream item exceeds negotiated body limit"))
               (Failure ErrorCode.ResourceExhausted)
    | Err e :: _ => TurnEnd (error_frame frame (code e) (message e)) (Failure (code e))
    | [] =>
        match dv_tail d with
        | TailEnds => TurnEnd (stream_end frame) (Success (dv_bytes d))
        | TailHangs => TurnWaits
        | TailPanics => TurnUnwound
        end
    end.

(** What the rest of the connection does around a turn: the credits the client
    granted since the turn before, whether the deadline passes at one of its
    awaits, and what the response queue does with the frame it sends, where
    [None] says that the writer is gone and [Some room] whether the byte budgets
    have room. *)
Record turn_env := MkTurnEnv {
  tn_credits : Z;
  tn_late : bool;
  tn_queue : option bool;
}.

(** [responses.send(f).await] *)
Definition queue_takes (queue : option bool) (f : Frame) : option (list Frame) :=
  (λ room, queue_form room f) <$> queue.

(** The delivery loop over the given turns: the frames that the response queue
    took, and how the delivery ended, if it did.  An item that cannot be sent
    ends it without a terminal frame, and the result of sending the terminal
    frame is ignored.  Nothing ever closes the semaphore of the credits. *)
Fixpoint stream_run (frame : Frame) (max_response_body_len : Z) (turns : list turn_env)
    (credits : Z) (d : Delivery) : list Frame * delivery_end :=
  match turns with
  | [] => ([], Waiting)
  | env :: turns =>
      let credits := credits + tn_credits env in
      match stream_turn frame max_response_body_len (tn_late env) credits d with
      | TurnItem f d =>
          match queue_takes (tn_queue env) f with
          | Some fs =>
              let '(frames, e) := stream_run frame max_response_body_len turns (credits - 1) d in
              (fs ++ frames, e)
          | None => ([], Deserted)
          end
      | TurnEnd f o => (default [] (queue_takes (tn_queue env) f), Delivered o)
      | TurnUnwound => ([], DeliveryUnwound)
      | TurnWaits => stream_run frame max_response_body_len turns credits d
      end
  end.

(** What follows an opening; [writer] tells whether the writer still runs when
    a refusal is sent. *)
Definition deliver (frame : Frame) (max_response_body_len : Z) (parsed : ParsedRequest)
    (o : opening) (writer : bool) (turns : list turn_env) : list Frame * delivery_end :=
  match o with
  | OpenRefused f c => (if writer then [f] else [], Delivered (Failure c))
  | OpenDelivers s => stream_run frame max_response_body_len turns 0 (delivery_of parsed s)
  | OpenUnwinds => ([], DeliveryUnwound)
  | OpenWaits => ([], Waiting)
  end.

(** What the observation of a stream hears once it was started. *)
Definition delivery_observed (e : delivery_end) : list observation_event :=
  match e with
  | Delivered o => [Finished o]
  | Deserted | DeliveryUnwound => [Dropped]
  | Waiting => []
  end.

Record stream_result := MkStreamResult {
  s_frames : list Frame;
  s_end : delivery_end;
  s_chain : list chain_event;
  s_observed : list observation_event;
  s_budget : BudgetInner;
  s_cancelled : bool;
}.

Definition dispatch_stream (spurious : list bool) (r : Router) (frame : Frame)
    (max_response_body_len max_metadata_len : Z) (compression : RequestCompression)
    (peer : option PeerIdentity) (now : Z) (late writer : bool) (turns : list turn_env)
    (budget : BudgetInner) : stream_result :=
  match request_payload spurious frame max_metadata_len compression (keeps_metadata r) budget with
  | (budget, Err (code, text)) =>
      {| s_frames := if writer then [error_frame frame code (as_bytes text)] else [];
         s_end := Delivered (Failure code); s_chain := []; s_observed := [];
         s_budget := budget; s_cancelled := false |}
  | (budget, Ok parsed) =>
      let info :=
        {| ri_method_id := method_id frame;
           ri_method_name := method_names r !! method_id frame;
           ri_request_id := request_id frame;
           ri_request_bytes := zlen (pr_payload parsed);
           ri_trace_context := pr_trace_context parsed |} in
      let observation := t ← telemetry r; t info in
      let '(chain, o) := open_stream r frame peer now late parsed in
      let '(frames, e) := deliver frame max_response_body_len parsed o writer turns in
      {| s_frames := frames; s_end := e; s_chain := chain;
         s_observed := match observation with
                       | Some _ => Started info :: delivery_observed e
                       | None => []
                       end;
         s_budget := match e with
                     | Waiting => budget
                     | _ => release_permit (pr_decoded_permit parsed) budget
                     end;
         s_cancelled := match e with DeliveryUnwound => true | _ => false end |}
  end.
End dispatch.

(** * Lemmas *)

Section lemmas.
Context `{Z0 : ZstdOps}.

Lemma u32_of_range v n : u32_of v = Some n → 0 ≤ n.
Proof. unfold u32_of. case_match; [|done]. intros [= <-]. apply be_val_range. Qed.

Lemma parse_compression_nonneg c o codec n :
  parse_compression c o = Ok (Some (codec, n)) → 0 ≤ n.
Proof.
  unfold parse_compression. intros H. repeat case_match; try done. inv_ok. simplify_eq.
  eauto using u32_of_range.
Qed.

Lemma request_metadata_nonneg frame max retain d t codec n m o :
  request_metadata frame max retain = Ok (d, t, Some (codec, n), m, o) → 0 ≤ n.
Proof.
  unfold request_metadata. case_match; [|done]. intros Hr.
  apply bind_Ok in Hr as ([v p] & _ & Hr). inv_ok. simplify_eq.
  eauto using parse_compression_nonneg.
Qed.

Lemma request_metadata_retain frame max retain d t c m o :
  request_metadata frame max retain = Ok (d, t, c, m, o) → is_Some m ↔ retain = true.
Proof.
  unfold request_metadata. case_match.
  - intros Hr. apply bind_Ok in Hr as ([v p] & _ & Hr). cbn zeta in Hr.
    destruct retain; inv_ok; simplify_eq; split; done.
  - intros [= <- <- <- <- <-]. destruct retain; split; done.
Qed.

(** Parsing charges the budget exactly with the permit it returns. *)
Lemma request_payload_budget spurious frame max c retain budget :
  budget_wf budget →
  match request_payload spurious frame max c retain budget with
  | (budget', Err _) => budget' = budget
  | (budget', Ok parsed) => release_permit (pr_decoded_permit parsed) budget' = budget
  end.
Proof.
  intros Hwf. unfold request_payload.
  destruct (request_metadata _ _ _) as [[[[[d t] [[codec n]|]] m] o]|] eqn:Em; try done.
  apply request_metadata_nonneg in Em. destruct (_ || _); [done|].
  destruct (decode_with_reservation _ _ _ _ _ _) as [b' [[p permit]|e]] eqn:Ed; simpl.
  - apply decode_with_reservation_Ok in Ed as (Hl & _ & [(_ & _ & -> & ->)|(_ & _ & -> & Hc & Hu & Hwf')]);
      try done. simpl.
    rewrite <- (drop_reserved budget n Hwf Em); [|destruct Hwf'; lia].
    by rewrite <- Hc, <- Hu; destruct b'.
  - by eapply decode_with_reservation_Err.
Qed.

(** The bytes of a permit. *)
Definition permit_size (p : option DecodedBytePermit) : Z :=
  match p with Some p => reserved p | None => 0 end.

Lemma request_payload_charge spurious frame max c retain budget b' parsed :
  budget_wf budget →
  request_payload spurious frame max c retain budget = (b', Ok parsed) →
  budget_wf b' ∧ bi_capacity b' = bi_capacity budget ∧
  bi_used b' = bi_used budget + permit_size (pr_decoded_permit parsed) ∧
  0 ≤ permit_size (pr_decoded_permit parsed).
Proof.
  intros Hwf. unfold request_payload.
  destruct (request_metadata _ _ _) as [[[[[d t] [[codec n]|]] m] o]|] eqn:Em; try done.
  2: { intros [= <- <-]. simpl. split_and!; [done|done|lia|lia]. }
  apply request_metadata_nonneg in Em. destruct (_ || _); [done|].
  destruct (decode_with_reservation _ _ _ _ _ _) as [b1 [[p permit]|e]] eqn:Ed; [|done].
  intros [= <- <-]. simpl.
  apply decode_with_reservation_Ok in Ed as (Hl & _ & [(_ & _ & -> & ->)|(_ & _ & -> & Hc & Hu & Hwf')]);
    try done; simpl; split_and!; try done; lia.
Qed.

Lemma release_permit_used p budget :
  budget_wf budget → 0 ≤ permit_size p ≤ bi_used budget →
  release_permit p budget
  = {| bi_capacity := bi_capacity budget; bi_used := bi_used budget - permit_size p |}.
Proof.
  intros [Hu Hc] Hp. destruct p as [p|]; simpl in *.
  - unfold DecodedBytePermit_drop. f_equal. apply Z.mod_small. unfold usize_max, u64_max in Hc. lia.
  - destruct budget. simpl. f_equal. lia.
Qed.

Lemma request_payload_retain spurious frame max c retain budget b' parsed :
  request_payload spurious frame max c retain budget = (b', Ok parsed) →
  is_Some (pr_metadata parsed) ↔ retain = true.
Proof.
  unfold request_payload.
  destruct (request_metadata _ _ _) as [[[[[d t] [[codec n]|]] m] o]|] eqn:Em; try done.
  - destruct (_ || _); [done|]. destruct (decode_with_reservation _ _ _ _ _ _) as [? [[]|]]; [|done].
    intros [= <- <-]. simpl. by eapply request_metadata_retain.
  - intros [= <- <-]. simpl. by eapply request_metadata_retain.
Qed.

(** An invocation through the chain never unwinds. *)
Lemma invoke_panics r frame h now peer parsed :
  (invoke r frame h now peer parsed).2 = Panicked → pr_metadata parsed = None.
Proof.
  unfold invoke. destruct (pr_metadata parsed); [|done].
  destruct (Next_root_run _ _ _ _) as [ev [a|]]; done.
Qed.

Lemma invoke_chain r frame h now peer parsed :
  chain_trace 0 (if pr_metadata parsed then length (middleware r) else 0%nat)
    (invoke r frame h now peer parsed).1.
Proof.
  unfold invoke. destruct (pr_metadata parsed) as [m|].
  - match goal with |- context [Next_root_run ?a ?b ?c ?d] =>
      pose proof (Next_run_trace a b 0 c d) as Ht; unfold Next_root_run in *;
      destruct (Next_run 0 a b c d) as [ev ans] end. exact Ht.
  - right. by exists (pr_payload parsed).
Qed.
(** What request tasks send. *)
Definition answer_kind (k : FrameKind) : Prop :=
  k = FrameKind.Response ∨ k = FrameKind.Error ∨ k = FrameKind.StreamItem ∨
  k = FrameKind.StreamEnd.

(** A frame that carries the identifiers of a request. *)
Definition reply_to (frame f : Frame) : Prop :=
  method_id f = method_id frame ∧ request_id f = request_id frame ∧ flags f = 0.

Lemma dispatch_parsed_reply r frame mr peer now late parsed budget f :
  d_end (dispatch_parsed r frame mr peer now late parsed budget) = Responded f →
  reply_to frame f ∧ (kind f = FrameKind.Response ∨ kind f = FrameKind.Error).
Proof.
  unfold dispatch_parsed, answer_frame, reply_to.
  destruct (handlers r !! method_id frame); [|by intros [= <-]; auto].
  destruct (invoke _ _ _ _ _ _) as [ev o]. destruct (_ && _); [by intros [= <-]; auto|].
  destruct o as [[response|e]| |]; try done; [|by intros [= <-]; auto].
  destruct (_ >? _); intros [= <-]; auto.
Qed.

Lemma open_stream_refused r frame peer now late parsed f ec :
  (open_stream r frame peer now late parsed).2 = OpenRefused f ec →
  reply_to frame f ∧ kind f = FrameKind.Error.
Proof.
  unfold open_stream, opening_of, reply_to.
  destruct (stream_handlers r !! method_id frame); [|by intros [= <- _]].
  destruct (match pr_metadata parsed with Some _ => _ | None => _ end) as [chain before]. simpl.
  repeat case_match; intros [= <- _]; done.
Qed.

Lemma stream_turn_item frame mr late credits d f d' :
  stream_turn frame mr late credits d = TurnItem f d' →
  0 < credits ∧ ∃ item, f = stream_item frame item ∧ zlen item ≤ mr ∧
    dv_items d = Ok item :: dv_items d' ∧ dv_bytes d' = dv_bytes d + zlen item.
Proof.
  unfold stream_turn. repeat case_match; try done. intros [= <- <-]. bool_to_prop. eauto 6.
Qed.

Lemma stream_turn_end frame mr late credits d f o :
  stream_turn frame mr late credits d = TurnEnd f o →
  reply_to frame f ∧ (kind f = FrameKind.StreamEnd ∨ kind f = FrameKind.Error).
Proof.
  unfold stream_turn, reply_to. repeat case_match; intros [= <- _]; simpl; auto.
Qed.
End lemmas.

(** The outcome a response frame reports. *)
Definition outcome_matches (frame f : Frame) (o : RequestOutcome) : Prop :=
  match o with
  | Success n => kind f = FrameKind.Response ∧ n = zlen (body f)
  | Failure c => ∃ m, f = error_frame frame c m
  end.

(** * Properties *)

Section properties.
Context `{Z0 : ZstdOps}.

(** C10 A unary request is answered by at most one frame, and that frame carries
    the request's method and request identifiers and no flags: a response whose
    body is within the negotiated limit, or an error.  The bytes it reserved
    for decompression are back in the budget when it ends.  The task unwinds
    without an answer only when no middleware is installed, and hangs only when
    the request has no deadline. *)
Theorem dispatch_observed_answers spurious r frame max_response max_metadata c peer now late budget :
  budget_wf budget →
  let d := dispatch_observed spurious r frame max_response max_metadata c peer now late budget in
  match d_end d with
  | Responded f =>
      method_id f = method_id frame ∧ request_id f = request_id frame ∧ flags f = 0 ∧
      (kind f = FrameKind.Response ∧ zlen (body f) ≤ max_response ∨
       ∃ code m, f = error_frame frame code m) ∧
      d_budget d = budget
  | Unwound => middleware r = [] ∧ d_budget d = budget
  | Stuck =>
      ∃ b' parsed,
        request_payload spurious frame max_metadata c
          (keeps_metadata r) budget = (b', Ok parsed) ∧
        pr_deadline parsed = None
  end.
Proof.
  intros Hwf. cbv zeta. unfold dispatch_observed, dispatch_parsed, answer_frame.
  pose proof (request_payload_budget spurious frame max_metadata c
    (keeps_metadata r) budget Hwf) as Hb.
  destruct (request_payload _ _ _ _ _ _) as [b' [parsed|[ec em]]] eqn:Ep.
  2: { subst b'. simpl. split_and!; eauto. }
  destruct (handlers r !! method_id frame) as [h|]; [|simpl; split_and!; eauto].
  pose proof (invoke_panics r frame h now peer parsed) as Hp.
  destruct (invoke r frame h now peer parsed) as [ev o]. simpl in Hp.
  destruct (_ && _) eqn:Ed; [simpl; split_and!; eauto|].
  destruct o as [[response|e]| |]; simpl.
  - rewrite Z.gtb_ltb. destruct (_ <? _) eqn:El; simpl; bool_to_prop; split_and!; eauto.
  - split_and!; eauto.
  - split; [|done]. specialize (Hp eq_refl).
    pose proof (request_payload_retain _ _ _ _ _ _ _ _ Ep) as Hr. rewrite Hp in Hr.
    destruct (middleware r) as [|l ls] eqn:Hm; [done|].
    destruct Hr as [_ Hr]. unfold keeps_metadata in Hr. rewrite Hm in Hr.
    by destruct (Hr eq_refl).
  - exists b', parsed. split; [done|]. destruct (pr_deadline parsed); [|done].
    simpl in Ed. by rewrite orb_true_r in Ed.
Qed.

(** Telemetry sees every observed request exactly once: an observation that
    was started for an answered request gets exactly one terminal outcome,
    finished now or kept for the writer, and it is the outcome of the frame
    that answers the request. *)
Theorem dispatch_observed_telemetry spurious r frame max_response max_metadata c peer now late
    budget f :
  let d := dispatch_observed spurious r frame max_response max_metadata c peer now late budget in
  d_end d = Responded f →
  d_observed d = [] ∨
  ∃ info o, outcome_matches frame f o ∧ ri_method_id info = method_id frame ∧
    ri_request_id info = request_id frame ∧
    (d_observed d = [Started info; Finished o] ∨ d_observed d = [Started info; Kept o]).
Proof.
  cbv zeta. unfold dispatch_observed, dispatch_parsed, answer_frame.
  destruct (request_payload _ _ _ _ _ _) as [b' [parsed|[ec em]]]; [|by left].
  match goal with |- context [t ← telemetry r; t ?i] => set (info := i) end.
  destruct (t ← telemetry r; t info) as [detailed|] eqn:Et.
  2: { destruct (handlers r !! method_id frame); [|by left].
       destruct (invoke _ _ _ _ _ _) as [ev o]. unfold defer_or_finish.
       repeat case_match; simplify_eq; try done; by left. }
  intros Hend. right. exists info. revert Hend.
  destruct (handlers r !! method_id frame) as [h|]; simpl.
  2: { intros [= <-]. eexists (Failure _). split_and!; try done; [by eexists|by left]. }
  destruct (invoke _ _ _ _ _ _) as [ev o]. unfold defer_or_finish. simpl.
  destruct (_ && _); simpl.
  { intros [= <-]. eexists (Failure _). split_and!; try done; [by eexists|by left]. }
  destruct o as [[response|e]| |]; simpl; try done.
  - destruct (_ >? _); simpl; intros [= <-].
    + eexists (Failure _). split_and!; try done; [by eexists|by left].
    + exists (Success (zlen response)). split_and!; try done. destruct detailed; auto.
  - intros [= <-]. exists (Failure (code e)). split_and!; try done; [by eexists|].
    destruct detailed; auto.
Qed.

(** C37 Behind at least one layer a request whose code does not hang is always
    answered, whatever panics.  Past its deadline the answer is the deadline
    error.  Otherwise it is given by how the outermost layer's invocation ends,
    whether or not it used its continuation before: a panic becomes an internal
    error, an error is passed on, and a response is sent when it fits the
    negotiated limit.  A panic of the handler behind layers that let the request
    and its answer through becomes an internal error, too. *)
Theorem middleware_contains_panics spurious r layer rest (handler : handler_fn) frame max_response
    max_metadata c
    peer now late budget b' parsed :
  middleware r = layer :: rest →
  handlers r !! method_id frame = Some handler →
  request_payload spurious frame max_metadata c (keeps_metadata r) budget = (b', Ok parsed) →
  Forall (λ l, ∀ context b, hangs_never (l context b)) (middleware r) →
  (∀ b, handler b ≠ Hung) →
  let d := dispatch_observed spurious r frame max_response max_metadata c peer now late budget in
  ∃ f, d_end d = Responded f ∧
    if bool_decide (is_Some (pr_deadline parsed)) && late
    then f = error_frame frame ErrorCode.DeadlineExceeded (as_bytes "request deadline exceeded")
    else
      (∃ context o,
         rc_method_id context = method_id frame ∧ rc_request_id context = request_id frame ∧
         layer_ends (λ c b, (Next_run 1 rest handler c b).2) false
           (layer context (pr_payload parsed)) o ∧
         match o with
         | Panicked => f = error_frame frame ErrorCode.Internal (as_bytes "middleware panicked")
         | Returned (Err e) => f = error_frame frame (code e) (message e)
         | Returned (Ok response) =>
             if bool_decide (zlen response ≤ max_response)
             then f = Frame_new FrameKind.Response (method_id frame) (request_id frame) response
             else f = error_frame frame ErrorCode.ResourceExhausted
                        (as_bytes "response exceeds negotiated body limit")
         | Hung => False
         end) ∧
      (Forall forwards (middleware r) → handler (pr_payload parsed) = Panicked →
       f = error_frame frame ErrorCode.Internal (as_bytes "handler panicked")).
Proof.
  intros Hm Hh Hp Hl Hn. cbv zeta. unfold dispatch_observed. rewrite Hp.
  destruct (request_payload_retain _ _ _ _ _ _ _ _ Hp) as [_ Hr].
  destruct Hr as [metadata Hmeta]; [unfold keeps_metadata; by rewrite Hm|].
  unfold dispatch_parsed, invoke. rewrite Hh, Hmeta.
  match goal with |- context [Next_root_run _ _ ?x _] => set (context := x) end.
  unfold Next_root_run.
  destruct (chain_ready (middleware r) handler Hl Hn 0 context (pr_payload parsed)) as [a Ha].
  pose proof (forwarded_answer (middleware r) handler) as Hfwd.
  assert (∃ o, layer_ends (λ c b, (Next_run 1 rest handler c b).2) false
            (layer context (pr_payload parsed)) o ∧ contain o "middleware panicked" = Ready a) as Ho.
  { apply run_layer_ends. rewrite Hm in Ha. simpl in Ha. by destruct (run_layer _ _ _). }
  destruct (Next_run 0 _ _ context _) as [ev ans] eqn:Hrun. simpl in Ha. subst ans.
  rewrite orb_false_r. destruct (_ && late); [by eexists|].
  destruct (answer_frame _ _ _ _ a) as [f obs] eqn:Hf.
  exists f. split; [done|]. split.
  - destruct Ho as (o & He & Hc). exists context, o. split_and!; [done..|].
    revert Hf. unfold answer_frame. destruct o as [[response|e]| |]; simpl in Hc; simplify_eq;
      [|by intros [= <- _]..].
    rewrite Z.gtb_ltb. destruct (Z.ltb_spec max_response (zlen response)); intros [= <- _].
    + by rewrite bool_decide_false by lia.
    + by rewrite bool_decide_true by lia.
  - intros Hforw Hpan. specialize (Hfwd Hforw 0%nat context (pr_payload parsed)).
    rewrite Hrun, Hpan in Hfwd. simpl in Hfwd. injection Hfwd as ->.
    unfold answer_frame in Hf. by injection Hf as <- _.
Qed.
End properties.

(** ** Streams *)

(** [items] were delivered in order from [source], and all of them on success. *)
Definition delivered_from (e : delivery_end) (items : list bytes)
    (source : list (result HandlerError bytes)) : Prop :=
  map Ok items `prefix_of` source ∧
  (∀ n, e = Delivered (Success n) → map Ok items = source).

(** The frames that items became in the response queue, each with the room that
    it found. *)
Definition item_frames (frame : Frame) (sent : list (bool * bytes)) : list Frame :=
  sent ≫= λ x, queue_form x.1 (stream_item frame x.2).

(** The frame that ends a delivery of [n] bytes; it is missing only when the
    writer is [gone]. *)
Definition terminal_frames (frame : Frame) (gone : Prop) (n : Z) (e : delivery_end)
    (last : list Frame) : Prop :=
  match e with
  | Delivered (Success m) => m = n ∧ (last = [stream_end frame] ∨ last = [] ∧ gone)
  | Delivered (Failure c) => (∃ m, last = [error_frame frame c m]) ∨ last = [] ∧ gone
  | Deserted => last = [] ∧ gone
  | DeliveryUnwound | Waiting => last = []
  end.

Definition writer_gone (turns : list turn_env) : Prop := Exists (λ t, tn_queue t = None) turns.

(** What is known of the frames and the end of a delivery that has [n] bytes
    sent and [credits] credits left when it takes its [turns]. *)
Definition run_ok (frame : Frame) (max : Z) (turns : list turn_env) (gone : Prop) (credits n : Z)
    (items : list (result HandlerError bytes)) (out : list Frame * delivery_end) : Prop :=
  ∃ sent last,
    out.1 = item_frames frame sent ++ last ∧
    zlen sent ≤ credits + zsum tn_credits turns ∧
    Forall (λ x, zlen x.2 ≤ max) sent ∧
    map (Some ∘ fst) sent `sublist_of` map tn_queue turns ∧
    delivered_from out.2 (map snd sent) items ∧
    terminal_frames frame gone (n + zsum zlen (map snd sent)) out.2 last.

(** A delivery that sends no more items. *)
Lemma run_ok_last frame max turns gone credits n items e last :
  0 ≤ credits → Forall (λ t, 0 ≤ tn_credits t) turns →
  (∀ m, e = Delivered (Success m) → items = []) → terminal_frames frame gone n e last →
  run_ok frame max turns gone credits n items (last, e).
Proof.
  intros Hc Ht He Hl. exists [], last. simpl. split; [done|].
  assert (0 ≤ zsum tn_credits turns) by (apply zsum_nonneg; by apply Forall_forall).
  split; [rewrite zlen_nil; lia|]. split; [done|]. split; [apply sublist_nil_l|]. split.
  - split; [apply prefix_nil|]. intros m Hm. by rewrite (He m Hm).
  - by rewrite Z.add_0_r.
Qed.

(** A turn that waits leaves the later ones to go on. *)
Lemma run_ok_wait frame max env turns gone gone' credits n items out :
  (gone → gone') → run_ok frame max turns gone (credits + tn_credits env) n items out →
  run_ok frame max (env :: turns) gone' credits n items out.
Proof.
  intros Hg (sent & last & Hf & Hl & Hs & Hq & Hd & Ht). exists sent, last. simpl.
  split; [done|]. split; [lia|]. split; [done|]. split; [by apply sublist_cons|].
  split; [done|]. revert Ht. unfold terminal_frames. destruct out as [fs [[]| | |]]; simpl; tauto.
Qed.

Lemma run_ok_item frame max env turns gone gone' credits n item items room frames e :
  (gone → gone') → tn_queue env = Some room → zlen item ≤ max →
  run_ok frame max turns gone (credits + tn_credits env - 1) (n + zlen item) items (frames, e) →
  run_ok frame max (env :: turns) gone' credits n (Ok item :: items)
    (queue_form room (stream_item frame item) ++ frames, e).
Proof.
  intros Hg Hq Hi (sent & last & Hf & Hl & Hs & Hsub & [Hp Hall] & Ht). simpl in *. subst frames.
  exists ((room, item) :: sent), last. simpl. rewrite zlen_cons, app_assoc, Hq.
  split; [done|]. split; [lia|]. split; [by constructor|]. split; [by constructor|]. split.
  - split; [by apply prefix_cons|]. intros m Hm. simpl. f_equal. eauto.
  - rewrite Z.add_assoc. revert Ht. unfold terminal_frames. destruct e as [[]| | |]; simpl; tauto.
Qed.

(** A terminal frame, if the queue takes it. *)
Lemma stream_turn_terminal frame max late credits d f o queue gone :
  stream_turn frame max late credits d = TurnEnd f o → (queue = None → gone) →
  (∀ m, o = Success m → dv_items d = []) ∧
  terminal_frames frame gone (dv_bytes d) (Delivered o) (default [] (queue_takes queue f)).
Proof.
  intros Ht Hg. unfold queue_takes. destruct queue as [room|]; simpl.
  - revert Ht. unfold stream_turn. repeat case_match; intros [= <- <-]; (split; [by try done|]); simpl;
      unfold queue_form; cbn; destruct room; eauto.
  - split; [revert Ht; unfold stream_turn; repeat case_match; intros [= <- <-]; done|].
    assert (∀ m, o = Success m → m = dv_bytes d) as Ho
      by (revert Ht; unfold stream_turn; repeat case_match; intros [= <- <-] m; congruence).
    destruct o; simpl; [split; [by apply Ho|]|]; right; auto.
Qed.

Lemma stream_run_spec frame max turns : ∀ credits d,
  0 ≤ credits → Forall (λ t, 0 ≤ tn_credits t) turns →
  run_ok frame max turns (writer_gone turns) credits (dv_bytes d) (dv_items d)
    (stream_run frame max turns credits d).
Proof.
  induction turns as [|env turns IH]; intros credits d Hc Ht; [by apply run_ok_last|].
  cbn [stream_run]. pose proof Ht as [Henv Hts]%Forall_cons. simpl in Henv.
  destruct (stream_turn _ _ _ _ _) as [f d'|f o| |] eqn:Hturn.
  - apply stream_turn_item in Hturn as (Hpos & item & -> & Hlen & Hitems & Hbytes).
    unfold queue_takes. destruct (tn_queue env) as [room|] eqn:Hq; simpl.
    + destruct (stream_run _ _ _ _ _) as [frames e] eqn:Hrun. rewrite Hitems.
      eapply run_ok_item; [by apply Exists_cons_tl|done|done|]. rewrite <- Hrun, <- Hbytes.
      apply IH; [lia|done].
    + apply run_ok_last; try done. split; [done|]. by apply Exists_cons_hd.
  - destruct (stream_turn_terminal _ _ _ _ _ _ _ (tn_queue env) (writer_gone (env :: turns)) Hturn)
      as [Hs Hl]; [intros Hq; by apply Exists_cons_hd|].
    apply run_ok_last; try done. intros m [= ->]. by apply (Hs m).
  - by apply run_ok_last.
  - eapply run_ok_wait; [by apply Exists_cons_tl|]. apply IH; [lia|done].
Qed.

(** ** The end of a delivery is reached *)

Definition item_fits (max : Z) (item : result HandlerError bytes) : Prop :=
  match item with Ok b => zlen b ≤ max | Err _ => False end.

(** While the writer runs and a credit comes with every turn, a turn for each
    item and one more bring a stream that ends to its end, which is its own
    unless an item is an error or too large or the deadline passes. *)
Lemma stream_run_ends frame max turns : ∀ credits d,
  0 ≤ credits → Forall (λ t, 1 ≤ tn_credits t ∧ is_Some (tn_queue t)) turns →
  dv_tail d = TailEnds → (length (dv_items d) < length turns)%nat →
  ∃ o, (stream_run frame max turns credits d).2 = Delivered o ∧
    (Forall (λ t, tn_late t = false) turns → Forall (item_fits max) (dv_items d) →
     ∃ n, o = Success n).
Proof.
  induction turns as [|env turns IH]; intros credits d Hc Ht Htail Hlen; [simpl in Hlen; lia|].
  cbn [stream_run]. apply Forall_cons in Ht as [[Hcr [room Hq]] Ht].
  destruct (stream_turn _ _ _ _ _) as [f d'|f o| |] eqn:Hturn.
  - pose proof (stream_turn_item _ _ _ _ _ _ _ Hturn) as (_ & item & _ & _ & Hitems & _).
    rewrite Hq. simpl. destruct (IH (credits + tn_credits env - 1) d') as (o & Ho & Hs); [lia|done| |
      rewrite Hitems in Hlen; simpl in Hlen; lia|].
    + revert Hturn. unfold stream_turn. repeat case_match; try done. by intros [= _ <-].
    + destruct (stream_run _ _ _ _ _). exists o. split; [done|]. rewrite Hitems.
      intros [_ Hl]%Forall_cons [_ Hf]%Forall_cons. by apply Hs.
  - exists o. split; [done|]. intros [Hl _]%Forall_cons Hf. revert Hturn. unfold stream_turn.
    rewrite Hl, andb_false_r, Htail. destruct (dv_items d) as [|[item|e] items].
    + intros [= _ <-]. by eexists.
    + apply Forall_cons in Hf as [Hi _]. rewrite (proj2 (Z.leb_le _ _) Hi). by case_match.
    + by apply Forall_cons in Hf as [[] _].
  - revert Hturn. unfold stream_turn. rewrite Htail. by repeat case_match.
  - revert Hturn. unfold stream_turn. rewrite Htail, (proj2 (Z.ltb_lt _ _)) by lia.
    by repeat case_match.
Qed.

(** A delivery whose deadline passes is over. *)
Lemma stream_run_expires frame max turns : ∀ credits d,
  dv_deadline d = true → Exists (λ t, tn_late t = true) turns →
  (stream_run frame max turns credits d).2 ≠ Waiting.
Proof.
  induction turns as [|env turns IH]; intros credits d Hd Hl; [by inversion Hl|].
  cbn [stream_run].
  destruct (stream_turn _ _ _ _ _) as [f d'|f o| |] eqn:Hturn; [|done..|].
  - destruct (queue_takes _ _); [|done]. specialize (IH (credits + tn_credits env - 1) d').
    destruct (stream_run _ _ _ _ _). apply IH.
    + revert Hturn. unfold stream_turn. repeat case_match; try done. by intros [= _ <-].
    + apply Exists_cons in Hl as [Hl|Hl]; [|done]. revert Hturn. unfold stream_turn.
      by rewrite Hd, Hl.
  - apply IH; [done|]. apply Exists_cons in Hl as [Hl|Hl]; [|done]. revert Hturn.
    unfold stream_turn. by rewrite Hd, Hl.
Qed.

(** ** Openings *)

Definition opened_items (o : stream_outcome) : list (result HandlerError bytes) :=
  match o with Opened s => stream_items s | _ => [] end.

Definition opening_items (o : opening) : list (result HandlerError bytes) :=
  match o with OpenDelivers s => stream_items s | _ => [] end.

(** A refusal is one error frame of the request. *)
Lemma open_stream_refusal r frame peer now late parsed f ec :
  (open_stream r frame peer now late parsed).2 = OpenRefused f ec →
  ∃ m, f = error_frame frame ec m.
Proof.
  unfold open_stream, opening_of.
  destruct (stream_handlers r !! method_id frame); [|intros [= <- <-]; by eexists].
  destruct (match pr_metadata parsed with Some _ => _ | None => _ end) as [chain before]. simpl.
  repeat case_match; intros [= <- <-]; by eexists.
Qed.

(** A stream that is delivered is the one that the handler opened. *)
Lemma open_stream_delivers r frame peer now late parsed s :
  (open_stream r frame peer now late parsed).2 = OpenDelivers s →
  ∃ h payload, stream_handlers r !! method_id frame = Some h ∧ h payload = Opened s.
Proof.
  unfold open_stream, opening_of. destruct (stream_handlers r !! method_id frame) as [h|]; [|done].
  destruct (match pr_metadata parsed with Some _ => _ | None => _ end) as [chain before]. simpl.
  repeat case_match; try done. intros [= ->]. eauto.
Qed.

Lemma deliver_spec r frame max peer now late parsed writer turns :
  Forall (λ t, 0 ≤ tn_credits t) turns →
  let o := (open_stream r frame peer now late parsed).2 in
  run_ok frame max turns (writer = false ∨ writer_gone turns) 0 0 (opening_items o)
    (deliver frame max parsed o writer turns).
Proof.
  intros Ht o. destruct o as [f c|s| |] eqn:Ho; simpl.
  - apply open_stream_refusal in Ho as [m ->]. apply run_ok_last; [done..|].
    destruct writer; simpl; eauto.
  - destruct (stream_run_spec frame max turns 0 (delivery_of parsed s)) as (sent & last & H);
      [done|done|]. exists sent, last. destruct H as (Hf & Hl & Hs & Hq & Hd & Hlast).
    split_and!; try done. revert Hlast. unfold terminal_frames.
    destruct (stream_run _ _ _ _ _) as [fs [[]| | |]]; simpl; tauto.
  - by apply run_ok_last.
  - by apply run_ok_last.
Qed.

Section stream_properties.
Context `{Z0 : ZstdOps}.
Context (spurious : list bool) (r : Router) (frame : Frame) (max_response max_metadata : Z).
Context (c : RequestCompression) (budget : BudgetInner).

(** C11 A stream is delivered in order and under its credits.  Let the delivery
    take any turns, with credits, a deadline, a response queue and a writer that
    do what they like.  What reaches the response queue is a prefix of the items
    that the handler produced, in order, at most as many as the credits granted
    and each within the negotiated limit, where an item that finds no room in
    the byte budgets is replaced by an error; then at most one terminal frame:
    [StreamEnd] after all items, with their total size reported, or an error.
    All carry the request's identifiers.  The terminal frame of a delivery that
    ended is missing only when the writer is gone.  The observation of a stream
    that was started is finished with the outcome that was delivered, or
    dropped.  And the end is reached: while the writer runs and credits come, a
    stream that ends is delivered to its end, with success unless an item is an
    error or too large or the deadline passes, and a delivery whose deadline
    passes is over. *)
Theorem dispatch_stream_delivers peer now late writer turns :
  Forall (λ t, 0 ≤ tn_credits t) turns →
  let s := dispatch_stream spurious r frame max_response max_metadata c peer now late writer turns
             budget in
  (∃ sent last,
     s_frames s = item_frames frame sent ++ last ∧
     zlen sent ≤ zsum tn_credits turns ∧ Forall (λ x, zlen x.2 ≤ max_response) sent ∧
     map (Some ∘ fst) sent `sublist_of` map tn_queue turns ∧
     terminal_frames frame (writer = false ∨ writer_gone turns) (zsum zlen (map snd sent))
       (s_end s) last ∧
     (sent = [] ∧ (∀ n, s_end s ≠ Delivered (Success n)) ∨
      ∃ h payload, stream_handlers r !! method_id frame = Some h ∧
        delivered_from (s_end s) (map snd sent) (opened_items (h payload)))) ∧
  (s_observed s = [] ∨ ∃ info, s_observed s = Started info :: delivery_observed (s_end s)) ∧
  ∀ b' parsed stream,
    request_payload spurious frame max_metadata c (keeps_metadata r) budget = (b', Ok parsed) →
    (open_stream r frame peer now late parsed).2 = OpenDelivers stream →
    (stream_last stream = TailEnds → (length (stream_items stream) < length turns)%nat →
     Forall (λ t, 1 ≤ tn_credits t ∧ is_Some (tn_queue t)) turns →
     ∃ o, s_end s = Delivered o ∧
       (Forall (λ t, tn_late t = false) turns →
        Forall (item_fits max_response) (stream_items stream) → ∃ n, o = Success n)) ∧
    (is_Some (pr_deadline parsed) → Exists (λ t, tn_late t = true) turns → s_end s ≠ Waiting).
Proof.
  intros Ht. cbv zeta. unfold dispatch_stream.
  destruct (request_payload _ _ _ _ _ _) as [b' [parsed|[ec em]]].
  2: { split; [|split; [by left|done]]. exists [], (if writer then [error_frame frame ec (as_bytes em)] else []).
       assert (0 ≤ zsum tn_credits turns) by (apply zsum_nonneg; by apply Forall_forall).
       simpl. split; [done|]. split; [rewrite zlen_nil; lia|]. split; [done|].
       split; [apply sublist_nil_l|]. split; [destruct writer; eauto|by left]. }
  pose proof (deliver_spec r frame max_response peer now late parsed writer turns Ht) as Hd.
  pose proof (open_stream_delivers r frame peer now late parsed) as Hopen.
  destruct (open_stream r frame peer now late parsed) as [chain o] eqn:Eo. cbn [snd] in *.
  destruct (deliver _ _ _ _ _ _) as [frames e] eqn:Ed.
  destruct Hd as (sent & last & Hf & Hl & Hs & Hq & Hfrom & Hlast). cbn [fst snd s_frames s_end s_observed] in *.
  split; [|split; [by case_match; eauto|]].
  - exists sent, last. split_and!; try done. destruct o as [f fc|s| |].
    2: { right. destruct (Hopen s eq_refl) as (h & payload & Hh & Hp). exists h, payload.
         by rewrite Hp. }
    all: left; destruct Hfrom as [Hp _]; split;
      [by destruct sent; [|apply prefix_nil_inv in Hp]|]; intros n ->; by injection Ed.
  - intros b1 parsed1 stream [= <- <-] Hst. rewrite Eo in Hst. simpl in Hst. subst o. simpl in Ed. split.
    + intros Htail Hlen Hall.
      destruct (stream_run_ends frame max_response turns 0 (delivery_of parsed stream))
        as (o & Ho & Hsucc); [done..|]. rewrite Ed in Ho. simpl in Ho. eauto.
    + intros Hdl Hlate. rewrite <- (f_equal snd Ed : _ = e). apply stream_run_expires; [|done].
      simpl. by apply bool_decide_eq_true.
Qed.
End stream_properties.

(** ** Compressed payloads come back *)

Section roundtrip.
Context `{Z0 : ZstdOps}.

(** The metadata of a compressed payload of [n] bytes. *)
Definition compression_block (n : Z) : Metadata :=
  {| entries := [(Reserved ReservedMetadataKey.CompressionCodec, [x01]);
                 (Reserved ReservedMetadataKey.OriginalLength, be_bytes 4 n)] |}.

Lemma announce_compression_zstd cp :
  cp_codec cp = CompressionCodec.Zstd →
  announce_compression Metadata_new cp = Ok (compression_block (cp_original_len cp)).
Proof. intros Hc. unfold announce_compression. by rewrite Hc. Qed.

Lemma zlen_compression_block n : zlen (enc_entries (entries (compression_block n))) = 19.
Proof.
  unfold compression_block. cbn [entries].
  rewrite !enc_entries_cons, !zlen_app, !zlen_enc_entry. cbn [fst snd].
  by rewrite zlen_be_bytes.
Qed.

Lemma compression_block_ok n max :
  19 ≤ max ≤ u32_max →
  Metadata_wf (compression_block n) ∧ within_limits (metadata_limits max) (compression_block n).
Proof.
  intros Hm. split; [split; repeat constructor|]. split; [|split].
  - rewrite zlen_compression_block. done.
  - vm_compute. split; discriminate.
  - repeat constructor; cbn [snd max_value_bytes metadata_limits MetadataLimits_default];
      rewrite ?zlen_be_bytes; vm_compute; discriminate.
Qed.

Lemma request_metadata_block f n max payload :
  0 ≤ n ≤ u32_max → 19 ≤ max ≤ u32_max → flags f = 1 →
  body f = (encode_prefix (compression_block n) []).1 ++ payload →
  request_metadata f max false
  = Ok (None, None, Some (CompressionCodec.Zstd, n), None, zlen (body f) - zlen payload).
Proof.
  intros Hn Hm Hf Hb. destruct (compression_block_ok n max Hm) as [Hwf Hl].
  destruct (encoded_block_valid _ _ payload Hwf Hl) as (Hv & es & Hs & Hval & Hst).
  rewrite encode_prefix_wf in Hb
    by (done || rewrite zlen_compression_block; vm_compute; discriminate).
  cbn [fst app] in Hb. rewrite <- app_assoc in Hb.
  unfold request_metadata. rewrite Hf. cbn [Z.land negb Z.eqb FLAG_HAS_METADATA].
  rewrite <- Hb in Hv. rewrite Hv. cbn [map_err]. rewrite ok_bind.
  assert (reserved_entries (enc_entries (entries (compression_block n))) =
    [(ReservedMetadataKey.CompressionCodec, [x01]);
     (ReservedMetadataKey.OriginalLength, be_bytes 4 n)]) as ->.
  { unfold reserved_entries.
    erewrite reserved_entries_loop_spec; [|exact Hs|exact Hval|by apply scan_fuel].
    by rewrite Hst. }
  cbn [foldl collect_reserved deadline_value trace_value codec_value original_value no_values
       parse_deadline parse_trace parse_compression].
  rewrite !ok_bind. unfold u32_of. rewrite length_be_bytes, bool_decide_true by done.
  rewrite be_val_small by (unfold u32_max in *; lia). done.
Qed.

(** A frame that compression leaves as a payload frame. *)
Lemma compress_outbound_cases f codecs policy max :
  flags f = 0 → compressible (kind f) = true → Z.land codecs COMPRESSION_CODEC_ZSTD ≠ 0 →
  19 ≤ max ≤ u32_max →
  let f' := compress_outbound_frame f codecs policy max in
  kind f' = kind f →
  ∃ cp, CompressionPolicy_encode policy (body f) CompressionCodec.Zstd = Ok cp ∧
    (cp_codec cp = CompressionCodec.None ∧ flags f' = 0 ∧ body f' = cp_bytes cp ∨
     cp_codec cp = CompressionCodec.Zstd ∧ flags f' = 1 ∧
     body f' = (encode_prefix (compression_block (cp_original_len cp)) []).1 ++ cp_bytes cp).
Proof.
  intros Hf Hk Hc Hm. cbv zeta. unfold compress_outbound_frame.
  apply Z.eqb_neq in Hc. rewrite Hc, Hk. cbn [negb orb]. unfold outbound_metadata. rewrite Hf.
  change (negb (Z.land 0 FLAG_HAS_METADATA =? 0)) with false. cbn iota beta zeta.
  change (Z.to_nat 0) with 0%nat. rewrite drop_0.
  destruct (CompressionPolicy_encode policy (body f) CompressionCodec.Zstd) as [cp|] eqn:Ee.
  2: { simpl. intros Hk'. by rewrite <- Hk' in Hk. }
  intros Hkind. exists cp. split; [done|]. revert Hkind. destruct (cp_codec cp) eqn:Ec.
  - unfold announce_compression. rewrite Ec, bool_decide_false by done. simpl. left. done.
  - rewrite announce_compression_zstd by done.
    change (Metadata_is_empty (compression_block _)) with false. right.
    destruct (compression_block_ok (cp_original_len cp) max Hm) as [Hwf Hl].
    rewrite encode_prefix_wf
      by (done || rewrite zlen_compression_block; vm_compute; discriminate).
    cbn [app fst is_err is_ok negb orb].
    unfold saturating_sub. rewrite zlen_app, zlen_be_bytes, zlen_compression_block.
    rewrite Z.gtb_ltb, (proj2 (Z.ltb_ge _ _)) by (simpl; lia). done.
Qed.

(** A payload that the server compresses for the wire is a payload its own
    request parser accepts and restores: with the same policy and limits, and
    room in the decoded-byte budget, parsing the outgoing frame returns the
    original bytes, and releasing the reservation restores the budget. *)
Theorem outbound_request_roundtrip (L : ZstdLaws Z0) spurious f codecs policy max budget :
  flags f = 0 → compressible (kind f) = true → Z.land codecs COMPRESSION_CODEC_ZSTD ≠ 0 →
  19 ≤ max ≤ u32_max → budget_wf budget →
  zlen (body f) ≤ bi_capacity budget - bi_used budget →
  kind (compress_outbound_frame f codecs policy max) = kind f →
  ∃ budget' permit,
    request_payload spurious (compress_outbound_frame f codecs policy max) max
      {| rc_codecs := codecs; rc_policy := policy |} false budget
    = (budget', Ok {| pr_deadline := None; pr_trace_context := None; pr_metadata := None;
                      pr_payload := body f; pr_decoded_permit := permit |}) ∧
    release_permit permit budget' = budget.
Proof.
  intros Hf Hk Hc Hm Hwf Hroom Hkind.
  set (f' := compress_outbound_frame f codecs policy max) in *.
  pose proof (request_payload_budget spurious f' max
    {| rc_codecs := codecs; rc_policy := policy |} false budget Hwf) as Hrel.
  destruct (compress_outbound_cases f codecs policy max Hf Hk Hc Hm Hkind)
    as (cp & He & [(Hcc & Hfl & Hb)|(Hcc & Hfl & Hb)]); fold f' in Hfl, Hb.
  - pose proof (encode_inv _ _ _ _ He) as (_ & _ & _ & _ & [[_ Hbytes]|(_ & Hz & _)]); [|congruence].
    rewrite Hbytes in Hb. revert Hrel. unfold request_payload, request_metadata. rewrite Hfl.
    change (negb (Z.land 0 FLAG_HAS_METADATA =? 0)) with false. cbn iota beta zeta.
    change (Z.to_nat 0) with 0%nat. rewrite drop_0, Hb.
    intros Hrel. by exists budget, None.
  - pose proof (encode_inv _ _ _ _ He) as (_ & Hlen & Hu & _).
    pose proof (zlen_nonneg (body f)) as Hnn.
    pose proof (request_metadata_block f' (cp_original_len cp) max (cp_bytes cp)
      ltac:(lia) Hm Hfl Hb) as Hmeta.
    revert Hrel. unfold request_payload. rewrite Hmeta. cbn [rc_codecs rc_policy].
    apply Z.eqb_neq in Hc. rewrite Hc, bool_decide_true by done. cbn [negb orb].
    replace (drop (Z.to_nat (zlen (body f') - zlen (cp_bytes cp))) (body f')) with (cp_bytes cp).
    2: { rewrite Hb, zlen_app.
         replace (Z.to_nat _) with (length (encode_prefix (compression_block (cp_original_len cp)) []).1)
           by (unfold zlen; lia).
         by rewrite drop_app_length. }
    rewrite <- Hcc. rewrite (decode_with_reservation_encoded _ _ (body f) CompressionCodec.Zstd cp);
      [|done|done|intros _; lia].
    intros Hrel. eexists _, _. split; [reflexivity|]. exact Hrel.
Qed.
End roundtrip.

(** ** Requests that end without an answer *)

(** Without middleware nothing contains a panic: a request whose handler
    panics ends with its task unwinding, no frame is sent for it, and its
    observation is dropped, while the same handler behind any single
    pass-through layer is answered with an internal error. *)
Theorem unprotected_panic_unanswered `{Z0 : ZstdOps} frame max_response max_metadata c peer now
    budget :
  flags frame = 0 →
  let panics : handler_fn := λ _, Panicked in
  let bare := {| handlers := {[method_id frame := panics]}; stream_handlers := ∅;
                 method_names := ∅; required_scopes := ∅; middleware := []; telemetry := None |} in
  let layered := {| handlers := {[method_id frame := panics]}; stream_handlers := ∅;
                    method_names := ∅; required_scopes := ∅;
                    middleware := [λ ctx b, RunNext ctx b (λ r, Finish (Returned r))];
                    telemetry := None |} in
  d_end (dispatch_observed [] bare frame max_response max_metadata c peer now false budget)
    = Unwound ∧
  d_end (dispatch_observed [] layered frame max_response max_metadata c peer now false budget)
    = Responded (error_frame frame ErrorCode.Internal (as_bytes "handler panicked")).
Proof.
  intros Hf. cbv zeta. unfold dispatch_observed, dispatch_parsed, answer_frame, keeps_metadata, request_payload, request_metadata.
  rewrite Hf. cbn [middleware length handlers method_names telemetry].
  change (negb (Z.land 0 FLAG_HAS_METADATA =? 0)) with false.
  rewrite bool_decide_true, bool_decide_false by done. cbn iota beta zeta.
  cbn [pr_metadata pr_payload pr_deadline pr_decoded_permit].
  rewrite lookup_singleton_eq. split; reflexivity.
Qed.

(** ** Witnesses *)

Definition wire_compression : RequestCompression :=
  {| rc_codecs := 3; rc_policy := witness_policy |}.
Definition sample_request : Frame := Frame_new FrameKind.Request 5 9 [x2a].
Definition echo_router : Router :=
  {| handlers := {[5 := λ b, Returned (Ok b)]};
     stream_handlers := {[6 := λ b, Opened (MkServerStream [Ok b; Ok [x01]; Ok b] TailEnds)]};
     method_names := ∅; required_scopes := ∅; middleware := [];
     telemetry := Some (λ _, Some true) |}.

Lemma dispatch_observed_answers_witness :
  ∃ f, d_end (dispatch_observed [] echo_router sample_request 16 64 wire_compression None 0 false
                witness_budget) = Responded f ∧ method_id f = 5 ∧ request_id f = 9.
Proof.
  pose proof (dispatch_observed_answers [] echo_router sample_request 16 64 wire_compression
    None 0 false witness_budget ltac:(vm_compute; repeat split; discriminate)) as H.
  cbv zeta in H.
  eexists. split; [vm_compute; reflexivity|].
  assert (d_end (dispatch_observed [] echo_router sample_request 16 64 wire_compression None 0
    false witness_budget) = Responded (Frame_new FrameKind.Response 5 9 [x2a])) as He
    by (vm_compute; reflexivity).
  rewrite He in H. destruct H as (Hm & Hr & _). split; [exact Hm|exact Hr].
Defined.

Lemma dispatch_observed_telemetry_witness :
  ∃ info o, d_observed (dispatch_observed [] echo_router sample_request 16 64 wire_compression
                          None 0 false witness_budget) = [Started info; Kept o] ∧
            outcome_matches sample_request (Frame_new FrameKind.Response 5 9 [x2a]) o.
Proof.
  destruct (dispatch_observed_telemetry [] echo_router sample_request 16 64 wire_compression
    None 0 false witness_budget (Frame_new FrameKind.Response 5 9 [x2a]))
    as [H|(info & o & Hm & _ & _ & [H|H])].
  - vm_compute. reflexivity.
  - vm_compute in H. discriminate H.
  - vm_compute in H. discriminate H.
  - exists info, o. split; [exact H|exact Hm].
Defined.

(** The outermost layer panics after its continuation has answered. *)
Definition late_panic : middleware_fn := λ context b, RunNext context b (λ _, Finish Panicked).
Definition panicking_router : Router :=
  {| handlers := {[5 := λ b, Returned (Ok b)]}; stream_handlers := ∅; method_names := ∅;
     required_scopes := ∅; middleware := [late_panic];
     telemetry := None |}.

Lemma middleware_contains_panics_witness :
  d_end (dispatch_observed [] panicking_router sample_request 16 64 wire_compression None 0 false
           witness_budget)
  = Responded (error_frame sample_request ErrorCode.Internal (as_bytes "middleware panicked")).
Proof.
  edestruct (middleware_contains_panics [] panicking_router late_panic [] (λ b, Returned (Ok b))
    sample_request 16 64 wire_compression None 0 false witness_budget) as (f & Hf & Hcases).
  - reflexivity.
  - vm_compute. reflexivity.
  - vm_compute. reflexivity.
  - repeat constructor. intros context b r. done.
  - done.
  - rewrite Hf. f_equal. cbn in Hcases. destruct Hcases as [(context & o & _ & _ & He & Ho) _].
    inversion He as [|? ? ? ? ? _ He'| |]; subst. inversion He'; subst. exact Ho.
Defined.

Definition compressed_response : Frame := Frame_new FrameKind.Response 5 9 witness_payload.

Lemma outbound_request_roundtrip_witness :
  flags (compress_outbound_frame compressed_response 3 witness_policy 64) = 1 ∧
  ∃ budget' permit,
    request_payload [] (compress_outbound_frame compressed_response 3 witness_policy 64) 64
      {| rc_codecs := 3; rc_policy := witness_policy |} false witness_budget
    = (budget', Ok {| pr_deadline := None; pr_trace_context := None; pr_metadata := None;
                      pr_payload := witness_payload; pr_decoded_permit := permit |}) ∧
    release_permit permit budget' = witness_budget.
Proof.
  split; [vm_compute; reflexivity|].
  apply (outbound_request_roundtrip run_laws [] compressed_response 3 witness_policy 64
    witness_budget).
  - reflexivity.
  - reflexivity.
  - vm_compute. discriminate.
  - vm_compute. split; discriminate.
  - vm_compute. repeat split; discriminate.
  - vm_compute. discriminate.
  - vm_compute. reflexivity.
Defined.

Lemma unprotected_panic_unanswered_witness :
  d_end (dispatch_observed []
    {| handlers := {[method_id sample_request := λ _, Panicked]}; stream_handlers := ∅;
       method_names := ∅; required_scopes := ∅; middleware := []; telemetry := None |}
    sample_request 16 64 wire_compression None 0 false witness_budget) = Unwound.
Proof.
  exact (proj1 (unprotected_panic_unanswered sample_request 16 64 wire_compression None 0
    witness_budget eq_refl)).
Defined.

(** The deadline of a stream is not reported to the handler's cancellation
    signal, while that of a unary request is. *)
Example stream_deadline_not_cancelled :
  let hang := {| handlers := {[5 := λ _, Hung]};
                 stream_handlers := {[6 := λ _, OpenHung]};
                 method_names := ∅; required_scopes := ∅; middleware := [];
                 telemetry := None |} in
  let request id :=
    with_flags (Frame_new FrameKind.Request id 9
      (encode_prefix {| entries := [(Reserved ReservedMetadataKey.DeadlineMillis,
                                     be_bytes 4 5)] |} []).1) 1 in
  d_cancelled (dispatch_observed [] hang (request 5) 16 64 wire_compression None 0 false
                 witness_budget) = true ∧
  s_end (dispatch_stream [] hang (request 6) 16 64 wire_compression None 0 false true []
           witness_budget) = Delivered (Failure ErrorCode.DeadlineExceeded) ∧
  s_cancelled (dispatch_stream [] hang (request 6) 16 64 wire_compression None 0 false true []
                 witness_budget) = false.
Proof. repeat split; vm_compute; reflexivity. Qed.

(** Turns that each bring one credit, by what the queue does with a frame. *)
Definition paced (queues : list (option bool)) : list turn_env :=
  map (λ q, {| tn_credits := 1; tn_late := false; tn_queue := q |}) queues.

Definition echo_stream (turns : list turn_env) : stream_result :=
  dispatch_stream [] echo_router (Frame_new FrameKind.Request 6 9 [x2a]) 16 64 wire_compression
    None 0 false true turns witness_budget.

Definition all_taken : list turn_env := paced (replicate 4 (Some true)).

Lemma dispatch_stream_delivers_witness :
  ∃ sent last,
    s_frames (echo_stream all_taken) = item_frames (Frame_new FrameKind.Request 6 9 [x2a]) sent ++ last ∧
    zlen sent ≤ 4 ∧ s_end (echo_stream all_taken) = Delivered (Success 3).
Proof.
  destruct (dispatch_stream_delivers [] echo_router (Frame_new FrameKind.Request 6 9 [x2a]) 16 64
    wire_compression witness_budget None 0 false true all_taken) as ((sent & last & Hf & Hl & _) & _).
  - repeat constructor; vm_compute; discriminate.
  - exists sent, last. split; [exact Hf|]. split; [exact Hl|]. vm_compute. reflexivity.
Defined.

Example stream_delivery_example :
  s_frames (echo_stream all_taken)
  = [Frame_new FrameKind.StreamItem 6 9 [x2a]; Frame_new FrameKind.StreamItem 6 9 [x01];
     Frame_new FrameKind.StreamItem 6 9 [x2a]; Frame_new FrameKind.StreamEnd 6 9 []].
Proof. vm_compute. reflexivity. Qed.

(** A full byte budget puts an error between the items; a writer that is gone
    ends the stream without a terminal frame, and its observation is dropped. *)
Example stream_queue_example :
  kind <$> s_frames (echo_stream (paced [Some true; Some false; Some true; Some true]))
    = [FrameKind.StreamItem; FrameKind.Error; FrameKind.StreamItem; FrameKind.StreamEnd] ∧
  kind <$> s_frames (echo_stream (paced [Some true; None])) = [FrameKind.StreamItem] ∧
  s_end (echo_stream (paced [Some true; None])) = Deserted ∧
  ∃ info, s_observed (echo_stream (paced [Some true; None])) = [Started info; Dropped].
Proof. repeat split; [vm_compute; reflexivity..|]. eexists. vm_compute. reflexivity. Qed.
