(* ===== verification/Telemetry.v ===== *)
(** Request telemetry of [server/src/lib.rs]: the observation interface, the
    fan-out chain, the stages of a task, the deferred observation of the writer
    and the lock-free metrics.  An observation is a value with operations that
    return what they do to the outside as a list of effects; a clock reading is
    an argument.  Instants and durations are in nanoseconds. *)
From stdpp Require Import relations.
From S2P Require Import Prelude Protocol Router Dispatch.

(** * [RequestObservation] *)

(** The trait, with effects in [E].  [finish] consumes the observation, so its
    effects are those of the method and of the drop at its end. *)
Class RequestObservation (O E : Type) := {
  record_stage : Z → string → Z → O → O * list E;
  record_stage_at : Z → string → Z → Z → O → O * list E;
  wants_timing : O → bool;
  finish : Z → RequestOutcome → O → list E;
  drop_open : Z → O → list E;
}.

(** [Box<dyn RequestObservation>] *)
Record dyn_observation (E : Type) := Dyn {
  dyn_type : Type;
  dyn_impl : RequestObservation dyn_type E;
  dyn_self : dyn_type;
}.
Arguments Dyn {E}.
Arguments dyn_type {E}.
Arguments dyn_impl {E}.
Arguments dyn_self {E}.

Definition dyn_update {E} (d : dyn_observation E) (r : dyn_type d * list E)
    : dyn_observation E * list E :=
  (Dyn (dyn_type d) (dyn_impl d) r.1, r.2).

#[export] Instance dyn_RequestObservation {E} : RequestObservation (dyn_observation E) E := {|
  record_stage now name duration d :=
    dyn_update d (@record_stage _ _ (dyn_impl d) now name duration (dyn_self d));
  record_stage_at now name started duration d :=
    dyn_update d (@record_stage_at _ _ (dyn_impl d) now name started duration (dyn_self d));
  wants_timing d := @wants_timing _ _ (dyn_impl d) (dyn_self d);
  finish now outcome d := @finish _ _ (dyn_impl d) now outcome (dyn_self d);
  drop_open now d := @drop_open _ _ (dyn_impl d) now (dyn_self d);
|}.

(** [Telemetry::start_request]: the request with the instant its frame was read,
    and the clock. *)
Definition Telemetry (O E : Type) : Type := RequestInfo → Z → Z → list E * option O.

(** * [TelemetryChain] *)

Record ChainedObservation (E : Type) := Chained { chained : list (dyn_observation E) }.
Arguments Chained {E}.
Arguments chained {E}.

(** [for observation in &mut self.0 { .. }] *)
Definition each {E} (f : dyn_observation E → dyn_observation E * list E)
    (c : ChainedObservation E) : ChainedObservation E * list E :=
  let rs := map f (chained c) in (Chained rs.*1, mjoin rs.*2).

#[export] Instance ChainedObservation_impl {E} : RequestObservation (ChainedObservation E) E := {|
  record_stage now name duration := each (record_stage now name duration);
  record_stage_at now name started duration := each (record_stage_at now name started duration);
  wants_timing c := existsb wants_timing (chained c);
  finish now outcome c := chained c ≫= finish now outcome;
  drop_open now c := chained c ≫= drop_open now;
|}.

Definition TelemetryChain_start_request {E} (delegates : list (Telemetry (dyn_observation E) E))
    : Telemetry (ChainedObservation E) E :=
  λ info received now,
    let rs := map (λ telemetry, telemetry info received now) delegates in
    let observations := omap id rs.*2 in
    (mjoin rs.*1,
     if bool_decide (length observations = 0%nat) then None
     else Some (Chained observations)).

(** * Stages of a task *)

Abbreviation stage := (string * Z * Z)%type.
Definition MAX_RECORDED_STAGES : Z := 128.

(** [FUNCTION_STAGES], absent outside of its scope. *)
Definition task_stages : Type := option (list stage).

Definition push_stage (name : string) (started duration : Z) (s : task_stages) : task_stages :=
  stages ← s;
  Some (if zlen stages <? MAX_RECORDED_STAGES then stages ++ [(name, started, duration)]
        else stages).

(** [trace_function] and [trace_async_function]: [function] runs between the
    clock readings [started] and [ended], and may trace functions itself. *)
Definition trace_function {T} (name : string) (started ended : Z)
    (function : task_stages → T * task_stages) (s : task_stages) : T * task_stages :=
  match s with
  | None => function None
  | Some _ =>
      let '(output, s) := function s in
      (output, push_stage name started (Z.max 0 (ended - started)) s)
  end.

Section observation.
Context {O E : Type} `{!RequestObservation O E}.

(** The loop of [drain_stages]. *)
Fixpoint record_stages (now : Z) (stages : list stage) (o : O) : O * list E :=
  match stages with
  | [] => (o, [])
  | (name, started, duration) :: stages =>
      let '(o, e) := record_stage_at now name started duration o in
      let '(o, e') := record_stages now stages o in
      (o, e ++ e')
  end.

Definition drain_stages (now : Z) (observation : option O) (s : task_stages)
    : option O * task_stages * list E :=
  match observation with
  | None => (None, s, [])
  | Some o =>
      let '(o, e) := record_stages now (default [] s) o in
      (Some o, (λ _, []) <$> s, e)
  end.

Definition finish_with_stages (now : Z) (observation : option O) (outcome : RequestOutcome)
    (s : task_stages) : task_stages * list E :=
  let '(observation, s, e) := drain_stages now observation s in
  (s, e ++ from_option (finish now outcome) [] observation).

(** ** Framework stages *)

Definition STAGE_QUEUE : string := "moonlight.server.queue".
Definition STAGE_FRAME_DECODE : string := "moonlight.server.frame_decode".
Definition STAGE_MIDDLEWARE : string := "moonlight.server.middleware".
Definition STAGE_WRITE : string := "moonlight.server.write".

Definition record_dispatch_stages (now received_at : Z) (decompression : option (Z * Z)) (o : O)
    : O * list E :=
  let '(o, e) := record_stage_at now STAGE_QUEUE received_at (saturating_sub now received_at) o in
  match decompression with
  | Some (started, duration) =>
      let '(o, e') := record_stage_at now STAGE_FRAME_DECODE started duration o in (o, e ++ e')
  | None => (o, e)
  end.

(** ** [DeferredObservation] *)

Record DeferredObservation := MkDeferred {
  do_observation : option O;
  do_outcome : RequestOutcome;
  do_queued_at : Z;
}.

Definition DeferredObservation_drop (now : Z) (d : DeferredObservation) : list E :=
  from_option (finish now (do_outcome d)) [] (do_observation d).

(** [written] takes the observation out, so that the drop of [self] at its end
    finds none. *)
Definition DeferredObservation_written (now written_at : Z) (d : DeferredObservation) : list E :=
  match do_observation d with
  | Some o =>
      let '(o, e) := record_stage_at now STAGE_WRITE (do_queued_at d)
        (saturating_sub written_at (do_queued_at d)) o in
      e ++ finish now (do_outcome d) o
  | None => []
  end
  ++ DeferredObservation_drop now
       {| do_observation := None; do_outcome := do_outcome d; do_queued_at := do_queued_at d |}.

(** * Calls on an observation *)

(** A request as its observation sees it: stages, then one end. *)
Inductive call :=
  | Stage (name : string) (duration : Z)
  | StageAt (name : string) (started duration : Z).

Definition do_call (now : Z) (c : call) (o : O) : O * list E :=
  match c with
  | Stage name duration => record_stage now name duration o
  | StageAt name started duration => record_stage_at now name started duration o
  end.

(** [None] is a drop without a finish. *)
Definition do_end (now : Z) (outcome : option RequestOutcome) (o : O) : list E :=
  match outcome with
  | Some outcome => finish now outcome o
  | None => drop_open now o
  end.

(** The effects of each call, with its clock reading, and of the end. *)
Fixpoint observe (calls : list (Z * call)) (last : Z) (outcome : option RequestOutcome) (o : O)
    : list (list E) :=
  match calls with
  | [] => [do_end last outcome o]
  | (now, c) :: calls => let '(o, e) := do_call now c o in e :: observe calls last outcome o
  end.
End observation.
Arguments DeferredObservation O : clear implicits.

(** * [MoonLightMetrics] *)

Record MetricsSnapshot := MkSnapshot {
  started : Z;
  succeeded : Z;
  failed : Z;
  request_bytes : Z;
  response_bytes : Z;
  total_latency_nanos : Z;
  max_latency_nanos : Z;
}.
#[export] Instance MetricsSnapshot_eq_dec : EqDecision MetricsSnapshot.
Proof. solve_decision. Defined.

(** [MetricsInner] has the same fields, each an [AtomicU64]; [Default] is zero. *)
Definition MetricsInner : Type := MetricsSnapshot.
Definition MetricsInner_default : MetricsInner :=
  {| started := 0; succeeded := 0; failed := 0; request_bytes := 0; response_bytes := 0;
     total_latency_nanos := 0; max_latency_nanos := 0 |}.

Inductive counter := CStarted | CSucceeded | CFailed | CRequestBytes | CResponseBytes | CLatency.
#[export] Instance counter_eq_dec : EqDecision counter.
Proof. solve_decision. Defined.

(** The atomic operations: [fetch_add] wraps around. *)
Inductive metric_op :=
  | FetchAdd (c : counter) (n : Z)
  | FetchMax (n : Z).

Definition wrap64 (n : Z) : Z := n mod 2 ^ 64.

Definition load (c : counter) (m : MetricsInner) : Z :=
  match c with
  | CStarted => started m
  | CSucceeded => succeeded m
  | CFailed => failed m
  | CRequestBytes => request_bytes m
  | CResponseBytes => response_bytes m
  | CLatency => total_latency_nanos m
  end.

Definition fetch_add (c : counter) (n : Z) (m : MetricsInner) : MetricsInner :=
  let add c' := if decide (c = c') then wrap64 (load c' m + n) else load c' m in
  {| started := add CStarted; succeeded := add CSucceeded; failed := add CFailed;
     request_bytes := add CRequestBytes; response_bytes := add CResponseBytes;
     total_latency_nanos := add CLatency; max_latency_nanos := max_latency_nanos m |}.

Definition fetch_max (n : Z) (m : MetricsInner) : MetricsInner :=
  {| started := started m; succeeded := succeeded m; failed := failed m;
     request_bytes := request_bytes m; response_bytes := response_bytes m;
     total_latency_nanos := total_latency_nanos m;
     max_latency_nanos := Z.max (max_latency_nanos m) n |}.

Definition apply_op (op : metric_op) (m : MetricsInner) : MetricsInner :=
  match op with FetchAdd c n => fetch_add c n m | FetchMax n => fetch_max n m end.

(** [snapshot] loads the counters one after the other: [m1] to [m7] are the
    memory at each load. *)
Definition MoonLightMetrics_snapshot (m1 m2 m3 m4 m5 m6 m7 : MetricsInner) : MetricsSnapshot :=
  {| started := started m1; succeeded := succeeded m2; failed := failed m3;
     request_bytes := request_bytes m4; response_bytes := response_bytes m5;
     total_latency_nanos := total_latency_nanos m6; max_latency_nanos := max_latency_nanos m7 |}.

Record MetricsObservation := MkMetricsObservation { mo_started : Z; mo_finished : bool }.

Definition MoonLightMetrics_start_request : Telemetry MetricsObservation metric_op :=
  λ info _ now,
    ([FetchAdd CStarted 1; FetchAdd CRequestBytes (ri_request_bytes info)],
     Some {| mo_started := now; mo_finished := false |}).

Definition MetricsObservation_record (now : Z) (outcome : RequestOutcome)
    (self : MetricsObservation) : list metric_op :=
  let elapsed := Z.min (saturating_sub now (mo_started self)) u64_max in
  [FetchAdd CLatency elapsed; FetchMax elapsed]
  ++ match outcome with
     | Success response_bytes => [FetchAdd CSucceeded 1; FetchAdd CResponseBytes response_bytes]
     | Failure _ => [FetchAdd CFailed 1]
     end.

Definition MetricsObservation_drop (now : Z) (self : MetricsObservation) : list metric_op :=
  if mo_finished self then []
  else MetricsObservation_record now (Failure ErrorCode.Cancelled) self.

(** Stages have the trait's empty default. *)
#[export] Instance MetricsObservation_impl : RequestObservation MetricsObservation metric_op := {|
  record_stage _ _ _ self := (self, []);
  record_stage_at _ _ _ _ self := (self, []);
  wants_timing _ := false;
  finish now outcome self :=
    let self := {| mo_started := mo_started self; mo_finished := true |} in
    MetricsObservation_record now outcome self ++ MetricsObservation_drop now self;
  drop_open := MetricsObservation_drop;
|}.

(** ** Requests of any number of threads *)

(** A metered request: its start, and its end with an outcome or by a drop. *)
Record metered := MkMetered {
  mt_info : RequestInfo;
  mt_start : Z;
  mt_end : Z;
  mt_outcome : option RequestOutcome;
}.

(** The atomic operations of one request, in program order. *)
Definition metered_ops (r : metered) : list metric_op :=
  let '(e, o) := MoonLightMetrics_start_request (mt_info r) (mt_start r) (mt_start r) in
  e ++ match o with Some o => do_end (mt_end r) (mt_outcome r) o | None => [] end.

(** Each thread has its remaining operations; any of them may be next. *)
Inductive metrics_step : relation (MetricsInner * list (list metric_op)) :=
  | metrics_turn m threads i op rest :
      threads !! i = Some (op :: rest) →
      metrics_step (m, threads) (apply_op op m, <[i := rest]> threads).

(** * Specification *)

Definition metered_latency (r : metered) : Z :=
  Z.min (saturating_sub (mt_end r) (mt_start r)) u64_max.
Definition metered_response (r : metered) : Z :=
  match mt_outcome r with Some (Success n) => n | _ => 0 end.
Definition metered_success (r : metered) : Z :=
  match mt_outcome r with Some (Success _) => 1 | _ => 0 end.

(** The counters once all requests have ended. *)
Definition metrics_of (requests : list metered) : MetricsSnapshot :=
  {| started := wrap64 (zlen requests);
     succeeded := wrap64 (zsum metered_success requests);
     failed := wrap64 (zlen requests - zsum metered_success requests);
     request_bytes := wrap64 (zsum (λ r, ri_request_bytes (mt_info r)) requests);
     response_bytes := wrap64 (zsum metered_response requests);
     total_latency_nanos := wrap64 (zsum metered_latency requests);
     max_latency_nanos := foldr Z.max 0 (map metered_latency requests) |}.

(** What a list of operations adds to a counter, and its largest value. *)
Definition op_add (c : counter) (op : metric_op) : Z :=
  match op with FetchAdd c' n => if decide (c' = c) then n else 0 | FetchMax _ => 0 end.
Definition ops_add (c : counter) (ops : list metric_op) : Z := zsum (op_add c) ops.
Definition op_max (op : metric_op) : Z := match op with FetchMax n => n | _ => 0 end.
Definition ops_max (ops : list metric_op) : Z := foldr Z.max 0 (map op_max ops).

(** Requests that have been counted as started and not yet as ended. *)
Definition open_requests (threads : list (list metric_op)) : Z :=
  zsum (λ ops, ops_add CSucceeded ops + ops_add CFailed ops - ops_add CStarted ops) threads.

(** * Counters under interleaving *)

Lemma wrap64_add a b : wrap64 (wrap64 a + b) = wrap64 (a + b).
Proof. unfold wrap64. by rewrite Zplus_mod_idemp_l. Qed.

Lemma wrap64_idem a : wrap64 (wrap64 a) = wrap64 a.
Proof. unfold wrap64. by rewrite Zmod_mod. Qed.

Lemma load_apply c op m x :
  wrap64 (load c (apply_op op m) + x) = wrap64 (load c m + op_add c op + x).
Proof.
  destruct op as [c' n|n]; simpl.
  - assert (load c (fetch_add c' n m) = if decide (c' = c) then wrap64 (load c m + n) else load c m)
      as -> by (by destruct c).
    destruct (decide (c' = c)); [by rewrite wrap64_add|]. f_equal. lia.
  - assert (load c (fetch_max n m) = load c m) as -> by (by destruct c). f_equal. lia.
Qed.

Lemma load_apply_range c op m : load c m = wrap64 (load c m) → 
  load c (apply_op op m) = wrap64 (load c (apply_op op m)).
Proof.
  intros H. destruct op as [c' n|n]; simpl.
  - assert (load c (fetch_add c' n m) = if decide (c' = c) then wrap64 (load c m + n) else load c m)
      as -> by (by destruct c).
    destruct (decide (c' = c)); [by rewrite wrap64_idem|done].
  - by assert (load c (fetch_max n m) = load c m) as -> by (by destruct c).
Qed.

Definition threads_max (threads : list (list metric_op)) : Z := foldr Z.max 0 (map ops_max threads).

Lemma threads_max_insert threads i op rest :
  threads !! i = Some (op :: rest) →
  threads_max threads = Z.max (op_max op) (threads_max (<[i := rest]> threads)).
Proof.
  revert i. induction threads as [|t threads IH]; intros [|i] H; simplify_eq/=.
  - unfold threads_max, ops_max. simpl. lia.
  - specialize (IH i H). unfold threads_max in *. simpl. lia.
Qed.

Lemma foldr_max_nonneg l : 0 <= foldr Z.max 0 l.
Proof. induction l; simpl; lia. Qed.

(** What the counters hold and what is left to do add up, and each thread is at
    some point of its own program. *)
Record metrics_inv (programs : list (list metric_op)) (s : MetricsInner * list (list metric_op))
    : Prop := {
  inv_add c : wrap64 (load c s.1 + zsum (ops_add c) s.2) = wrap64 (zsum (ops_add c) programs);
  inv_range c : load c s.1 = wrap64 (load c s.1);
  inv_max_nonneg : 0 <= max_latency_nanos s.1;
  inv_max : Z.max (max_latency_nanos s.1) (threads_max s.2) = threads_max programs;
  inv_suffix : Forall2 suffix s.2 programs;
}.

Lemma metrics_inv_start programs : metrics_inv programs (MetricsInner_default, programs).
Proof.
  split; simpl.
  - intros c. by destruct c.
  - intros c. by destruct c.
  - done.
  - pose proof (foldr_max_nonneg (map ops_max programs)). unfold threads_max. lia.
  - by induction programs; constructor.
Qed.

Lemma metrics_inv_step programs s s' :
  metrics_inv programs s → metrics_step s s' → metrics_inv programs s'.
Proof.
  intros [Ha Hr H0 Hm Hs] Hstep. destruct Hstep as [m threads i op rest Hi]. simpl in *. split; simpl.
  - intros c. rewrite load_apply, (zsum_insert _ _ _ _ _ Hi), <- Ha. f_equal.
    unfold ops_add at 2. simpl. unfold ops_add. lia.
  - intros c. by apply load_apply_range.
  - destruct op; simpl; lia.
  - rewrite (threads_max_insert _ _ _ _ Hi) in Hm. rewrite <- Hm.
    pose proof (foldr_max_nonneg (map ops_max (<[i := rest]> threads))) as Hn.
    unfold threads_max. destruct op; simpl; lia.
  - destruct (Forall2_lookup_l _ _ _ _ _ Hs Hi) as (p & Hp & Hsuf).
    rewrite <- (list_insert_id programs i p) by done. apply Forall2_insert; [done|].
    etrans; [|exact Hsuf]. by apply suffix_cons_r.
Qed.

Lemma metrics_inv_reachable programs s :
  rtc metrics_step (MetricsInner_default, programs) s → metrics_inv programs s.
Proof.
  intros H. remember (MetricsInner_default, programs) as s0 eqn:E.
  assert (metrics_inv programs s0) as Hinv by (subst; apply metrics_inv_start).
  clear E. induction H; eauto using metrics_inv_step.
Qed.

(** The operations of one request. *)
Lemma metered_ops_shape r : ∃ tail,
  metered_ops r = [FetchAdd CStarted 1; FetchAdd CRequestBytes (ri_request_bytes (mt_info r));
                   FetchAdd CLatency (metered_latency r); FetchMax (metered_latency r)] ++ tail ∧
  (mt_outcome r = Some (Success (metered_response r)) ∧ metered_success r = 1 ∧
     tail = [FetchAdd CSucceeded 1; FetchAdd CResponseBytes (metered_response r)] ∨
   metered_success r = 0 ∧ metered_response r = 0 ∧ tail = [FetchAdd CFailed 1]).
Proof.
  destruct r as [info a b [[n|code]|]]; eexists; (split; [reflexivity|]); [left|right|right]; done.
Qed.

Lemma metered_ops_add r c :
  ops_add c (metered_ops r) =
  match c with
  | CStarted => 1
  | CSucceeded => metered_success r
  | CFailed => 1 - metered_success r
  | CRequestBytes => ri_request_bytes (mt_info r)
  | CResponseBytes => metered_response r
  | CLatency => metered_latency r
  end.
Proof.
  destruct (metered_ops_shape r) as (tail & -> & [(_ & H1 & ->)|(H1 & H2 & ->)]);
    unfold ops_add; destruct c; simpl; lia.
Qed.

Lemma metered_ops_max r : ops_max (metered_ops r) = metered_latency r.
Proof.
  assert (0 <= metered_latency r) by (unfold metered_latency, saturating_sub, u64_max; lia).
  destruct (metered_ops_shape r) as (tail & -> & [(_ & H1 & ->)|(H1 & H2 & ->)]);
    unfold ops_max; simpl; lia.
Qed.

Lemma zsum_map {A B} (f : B → Z) (g : A → B) l : zsum f (map g l) = zsum (λ x, f (g x)) l.
Proof. induction l; simpl in *; congruence. Qed.

Lemma zsum_ext {A} (f g : A → Z) l : (∀ x, f x = g x) → zsum f l = zsum g l.
Proof. intros H. induction l; simpl in *; [done|]. by rewrite H, IHl. Qed.

Lemma zsum_one_minus {A} (f : A → Z) l : zsum (λ x, 1 - f x) l = zlen l - zsum f l.
Proof. induction l as [|x l IH]; [done|]. rewrite zlen_cons. simpl in *. lia. Qed.

Lemma zsum_const_one {A} (l : list A) : zsum (λ _, 1) l = zlen l.
Proof. induction l as [|x l IH]; [done|]. rewrite zlen_cons. simpl in *. lia. Qed.

Lemma programs_add requests c :
  zsum (ops_add c) (map metered_ops requests) =
  match c with
  | CStarted => zlen requests
  | CSucceeded => zsum metered_success requests
  | CFailed => zlen requests - zsum metered_success requests
  | CRequestBytes => zsum (λ r, ri_request_bytes (mt_info r)) requests
  | CResponseBytes => zsum metered_response requests
  | CLatency => zsum metered_latency requests
  end.
Proof.
  rewrite zsum_map. destruct c;
    rewrite ?(zsum_ext _ _ requests (λ r, metered_ops_add r _));
    auto using zsum_one_minus, zsum_const_one.
Qed.

(** A program counts its end after its start, and at most once. *)
Lemma suffix_open ops r :
  ops `suffix_of` metered_ops r →
  0 <= ops_add CStarted ops <= ops_add CSucceeded ops + ops_add CFailed ops ∧
  ops_add CSucceeded ops + ops_add CFailed ops <= 1.
Proof.
  intros [k Hk]. destruct (metered_ops_shape r) as (tail & Hr & Htail). rewrite Hr in Hk. clear Hr.
  destruct Htail as [(_ & _ & ->)|(_ & _ & ->)]; simpl in Hk;
    repeat (destruct k as [|? k]; simpl in Hk;
      [subst ops; unfold ops_add; simpl; lia|];
      first [discriminate Hk | injection Hk as _ Hk]).
Qed.

Lemma open_requests_bounds requests threads :
  Forall2 suffix threads (map metered_ops requests) →
  0 <= open_requests threads <= zlen requests.
Proof.
  revert requests. induction threads as [|t threads IH]; intros [|r requests] H; simpl in H.
  - done.
  - by apply Forall2_nil_inv_l in H.
  - by apply Forall2_nil_inv_r in H.
  - apply Forall2_cons in H as [Ht H]. apply IH in H. apply suffix_open in Ht.
    rewrite zlen_cons. unfold open_requests in *. simpl. lia.
Qed.

Lemma zsum_add3 {A} (f g h : A → Z) l :
  zsum (λ x, f x + g x - h x) l = zsum f l + zsum g l - zsum h l.
Proof. induction l; simpl in *; lia. Qed.

Lemma wrap64_eq a b : wrap64 a = wrap64 b ↔ ∃ k, a = b + k * 2 ^ 64.
Proof.
  unfold wrap64. split.
  - intros H. exists (a / 2 ^ 64 - b / 2 ^ 64).
    pose proof (Z_div_mod_eq_full a (2 ^ 64)). pose proof (Z_div_mod_eq_full b (2 ^ 64)). lia.
  - intros [k ->]. by rewrite Z_mod_plus_full.
Qed.

Lemma snapshot_ext (m m' : MetricsSnapshot) :
  (∀ c, load c m = load c m') → max_latency_nanos m = max_latency_nanos m' → m = m'.
Proof.
  intros H Hm. pose proof (H CStarted). pose proof (H CSucceeded). pose proof (H CFailed).
  pose proof (H CRequestBytes). pose proof (H CResponseBytes). pose proof (H CLatency).
  destruct m, m'; simpl in *; congruence.
Qed.

(** * Theorems *)

(** C34 The lock-free counters are exact under every interleaving of the atomic
    operations of any number of requests: at any time the requests counted as
    started are those counted as succeeded or failed and the ones still open,
    which are between none and all of them, and once every request has ended,
    whether finished or dropped, each was counted once, with its bytes, its
    latency and the largest latency, up to the wrap-around of the counters. *)
Theorem metrics_account requests m threads :
  rtc metrics_step (MetricsInner_default, map metered_ops requests) (m, threads) →
  started m = wrap64 (succeeded m + failed m + open_requests threads) ∧
  0 <= open_requests threads <= zlen requests ∧
  (Forall (λ ops, ops = []) threads →
   open_requests threads = 0 ∧
   MoonLightMetrics_snapshot m m m m m m m = metrics_of requests).
Proof.
  intros [Ha Hr Hn Hm Hs]%metrics_inv_reachable. simpl in *.
  split; [|split; [by apply open_requests_bounds|]].
  - pose proof (Ha CStarted) as H1. pose proof (Ha CSucceeded) as H2. pose proof (Ha CFailed) as H3.
    rewrite programs_add in H1. rewrite programs_add in H2. rewrite programs_add in H3.
    change (started m) with (load CStarted m). rewrite (Hr CStarted).
    change (succeeded m) with (load CSucceeded m). change (failed m) with (load CFailed m).
    unfold open_requests. rewrite zsum_add3. apply wrap64_eq in H1 as [a H1], H2 as [b H2], H3 as [c H3].
    apply wrap64_eq. exists (a - b - c). lia.
  - intros Hdone. assert (∀ c, zsum (ops_add c) threads = 0) as H0.
    { intros c. clear -Hdone. induction Hdone as [|? ? -> ? IH]; [done|]. simpl. by rewrite IH. }
    assert (threads_max threads = 0) as Hm0.
    { clear -Hdone. induction Hdone as [|? ? -> ? IH]; [done|].
      unfold threads_max in *. simpl. by rewrite IH. }
    split; [unfold open_requests; by rewrite zsum_add3, !H0|].
    apply snapshot_ext.
    + intros c. specialize (Ha c). rewrite H0, Z.add_0_r, <- Hr, programs_add in Ha.
      destruct c; exact Ha.
    + simpl. rewrite Hm0, Z.max_l in Hm by done. rewrite Hm. unfold threads_max.
      rewrite map_map. by rewrite (map_ext _ _ metered_ops_max).
Qed.

(** ** Observations *)

Section observations.
Context {O E : Type} `{!RequestObservation O E}.

Lemma push_stage_list pushes stages :
  foldl (λ s p, push_stage p.1.1 p.1.2 p.2 s) (Some stages) pushes =
  Some (if zlen stages <=? MAX_RECORDED_STAGES
        then take (Z.to_nat MAX_RECORDED_STAGES) (stages ++ pushes) else stages).
Proof.
  revert stages. induction pushes as [|[[name t0] d] pushes IH]; intros stages; simpl.
  - rewrite app_nil_r. destruct (Z.leb_spec (zlen stages) MAX_RECORDED_STAGES) as [H|]; [|done].
    rewrite take_ge; [done|]. unfold zlen, MAX_RECORDED_STAGES in *. lia.
  - rewrite IH. unfold MAX_RECORDED_STAGES.
    destruct (Z.ltb_spec (zlen stages) 128) as [H|H]; cbv iota.
    + rewrite zlen_app. change (zlen [(name, t0, d)]) with 1.
      rewrite (proj2 (Z.leb_le _ _)) by lia. rewrite (proj2 (Z.leb_le _ _)) by lia.
      by rewrite <- (assoc_L (++)).
    + destruct (Z.leb_spec (zlen stages) 128); [|done]. unfold zlen in *.
      by rewrite !take_app_le, !take_ge by lia.
Qed.

Lemma record_stages_observe now stages o last outcome :
  (record_stages now stages o).2 ++ do_end last outcome (record_stages now stages o).1 =
  mjoin (observe (map (λ p, (now, StageAt p.1.1 p.1.2 p.2)) stages) last outcome o).
Proof.
  revert o. induction stages as [|[[name t0] d] stages IH]; intros o; simpl; [by rewrite app_nil_r|].
  destruct (record_stage_at now name t0 d o) as [o' e]. specialize (IH o').
  destruct (record_stages now stages o') as [o2 e']. simpl in *. by rewrite <- (assoc_L (++)), IH.
Qed.
End observations.

(** The stages of a request reach its observation: of the stages that a task
    traces, the first 128 are recorded with their start and duration, in the
    order in which they ended, then the observation is finished, once, and the
    list of the task is empty again. *)
Theorem stages_delivered {O E} `{!RequestObservation O E} pushes now outcome o :
  let s := foldl (λ s p, push_stage p.1.1 p.1.2 p.2 s) (Some []) pushes in
  finish_with_stages now (Some o) outcome s =
  (Some [], mjoin (observe (map (λ p, (now, StageAt p.1.1 p.1.2 p.2))
                              (take (Z.to_nat MAX_RECORDED_STAGES) pushes)) now (Some outcome) o)).
Proof.
  cbv zeta. rewrite push_stage_list. unfold finish_with_stages, drain_stages. cbn [zlen].
  rewrite <- record_stages_observe. simpl.
  destruct (record_stages now _ o) as [o' e]. done.
Qed.

(** ** Fan-out *)

(** Effects of several runs of the same calls, joined call by call. *)
Definition join_calls {E} (n : nat) (runs : list (list (list E))) : list (list E) :=
  foldr (zip_with app) (replicate n []) runs.

Lemma foldr_zip_cons {A E} (f : A → list E) (g : A → list (list E)) a l os :
  foldr (zip_with app) (a :: l) (map (λ x, f x :: g x) os) =
  foldr (λ x acc, f x ++ acc) a os :: foldr (zip_with app) l (map g os).
Proof. induction os as [|o os IH]; simpl; [done|]. by rewrite IH. Qed.

Lemma mjoin_foldr {A E} (f : A → list E) os : mjoin (map f os) = foldr (λ x acc, f x ++ acc) [] os.
Proof. induction os as [|o os IH]; simpl; [done|]. by rewrite IH. Qed.

Lemma bind_foldr {A E} (f : A → list E) os : os ≫= f = foldr (λ x acc, f x ++ acc) [] os.
Proof. induction os as [|o os IH]; [done|]. exact (f_equal (app (f o)) IH). Qed.

Lemma do_call_chain {E} now c (os : list (dyn_observation E)) :
  do_call now c (Chained os) =
  (Chained (map (λ o, (do_call now c o).1) os), mjoin (map (λ o, (do_call now c o).2) os)).
Proof. destruct c; simpl; unfold each; simpl; by rewrite <- !list_fmap_compose. Qed.

Lemma observe_cons {O E} `{!RequestObservation O E} now c calls last outcome o :
  observe ((now, c) :: calls) last outcome o =
  (do_call now c o).2 :: observe calls last outcome (do_call now c o).1.
Proof. simpl. by destruct (do_call now c o). Qed.

Lemma observe_chain {E} calls last outcome (os : list (dyn_observation E)) :
  observe calls last outcome (Chained os) =
  join_calls (S (length calls)) (map (observe calls last outcome) os).
Proof.
  revert os. induction calls as [|[now c] calls IH]; intros os.
  - unfold join_calls. simpl. change (λ o, [do_end last outcome o]) with
      (λ o : dyn_observation E, do_end last outcome o :: []).
    rewrite (foldr_zip_cons (do_end last outcome) (λ _, [])). f_equal.
    + destruct outcome; simpl; apply bind_foldr.
    + by induction os.
  - rewrite (map_ext _ _ (observe_cons now c calls last outcome)), observe_cons, do_call_chain.
    simpl fst. simpl snd. rewrite IH. unfold join_calls. cbn [length replicate].
    rewrite (foldr_zip_cons (λ o, (do_call now c o).2)). f_equal.
    + apply mjoin_foldr.
    + f_equal. by rewrite map_map.
Qed.

(** C35 A telemetry chain is transparent: a request observed through it causes,
    call by call and in delegate order, exactly the effects of each delegate
    that observes the request, with the same stages and the same end, finished
    or dropped; delegates that skip the request do nothing, and without any
    interested delegate there is no observation. *)
Theorem telemetry_chain_transparent {E} (delegates : list (Telemetry (dyn_observation E) E))
    info received now calls last outcome :
  let r := TelemetryChain_start_request delegates info received now in
  let open := omap (λ t, (t info received now).2) delegates in
  r.1 = (delegates ≫= λ t, (t info received now).1) ∧
  (r.2 = None ↔ open = []) ∧
  ∀ c, r.2 = Some c →
    observe calls last outcome c =
      join_calls (S (length calls)) (map (observe calls last outcome) open) ∧
    wants_timing c = existsb wants_timing open.
Proof.
  cbv zeta. unfold TelemetryChain_start_request. cbn [fst snd].
  assert (omap id (map (λ t, t info received now) delegates).*2 =
          omap (λ t, (t info received now).2) delegates) as ->.
  { induction delegates as [|t ts IH]; [done|]. simpl. unfold id at 1.
    destruct (t info received now).2; [by apply (f_equal (cons _))|exact IH]. }
  split; [by rewrite <- list_fmap_compose, bind_foldr, mjoin_foldr|].
  match goal with |- context [omap ?f delegates] => destruct (omap f delegates) as [|o os] end;
    simpl.
  - split; [done|]. by intros c [=].
  - split; [done|]. intros c [= <-]. split; [|done].
    exact (observe_chain calls last outcome (o :: os)).
Qed.

(** A response that the writer holds ends its observation once: when it
    reaches the socket, with the write stage, timed from the moment it was
    queued, and then the outcome; when it is dropped on the way, with the
    outcome alone. *)
Theorem deferred_observation_once {O E} `{!RequestObservation O E} now written_at o outcome queued :
  let d := {| do_observation := Some o; do_outcome := outcome; do_queued_at := queued |} in
  DeferredObservation_written now written_at d =
    mjoin (observe [(now, StageAt STAGE_WRITE queued (saturating_sub written_at queued))]
             now (Some outcome) o) ∧
  DeferredObservation_drop now d = mjoin (observe [] now (Some outcome) o).
Proof.
  cbv zeta. unfold DeferredObservation_written, DeferredObservation_drop. simpl.
  destruct (record_stage_at _ _ _ _ o) as [o' e]. simpl. by rewrite !app_nil_r.
Qed.

(** ** Witnesses *)

Definition sample_info : RequestInfo :=
  {| ri_method_id := 7; ri_method_name := None; ri_request_id := 3; ri_request_bytes := 40;
     ri_trace_context := None |}.

Definition sample_metered : list metered :=
  [{| mt_info := sample_info; mt_start := 100; mt_end := 350; mt_outcome := Some (Success 9) |};
   {| mt_info := sample_info; mt_start := 120; mt_end := 130; mt_outcome := None |}].

(** One turn of thread [i]. *)
Definition metrics_next (i : nat) (s : MetricsInner * list (list metric_op))
    : MetricsInner * list (list metric_op) :=
  match s.2 !! i with
  | Some (op :: rest) => (apply_op op s.1, <[i := rest]> s.2)
  | _ => s
  end.

Lemma metrics_next_steps turns s : rtc metrics_step s (foldl (λ s i, metrics_next i s) s turns).
Proof.
  revert s. induction turns as [|i turns IH]; intros s; [done|]. simpl.
  etrans; [|apply IH]. destruct s as [m threads]. unfold metrics_next. simpl.
  destruct (threads !! i) as [[|op rest]|] eqn:Hi; [done| |done].
  by apply rtc_once, metrics_turn.
Qed.

Definition sample_schedule : list nat := [0; 1; 1; 0; 1; 0; 0; 1; 1; 0; 0]%nat.

Lemma metrics_account_witness :
  ∃ m threads,
    open_requests threads = 0 ∧
    MoonLightMetrics_snapshot m m m m m m m =
      {| started := 2; succeeded := 1; failed := 1; request_bytes := 80; response_bytes := 9;
         total_latency_nanos := 260; max_latency_nanos := 250 |}.
Proof.
  pose (s := foldl (λ s i, metrics_next i s)
    (MetricsInner_default, map metered_ops sample_metered) sample_schedule).
  exists s.1, s.2.
  refine (proj2 (proj2 (metrics_account sample_metered s.1 s.2 _)) _).
  - rewrite <- surjective_pairing. apply metrics_next_steps.
  - vm_compute. repeat constructor.
Defined.

(** A snapshot that runs into a request can see it as ended and not as started:
    the counters are loaded one by one, [started] first. *)
Example snapshot_torn :
  let after n := (foldl (λ s i, metrics_next i s)
    (MetricsInner_default, map metered_ops sample_metered) (replicate n 0%nat)).1 in
  let s := MoonLightMetrics_snapshot (after 0%nat) (after 5%nat) (after 5%nat) (after 5%nat)
    (after 5%nat) (after 5%nat) (after 5%nat) in
  started s = 0 ∧ succeeded s = 1.
Proof. vm_compute. done. Qed.
