(* ===== verification/Adapters.v ===== *)
(** The telemetry adapters: [observability/src/prometheus.rs],
    [observability/src/otel.rs], [observability/src/otlp.rs] and [sentry/src/lib.rs].  The Prometheus,
    OpenTelemetry and Sentry libraries are outside: their counters are 64-bit
    counters, and what the adapters ask of tracers and hubs is a list of calls. *)
From Stdlib Require Import Ascii Sorted.
From S2P Require Import Prelude Text Protocol Router Dispatch Telemetry.

Definition i64_max : Z := 2 ^ 63 - 1.

(** [n as i64] *)
Definition cast_i64 (n : Z) : Z := (n + 2 ^ 63) mod 2 ^ 64 - 2 ^ 63.

(** * Prometheus *)

Record PrometheusSnapshotExporter := MkExporter {
  pe_started : Z;
  pe_succeeded : Z;
  pe_failed : Z;
  pe_request_bytes : Z;
  pe_response_bytes : Z;
  pe_latency_nanos : Z;
  pe_max_latency_nanos : Z;
  pe_exporter_drops : Z;
  pe_previous : MetricsSnapshot;
}.

Definition PrometheusSnapshotExporter_new : PrometheusSnapshotExporter :=
  {| pe_started := 0; pe_succeeded := 0; pe_failed := 0; pe_request_bytes := 0;
     pe_response_bytes := 0; pe_latency_nanos := 0; pe_max_latency_nanos := 0;
     pe_exporter_drops := 0; pe_previous := MetricsInner_default |}.

(** [counter.inc_by(n)] *)
Definition inc_by (n counter : Z) : Z := wrap64 (counter + n).

(** [busy]: another call holds the lock. *)
Definition try_update (busy : bool) (current : MetricsSnapshot) (e : PrometheusSnapshotExporter)
    : bool * PrometheusSnapshotExporter :=
  let previous := pe_previous e in
  if busy then
    (false,
     {| pe_started := pe_started e; pe_succeeded := pe_succeeded e; pe_failed := pe_failed e;
        pe_request_bytes := pe_request_bytes e; pe_response_bytes := pe_response_bytes e;
        pe_latency_nanos := pe_latency_nanos e; pe_max_latency_nanos := pe_max_latency_nanos e;
        pe_exporter_drops := inc_by 1 (pe_exporter_drops e); pe_previous := previous |})
  else
    (true,
     {| pe_started := inc_by (saturating_sub (started current) (started previous)) (pe_started e);
        pe_succeeded :=
          inc_by (saturating_sub (succeeded current) (succeeded previous)) (pe_succeeded e);
        pe_failed := inc_by (saturating_sub (failed current) (failed previous)) (pe_failed e);
        pe_request_bytes :=
          inc_by (saturating_sub (request_bytes current) (request_bytes previous))
            (pe_request_bytes e);
        pe_response_bytes :=
          inc_by (saturating_sub (response_bytes current) (response_bytes previous))
            (pe_response_bytes e);
        pe_latency_nanos :=
          inc_by (saturating_sub (total_latency_nanos current) (total_latency_nanos previous))
            (pe_latency_nanos e);
        pe_max_latency_nanos := Z.min (max_latency_nanos current) i64_max;
        pe_exporter_drops := pe_exporter_drops e;
        pe_previous := current |}).

Definition run_updates (updates : list (bool * MetricsSnapshot)) (e : PrometheusSnapshotExporter)
    : PrometheusSnapshotExporter :=
  foldl (λ e u, (try_update u.1 u.2 e).2) e updates.

(** * OpenTelemetry *)

(** Wall-clock times have 64-bit seconds. *)
Definition system_min : Z := - 2 ^ 63 * 10 ^ 9.
Definition system_max : Z := 2 ^ 63 * 10 ^ 9 - 1.

Record Clock := MkClock { ck_instant : Z; ck_system : Z }.

(** [None] is the panic of an addition that overflows. *)
Definition Clock_system_time (self : Clock) (at_ : Z) : option Z :=
  if ck_instant self <=? at_ then
    let t := ck_system self + (at_ - ck_instant self) in
    if t <=? system_max then Some t else None
  else
    let t := ck_system self - (ck_instant self - at_) in
    Some (if system_min <=? t then t else ck_system self).

Inductive attribute_value :=
  | AttrStr (s : string)
  | AttrInt (n : Z).

Inductive SpanKind := SpanServer | SpanInternal.

(** The context a span starts in: the root, a remote span or the request's own. *)
Inductive span_parent :=
  | NoParent
  | RemoteParent (trace_id span_id : bytes) (sampled : bool)
  | RequestSpan.

Inductive otel_call :=
  | StartSpan (name : string) (kind : SpanKind) (start : Z)
      (attributes : list (string * attribute_value)) (parent : span_parent)
  | EndStageSpan (finished_at : Z)
  | AddEvent (name : string) (attributes : list (string * attribute_value))
  | SetAttribute (key : string) (value : attribute_value)
  | SetStatusOk
  | SetStatusError (description : string)
  | EndSpan
  | DropSpan
  | ClockPanic.

(** [format!("{code:?}")] *)
Definition ErrorCode_debug (c : ErrorCode) : string :=
  match c with
  | ErrorCode.UnknownMethod => "UnknownMethod"
  | ErrorCode.InvalidRequest => "InvalidRequest"
  | ErrorCode.DeadlineExceeded => "DeadlineExceeded"
  | ErrorCode.Cancelled => "Cancelled"
  | ErrorCode.ResourceExhausted => "ResourceExhausted"
  | ErrorCode.Internal => "Internal"
  | ErrorCode.Unauthenticated => "Unauthenticated"
  | ErrorCode.PermissionDenied => "PermissionDenied"
  | ErrorCode.Unavailable => "Unavailable"
  | ErrorCode.CompressionFailure => "CompressionFailure"
  | ErrorCode.ReplayGap => "ReplayGap"
  | ErrorCode.FailedPrecondition => "FailedPrecondition"
  | ErrorCode.UnsupportedProtocol => "UnsupportedProtocol"
  end.

Record OpenTelemetryObservation := MkOtel { ot_clock : Clock; ot_recording : bool }.

Section otel.
(** Whether the tracer samples a request, and the wall clock at an instant. *)
Context (recording : RequestInfo → bool) (system_now : Z → Z).

Definition span_name (info : RequestInfo) : string :=
  match ri_method_name info with
  | Some name => name
  | None => "moonlight.rpc." +:+ hex (be_bytes 4 (ri_method_id info))
  end.

Definition OpenTelemetry_start_request : Telemetry OpenTelemetryObservation otel_call :=
  λ info received now,
    let clock := {| ck_instant := now; ck_system := system_now now |} in
    match Clock_system_time clock received with
    | None => ([ClockPanic], None)
    | Some start =>
        ([StartSpan (span_name info) SpanServer start
            [("rpc.system", AttrStr "moonlight_bridge");
             ("rpc.method_id", AttrInt (ri_method_id info));
             ("rpc.request_id", AttrStr (to_decimal (ri_request_id info)));
             ("rpc.request.size", AttrInt (cast_i64 (ri_request_bytes info)))]
            match ri_trace_context info with
            | Some parent => RemoteParent (trace_id parent) (parent_span_id parent) (sampled parent)
            | None => NoParent
            end],
         Some {| ot_clock := clock; ot_recording := recording info |})
    end.
End otel.

Definition stage_duration (duration : Z) : string * attribute_value :=
  ("stage.duration_ns", AttrInt (Z.min duration i64_max)).

Definition otel_record_stage_at (name : string) (started duration : Z)
    (self : OpenTelemetryObservation) : OpenTelemetryObservation * list otel_call :=
  (self,
   match Clock_system_time (ot_clock self) started with
   | None => [ClockPanic]
   | Some started_at =>
       let finished_at := started_at + duration in
       if system_max <? finished_at then [ClockPanic]
       else
         [StartSpan name SpanInternal started_at [stage_duration duration] RequestSpan;
          EndStageSpan finished_at;
          AddEvent "moonlight.stage" [("stage.name", AttrStr name); stage_duration duration]]
   end).

(** Instants do not go below zero. *)
Definition otel_record_stage (now : Z) (name : string) (duration : Z)
    (self : OpenTelemetryObservation) : OpenTelemetryObservation * list otel_call :=
  otel_record_stage_at name (if 0 <=? now - duration then now - duration else now) duration self.

#[export] Instance OpenTelemetryObservation_impl :
    RequestObservation OpenTelemetryObservation otel_call := {|
  record_stage := otel_record_stage;
  record_stage_at _ := otel_record_stage_at;
  wants_timing := ot_recording;
  finish _ outcome _ :=
    match outcome with
    | Success response_bytes =>
        [SetAttribute "rpc.response.size" (AttrInt (cast_i64 response_bytes)); SetStatusOk]
    | Failure code =>
        [SetAttribute "error.type" (AttrStr (ErrorCode_debug code));
         SetStatusError (ErrorCode_debug code)]
    end ++ [EndSpan];
  drop_open _ _ := [DropSpan];
|}.

(** * Sentry *)

Inductive SpanStatus :=
  | StatusOk | StatusDeadlineExceeded | StatusCancelled | StatusUnimplemented
  | StatusInvalidArgument | StatusResourceExhausted | StatusInternalError
  | StatusUnauthenticated | StatusPermissionDenied | StatusUnavailable | StatusDataLoss
  | StatusOutOfRange | StatusFailedPrecondition.

Definition span_status (code : ErrorCode) : SpanStatus :=
  match code with
  | ErrorCode.DeadlineExceeded => StatusDeadlineExceeded
  | ErrorCode.Cancelled => StatusCancelled
  | ErrorCode.UnknownMethod => StatusUnimplemented
  | ErrorCode.InvalidRequest => StatusInvalidArgument
  | ErrorCode.ResourceExhausted => StatusResourceExhausted
  | ErrorCode.Internal => StatusInternalError
  | ErrorCode.Unauthenticated => StatusUnauthenticated
  | ErrorCode.PermissionDenied => StatusPermissionDenied
  | ErrorCode.Unavailable => StatusUnavailable
  | ErrorCode.CompressionFailure => StatusDataLoss
  | ErrorCode.ReplayGap => StatusOutOfRange
  | ErrorCode.FailedPrecondition => StatusFailedPrecondition
  | ErrorCode.UnsupportedProtocol => StatusUnimplemented
  end.

Inductive sentry_call :=
  | StartTransaction (name op header : string)
  | SetData (key : string) (value : attribute_value)
  | SetStatus (status : SpanStatus)
  | FinishTransaction
  | LogDebug (fields : list (string * attribute_value)) (message : string)
  | CaptureMessage (fields : list (string * attribute_value)) (message : string).

(** Filtering of other framework events. *)
Inductive tracing_level := LevelError | LevelWarn | LevelInfo | LevelDebug | LevelTrace.
Inductive EventFilter := FilterIgnore | FilterLog.

Definition framework_event_filter (target : string) (level : tracing_level) : EventFilter :=
  if negb (String.prefix "moonlight_bridge" target) then FilterIgnore
  else match level with
       | LevelError | LevelWarn => FilterLog
       | _ => FilterIgnore
       end.

Definition trace_header (trace : TraceContext) : string :=
  hex (trace_id trace) +:+ "-" +:+ hex (parent_span_id trace) +:+ "-"
  +:+ (if sampled trace then "1" else "0").

Record SentryObservation := MkSentry {
  so_transaction : bool;
  so_info : RequestInfo;
  so_started : Z;
  so_stages : list (string * Z);
  so_finished : bool;
}.

Definition Sentry_start_request : Telemetry SentryObservation sentry_call := λ info _ now,
  (match ri_trace_context info with
   | Some trace =>
       let name := match ri_method_name info with
                   | Some name => name
                   | None => "MoonLightBridge method " +:+ to_decimal (ri_method_id info)
                   end in
       [StartTransaction name "rpc.server" (trace_header trace);
        SetData "rpc.system" (AttrStr "moonlight-bridge");
        SetData "rpc.method_id" (AttrInt (ri_method_id info));
        SetData "moonlight_bridge.request_id" (AttrInt (ri_request_id info));
        SetData "moonlight_bridge.request_bytes" (AttrInt (ri_request_bytes info))]
   | None => []
   end,
   Some {| so_transaction := match ri_trace_context info with Some _ => true | None => false end;
           so_info := info; so_started := now; so_stages := []; so_finished := false |}).

Definition sentry_record_stage (name : string) (duration : Z) (self : SentryObservation)
    : SentryObservation * list sentry_call :=
  ({| so_transaction := so_transaction self; so_info := so_info self;
      so_started := so_started self;
      so_stages := so_stages self ++ [(name, Z.min (duration / 1000) u64_max)];
      so_finished := so_finished self |}, []).

Definition stages_text (stages : list (string * Z)) : string :=
  String.concat "," (map (λ '(name, duration), name +:+ "=" +:+ to_decimal duration) stages).

(** The tags and extras of a captured message that name the request. *)
Definition request_fields (info : RequestInfo) : list (string * attribute_value) :=
  [("rpc.system", AttrStr "moonlight-bridge");
   ("rpc.method_id", AttrStr (to_decimal (ri_method_id info)));
   ("moonlight_bridge.request_id", AttrInt (ri_request_id info));
   ("moonlight_bridge.request_bytes", AttrInt (ri_request_bytes info))].

Section sentry.
(** Whether the build enables logs of successful requests. *)
Context (success_logs_enabled : bool).

(** The calls of [record]; the transaction is taken out of [self]. *)
Definition sentry_record (now : Z) (outcome : RequestOutcome) (self : SentryObservation)
    : list sentry_call :=
  let transaction := so_transaction self in
  let duration_micros := wrap64 (saturating_sub now (so_started self) / 1000) in
  (if transaction && negb (bool_decide (length (so_stages self) = 0%nat))
   then [SetData "moonlight_bridge.function_durations_us" (AttrStr (stages_text (so_stages self)))]
   else [])
  ++ match outcome with
     | Success response_bytes =>
         (if transaction
          then [SetData "moonlight_bridge.response_bytes" (AttrInt response_bytes);
                SetStatus StatusOk; FinishTransaction] else [])
         ++ (if success_logs_enabled
             then [LogDebug
                     [("rpc.system", AttrStr "moonlight-bridge");
                      ("rpc.method_id", AttrInt (ri_method_id (so_info self)));
                      ("moonlight_bridge.request_id", AttrInt (ri_request_id (so_info self)));
                      ("moonlight_bridge.request_bytes", AttrInt (ri_request_bytes (so_info self)));
                      ("moonlight_bridge.response_bytes", AttrInt response_bytes);
                      ("moonlight_bridge.duration_us", AttrInt duration_micros)]
                     "MoonLightBridge request completed"] else [])
     | Failure code =>
         (if transaction
          then [SetData "moonlight_bridge.error_code" (AttrStr (ErrorCode_debug code));
                SetStatus (span_status code); FinishTransaction] else [])
         ++ [CaptureMessage
               (request_fields (so_info self)
                ++ [("moonlight_bridge.duration_us", AttrInt duration_micros);
                    ("moonlight_bridge.error_code", AttrStr (ErrorCode_debug code))])
               "MoonLightBridge RPC request failed"]
     end.

Definition sentry_drop (now : Z) (self : SentryObservation) : list sentry_call :=
  if so_finished self then [] else sentry_record now (Failure ErrorCode.Cancelled) self.

(** [finish] sets the flag, records, which takes the transaction, and drops. *)
Definition sentry_finish (now : Z) (outcome : RequestOutcome) (self : SentryObservation)
    : list sentry_call :=
  sentry_record now outcome self
  ++ sentry_drop now {| so_transaction := false; so_info := so_info self;
                        so_started := so_started self; so_stages := so_stages self;
                        so_finished := true |}.

Definition SentryObservation_impl : RequestObservation SentryObservation sentry_call := {|
  record_stage _ := sentry_record_stage;
  record_stage_at _ name _ := sentry_record_stage name;
  wants_timing _ := false;
  finish := sentry_finish;
  drop_open := sentry_drop;
|}.
End sentry.

(** * Specification *)

(** The counters of an exporter as a snapshot. *)
Definition exported (e : PrometheusSnapshotExporter) : MetricsSnapshot :=
  {| started := pe_started e; succeeded := pe_succeeded e; failed := pe_failed e;
     request_bytes := pe_request_bytes e; response_bytes := pe_response_bytes e;
     total_latency_nanos := pe_latency_nanos e; max_latency_nanos := pe_max_latency_nanos e |}.

(** The gauge is an [i64]. *)
Definition capped (s : MetricsSnapshot) : MetricsSnapshot :=
  {| started := started s; succeeded := succeeded s; failed := failed s;
     request_bytes := request_bytes s; response_bytes := response_bytes s;
     total_latency_nanos := total_latency_nanos s;
     max_latency_nanos := Z.min (max_latency_nanos s) i64_max |}.

Definition snapshot_le (s s' : MetricsSnapshot) : Prop := ∀ c, load c s <= load c s'.
Definition snapshot_u64 (s : MetricsSnapshot) : Prop := ∀ c, 0 <= load c s <= u64_max.

(** The snapshots of the calls that got the lock. *)
Definition accepted (updates : list (bool * MetricsSnapshot)) : list MetricsSnapshot :=
  omap (λ u : bool * MetricsSnapshot, if u.1 then None else Some u.2) updates.
Definition refused (updates : list (bool * MetricsSnapshot)) : list (bool * MetricsSnapshot) :=
  List.filter fst updates.

(** The outcome of a request: a drop without a finish is a cancellation. *)
Definition ended (outcome : option RequestOutcome) : RequestOutcome :=
  default (Failure ErrorCode.Cancelled) outcome.

Definition sentry_terminal (c : sentry_call) : bool :=
  match c with
  | SetStatus _ | FinishTransaction | LogDebug _ _ | CaptureMessage _ _ => true
  | _ => false
  end.

(** What is reported of an ended request, fields aside. *)
Definition sentry_report (logs traced : bool) (outcome : RequestOutcome) (c : list sentry_call)
    : Prop :=
  let status := match outcome with Success _ => StatusOk | Failure code => span_status code end in
  ∃ message, c = (if traced then [SetStatus status; FinishTransaction] else []) ++ message ∧
  match outcome with
  | Success _ => message = [] ∧ logs = false ∨
                 logs = true ∧ ∃ fields, message = [LogDebug fields "MoonLightBridge request completed"]
  | Failure code => ∃ fields, message = [CaptureMessage fields "MoonLightBridge RPC request failed"] ∧
                    ("moonlight_bridge.error_code", AttrStr (ErrorCode_debug code)) ∈ fields
  end.

(** * Lemmas *)

Lemma inc_by_delta p c : 0 <= p → p <= c → c <= u64_max → inc_by (saturating_sub c p) p = c.
Proof.
  intros. unfold inc_by, wrap64, saturating_sub, u64_max in *. rewrite Z.mod_small; lia.
Qed.

(** An update in order leaves the counters at the snapshot. *)
Lemma try_update_in_order e current :
  exported e = capped (pe_previous e) → snapshot_u64 (pe_previous e) → snapshot_u64 current →
  snapshot_le (pe_previous e) current →
  exported (try_update false current e).2 = capped current.
Proof.
  intros He Hp Hc Hle. unfold exported, capped in He. injection He as H1 H2 H3 H4 H5 H6 _.
  unfold try_update, exported, capped. simpl. rewrite H1, H2, H3, H4, H5, H6.
  pose proof (λ c, inc_by_delta (load c (pe_previous e)) (load c current)
    (proj1 (Hp c)) (Hle c) (proj2 (Hc c))) as H.
  pose proof (H CStarted). pose proof (H CSucceeded). pose proof (H CFailed).
  pose proof (H CRequestBytes). pose proof (H CResponseBytes). pose proof (H CLatency).
  simpl in *. congruence.
Qed.

Lemma run_updates_tracks updates e :
  exported e = capped (pe_previous e) → snapshot_u64 (pe_previous e) →
  Forall snapshot_u64 (accepted updates) → Sorted snapshot_le (pe_previous e :: accepted updates) →
  exported (run_updates updates e) = capped (default (pe_previous e) (last (accepted updates))) ∧
  pe_exporter_drops (run_updates updates e) =
    foldr (λ _, inc_by 1) (pe_exporter_drops e) (refused updates).
Proof.
  revert e. induction updates as [|[[] s] updates IH]; intros e He Hp Hu Hs.
  - done.
  - destruct (IH (try_update true s e).2) as [H1 H2]; [exact He|exact Hp|exact Hu|exact Hs|].
    split; [exact H1|].
    change (run_updates ((true, s) :: updates) e) with (run_updates updates (try_update true s e).2).
    rewrite H2. simpl. clear. induction (refused updates); simpl; congruence.
  - change (accepted ((false, s) :: updates)) with (s :: accepted updates) in Hu, Hs |- *.
    apply Forall_cons in Hu as [Hsu Hu]. apply Sorted_inv in Hs as [Hs Hle].
    apply HdRel_inv in Hle.
    destruct (IH (try_update false s e).2) as [H1 H2]; 
      [by apply try_update_in_order|exact Hsu|exact Hu|exact Hs|].
    change (run_updates ((false, s) :: updates) e) with (run_updates updates (try_update false s e).2).
    split; [|exact H2]. rewrite H1. simpl pe_previous.
    rewrite last_cons. by destruct (last (accepted updates)).
Qed.

(** Without order, the counters still never decrease below what they had. *)
Lemma inc_by_drops {A} n (l : list A) : 0 <= n <= u64_max → foldr (λ _, inc_by 1) n l = wrap64 (n + zlen l).
Proof.
  intros Hn. induction l as [|x l IH]; simpl.
  - rewrite zlen_nil. unfold wrap64, u64_max in *. rewrite Z.mod_small; lia.
  - rewrite IH, zlen_cons. unfold inc_by. rewrite wrap64_add. f_equal. lia.
Qed.

(** The stages of the calls on an observation, in microseconds. *)
Definition call_stage (c : Z * call) : string * Z :=
  match c.2 with
  | Stage name duration | StageAt name _ duration => (name, Z.min (duration / 1000) u64_max)
  end.

Definition with_stages (self : SentryObservation) (stages : list (string * Z)) : SentryObservation :=
  {| so_transaction := so_transaction self; so_info := so_info self;
     so_started := so_started self; so_stages := stages; so_finished := so_finished self |}.

Lemma sentry_observe logs calls last outcome self :
  mjoin (observe (RequestObservation0 := SentryObservation_impl logs) calls last outcome self) =
  do_end (RequestObservation0 := SentryObservation_impl logs) last outcome
    (with_stages self (so_stages self ++ map call_stage calls)).
Proof.
  revert self. induction calls as [|[now c] calls IH]; intros self.
  - simpl. rewrite !app_nil_r. by destruct self.
  - rewrite observe_cons. cbn [mjoin list_join]. rewrite IH.
    destruct c; simpl; by rewrite <- (assoc_L (++)).
Qed.

Lemma sentry_record_report logs now outcome self :
  sentry_report logs (so_transaction self) outcome
    (List.filter sentry_terminal (sentry_record logs now outcome self)).
Proof.
  unfold sentry_record, sentry_report. rewrite List.filter_app.
  assert (List.filter sentry_terminal
    (if so_transaction self && negb (bool_decide (length (so_stages self) = 0%nat))
     then [SetData "moonlight_bridge.function_durations_us" (AttrStr (stages_text (so_stages self)))]
     else []) = []) as -> by by destruct (_ && _).
  rewrite app_nil_l. destruct outcome as [n|code]; rewrite List.filter_app.
  - destruct (so_transaction self), logs; simpl; eexists; (split; [reflexivity|]); eauto.
  - destruct (so_transaction self); simpl; eexists; (split; [reflexivity|]); eexists;
      (split; [reflexivity|]); set_solver.
Qed.

(** * Theorems *)

(** The Prometheus counters are the metrics: after any sequence of updates
    with snapshots in order, some of them dropped because another was in
    progress, every exported counter equals the last applied snapshot, the gauge
    its largest latency, and the drop counter the number of dropped updates. *)
Theorem prometheus_tracks updates :
  Forall snapshot_u64 (accepted updates) →
  Sorted snapshot_le (MetricsInner_default :: accepted updates) →
  let e := run_updates updates PrometheusSnapshotExporter_new in
  exported e = capped (default MetricsInner_default (last (accepted updates))) ∧
  pe_exporter_drops e = wrap64 (zlen (refused updates)).
Proof.
  intros Hu Hs. destruct (run_updates_tracks updates PrometheusSnapshotExporter_new) as [H1 H2];
    [done|by intros []|done|done|]. split; [exact H1|].
  cbv zeta. rewrite H2. by apply (inc_by_drops 0).
Qed.

(** OpenTelemetry shows a request as it was: the request span starts when the
    frame was read and continues the propagated trace, and each stage is a child
    of it at the real offset from that start, with its real duration. *)
Theorem otel_stage_offsets recording system_now info received now name began duration :
  received <= now → received <= began → 0 <= duration →
  system_min <= system_now now - (now - received) →
  system_now now <= system_max →
  system_now now + (began + duration - now) <= system_max →
  let start := system_now now - (now - received) in
  ∃ attributes o,
    OpenTelemetry_start_request recording system_now info received now =
      ([StartSpan (span_name info) SpanServer start attributes
          match ri_trace_context info with
          | Some t => RemoteParent (trace_id t) (parent_span_id t) (sampled t)
          | None => NoParent
          end], Some o) ∧
    record_stage_at now name began duration o =
      (o, [StartSpan name SpanInternal (start + (began - received)) [stage_duration duration] RequestSpan;
           EndStageSpan (start + (began - received) + duration);
           AddEvent "moonlight.stage" [("stage.name", AttrStr name); stage_duration duration]]).
Proof.
  intros Hr Hb Hd Hmin Hmax Hend start.
  assert (∀ t, received <= t → system_now now + (t - now) <= system_max →
    Clock_system_time {| ck_instant := now; ck_system := system_now now |} t =
    Some (start + (t - received))) as Hclock.
  { intros t Ht Htm. unfold Clock_system_time. simpl. destruct (Z.leb_spec now t).
    - rewrite (proj2 (Z.leb_le _ _)) by lia. f_equal. lia.
    - rewrite (proj2 (Z.leb_le _ _)) by lia. f_equal. lia. }
  unfold OpenTelemetry_start_request. rewrite (Hclock received) by lia.
  rewrite Z.sub_diag, Z.add_0_r. eexists _, _. split; [reflexivity|].
  simpl. unfold otel_record_stage_at. simpl. rewrite (Hclock began) by lia.
  by rewrite (proj2 (Z.ltb_ge _ _)) by lia.
Qed.

(** Sentry hears of every request once: whatever stages are recorded, and
    whether the request is finished or dropped, which counts as cancelled, a
    request with a trace context gets one transaction that is closed once with
    the status of its outcome, a failure is captured once with its error code,
    a success is logged only when the build asks for it, and nothing follows the
    end; the recorded stages are those of the request, in order. *)
Theorem sentry_reports_once logs info received now calls last outcome :
  ∃ start o,
    Sentry_start_request info received now = (start, Some o) ∧
    mjoin (observe (RequestObservation0 := SentryObservation_impl logs) calls last outcome o) =
      sentry_record logs last (ended outcome) (with_stages o (map call_stage calls)) ∧
    sentry_report logs match ri_trace_context info with Some _ => true | None => false end
      (ended outcome)
      (List.filter sentry_terminal
         (start ++ mjoin (observe (RequestObservation0 := SentryObservation_impl logs) calls last
                            outcome o))).
Proof.
  eexists _, _. split; [reflexivity|]. rewrite sentry_observe.
  match goal with |- ?e = ?r ∧ _ => assert (e = r) as -> end.
  { destruct outcome; simpl; unfold sentry_finish, sentry_drop; simpl; [by rewrite app_nil_r|done]. }
  split; [done|]. rewrite List.filter_app.
  match goal with |- context [List.filter sentry_terminal ?l ++ _] =>
    assert (List.filter sentry_terminal l = []) as -> by by destruct (ri_trace_context info) end.
  rewrite app_nil_l. exact (sentry_record_report _ _ _ (with_stages _ _)).
Qed.

(** The header of a propagated trace determines it. *)
Lemma trace_header_inj t t' :
  TraceContext_wf t → TraceContext_wf t' → trace_header t = trace_header t' → t = t'.
Proof.
  intros [Ht1 Ht2] [Ht1' Ht2'] H. unfold trace_header in H.
  apply append_inj_length in H as [H1 H]; [|by rewrite !hex_length, Ht1, Ht1'].
  injection H as H.
  apply (append_inj_length (hex (parent_span_id t)) (hex (parent_span_id t'))) in H as [H2 H];
    [|by rewrite !hex_length, Ht2, Ht2'].
  injection H as H. apply hex_inj in H1, H2.
  destruct t as [? ? []], t' as [? ? []]; simpl in *; subst; done.
Qed.

(** ** Witnesses *)

Definition counts (n : Z) : MetricsSnapshot :=
  {| started := n; succeeded := n; failed := 0; request_bytes := 10 * n; response_bytes := 2 * n;
     total_latency_nanos := 100 * n; max_latency_nanos := 2 ^ 64 - 1 |}.

Lemma prometheus_tracks_witness :
  let e := run_updates [(false, counts 3); (true, counts 4); (false, counts 9)]
             PrometheusSnapshotExporter_new in
  exported e = capped (counts 9) ∧ pe_exporter_drops e = 1.
Proof.
  apply (prometheus_tracks [(false, counts 3); (true, counts 4); (false, counts 9)]).
  - apply Forall_cons. split; [intros []; vm_compute; split; congruence|].
    apply Forall_cons. split; [intros []; vm_compute; split; congruence|apply Forall_nil_2].
  - apply Sorted_cons; [apply Sorted_cons; [apply Sorted_cons; [apply Sorted_nil|apply HdRel_nil]|]|];
      apply HdRel_cons; intros []; vm_compute; congruence.
Defined.

Lemma otel_stage_offsets_witness :
  ∃ attributes o,
    OpenTelemetry_start_request (λ _, true) (λ t, 1000000 + t) sample_info 10 15 =
      ([StartSpan "moonlight.rpc.00000007" SpanServer 1000010 attributes NoParent], Some o) ∧
    record_stage_at 15 "handler" 14 2 o =
      (o, [StartSpan "handler" SpanInternal 1000014 [stage_duration 2] RequestSpan;
           EndStageSpan 1000016;
           AddEvent "moonlight.stage" [("stage.name", AttrStr "handler"); stage_duration 2]]).
Proof.
  apply (otel_stage_offsets (λ _, true) (λ t, 1000000 + t) sample_info 10 15 "handler" 14 2);
    by vm_compute.
Defined.

(** * The OTLP exporter *)

(** [observability/src/otlp.rs] configures an exporter, a resource and a provider
    of the OpenTelemetry SDK, which are parameters: [span_exporter] is the
    HTTP exporter with binary encoding for an endpoint, [named_resource] a
    resource with a service name, and [provider] a provider with a batch exporter
    and, if one is set, a resource. *)
Section otlp.
Context {SpanExporter Resource SdkTracerProvider ExporterBuildError : Type}.
Context (span_exporter : string → result ExporterBuildError SpanExporter).
Context (named_resource : string → Resource).
Context (provider : SpanExporter → option Resource → SdkTracerProvider).

Definition service_resource (service_name : string) : Resource := named_resource service_name.

Definition build_tracer_provider (endpoint : string) (service_name : option string)
    : result ExporterBuildError SdkTracerProvider :=
  exporter ← span_exporter endpoint;
  Ok (provider exporter (service_resource <$> service_name)).

Definition tracer_provider (endpoint : string) : result ExporterBuildError SdkTracerProvider :=
  build_tracer_provider endpoint None.

Definition tracer_provider_with_service (endpoint service_name : string)
    : result ExporterBuildError SdkTracerProvider :=
  build_tracer_provider endpoint (Some service_name).

(** A name decides the resource and nothing else: with or without one, the
    provider is built exactly for the endpoints that have an exporter, and the
    error is the exporter's. *)
Lemma tracer_provider_named endpoint name :
  match tracer_provider endpoint, tracer_provider_with_service endpoint name with
  | Ok p, Ok p' =>
      ∃ e, span_exporter endpoint = Ok e ∧ p = provider e None ∧
        p' = provider e (Some (service_resource name))
  | Err e, Err e' => e = e' ∧ span_exporter endpoint = Err e
  | _, _ => False
  end.
Proof.
  unfold tracer_provider, tracer_provider_with_service, build_tracer_provider.
  destruct (span_exporter endpoint) as [e|e]; simpl; eauto.
Qed.
End otlp.

(** * Behaviour at the edges *)

(** A snapshot that arrives after a newer one counts a part of it twice: the
    update does not undo what the newer one added, and becomes the base of the
    next difference.  Here the counters stand at 13 of 10 requests. *)
Example stale_snapshot_counts_twice :
  let e := run_updates [(false, counts 10); (false, counts 7); (false, counts 10)]
             PrometheusSnapshotExporter_new in
  started (exported e) = 13 ∧ started (pe_previous e) = 10.
Proof. vm_compute. done. Qed.
