(* ===== verification/Connection.v ===== *)
(** One server connection of [moonlight-bridge-server/src/lib.rs]: the handshake,
    the reader task and its inbox, the connection loop with its request tasks,
    cancellation, stream credits and draining, as a state machine over
    interleaved events.  A request task runs in steps from one await to the next:
    its first poll, the parsing of its request, the handler, and every item of a
    stream. *)
From S2P Require Import Prelude OrdMap Compression Protocol Metadata Transport Outbound.
From S2P Require Import Middleware Router Dispatch.

(** * Runtime state shared by the connections *)

Record RuntimeState := MkRuntimeState {
  rt_ready : bool;
  rt_active_connections : Z;
  rt_active_requests : Z;
  rt_max_in_flight : Z;
  rt_draining : bool;
  rt_drain_value : bool;
  rt_force_value : bool;
}.

Record ServerHealth := MkServerHealth {
  h_ready : bool;
  h_active_connections : Z;
  h_active_requests : Z;
  h_max_in_flight_per_connection : Z;
  h_uptime_millis : Z;
}.

Definition HealthHandle_snapshot (rt : RuntimeState) (uptime_millis : Z) : ServerHealth :=
  {| h_ready := rt_ready rt;
     h_active_connections := rt_active_connections rt;
     h_active_requests := rt_active_requests rt;
     h_max_in_flight_per_connection := rt_max_in_flight rt;
     h_uptime_millis := uptime_millis |}.

Definition health_body (h : ServerHealth) : bytes :=
  [b8 VERSION] ++ [if h_ready h then x01 else x00] ++ [x00; x00]
  ++ be_bytes 8 (h_active_connections h) ++ be_bytes 8 (h_active_requests h)
  ++ be_bytes 4 (h_max_in_flight_per_connection h)
  ++ be_bytes 8 (Z.min (h_uptime_millis h) u64_max).

(** * Handshake *)

Definition negotiate (client server : PeerSettingsV2) : PeerSettingsV2 :=
  {| max_body_len := Z.min (max_body_len client) (max_body_len server);
     max_decoded_body_len := Z.min (max_decoded_body_len client) (max_decoded_body_len server);
     max_metadata_len := Z.min (max_metadata_len client) (max_metadata_len server);
     max_in_flight := Z.min (max_in_flight client) (max_in_flight server);
     max_concurrent_streams :=
       Z.min (max_concurrent_streams client) (max_concurrent_streams server);
     initial_stream_credit :=
       Z.min (initial_stream_credit client) (initial_stream_credit server);
     compression_codecs := Z.land (compression_codecs client) (compression_codecs server);
     features := Z.land (features client) (features server);
     diagnostic_features := Z.land (diagnostic_features client) (diagnostic_features server) |}.

(** The handshake on the client's bytes: the settings, the bytes written and the
    rest of the stream. *)
Definition handshake (s : Stream) (server : PeerSettingsV2)
    : result IoError (PeerSettingsV2 * bytes * Stream) :=
  '(hello, s) ← timeout_io "MoonLightBridge HELLO timed out" (read_frame s SETTINGS_BODY_LEN);
  if negb (bool_decide (kind hello = FrameKind.Hello)) || negb (request_id hello =? 0)
  then Err (io_error ErrorKind.InvalidData "HELLO must be the first frame")
  else
    client ← map_err invalid_data (PeerSettingsV2_decode (body hello));
    let negotiated := negotiate client server in
    written ← write_frame [] (Frame_new FrameKind.Welcome 0 0 (PeerSettingsV2_encode negotiated));
    Ok (negotiated, written, s).

(** * The connection *)

Record ActiveRequest := MkActiveRequest {
  ar_task : nat;
  ar_streaming : bool;
}.

(** How far a request task is: spawned, polled for the first time, with its
    request parsed, or delivering a stream.  A parsed request holds the bytes
    that were reserved for its decoded payload until the task ends. *)
Inductive phase :=
  | Spawned
  | Polled
  | Parsed (parsed : ParsedRequest)
  | Delivering (permit : option DecodedBytePermit) (d : Delivery).

Record Task := MkTask {
  tk_frame : Frame;
  tk_credits : option Z;
  tk_body_permit : Z;
  tk_phase : phase;
  tk_aborted : bool;
}.

Definition tk_started (t : Task) : bool :=
  match tk_phase t with Spawned => false | _ => true end.

(** The reservation a task holds. *)
Definition tk_permit (t : Task) : option DecodedBytePermit :=
  match tk_phase t with
  | Parsed parsed => pr_decoded_permit parsed
  | Delivering permit _ => permit
  | _ => None
  end.

Inductive connection_status :=
  | Running
  | Closed (r : result IoError unit).

(** What the reader task has read and the loop has not taken: the permit of a
    body that is still arriving, and the channel of frames, with the frame that
    waits for room in it as the last one. *)
Record Inbox := MkInbox {
  in_partial : Z;
  in_queue : list (result IoError BufferedFrame);
}.

Definition empty_inbox : Inbox := {| in_partial := 0; in_queue := [] |}.

Definition item_permits (r : result IoError BufferedFrame) : Z :=
  match r with Ok bf => permits_of bf | Err _ => 0 end.

Definition inbox_bytes (i : Inbox) : Z := in_partial i + zsum item_permits (in_queue i).

Record Connection := MkConnection {
  cn_status : connection_status;
  cn_draining : bool;
  cn_permits : Z;
  cn_active : gmap Z ActiveRequest;
  cn_tasks : gmap nat Task;
  cn_next : nat;
  cn_notified : bool;
  cn_writer_open : bool;
  cn_sent : list Frame;
  cn_received : list Frame;
  cn_inbox : Inbox;
  cn_request_capacity : Z;
  cn_request_bytes : Z;
  cn_budget : BudgetInner;
  cn_runtime : RuntimeState;
}.

(** [Semaphore::MAX_PERMITS] *)
Definition MAX_PERMITS : Z := Z.shiftr usize_max 3.

Section connection.
Context `{Z0 : ZstdOps}.
Context (router : Router) (peer : option PeerIdentity).
Context (negotiated : PeerSettingsV2) (policy : CompressionPolicy).

(** ** Record updates *)

Definition set_status (c : Connection) (s : connection_status) : Connection :=
  {| cn_status := s; cn_draining := cn_draining c; cn_permits := cn_permits c;
     cn_active := cn_active c; cn_tasks := cn_tasks c; cn_next := cn_next c;
     cn_notified := cn_notified c; cn_writer_open := cn_writer_open c; cn_sent := cn_sent c; cn_received := cn_received c;
     cn_inbox := cn_inbox c; cn_request_capacity := cn_request_capacity c; cn_request_bytes := cn_request_bytes c; cn_budget := cn_budget c;
     cn_runtime := cn_runtime c |}.

Definition set_draining (c : Connection) : Connection :=
  {| cn_status := cn_status c; cn_draining := true; cn_permits := cn_permits c;
     cn_active := cn_active c; cn_tasks := cn_tasks c; cn_next := cn_next c;
     cn_notified := cn_notified c; cn_writer_open := cn_writer_open c; cn_sent := cn_sent c; cn_received := cn_received c;
     cn_inbox := cn_inbox c; cn_request_capacity := cn_request_capacity c; cn_request_bytes := cn_request_bytes c; cn_budget := cn_budget c;
     cn_runtime := cn_runtime c |}.

Definition set_notified (c : Connection) (b : bool) : Connection :=
  {| cn_status := cn_status c; cn_draining := cn_draining c; cn_permits := cn_permits c;
     cn_active := cn_active c; cn_tasks := cn_tasks c; cn_next := cn_next c;
     cn_notified := b; cn_writer_open := cn_writer_open c; cn_sent := cn_sent c; cn_received := cn_received c;
     cn_inbox := cn_inbox c; cn_request_capacity := cn_request_capacity c; cn_request_bytes := cn_request_bytes c; cn_budget := cn_budget c;
     cn_runtime := cn_runtime c |}.

Definition push_sent (c : Connection) (fs : list Frame) : Connection :=
  {| cn_status := cn_status c; cn_draining := cn_draining c; cn_permits := cn_permits c;
     cn_active := cn_active c; cn_tasks := cn_tasks c; cn_next := cn_next c;
     cn_notified := cn_notified c; cn_writer_open := cn_writer_open c;
     cn_sent := cn_sent c ++ fs; cn_received := cn_received c;
     cn_inbox := cn_inbox c; cn_request_capacity := cn_request_capacity c; cn_request_bytes := cn_request_bytes c; cn_budget := cn_budget c;
     cn_runtime := cn_runtime c |}.

Definition set_tasks (c : Connection) (active : gmap Z ActiveRequest) (tasks : gmap nat Task)
    : Connection :=
  {| cn_status := cn_status c; cn_draining := cn_draining c; cn_permits := cn_permits c;
     cn_active := active; cn_tasks := tasks; cn_next := cn_next c;
     cn_notified := cn_notified c; cn_writer_open := cn_writer_open c; cn_sent := cn_sent c; cn_received := cn_received c;
     cn_inbox := cn_inbox c; cn_request_capacity := cn_request_capacity c; cn_request_bytes := cn_request_bytes c; cn_budget := cn_budget c;
     cn_runtime := cn_runtime c |}.

Definition push_received (c : Connection) (f : Frame) : Connection :=
  {| cn_status := cn_status c; cn_draining := cn_draining c; cn_permits := cn_permits c;
     cn_active := cn_active c; cn_tasks := cn_tasks c; cn_next := cn_next c;
     cn_notified := cn_notified c; cn_writer_open := cn_writer_open c; cn_sent := cn_sent c;
     cn_received := cn_received c ++ [f];
     cn_inbox := cn_inbox c; cn_request_capacity := cn_request_capacity c; cn_request_bytes := cn_request_bytes c; cn_budget := cn_budget c;
     cn_runtime := cn_runtime c |}.

(** The state shared with the other connections of the server. *)
Definition set_shared (c : Connection) (request_bytes : Z) (budget : BudgetInner)
    (rt : RuntimeState) : Connection :=
  {| cn_status := cn_status c; cn_draining := cn_draining c; cn_permits := cn_permits c;
     cn_active := cn_active c; cn_tasks := cn_tasks c; cn_next := cn_next c;
     cn_notified := cn_notified c; cn_writer_open := cn_writer_open c; cn_sent := cn_sent c;
     cn_received := cn_received c;
     cn_inbox := cn_inbox c; cn_request_capacity := cn_request_capacity c;
     cn_request_bytes := request_bytes; cn_budget := budget; cn_runtime := rt |}.

Definition set_inbox (c : Connection) (inbox : Inbox) (request_bytes : Z) : Connection :=
  {| cn_status := cn_status c; cn_draining := cn_draining c; cn_permits := cn_permits c;
     cn_active := cn_active c; cn_tasks := cn_tasks c; cn_next := cn_next c;
     cn_notified := cn_notified c; cn_writer_open := cn_writer_open c; cn_sent := cn_sent c;
     cn_received := cn_received c; cn_inbox := inbox;
     cn_request_capacity := cn_request_capacity c; cn_request_bytes := request_bytes;
     cn_budget := cn_budget c; cn_runtime := cn_runtime c |}.

(** ** The reader task *)

(** [read_frame_buffered] has the permits for the body of the next frame. *)
Definition reader_acquire (c : Connection) (n : Z) : Connection :=
  set_inbox c {| in_partial := n; in_queue := in_queue (cn_inbox c) |} (cn_request_bytes c - n).

(** It has returned [r], which is sent to the loop; an error drops the permits. *)
Definition reader_send (c : Connection) (r : result IoError BufferedFrame) : Connection :=
  set_inbox c {| in_partial := 0; in_queue := in_queue (cn_inbox c) ++ [r] |}
    (match r with
     | Ok _ => cn_request_bytes c
     | Err _ => cn_request_bytes c + in_partial (cn_inbox c)
     end).

(** The reader goes on until it has sent an error, and reads the next frame when
    the channel has taken the one before. *)
Definition reader_live (c : Connection) : bool :=
  forallb (λ r, match r with Ok _ => true | Err _ => false end) (in_queue (cn_inbox c))
  && (zlen (in_queue (cn_inbox c)) <=? max_in_flight negotiated).

(** What a read can return: a frame with the permits of its body, or an error. *)
Definition can_return (c : Connection) (r : result IoError BufferedFrame) : Prop :=
  match r with
  | Ok bf =>
      Frame_wf (bf_frame bf) ∧ zlen (body (bf_frame bf)) ≤ max_body_len negotiated ∧
      permits_of bf = zlen (body (bf_frame bf)) ∧ permits_of bf = in_partial (cn_inbox c)
  | Err _ => True
  end.

(** The loop has received an item.  The permit of a frame is dropped with it
    unless its task takes it over, which is the same step. *)
Definition loop_recv (c : Connection) (r : result IoError BufferedFrame)
    (queue : list (result IoError BufferedFrame)) : Connection :=
  set_inbox c {| in_partial := in_partial (cn_inbox c); in_queue := queue |}
    (cn_request_bytes c + item_permits r).

(** The reader is aborted and the channel dropped. *)
Definition drop_inbox (c : Connection) : Connection :=
  set_inbox c empty_inbox (cn_request_bytes c + inbox_bytes (cn_inbox c)).

(** ** Leaving the loop *)

Definition abort_task (t : Task) : Task :=
  {| tk_frame := tk_frame t; tk_credits := tk_credits t; tk_body_permit := tk_body_permit t;
     tk_phase := tk_phase t; tk_aborted := true |}.

(** The epilogue: the tasks of the table are aborted and the table is empty. *)
Definition close (c : Connection) (r : result IoError unit) : Connection :=
  let listed := ar_task <$> (map_to_list (cn_active c)).*2 in
  set_status
    (set_tasks c ∅
       (map_imap (λ tid t, Some (if bool_decide (tid ∈ listed) then abort_task t else t))
          (cn_tasks c)))
    (Closed r).

Definition writer_stopped : IoError := io_error ErrorKind.BrokenPipe "response writer stopped".
Definition writer_closed : IoError := io_error ErrorKind.BrokenPipe "response writer closed".

(** [responses_tx.send(f).await] in the loop, and its exit with [e] when the
    writer is gone.  The response queue takes ERROR, PONG, HEALTH_STATUS and
    GOAWAY frames as they are, at once or when their permits are free
    ([queue_form_kept]); [on_hub_event] treats events. *)
Definition send_or_close (c : Connection) (f : Frame) (e : IoError) : Connection :=
  if cn_writer_open c then push_sent c [f] else close c (Err e).

Definition protocol_error (c : Connection) (text : string) : Connection :=
  close c (Err (io_error ErrorKind.InvalidData text)).

(** ** Frames from the client *)

(** A request that passed its checks: its task and its table entry. *)
Definition spawn_request (c : Connection) (f : Frame) (body_permit : Z) (streaming : bool)
    : Connection :=
  let tid := cn_next c in
  {| cn_status := cn_status c; cn_draining := cn_draining c;
     cn_permits := cn_permits c - 1;
     cn_active := <[request_id f := {| ar_task := tid; ar_streaming := streaming |}]> (cn_active c);
     cn_tasks := <[tid := {| tk_frame := f;
                             tk_credits := if streaming then Some 0 else None;
                             tk_body_permit := body_permit;
                             tk_phase := Spawned; tk_aborted := false |}]> (cn_tasks c);
     cn_next := S tid;
     cn_notified := cn_notified c; cn_writer_open := cn_writer_open c; cn_sent := cn_sent c; cn_received := cn_received c;
     cn_inbox := cn_inbox c; cn_request_capacity := cn_request_capacity c; cn_request_bytes := cn_request_bytes c - body_permit;
     cn_budget := cn_budget c; cn_runtime := cn_runtime c |}.

Definition on_request (c : Connection) (f : Frame) (body_permit : Z) : Connection :=
  if cn_draining c
  then send_or_close c
         (error_frame f ErrorCode.Unavailable (as_bytes "server connection is draining"))
         writer_stopped
  else if request_id f =? 0
  then protocol_error c "REQUEST request_id must not be zero"
  else if cn_permits c <=? 0
  then send_or_close c
         (error_frame f ErrorCode.ResourceExhausted (as_bytes "too many active requests"))
         writer_closed
  else
    let streaming := is_streaming router (method_id f) in
    if streaming && (Z.land (features negotiated) FEATURE_SERVER_STREAMING =? 0)
    then send_or_close c
           (error_frame f ErrorCode.InvalidRequest
              (as_bytes "server streaming was not negotiated")) writer_stopped
    else if bool_decide (is_Some (cn_active c !! request_id f))
    then protocol_error c "duplicate active request_id"
    else spawn_request c f body_permit streaming.

Definition on_cancel (c : Connection) (f : Frame) : Connection :=
  match cn_active c !! request_id f with
  | Some request =>
      set_notified
        (set_tasks c (delete (request_id f) (cn_active c))
           (alter abort_task (ar_task request) (cn_tasks c))) true
  | None => c
  end.

Definition add_credits (count : Z) (t : Task) : Task :=
  {| tk_frame := tk_frame t;
     tk_credits :=
       (λ available, available + Z.min count (saturating_sub MAX_PERMITS available))
         <$> tk_credits t;
     tk_body_permit := tk_body_permit t; tk_phase := tk_phase t;
     tk_aborted := tk_aborted t |}.

Definition on_stream_credit (c : Connection) (f : Frame) : Connection :=
  if negb (method_id f =? 0) || (request_id f =? 0) || negb (zlen (body f) =? 8)
  then protocol_error c "invalid STREAM_CREDIT frame"
  else
    let count := be_val (body f) in
    if count =? 0 then protocol_error c "STREAM_CREDIT must be positive"
    else
      match cn_active c !! request_id f with
      | None => c
      | Some request =>
          if negb (ar_streaming request) then protocol_error c "credits target a unary request"
          else set_tasks c (cn_active c)
                 (alter (add_credits count) (ar_task request) (cn_tasks c))
      end.

Definition on_ping (c : Connection) (f : Frame) : Connection :=
  if request_id f =? 0 then protocol_error c "PING request_id must not be zero"
  else send_or_close c (Frame_new FrameKind.Pong 0 (request_id f) (body f)) writer_closed.

Definition on_health (c : Connection) (f : Frame) (uptime_millis : Z) : Connection :=
  if (request_id f =? 0) || negb (method_id f =? 0) || negb (bool_decide (body f = []))
  then protocol_error c "invalid HEALTH frame"
  else send_or_close c
         (Frame_new FrameKind.HealthStatus 0 (request_id f)
            (health_body (HealthHandle_snapshot (cn_runtime c) uptime_millis))) writer_closed.

Definition on_frame (c : Connection) (bf : BufferedFrame) (uptime_millis : Z) : Connection :=
  let f := bf_frame bf in
  match kind f with
  | FrameKind.Request => on_request c f (permits_of bf)
  | FrameKind.Cancel => on_cancel c f
  | FrameKind.StreamCredit => on_stream_credit c f
  | FrameKind.Ping => on_ping c f
  | FrameKind.Health => on_health c f uptime_millis
  | FrameKind.Goodbye => close c (Ok tt)
  | _ => protocol_error c "unexpected client frame kind"
  end.

(** ** Other events of the loop *)

(** An event that finds no [room] in the byte budgets of the response queue is
    dropped there, whether or not the writer runs. *)
Definition on_hub_event (c : Connection) (f : Frame) (room : bool) : Connection :=
  if zlen (body f) >? max_decoded_body_len negotiated then c
  else
    match queue_form room f with
    | [] => c
    | _ => send_or_close c f writer_closed
    end.

(** [let _ = responses_tx.send(GOODBYE).await; break Ok(())] *)
Definition goodbye (c : Connection) : Connection :=
  close (if cn_writer_open c then push_sent c [Frame_new FrameKind.Goodbye 0 0 []] else c) (Ok tt).

Definition go_away : Frame := Frame_new FrameKind.GoAway 0 0 [].

Definition on_drain (c : Connection) : Connection :=
  let c := set_draining c in
  if cn_writer_open c
  then let c := push_sent c [go_away] in
       if bool_decide (cn_active c = ∅) then goodbye c else c
  else close c (Err writer_stopped).

Definition on_active_changed (c : Connection) : Connection :=
  let c := set_notified c false in
  if bool_decide (cn_active c = ∅) then goodbye c else c.

(** The reader's error ends the loop; the end of the stream is no error. *)
Definition on_read_error (c : Connection) (e : IoError) : Connection :=
  if bool_decide (ekind e = ErrorKind.UnexpectedEof) then close c (Ok tt) else close c (Err e).

(** The state when the loop is entered. *)
Definition connection_start (rt : RuntimeState) (request_bytes : Z) (budget : BudgetInner)
    : Connection :=
  let c := {| cn_status := Running; cn_draining := rt_drain_value rt;
              cn_permits := max_in_flight negotiated; cn_active := ∅; cn_tasks := ∅;
              cn_next := 0; cn_notified := false; cn_writer_open := true; cn_sent := []; cn_received := [];
              cn_inbox := empty_inbox; cn_request_capacity := request_bytes;
              cn_request_bytes := request_bytes; cn_budget := budget; cn_runtime := rt |} in
  if rt_drain_value rt then push_sent c [go_away] else c.

(** ** Request tasks *)

Definition count_request (rt : RuntimeState) (d : Z) : RuntimeState :=
  {| rt_ready := rt_ready rt; rt_active_connections := rt_active_connections rt;
     rt_active_requests := (rt_active_requests rt + d) mod 2 ^ 64;
     rt_max_in_flight := rt_max_in_flight rt; rt_draining := rt_draining rt;
     rt_drain_value := rt_drain_value rt; rt_force_value := rt_force_value rt |}.

Definition with_phase (t : Task) (credits : option Z) (p : phase) : Task :=
  {| tk_frame := tk_frame t; tk_credits := credits; tk_body_permit := tk_body_permit t;
     tk_phase := p; tk_aborted := tk_aborted t |}.

(** The task's first poll: [active_requests] goes up and the guard is made. *)
Definition task_start (c : Connection) (tid : nat) (t : Task) : Connection :=
  {| cn_status := cn_status c; cn_draining := cn_draining c; cn_permits := cn_permits c;
     cn_active := cn_active c;
     cn_tasks := <[tid := with_phase t (tk_credits t) Polled]> (cn_tasks c); cn_next := cn_next c;
     cn_notified := cn_notified c; cn_writer_open := cn_writer_open c; cn_sent := cn_sent c;
     cn_received := cn_received c;
     cn_inbox := cn_inbox c; cn_request_capacity := cn_request_capacity c; cn_request_bytes := cn_request_bytes c; cn_budget := cn_budget c;
     cn_runtime := count_request (cn_runtime c) 1 |}.

(** The end of a task, however it ends: its permits and its guard are dropped. *)
Definition task_gone (c : Connection) (tid : nat) (t : Task) (budget : BudgetInner) : Connection :=
  {| cn_status := cn_status c; cn_draining := cn_draining c; cn_permits := cn_permits c + 1;
     cn_active := cn_active c; cn_tasks := delete tid (cn_tasks c); cn_next := cn_next c;
     cn_notified := cn_notified c; cn_writer_open := cn_writer_open c; cn_sent := cn_sent c; cn_received := cn_received c;
     cn_inbox := cn_inbox c; cn_request_capacity := cn_request_capacity c; cn_request_bytes := cn_request_bytes c + tk_body_permit t; cn_budget := budget;
     cn_runtime := if tk_started t then count_request (cn_runtime c) (-1) else cn_runtime c |}.

(** The task's last lines: the entry of its identifier is removed. *)
Definition task_finish (c : Connection) (tid : nat) (t : Task) (frames : list Frame)
    (budget : BudgetInner) : Connection :=
  let c := if cn_writer_open c then push_sent c frames else c in
  let c := set_tasks c (delete (request_id (tk_frame t)) (cn_active c)) (cn_tasks c) in
  task_gone (set_notified c true) tid t budget.

(** A task that goes on: what it sent, its next phase and the budget. *)
Definition task_continue (c : Connection) (tid : nat) (t : Task) (frames : list Frame)
    (budget : BudgetInner) : Connection :=
  set_shared
    (set_tasks (if cn_writer_open c then push_sent c frames else c) (cn_active c)
       (<[tid := t]> (cn_tasks c))) (cn_request_bytes c) budget (cn_runtime c).

(** What the environment decides while a task runs; [te_room] is whether the
    frame it sends finds room in the byte budgets of the response queue. *)
Record task_env := MkTaskEnv {
  te_spurious : list bool;
  te_now : Z;
  te_late : bool;
  te_room : bool;
}.

(** How far one poll of a task gets. *)
Inductive poll :=
  | PollFinish (frames : list Frame) (budget : BudgetInner)
  | PollUnwind (budget : BudgetInner)
  | PollContinue (frames : list Frame) (t : Task) (budget : BudgetInner)
  | PollWait.

(** A unary answer goes through [fit_outbound_frame], the frames of a stream do
    not. *)
Definition task_answer (t : Task) (f : Frame) : Frame :=
  match tk_credits t with
  | None => fit_outbound_frame f (max_decoded_body_len negotiated)
  | Some _ => f
  end.

(** Parsing the request, with its reservation in the shared budget. *)
Definition poll_parse (t : Task) (env : task_env) (budget : BudgetInner) : poll :=
  let compression := {| rc_codecs := compression_codecs negotiated; rc_policy := policy |} in
  match request_payload (te_spurious env) (tk_frame t) (max_metadata_len negotiated) compression
          (keeps_metadata router) budget with
  | (budget, Err (code, text)) =>
      PollFinish [task_answer t (error_frame (tk_frame t) code (as_bytes text))] budget
  | (budget, Ok parsed) =>
      PollContinue [] (with_phase t (tk_credits t) (Parsed parsed)) budget
  end.

(** The handler of a parsed request: its answer, or the stream it opens. *)
Definition poll_handler (t : Task) (parsed : ParsedRequest) (env : task_env)
    (budget : BudgetInner) : poll :=
  let released := release_permit (pr_decoded_permit parsed) budget in
  match tk_credits t with
  | None =>
      match d_end (dispatch_parsed router (tk_frame t) (max_decoded_body_len negotiated) peer
                     (te_now env) (te_late env) parsed budget) with
      | Responded f => PollFinish [task_answer t f] released
      | Unwound => PollUnwind released
      | Stuck => PollWait
      end
  | Some credits =>
      match (open_stream router (tk_frame t) peer (te_now env) (te_late env) parsed).2 with
      | OpenRefused f _ => PollFinish [f] released
      | OpenDelivers s =>
          PollContinue []
            (with_phase t (Some credits)
               (Delivering (pr_decoded_permit parsed) (delivery_of parsed s))) budget
      | OpenUnwinds => PollUnwind released
      | OpenWaits => PollWait
      end
  end.

(** One turn of a delivery; an item that finds the writer gone ends it. *)
Definition poll_delivery (t : Task) (credits : Z) (permit : option DecodedBytePermit)
    (d : Delivery) (env : task_env) (writer_open : bool) (budget : BudgetInner) : poll :=
  let released := release_permit permit budget in
  match stream_turn (tk_frame t) (max_decoded_body_len negotiated) (te_late env) credits d with
  | TurnItem f d =>
      if writer_open
      then PollContinue [f] (with_phase t (Some (credits - 1)) (Delivering permit d)) budget
      else PollFinish [] released
  | TurnEnd f _ => PollFinish [f] released
  | TurnUnwound => PollUnwind released
  | TurnWaits => PollWait
  end.

Definition task_poll (t : Task) (env : task_env) (writer_open : bool) (budget : BudgetInner)
    : poll :=
  match tk_phase t, tk_credits t with
  | Polled, _ => poll_parse t env budget
  | Parsed parsed, _ => poll_handler t parsed env budget
  | Delivering permit d, Some credits => poll_delivery t credits permit d env writer_open budget
  | _, _ => PollWait
  end.

(** A step of a polled task, whose frames pass through the response queue; [None]
    while it waits. *)
Definition task_run (c : Connection) (tid : nat) (t : Task) (env : task_env) : option Connection :=
  let queued frames := frames ≫= queue_form (te_room env) in
  match task_poll t env (cn_writer_open c) (cn_budget c) with
  | PollFinish frames budget => Some (task_finish c tid t (queued frames) budget)
  | PollUnwind budget => Some (task_gone c tid t budget)
  | PollContinue frames t budget => Some (task_continue c tid t (queued frames) budget)
  | PollWait => None
  end.

(** A task that was aborted is dropped at an await, with what it holds. *)
Definition task_dropped (c : Connection) (tid : nat) (t : Task) : Connection :=
  task_gone c tid t (release_permit (tk_permit t) (cn_budget c)).

Definition at_await (t : Task) : bool :=
  match tk_phase t with Polled => false | _ => true end.

(** ** The other connections *)

(** The decoded bytes that the tasks of the connection hold. *)
Definition permit_bytes (t : Task) : Z := permit_size (tk_permit t).

Definition msum (m : gmap nat Z) : Z := map_fold (λ _ x acc, x + acc) 0 m.

Definition decoded (c : Connection) : Z := msum (permit_bytes <$> cn_tasks c).

(** The request-byte permits that live tasks hold. *)
Definition held (c : Connection) : gmap nat Z := tk_body_permit <$> cn_tasks c.

(** What other connections may do to the permits for request bytes and to the
    budget of decoded bytes, which all share: take and return them, but not
    those held here. *)
Definition others_shared (c : Connection) (request_bytes : Z) (budget : BudgetInner) : Prop :=
  0 ≤ request_bytes ∧
  request_bytes + msum (held c) + inbox_bytes (cn_inbox c) ≤ cn_request_capacity c ∧
  budget_wf budget ∧ bi_capacity budget = bi_capacity (cn_budget c) ∧ decoded c ≤ bi_used budget.

(** The writer task stops after a write error. *)
Definition stop_writer (c : Connection) : Connection :=
  {| cn_status := cn_status c; cn_draining := cn_draining c; cn_permits := cn_permits c;
     cn_active := cn_active c; cn_tasks := cn_tasks c; cn_next := cn_next c;
     cn_notified := cn_notified c; cn_writer_open := false; cn_sent := cn_sent c; cn_received := cn_received c;
     cn_inbox := cn_inbox c; cn_request_capacity := cn_request_capacity c; cn_request_bytes := cn_request_bytes c; cn_budget := cn_budget c;
     cn_runtime := cn_runtime c |}.

(** ** The step relation *)

Definition wants_events : bool :=
  negb (Z.land (features negotiated) FEATURE_SERVER_EVENTS =? 0).

(** The steps of the connection itself: an event of its loop, or of one of its
    tasks. *)
Inductive own_step (c : Connection) : Connection → Prop :=
  | cs_acquire n :
      cn_status c = Running → reader_live c = true → in_partial (cn_inbox c) = 0 →
      0 < n ≤ cn_request_bytes c → n ≤ max_body_len negotiated → own_step c (reader_acquire c n)
  | cs_read r :
      cn_status c = Running → reader_live c = true → can_return c r → own_step c (reader_send c r)
  | cs_inbox_dropped result :
      cn_status c = Closed result → own_step c (drop_inbox c)
  | cs_frame bf queue uptime :
      cn_status c = Running → in_queue (cn_inbox c) = Ok bf :: queue →
      own_step c (on_frame (push_received (loop_recv c (Ok bf) queue) (bf_frame bf)) bf uptime)
  | cs_read_error e queue :
      cn_status c = Running → in_queue (cn_inbox c) = Err e :: queue →
      own_step c (on_read_error (loop_recv c (Err e) queue) e)
  | cs_reader_gone :
      cn_status c = Running → in_queue (cn_inbox c) = [] →
      own_step c (close c (Err (io_error ErrorKind.BrokenPipe
                                   "request reader stopped unexpectedly")))
  | cs_hub_event event_id body room :
      cn_status c = Running → wants_events = true → 0 < event_id ≤ u32_max →
      own_step c (on_hub_event c (Frame_new FrameKind.Event event_id 0 body) room)
  | cs_drain :
      cn_status c = Running → cn_draining c = false → own_step c (on_drain c)
  | cs_active_changed :
      cn_status c = Running → cn_draining c = true → cn_notified c = true →
      own_step c (on_active_changed c)
  | cs_force_drain :
      cn_status c = Running → own_step c (goodbye c)
  | cs_task_start tid t :
      cn_tasks c !! tid = Some t → tk_started t = false → own_step c (task_start c tid t)
  | cs_task_run tid t env c' :
      cn_tasks c !! tid = Some t → tk_started t = true →
      task_run c tid t env = Some c' → own_step c c'
  | cs_task_aborted tid t :
      cn_tasks c !! tid = Some t → tk_aborted t = true → at_await t = true →
      own_step c (task_dropped c tid t)
  | cs_writer_stops : own_step c (stop_writer c).

(** A step of the connection, or of the rest of the server. *)
Inductive conn_step (c : Connection) : Connection → Prop :=
  | cs_own c' : own_step c c' → conn_step c c'
  | cs_others request_bytes budget rt :
      others_shared c request_bytes budget → conn_step c (set_shared c request_bytes budget rt).
End connection.

(** * What a poll does *)

(** The frames a task may end with: one reply of a terminal kind, or none. *)
Definition terminal_kind (streaming : bool) (k : FrameKind) : Prop :=
  k = FrameKind.Error ∨ k = if streaming then FrameKind.StreamEnd else FrameKind.Response.

Definition streams (t : Task) : bool := bool_decide (is_Some (tk_credits t)).

Definition ends_with (t : Task) (fs : list Frame) : Prop :=
  fs = [] ∧ streams t = true ∨
  ∃ f, fs = [f] ∧ reply_to (tk_frame t) f ∧ terminal_kind (streams t) (kind f).

(** A task that goes on is the same request, and sends nothing or, for one
    credit, one item or the error that the response queue puts in its place. *)
Record continues (max : Z) (t t' : Task) (fs : list Frame) : Prop := {
  ct_frame : tk_frame t' = tk_frame t;
  ct_body_permit : tk_body_permit t' = tk_body_permit t;
  ct_aborted : tk_aborted t' = tk_aborted t;
  ct_started : tk_started t = true ∧ tk_started t' = true;
  ct_sent : fs = [] ∧ tk_credits t' = tk_credits t ∨
    ∃ n item, tk_credits t = Some n ∧ 0 < n ∧ tk_credits t' = Some (n - 1) ∧
      (fs = [stream_item (tk_frame t) item] ∨ fs = [rejected_frame (stream_item (tk_frame t) item)]) ∧
      zlen item ≤ max;
}.

Section polls.
Context `{Z0 : ZstdOps}.
Context (router : Router) (peer : option PeerIdentity).
Context (negotiated : PeerSettingsV2) (policy : CompressionPolicy).

#[local] Abbreviation poll_of := (task_poll router peer negotiated policy).

Lemma reply_error frame c m : reply_to frame (error_frame frame c m).
Proof using. done. Qed.

Lemma task_answer_ends t f :
  reply_to (tk_frame t) f → kind f = FrameKind.Error ∨ kind f = FrameKind.Response ∧ streams t = false →
  ends_with t [task_answer negotiated t f].
Proof using.
  intros Hr Hk. right. exists (task_answer negotiated t f). split; [done|].
  unfold task_answer, fit_outbound_frame, terminal_kind, streams in *.
  destruct (tk_credits t) as [n|]; simpl in *.
  - split; [done|]. destruct Hk as [?|[_ ?]]; [by left|done].
  - case_match; [|split; [|by left]; by destruct Hr as (? & ? & ?)].
    split; [done|]. destruct Hk as [?|[? _]]; auto.
Qed.

Lemma task_poll_finish t env w b fs b' : poll_of t env w b = PollFinish fs b' → ends_with t fs.
Proof.
  unfold task_poll. destruct (tk_phase t) as [| |parsed|permit d]; [by destruct (tk_credits t)|..].
  - unfold poll_parse. destruct (request_payload _ _ _ _ _ _) as [b1 [parsed|[ec em]]]; [done|].
    intros [= <- _]. apply task_answer_ends; [done|by left].
  - unfold poll_handler. destruct (tk_credits t) as [n|] eqn:Hc.
    + destruct (open_stream _ _ _ _ _ _).2 as [f ec|s| |] eqn:Ho; try done. intros [= <- _].
      apply open_stream_refused in Ho as [Hr Hk]. right. exists f.
      split; [done|]. split; [done|]. by left.
    + destruct (d_end _) as [f| |] eqn:Hd; try done. intros [= <- _].
      apply dispatch_parsed_reply in Hd as [Hr Hk]. apply task_answer_ends; [done|].
      unfold streams. rewrite Hc. destruct Hk; auto.
  - destruct (tk_credits t) as [n|] eqn:Hc; [|done]. assert (streams t = true) as Hst
      by (unfold streams; by rewrite Hc).
    unfold poll_delivery. destruct (stream_turn _ _ _ _ _) as [f d'|f o| |] eqn:Ht; try done.
    + destruct w; [done|]. intros [= <- _]. by left.
    + apply stream_turn_end in Ht as [Hr Hk]. intros [= <- _]. right. exists f.
      split; [done|]. split; [done|]. rewrite Hst. destruct Hk; [by right|by left].
Qed.

Lemma task_poll_continue t env w b fs t' b' :
  poll_of t env w b = PollContinue fs t' b' →
  continues (max_decoded_body_len negotiated) t t' fs ∧ (fs ≠ [] → w = true).
Proof.
  assert (tk_phase t ≠ Spawned → tk_started t = true) as Hst
    by (unfold tk_started; by destruct (tk_phase t)).
  unfold task_poll. destruct (tk_phase t) as [| |parsed|permit d]; [by destruct (tk_credits t)|..].
  - unfold poll_parse. destruct (request_payload _ _ _ _ _ _) as [b1 [parsed|[ec em]]]; [|done].
    intros [= <- <- _]. split; [|done]. split; auto.
  - unfold poll_handler. destruct (tk_credits t) as [n|] eqn:Hc.
    + destruct (open_stream _ _ _ _ _ _).2 as [f ec|s| |]; try done. intros [= <- <- _].
      split; [|done]. split; auto.
    + by destruct (d_end _).
  - destruct (tk_credits t) as [n|] eqn:Hc; [|done]. unfold poll_delivery.
    destruct (stream_turn _ _ _ _ _) as [f d'|f o| |] eqn:Ht; try done. destruct w; [|done].
    apply stream_turn_item in Ht as (Hpos & item & -> & Hlen & _). intros [= <- <- _].
    split; [|done]. split; auto. right. exists n, item. auto 6.
Qed.

(** What the response queue makes of the frames of a step. *)
Lemma ends_with_queued t fs room : ends_with t fs → ends_with t (fs ≫= queue_form room).
Proof using.
  intros [[-> H]|(f & -> & Hr & Hk)]; [by left|]. right. simpl. rewrite app_nil_r.
  destruct (queue_form_cases room f) as [->|[(_ & He & _)|(_ & _ & ->)]].
  - by exists f.
  - rewrite He in Hk. by destruct Hk as [?|Hk]; [|destruct (streams t)].
  - exists (rejected_frame f). destruct Hr as (Hm & Hi & _). split; [done|].
    split; [by split; [|split]|by left].
Qed.

Lemma continues_queued max t t' fs room :
  continues max t t' fs → continues max t t' (fs ≫= queue_form room).
Proof using.
  intros [H1 H2 H3 H4 [[-> H]|(n & item & Hn & Hp & Hn' & Hfs & Hl)]]; split; try done; [by left|].
  right. exists n, item. split_and!; try done.
  destruct Hfs as [-> | ->]; simpl; rewrite app_nil_r; unfold queue_form; cbn; destruct room; auto.
Qed.

(** The frames of a step of a task are answers under the identifiers of its
    request. *)
Lemma ends_with_replies t fs :
  ends_with t fs → Forall (λ f, reply_to (tk_frame t) f ∧ answer_kind (kind f)) fs.
Proof using.
  intros [[-> _]|(f & -> & Hr & Hk)]; [done|]. constructor; [|done]. split; [done|].
  unfold answer_kind. destruct Hk as [->| ->]; [auto|]. destruct (streams t); auto.
Qed.

Lemma continues_replies max t t' fs :
  continues max t t' fs → Forall (λ f, reply_to (tk_frame t) f ∧ answer_kind (kind f)) fs.
Proof using.
  intros [_ _ _ _ [[-> _]|(n & item & _ & _ & _ & Hfs & _)]]; [done|].
  destruct Hfs as [-> | ->]; (constructor; [|done]); (split; [done|]); unfold answer_kind; auto.
Qed.

(** The step of a task, by its three ends. *)
Lemma task_run_cases c tid t env c' :
  task_run router peer negotiated policy c tid t env = Some c' →
  (∃ fs b, c' = task_finish c tid t fs b ∧ ends_with t fs) ∨
  (∃ b, c' = task_gone c tid t b) ∨
  (∃ fs t' b, c' = task_continue c tid t' fs b ∧
     continues (max_decoded_body_len negotiated) t t' fs ∧ (fs ≠ [] → cn_writer_open c = true)).
Proof.
  unfold task_run. destruct (task_poll _ _ _ _ _ _ _ _) eqn:Hp; intros [= <-].
  - left. eexists _, _. split; [done|]. by eapply ends_with_queued, task_poll_finish.
  - right; left. eauto.
  - right; right. eapply task_poll_continue in Hp as [? Hw].
    eexists _, _, _. split; [done|]. split; [by apply continues_queued|].
    intros Hne. apply Hw. by intros ->.
Qed.
End polls.

(** * Resource invariant *)

Lemma msum_insert m i x : m !! i = None → msum (<[i := x]> m) = x + msum m.
Proof. intros Hi. unfold msum. rewrite map_fold_insert_L; [done| |done]. intros. lia. Qed.

Lemma msum_delete m i x : m !! i = Some x → msum (delete i m) = msum m - x.
Proof.
  intros Hi. rewrite <- (insert_delete_id m i x Hi) at 2.
  rewrite msum_insert by apply lookup_delete_eq. lia.
Qed.

Lemma msum_nonneg m : map_Forall (λ _ x, 0 ≤ x) m → 0 ≤ msum m.
Proof.
  induction m as [|i x m Hi IH] using map_ind; intros H; [by vm_compute|].
  rewrite msum_insert by done. apply map_Forall_insert in H as [Hx Hm]; [|done].
  specialize (IH Hm). lia.
Qed.

Lemma msum_replace m i x y : m !! i = Some x → msum (<[i := y]> m) = msum m - x + y.
Proof.
  intros Hi. rewrite <- (insert_delete_eq m i y), msum_insert by apply lookup_delete_eq.
  rewrite (msum_delete _ _ _ Hi). lia.
Qed.

Lemma size_delete_Some {A} (m : gmap nat A) i x :
  m !! i = Some x → Z.of_nat (size (delete i m)) = Z.of_nat (size m) - 1.
Proof.
  intros Hi. rewrite <- (insert_delete_id m i x Hi) at 2.
  rewrite map_size_insert_None by apply lookup_delete_eq. lia.
Qed.

(** A sum over the tasks when one of them changes or goes. *)
Lemma msum_task (g : Task → Z) c tid t t' :
  cn_tasks c !! tid = Some t →
  msum (g <$> <[tid := t']> (cn_tasks c)) = msum (g <$> cn_tasks c) - g t + g t' ∧
  msum (g <$> delete tid (cn_tasks c)) = msum (g <$> cn_tasks c) - g t.
Proof.
  intros Ht. assert ((g <$> cn_tasks c) !! tid = Some (g t)) as Hg by by rewrite lookup_fmap, Ht.
  rewrite fmap_insert, fmap_delete. split; [by apply msum_replace|by apply msum_delete].
Qed.

Definition task_ok (next tid : nat) (t : Task) : Prop :=
  (tid < next)%nat ∧ 0 ≤ tk_body_permit t ∧ request_id (tk_frame t) ≠ 0 ∧
  ∀ credits, tk_credits t = Some credits → 0 ≤ credits ≤ MAX_PERMITS.

Definition entry_for (c : Connection) (id : Z) (r : ActiveRequest) : Prop :=
  (ar_task r < cn_next c)%nat ∧
  ∀ t, cn_tasks c !! ar_task r = Some t →
       request_id (tk_frame t) = id ∧ ar_streaming r = bool_decide (is_Some (tk_credits t)).

Definition item_ok (r : result IoError BufferedFrame) : Prop :=
  match r with Ok bf => Frame_wf (bf_frame bf) ∧ 0 ≤ permits_of bf | Err _ => True end.

Record inbox_ok (max : Z) (i : Inbox) : Prop := {
  io_partial : 0 ≤ in_partial i;
  io_items : Forall item_ok (in_queue i);
  io_length : zlen (in_queue i) ≤ max + 1;
}.

Record conn_inv (max_tasks total_bytes : Z) (c : Connection) : Prop := {
  ci_permits : cn_permits c + Z.of_nat (size (held c)) = max_tasks;
  ci_free : 0 ≤ cn_permits c;
  ci_capacity : cn_request_capacity c = total_bytes;
  ci_bytes : cn_request_bytes c + msum (held c) + inbox_bytes (cn_inbox c) ≤ total_bytes;
  ci_bytes_free : 0 ≤ cn_request_bytes c;
  ci_inbox : inbox_ok max_tasks (cn_inbox c);
  ci_task : map_Forall (task_ok (cn_next c)) (cn_tasks c);
  ci_active id r : cn_active c !! id = Some r → entry_for c id r;
}.

(** Steps that neither create nor end a task, and at most shrink the table. *)
Lemma conn_inv_same max total c c' :
  conn_inv max total c →
  cn_permits c' = cn_permits c → cn_inbox c' = cn_inbox c →
  cn_request_capacity c' = cn_request_capacity c →
  cn_request_bytes c' = cn_request_bytes c →
  cn_next c' = cn_next c → held c' = held c →
  (∀ id r, cn_active c' !! id = Some r → cn_active c !! id = Some r) →
  (∀ tid t', cn_tasks c' !! tid = Some t' → ∃ t, cn_tasks c !! tid = Some t ∧
     tk_frame t' = tk_frame t ∧ (is_Some (tk_credits t') ↔ is_Some (tk_credits t)) ∧
     task_ok (cn_next c) tid t') →
  conn_inv max total c'.
Proof.
  intros [H1 H2 H0 H3 H4 Hin H5 H6] Hp Hi Hcap Hb Hn Hh Ha Ht.
  split; rewrite ?Hp, ?Hi, ?Hcap, ?Hb, ?Hn, ?Hh; try done.
  - intros tid t' Hl. by destruct (Ht tid t' Hl) as (t & _ & _ & _ & Hok).
  - intros id r Hr. destruct (H6 id r (Ha id r Hr)) as [Hlt Hmatch]. split; [by rewrite Hn|].
    intros t' Hl. destruct (Ht _ t' Hl) as (t & Htl & Hf & Hc & _).
    destruct (Hmatch t Htl) as [Hid Hs]. rewrite Hf. split; [done|].
    rewrite Hs. apply bool_decide_ext. by rewrite Hc.
Qed.

Lemma conn_inv_close max total c r : conn_inv max total c → conn_inv max total (close c r).
Proof.
  intros Hi. apply (conn_inv_same max total c); try done.
  - unfold held, close. simpl. apply map_eq. intros tid.
    rewrite !lookup_fmap, map_lookup_imap. destruct (cn_tasks c !! tid); [|done]. simpl.
    by case_bool_decide.
  - intros tid t'. unfold close. simpl. rewrite map_lookup_imap.
    destruct (cn_tasks c !! tid) as [t|] eqn:Et; [|done]. simpl. intros [= <-].
    exists t. split; [done|]. pose proof (ci_task _ _ _ Hi tid t Et) as Hok.
    by case_bool_decide.
Qed.

Lemma conn_inv_field max total c c' :
  conn_inv max total c →
  cn_permits c' = cn_permits c → cn_inbox c' = cn_inbox c →
  cn_request_capacity c' = cn_request_capacity c →
  cn_request_bytes c' = cn_request_bytes c →
  cn_next c' = cn_next c → cn_tasks c' = cn_tasks c → cn_active c' = cn_active c →
  conn_inv max total c'.
Proof.
  intros Hi Hp Hbox Hcap Hb Hn Ht Ha. apply (conn_inv_same max total c); try done.
  - unfold held. by rewrite Ht.
  - intros id r. by rewrite Ha.
  - intros tid t'. rewrite Ht. intros Hl. exists t'. split; [done|].
    pose proof (ci_task _ _ _ Hi tid t' Hl). done.
Qed.

(** The reader and the loop move permits between the semaphore and the inbox. *)
Lemma conn_inv_inbox max total c inbox request_bytes :
  conn_inv max total c → inbox_ok max inbox → 0 ≤ request_bytes →
  request_bytes + inbox_bytes inbox ≤ cn_request_bytes c + inbox_bytes (cn_inbox c) →
  conn_inv max total (set_inbox c inbox request_bytes).
Proof.
  intros [H1 H2 H0 H3 H4 Hin H5 H6] Hok Hb Hle. split; try done. simpl.
  change (held (set_inbox c inbox request_bytes)) with (held c). lia.
Qed.

Lemma inbox_bytes_nonneg max i : inbox_ok max i → 0 ≤ inbox_bytes i.
Proof.
  intros [Hp Hi _]. unfold inbox_bytes. pose proof (zsum_nonneg item_permits (in_queue i)) as Hz.
  enough (0 ≤ zsum item_permits (in_queue i)) by lia. apply Hz. intros x Hx.
  rewrite Forall_forall in Hi. specialize (Hi x Hx). by destruct x; [destruct Hi|].
Qed.

Lemma conn_inv_acquire max total c n :
  conn_inv max total c → in_partial (cn_inbox c) = 0 → 0 < n ≤ cn_request_bytes c →
  conn_inv max total (reader_acquire c n).
Proof.
  intros Hc Hp Hn. destruct (ci_inbox _ _ _ Hc) as [_ Hi Hl].
  apply conn_inv_inbox; [done| |lia|unfold inbox_bytes; simpl; lia]. split; simpl; [lia|done|done].
Qed.

Lemma conn_inv_read negotiated total c r :
  conn_inv (max_in_flight negotiated) total c → reader_live negotiated c = true →
  can_return negotiated c r → conn_inv (max_in_flight negotiated) total (reader_send c r).
Proof.
  intros Hc Hlive Hr. destruct (ci_inbox _ _ _ Hc) as [Hp Hi Hl].
  unfold reader_live in Hlive. apply andb_prop in Hlive as [_ Hlive]. bool_to_prop.
  pose proof (ci_bytes_free _ _ _ Hc).
  apply conn_inv_inbox; [done| |by destruct r; simpl; lia|].
  - split; simpl; [lia| |rewrite zlen_app; unfold zlen in *; simpl; lia].
    apply Forall_app. split; [done|]. constructor; [|constructor]. destruct r as [bf|e]; [|done].
    destruct Hr as (? & _ & Hz & _). split; [done|]. rewrite Hz. unfold zlen. lia.
  - unfold inbox_bytes. simpl. rewrite zsum_app. destruct r as [bf|e]; simpl; [|lia].
    destruct Hr as (_ & _ & _ & ->). lia.
Qed.

Lemma conn_inv_recv max total c r queue :
  conn_inv max total c → in_queue (cn_inbox c) = r :: queue →
  conn_inv max total (loop_recv c r queue) ∧ item_ok r ∧
  item_permits r ≤ cn_request_bytes (loop_recv c r queue).
Proof.
  intros Hc Hq. destruct (ci_inbox _ _ _ Hc) as [Hp Hi Hl]. rewrite Hq in Hi, Hl.
  apply Forall_cons in Hi as [Hr Hi]. pose proof (ci_bytes_free _ _ _ Hc).
  assert (0 ≤ item_permits r) by (destruct r; [apply Hr|done]).
  split; [|split; [done|simpl; lia]]. apply conn_inv_inbox; [done| |lia|].
  - split; simpl; [done|done|]. unfold zlen in *. simpl in *. lia.
  - unfold inbox_bytes. rewrite Hq. simpl. lia.
Qed.

Lemma conn_inv_drop_inbox max total c : 0 ≤ max → conn_inv max total c → conn_inv max total (drop_inbox c).
Proof.
  intros Hm Hc. pose proof (inbox_bytes_nonneg _ _ (ci_inbox _ _ _ Hc)). pose proof (ci_bytes_free _ _ _ Hc).
  apply conn_inv_inbox; [done| |lia|change (inbox_bytes empty_inbox) with 0; lia].
  split; simpl; [lia|constructor|unfold zlen; simpl; lia].
Qed.

Lemma conn_inv_alter max total c active g tid :
  conn_inv max total c →
  (∀ t, tk_frame (g t) = tk_frame t ∧ tk_body_permit (g t) = tk_body_permit t ∧
        (is_Some (tk_credits (g t)) ↔ is_Some (tk_credits t))) →
  (∀ t, task_ok (cn_next c) tid t → task_ok (cn_next c) tid (g t)) →
  (∀ id r, active !! id = Some r → cn_active c !! id = Some r) →
  conn_inv max total (set_tasks c active (alter g tid (cn_tasks c))).
Proof.
  intros Hi Hg Hok Ha. apply (conn_inv_same max total c); try done.
  - unfold held. simpl. apply map_eq. intros tid'. rewrite !lookup_fmap, lookup_alter.
    case_decide; [subst tid'|done]. destruct (cn_tasks c !! tid); [|done]. simpl.
    f_equal. apply Hg.
  - intros tid' t'. simpl. rewrite lookup_alter. case_decide as Hd.
    + subst tid'. destruct (cn_tasks c !! tid) as [t|] eqn:Et; [|done]. simpl. intros [= <-].
      exists t. split; [done|]. destruct (Hg t) as (? & ? & ?). split; [done|]. split; [done|].
      apply Hok, (ci_task _ _ _ Hi _ _ Et).
    + intros Hl. exists t'. split; [done|]. pose proof (ci_task _ _ _ Hi tid' t' Hl). done.
Qed.

Lemma conn_inv_spawn max total c f p streaming :
  conn_inv max total c → 0 < cn_permits c → 0 ≤ p ≤ cn_request_bytes c →
  request_id f ≠ 0 → conn_inv max total (spawn_request c f p streaming).
Proof.
  intros [H1 H2 H0 H3 H4 Hin H5 H6] Hp Hb Hf.
  assert (held c !! cn_next c = None) as Hnone.
  { unfold held. rewrite lookup_fmap. destruct (cn_tasks c !! cn_next c) as [t|] eqn:Et; [|done].
    destruct (H5 _ _ Et) as [? _]. lia. }
  assert (held (spawn_request c f p streaming) = <[cn_next c := p]> (held c)) as Hheld
    by (unfold held, spawn_request; simpl; by rewrite fmap_insert).
  split; rewrite ?Hheld; simpl; try lia; try exact Hin.
  - rewrite map_size_insert_None by done. lia.
  - rewrite msum_insert by done. lia.
  - apply map_Forall_insert_2.
    + split; simpl; [lia|]. split_and!; [lia|done|]. intros credits. destruct streaming; [|done].
      intros [= <-]. vm_compute. split; discriminate.
    + intros tid t Hl. destruct (H5 _ _ Hl) as [? ?]. split; [lia|done].
  - intros id r Hr. apply lookup_insert_Some in Hr as [[<- <-]|[Hne Hr]].
    + split; simpl; [lia|]. intros t. rewrite lookup_insert_eq. intros [= <-].
      by destruct streaming.
    + destruct (H6 id r Hr) as [Hlt Hm]. split; simpl; [lia|]. intros t.
      rewrite lookup_insert_ne by lia. apply Hm.
Qed.

Lemma conn_inv_gone max total c tid t budget :
  conn_inv max total c → cn_tasks c !! tid = Some t →
  conn_inv max total (task_gone c tid t budget).
Proof.
  intros [H1 H2 H0 H3 H4 Hin H5 H6] Ht. destruct (H5 _ _ Ht) as (_ & Hp & _).
  assert (held c !! tid = Some (tk_body_permit t)) as Hheld
    by (unfold held; by rewrite lookup_fmap, Ht).
  assert (held (task_gone c tid t budget) = delete tid (held c)) as Hd
    by (unfold held; simpl; by rewrite fmap_delete).
  split; rewrite ?Hd; simpl; try lia; try exact Hin.
  - rewrite (size_delete_Some _ _ _ Hheld). lia.
  - rewrite (msum_delete _ _ _ Hheld). lia.
  - by apply map_Forall_delete.
  - intros id r Hr. destruct (H6 id r Hr) as [Hlt Hm]. split; [done|]. simpl. intros t' Hl.
    apply Hm. by apply lookup_delete_Some in Hl as [_ ?].
Qed.

Lemma conn_inv_send max total c f e :
  conn_inv max total c → conn_inv max total (send_or_close c f e).
Proof.
  intros Hi. unfold send_or_close. case_match; [|by apply conn_inv_close].
  by apply (conn_inv_field max total c).
Qed.

Lemma conn_inv_goodbye max total c : conn_inv max total c → conn_inv max total (goodbye c).
Proof.
  intros Hi. unfold goodbye. apply conn_inv_close. case_match; [|done].
  by apply (conn_inv_field max total c).
Qed.

Lemma add_credits_ok next tid count t :
  0 ≤ count → task_ok next tid t → task_ok next tid (add_credits count t).
Proof.
  intros Hc (H1 & H2 & H3 & H4). split_and!; try done. simpl. intros credits.
  destruct (tk_credits t) as [available|]; simpl; [|done]. intros [= <-].
  specialize (H4 available eq_refl). unfold saturating_sub. lia.
Qed.

#[export] Hint Resolve conn_inv_close conn_inv_send conn_inv_goodbye : bridge.

Lemma conn_inv_on_frame `{Z0 : ZstdOps} router negotiated max total c bf uptime :
  conn_inv max total c → Frame_wf (bf_frame bf) → 0 ≤ permits_of bf ≤ cn_request_bytes c →
  conn_inv max total (on_frame router negotiated c bf uptime).
Proof.
  intros Hi (_ & _ & Hid) Hp. unfold on_frame, protocol_error.
  destruct (kind (bf_frame bf)); auto with bridge.
  - unfold on_request, protocol_error. repeat (case_match; auto with bridge).
    bool_to_prop. apply conn_inv_spawn; try done; lia.
  - unfold on_cancel. destruct (cn_active c !! _) as [r|] eqn:Er; [|done].
    apply (conn_inv_field max total (set_tasks c (delete (request_id (bf_frame bf)) (cn_active c))
      (alter abort_task (ar_task r) (cn_tasks c)))); try done.
    apply conn_inv_alter; try done. intros id r' Hr.
    by apply lookup_delete_Some in Hr as [_ ?].
  - unfold on_ping, protocol_error. case_match; auto with bridge.
  - unfold on_health, protocol_error. case_match; auto with bridge.
  - unfold on_stream_credit, protocol_error. repeat (case_match; auto with bridge).
    apply conn_inv_alter; try done.
    + intros t. simpl. by rewrite fmap_is_Some.
    + intros t. apply add_credits_ok, be_val_range.
Qed.

Lemma conn_inv_push max total c fs :
  conn_inv max total c → conn_inv max total (if cn_writer_open c then push_sent c fs else c).
Proof. intros Hi. case_match; [|done]. by apply (conn_inv_field max total c). Qed.

Lemma conn_inv_finish max total c tid t frames budget :
  conn_inv max total c → cn_tasks c !! tid = Some t →
  conn_inv max total (task_finish c tid t frames budget).
Proof.
  intros Hi Ht. unfold task_finish.
  assert (conn_inv max total (if cn_writer_open c then push_sent c frames else c)) as Hi1
    by by apply conn_inv_push.
  assert (cn_tasks (if cn_writer_open c then push_sent c frames else c) = cn_tasks c) as Htk
    by by destruct (cn_writer_open c).
  revert Hi1 Htk. generalize (if cn_writer_open c then push_sent c frames else c).
  intros c1 Hi1 Htk. apply conn_inv_gone; [|simpl; by rewrite Htk].
  apply (conn_inv_same max total c1); try done.
  - intros id r. simpl. intros Hr. by apply lookup_delete_Some in Hr as [_ ?].
  - intros tid' t' Hl. exists t'. split; [done|]. pose proof (ci_task _ _ _ Hi1 tid' t' Hl). done.
Qed.

Lemma conn_inv_insert max total c c' tid t t' :
  conn_inv max total c → cn_tasks c !! tid = Some t →
  cn_permits c' = cn_permits c → cn_inbox c' = cn_inbox c →
  cn_request_capacity c' = cn_request_capacity c →
  cn_request_bytes c' = cn_request_bytes c →
  cn_next c' = cn_next c → cn_active c' = cn_active c → cn_tasks c' = <[tid := t']> (cn_tasks c) →
  tk_frame t' = tk_frame t → tk_body_permit t' = tk_body_permit t →
  (is_Some (tk_credits t') ↔ is_Some (tk_credits t)) → task_ok (cn_next c) tid t' →
  conn_inv max total c'.
Proof.
  intros Hi Ht Hp Hbox Hcap Hb Hn Ha Htk Hf Hbp Hc Hok. apply (conn_inv_same max total c); try done.
  - unfold held. rewrite Htk, fmap_insert, Hbp. apply insert_id. by rewrite lookup_fmap, Ht.
  - intros id r. by rewrite Ha.
  - intros tid' t1. rewrite Htk. intros [[<- <-]|[Hne Hl]]%lookup_insert_Some; [by exists t|].
    exists t1. split; [done|]. pose proof (ci_task _ _ _ Hi tid' t1 Hl). done.
Qed.

Lemma conn_inv_task_start max total c tid t :
  conn_inv max total c → cn_tasks c !! tid = Some t → conn_inv max total (task_start c tid t).
Proof.
  intros Hi Ht. pose proof (ci_task _ _ _ Hi tid t Ht) as Hok.
  by apply (conn_inv_insert max total c _ tid t (with_phase t (tk_credits t) Polled)).
Qed.

Lemma conn_inv_continue max total m c tid t t' fs b :
  conn_inv max total c → cn_tasks c !! tid = Some t → continues m t t' fs →
  conn_inv max total (task_continue c tid t' fs b).
Proof.
  intros Hi Ht [Hf Hbp _ _ Hs].
  pose proof (ci_task _ _ _ Hi tid t Ht) as (H1 & H2 & H3 & H4).
  apply (conn_inv_insert max total c _ tid t t'); unfold task_continue; simpl;
    try (by destruct (cn_writer_open c)); try done.
  - destruct Hs as [[_ ->]|(n & item & -> & _ & -> & _)]; done.
  - split; [done|]. rewrite Hf, Hbp. split; [done|]. split; [done|]. intros k Hk.
    destruct Hs as [[_ Hc]|(n & item & Hc & Hpos & Hc' & _)]; [apply H4; congruence|].
    specialize (H4 n Hc). assert (k = n - 1) by congruence. lia.
Qed.

Lemma conn_inv_run `{Z0 : ZstdOps} router peer negotiated policy max total c tid t env c' :
  conn_inv max total c → cn_tasks c !! tid = Some t →
  task_run router peer negotiated policy c tid t env = Some c' → conn_inv max total c'.
Proof.
  intros Hi Ht [(fs & b & -> & _)|[(b & ->)|(fs & t' & b & -> & Hc & _)]]%task_run_cases.
  - by apply conn_inv_finish.
  - by apply conn_inv_gone.
  - by eapply conn_inv_continue.
Qed.

Lemma conn_step_inv `{Z0 : ZstdOps} router peer negotiated policy total c c' :
  conn_inv (max_in_flight negotiated) total c → conn_step router peer negotiated policy c c' →
  conn_inv (max_in_flight negotiated) total c'.
Proof.
  intros Hi Hs. destruct Hs as [c' Hs|request_bytes budget rt Hothers]; [destruct Hs|]; auto with bridge.
  - by apply conn_inv_acquire.
  - by apply conn_inv_read.
  - apply conn_inv_drop_inbox; [|done]. destruct Hi as [H1 H2]. lia.
  - destruct (conn_inv_recv _ _ _ _ _ Hi H0) as (Hi' & [Hw Hn] & Hp).
    apply conn_inv_on_frame; [by eapply conn_inv_field|done|done].
  - destruct (conn_inv_recv _ _ _ _ _ Hi H0) as (Hi' & _).
    unfold on_read_error. case_match; auto with bridge.
  - unfold on_hub_event. repeat case_match; auto with bridge.
  - unfold on_drain. simpl. destruct (cn_writer_open c).
    + assert (conn_inv (max_in_flight negotiated) total (push_sent (set_draining c) [go_away]))
        by by apply (conn_inv_field (max_in_flight negotiated) total c).
      case_match; auto with bridge.
    + apply conn_inv_close. by apply (conn_inv_field (max_in_flight negotiated) total c).
  - unfold on_active_changed.
    assert (conn_inv (max_in_flight negotiated) total (set_notified c false)) by by apply (conn_inv_field (max_in_flight negotiated) total c).
    case_match; auto with bridge.
  - by apply conn_inv_task_start.
  - by eapply conn_inv_run.
  - by apply conn_inv_gone.
  - by apply (conn_inv_field (max_in_flight negotiated) total c).
  - destruct Hi as [H1 H2 H3 H4 H5 H6 H7 H8].
    destruct Hothers as (Hb & Hle & _).
    split; try done. simpl. by rewrite <- H3.
Qed.

Lemma connection_start_inv negotiated rt total budget :
  0 ≤ max_in_flight negotiated → 0 ≤ total →
  conn_inv (max_in_flight negotiated) total (connection_start negotiated rt total budget).
Proof.
  intros Hm Ht. unfold connection_start.
  assert (conn_inv (max_in_flight negotiated) total
    {| cn_status := Running; cn_draining := rt_drain_value rt;
       cn_permits := max_in_flight negotiated; cn_active := ∅; cn_tasks := ∅;
       cn_next := 0; cn_notified := false; cn_writer_open := true; cn_sent := []; cn_received := [];
       cn_inbox := empty_inbox; cn_request_capacity := total; cn_request_bytes := total; cn_budget := budget;
       cn_runtime := rt |}) as Hi.
  { split; unfold held; simpl; rewrite ?fmap_empty, ?map_size_empty; try done; try lia.
    - unfold msum. rewrite map_fold_empty. unfold inbox_bytes. simpl. lia.
    - split; simpl; [lia|constructor|unfold zlen; simpl; lia]. }
  case_match; [|done]. by eapply conn_inv_field.
Qed.

Lemma conn_reachable_inv `{Z0 : ZstdOps} router peer negotiated policy total c c' :
  conn_inv (max_in_flight negotiated) total c → rtc (conn_step router peer negotiated policy) c c' →
  conn_inv (max_in_flight negotiated) total c'.
Proof. intros Hi. induction 1; [done|]. eauto using conn_step_inv. Qed.

(** ** Only the reader, and the loop as it receives, touch the inbox *)

Lemma inbox_send c f e : cn_inbox (send_or_close c f e) = cn_inbox c.
Proof. unfold send_or_close. by case_match. Qed.

Lemma inbox_goodbye c : cn_inbox (goodbye c) = cn_inbox c.
Proof. unfold goodbye. simpl. by case_match. Qed.

#[export] Hint Rewrite inbox_send inbox_goodbye : inbox.

Lemma inbox_on_frame router negotiated c bf uptime :
  cn_inbox (on_frame router negotiated c bf uptime) = cn_inbox c.
Proof.
  unfold on_frame, on_request, on_cancel, on_ping, on_health, on_stream_credit, protocol_error.
  repeat case_match; autorewrite with inbox; done.
Qed.

Lemma inbox_on_read_error c e : cn_inbox (on_read_error c e) = cn_inbox c.
Proof. unfold on_read_error. by case_match. Qed.

Lemma inbox_on_hub_event negotiated c f room :
  cn_inbox (on_hub_event negotiated c f room) = cn_inbox c.
Proof. unfold on_hub_event. by repeat case_match; autorewrite with inbox. Qed.

Lemma inbox_on_drain c : cn_inbox (on_drain c) = cn_inbox c.
Proof. unfold on_drain. repeat case_match; autorewrite with inbox; done. Qed.

Lemma inbox_on_active_changed c : cn_inbox (on_active_changed c) = cn_inbox c.
Proof. unfold on_active_changed. case_match; autorewrite with inbox; done. Qed.

#[export] Hint Rewrite inbox_on_frame inbox_on_read_error inbox_on_hub_event inbox_on_drain
  inbox_on_active_changed : inbox.

Lemma inbox_run `{Z0 : ZstdOps} router peer negotiated policy c tid t env c' :
  task_run router peer negotiated policy c tid t env = Some c' → cn_inbox c' = cn_inbox c.
Proof.
  unfold task_run, task_finish, task_continue.
  case_match; intros [= <-]; simpl; by destruct (cn_writer_open c).
Qed.

(** The frames that wait are well formed, whatever the settings. *)
Definition inbox_wf (c : Connection) : Prop := Forall item_ok (in_queue (cn_inbox c)).

Lemma inbox_wf_step `{Z0 : ZstdOps} router peer negotiated policy c c' :
  inbox_wf c → conn_step router peer negotiated policy c c' → inbox_wf c'.
Proof.
  unfold inbox_wf. intros Hi Hs.
  destruct Hs as [c' Hs|request_bytes budget rt Hothers]; [destruct Hs|];
    autorewrite with inbox; try done.
  - simpl. apply Forall_app. split; [done|]. constructor; [|done]. destruct r as [bf|e]; [|done].
    destruct H1 as (? & _ & Hz & _). split; [done|]. rewrite Hz. apply zlen_nonneg.
  - simpl. rewrite H0 in Hi. by apply Forall_cons in Hi as [_ ?].
  - simpl. rewrite H0 in Hi. by apply Forall_cons in Hi as [_ ?].
  - by erewrite inbox_run.
Qed.

(** * Draining *)

Definition count_kind (k : FrameKind) (fs : list Frame) : nat :=
  length (filter (λ f, kind f = k) fs).

Lemma count_kind_app k fs gs : count_kind k (fs ++ gs) = (count_kind k fs + count_kind k gs)%nat.
Proof. unfold count_kind. by rewrite filter_app, length_app. Qed.

Lemma count_kind_none k fs : Forall (λ f, kind f ≠ k) fs → count_kind k fs = 0%nat.
Proof.
  intros Hall. unfold count_kind. induction Hall as [|f fs Hf Hall IH]; [done|].
  rewrite filter_cons, decide_False by done. exact IH.
Qed.

Lemma count_answers k fs :
  Forall (λ f, answer_kind (kind f)) fs → ¬ answer_kind k → count_kind k fs = 0%nat.
Proof.
  intros Hall Hk. apply count_kind_none. eapply Forall_impl; [done|]. simpl. congruence.
Qed.

(** The drain protocol on the wire: [GOAWAY] was sent once if the connection
    drains with a working writer, and [GOODBYE] only when the loop ended. *)
Record drain_inv (c : Connection) : Prop := {
  di_goaway_once : (count_kind FrameKind.GoAway (cn_sent c) ≤ 1)%nat;
  di_goaway : cn_status c = Running → cn_draining c = true →
    count_kind FrameKind.GoAway (cn_sent c) = 1%nat;
  di_quiet : cn_draining c = false → count_kind FrameKind.GoAway (cn_sent c) = 0%nat;
  di_goodbye : cn_status c = Running → count_kind FrameKind.Goodbye (cn_sent c) = 0%nat;
  di_goodbye_once : (count_kind FrameKind.Goodbye (cn_sent c) ≤ 1)%nat;
}.

(** Sending frames of other kinds, in whatever status. *)
Lemma drain_inv_sends c c' fs :
  drain_inv c → cn_sent c' = cn_sent c ++ fs → cn_draining c' = cn_draining c →
  (cn_status c' = Running → cn_status c = Running) →
  count_kind FrameKind.GoAway fs = 0%nat → count_kind FrameKind.Goodbye fs = 0%nat →
  drain_inv c'.
Proof.
  intros [H1 H2 H3 H4 H5] Hs Hd Hst Hg Hb.
  split; rewrite ?Hs, ?Hd, ?count_kind_app, ?Hg, ?Hb, ?Nat.add_0_r; auto.
Qed.

Lemma drain_inv_silent c c' :
  drain_inv c → cn_sent c' = cn_sent c → cn_draining c' = cn_draining c →
  (cn_status c' = Running → cn_status c = Running) → drain_inv c'.
Proof.
  intros Hi Hs Hd Hst. apply (drain_inv_sends c c' []); try done. by rewrite app_nil_r.
Qed.

Lemma drain_inv_close c r : drain_inv c → drain_inv (close c r).
Proof. intros Hi. by apply (drain_inv_silent c). Qed.

Lemma drain_inv_send c f e :
  drain_inv c → kind f ≠ FrameKind.GoAway → kind f ≠ FrameKind.Goodbye →
  drain_inv (send_or_close c f e).
Proof.
  intros Hi H1 H2. unfold send_or_close. case_match; [|by apply drain_inv_close].
  apply (drain_inv_sends c _ [f]); try done; apply count_kind_none; by constructor.
Qed.

Lemma drain_inv_goodbye c : drain_inv c → cn_status c = Running → drain_inv (goodbye c).
Proof.
  intros [H1 H2 H3 H4 H5] Hst. unfold goodbye.
  destruct (cn_writer_open c) eqn:Hw; [|by apply drain_inv_close].
  split; simpl; try done; rewrite !count_kind_app; simpl.
  - by rewrite Nat.add_0_r.
  - intros. rewrite Nat.add_0_r. auto.
  - rewrite H4 by done. done.
Qed.

#[export] Hint Resolve drain_inv_close drain_inv_send drain_inv_goodbye : bridge.
#[export] Hint Extern 1 (_ ≠ _) => (simpl; discriminate) : bridge.

Lemma drain_inv_on_frame `{Z0 : ZstdOps} router negotiated c bf uptime :
  drain_inv c → drain_inv (on_frame router negotiated c bf uptime).
Proof.
  intros Hi. unfold on_frame, protocol_error. destruct (kind (bf_frame bf)); auto with bridge.
  - unfold on_request, protocol_error. repeat (case_match; auto with bridge).
    by apply (drain_inv_silent c).
  - unfold on_cancel. case_match; [|done]. by apply (drain_inv_silent c).
  - unfold on_ping, protocol_error. case_match; auto with bridge.
  - unfold on_health, protocol_error. case_match; auto with bridge.
  - unfold on_stream_credit, protocol_error. repeat (case_match; auto with bridge).
    by apply (drain_inv_silent c).
Qed.

Lemma drain_inv_answers c c' frame fs :
  drain_inv c → Forall (λ f, reply_to frame f ∧ answer_kind (kind f)) fs →
  cn_sent c' = cn_sent (if cn_writer_open c then push_sent c fs else c) →
  cn_draining c' = cn_draining c → cn_status c' = cn_status c → drain_inv c'.
Proof.
  intros Hi Hfs Hs Hd Hst.
  assert (Forall (λ f, answer_kind (kind f)) fs) as Hk by (eapply Forall_impl; [done|naive_solver]).
  destruct (cn_writer_open c); simpl in Hs.
  - apply (drain_inv_sends c _ fs); try done; [by rewrite Hst| |];
      apply count_answers; try done; unfold answer_kind; naive_solver.
  - apply (drain_inv_silent c); try done. by rewrite Hst.
Qed.

Lemma drain_inv_run `{Z0 : ZstdOps} router peer negotiated policy c tid t env c' :
  drain_inv c → task_run router peer negotiated policy c tid t env = Some c' → drain_inv c'.
Proof.
  intros Hi [(fs & b & -> & He)|[(b & ->)|(fs & t' & b & -> & Hc & _)]]%task_run_cases.
  - eapply drain_inv_answers; [done|by apply ends_with_replies|..];
      unfold task_finish; simpl; by destruct (cn_writer_open c).
  - by apply (drain_inv_silent c).
  - eapply drain_inv_answers; [done|by eapply continues_replies|..];
      unfold task_continue; simpl; by destruct (cn_writer_open c).
Qed.

Lemma drain_inv_step `{Z0 : ZstdOps} router peer negotiated policy c c' :
  drain_inv c → conn_step router peer negotiated policy c c' → drain_inv c'.
Proof.
  intros Hi Hs. destruct Hs as [c' Hs|request_bytes budget rt Hothers]; [destruct Hs|]; auto with bridge.
  1-3: by apply (drain_inv_silent c).
  - apply drain_inv_on_frame. by apply (drain_inv_silent c).
  - assert (drain_inv (loop_recv c (Err e) queue)) by by apply (drain_inv_silent c).
    unfold on_read_error. case_match; auto with bridge.
  - unfold on_hub_event. do 2 (case_match; [done|]). by apply drain_inv_send.
  - unfold on_drain. simpl. destruct (cn_writer_open c).
    + assert (drain_inv (push_sent (set_draining c) [go_away])) as Hi'.
      { destruct Hi as [H1 H2 H3 H4 H5].
        split; simpl; rewrite ?count_kind_app; try done.
        - by rewrite H3.
        - intros _ _. by rewrite H3.
        - intros _. by rewrite H4.
        - rewrite H4 by done. change (count_kind FrameKind.Goodbye [go_away]) with 0%nat. lia. }
      case_match; [|done]. by apply drain_inv_goodbye.
    + destruct Hi as [H1 H2 H3 H4 H5]. by split.
  - unfold on_active_changed.
    assert (drain_inv (set_notified c false)) by by apply (drain_inv_silent c).
    case_match; auto with bridge.
  - by apply (drain_inv_silent c).
  - by eapply drain_inv_run.
  - by apply (drain_inv_silent c).
  - by apply (drain_inv_silent c).
  - by apply (drain_inv_silent c).
Qed.

Lemma connection_start_drain_inv negotiated rt total budget :
  drain_inv (connection_start negotiated rt total budget).
Proof.
  unfold connection_start. destruct (rt_drain_value rt) eqn:Hd; split; simpl; rewrite ?Hd;
    try done; unfold count_kind; simpl; lia.
Qed.

Lemma drain_reachable_inv `{Z0 : ZstdOps} router peer negotiated policy c c' :
  drain_inv c → rtc (conn_step router peer negotiated policy) c c' → drain_inv c'.
Proof. intros Hi. induction 1; [done|]. eauto using drain_inv_step. Qed.

(** Only an admitted request creates a task, and none is admitted while the
    connection drains. *)
Lemma draining_step `{Z0 : ZstdOps} router peer negotiated policy c c' :
  conn_step router peer negotiated policy c c' → cn_draining c = true →
  cn_draining c' = true ∧ cn_next c' = cn_next c.
Proof.
  assert (∀ c f e, cn_draining (send_or_close c f e) = cn_draining c ∧
    cn_next (send_or_close c f e) = cn_next c) as Hsend
    by (intros ? ? ?; unfold send_or_close; by case_match).
  assert (∀ c, cn_draining (goodbye c) = cn_draining c ∧ cn_next (goodbye c) = cn_next c) as Hbye
    by (intros ?; unfold goodbye; simpl; by case_match).
  intros Hs Hd. destruct Hs as [c' Hs|request_bytes budget rt Hothers]; [destruct Hs|]; try done.
  - unfold on_frame, protocol_error. destruct (kind (bf_frame bf)); try done.
    + unfold on_request. cbn [cn_draining push_received loop_recv set_inbox]. rewrite Hd.
      match goal with |- context [send_or_close ?a ?b ?e] =>
        by destruct (Hsend a b e) as [-> ->] end.
    + unfold on_cancel. by case_match.
    + unfold on_ping, protocol_error. case_match; [done|].
      match goal with |- context [send_or_close ?a ?b ?e] =>
        by destruct (Hsend a b e) as [-> ->] end.
    + unfold on_health, protocol_error. case_match; [done|].
      match goal with |- context [send_or_close ?a ?b ?e] =>
        by destruct (Hsend a b e) as [-> ->] end.
    + unfold on_stream_credit, protocol_error. by repeat case_match.
  - unfold on_read_error. by case_match.
  - unfold on_hub_event. do 2 (case_match; [done|]).
    match goal with |- context [send_or_close ?a ?b ?e] =>
      by destruct (Hsend a b e) as [-> ->] end.
  - congruence.
  - unfold on_active_changed. case_match; [|done]. by destruct (Hbye (set_notified c false)) as [-> ->].
  - by destruct (Hbye c) as [-> ->].
  - match goal with H : task_run _ _ _ _ _ _ _ _ = Some _ |- _ => revert H end.
    unfold task_run, task_finish, task_continue.
    case_match; intros [= <-]; simpl; by destruct (cn_writer_open c).
Qed.

(** * Properties *)

Section properties.
Context `{Z0 : ZstdOps}.

(** C3 A connection never has more request tasks than the negotiated number of
    requests in flight, and its free permits and their number add up to it; the
    reader is at most that many frames, and the one it holds, ahead of the loop;
    the request bytes of its tasks, of the frames that were read and of the one
    being read, and the free ones stay within the budget that all connections
    share, whatever the others take and return; stream credits stay within what
    a semaphore can hold; and a table entry with a live task is filed under that
    task's request identifier, whatever the order of reads, frames,
    cancellations, panics, aborts and drains. *)
Theorem connection_bounded router peer negotiated policy rt total budget c :
  0 ≤ max_in_flight negotiated → 0 ≤ total →
  rtc (conn_step router peer negotiated policy) (connection_start negotiated rt total budget) c →
  Z.of_nat (size (cn_tasks c)) ≤ max_in_flight negotiated ∧
  cn_permits c + Z.of_nat (size (cn_tasks c)) = max_in_flight negotiated ∧
  zlen (in_queue (cn_inbox c)) ≤ max_in_flight negotiated + 1 ∧
  0 ≤ cn_request_bytes c ∧ 0 ≤ inbox_bytes (cn_inbox c) ∧
  cn_request_bytes c + msum (held c) + inbox_bytes (cn_inbox c) ≤ total ∧
  (∀ tid t credits, cn_tasks c !! tid = Some t → tk_credits t = Some credits →
     0 ≤ credits ≤ MAX_PERMITS) ∧
  (∀ id r t, cn_active c !! id = Some r → cn_tasks c !! ar_task r = Some t →
     request_id (tk_frame t) = id).
Proof.
  intros Hm Ht Hr.
  pose proof (conn_reachable_inv router peer negotiated policy total _ c
    (connection_start_inv negotiated rt total budget Hm Ht) Hr) as [H1 H2 _ H3 H4 Hin H5 H6].
  pose proof (inbox_bytes_nonneg _ _ Hin). destruct Hin as [_ _ Hlen].
  unfold held in H1. rewrite map_size_fmap in H1.
  split_and!; try lia; try done.
  - intros tid t credits Hl Hc. destruct (H5 _ _ Hl) as (_ & _ & _ & Hb). by apply Hb.
  - intros id r t Hr' Hl. destruct (H6 _ _ Hr') as [_ Hm']. by apply Hm'.
Qed.

(** C18 Draining follows the code's two phases: a running connection that drains
    has sent exactly one GOAWAY, no connection sends it twice, GOODBYE is sent at
    most once and never while the loop runs, and from the moment a connection
    drains no request is admitted any more.  GOODBYE thus follows the accepted
    work, while the server's README has it sent before waiting for that work. *)
Theorem connection_drain_protocol router peer negotiated policy rt total budget c :
  rtc (conn_step router peer negotiated policy) (connection_start negotiated rt total budget) c →
  (count_kind FrameKind.GoAway (cn_sent c) ≤ 1)%nat ∧
  (count_kind FrameKind.Goodbye (cn_sent c) ≤ 1)%nat ∧
  (cn_status c = Running → count_kind FrameKind.Goodbye (cn_sent c) = 0%nat ∧
     count_kind FrameKind.GoAway (cn_sent c) = if cn_draining c then 1%nat else 0%nat) ∧
  (cn_draining c = true → ∀ c', rtc (conn_step router peer negotiated policy) c c' →
     cn_draining c' = true ∧ cn_next c' = cn_next c).
Proof.
  intros Hr.
  pose proof (drain_reachable_inv router peer negotiated policy _ c
    (connection_start_drain_inv negotiated rt total budget) Hr) as [H1 H2 H3 H4 H5].
  split_and!; try done.
  - intros Hs. split; [auto|]. destruct (cn_draining c) eqn:Hd; auto.
  - intros Hd c' Hr'. induction Hr' as [|c1 c2 c3 Hs _ IH]; [done|].
    assert (rtc (conn_step router peer negotiated policy)
      (connection_start negotiated rt total budget) c2) as Hr2 by (eapply rtc_r; eauto).
    destruct (draining_step _ _ _ _ _ _ Hs Hd) as [Hd2 Hn2].
    pose proof (drain_inv_step _ _ _ _ _ _
      (drain_reachable_inv router peer negotiated policy _ c1
        (connection_start_drain_inv negotiated rt total budget) Hr) Hs) as [? ? ? ? ?].
    rewrite <- Hn2. apply IH; auto.
Qed.

(** C19 Admission of a request is exactly its guards: a task is created if and
    only if the connection does not drain, the identifier is not zero and not
    in use, a permit is free and, for a streaming method, streaming was
    negotiated.  Every other request is answered with one error frame that
    carries its identifiers, or ends the connection as a protocol error.  These
    are all the guards: [max_concurrent_streams] of the settings, which is
    negotiated as the number of concurrent streams that a peer accepts, bounds
    nothing here (see [streams_beyond_negotiated]). *)
Theorem request_admission router negotiated c f p :
  cn_status c = Running → cn_writer_open c = true →
  let c' := on_request router negotiated c f p in
  let admitted :=
    cn_draining c = false ∧ request_id f ≠ 0 ∧ 0 < cn_permits c ∧
    cn_active c !! request_id f = None ∧
    (is_streaming router (method_id f) = true →
       Z.land (features negotiated) FEATURE_SERVER_STREAMING ≠ 0) in
  (cn_next c' = S (cn_next c) ↔ admitted) ∧
  (admitted ∨
   (∃ code m, c' = push_sent c [error_frame f code m]) ∨
   (∃ text, cn_status c' = Closed (Err (io_error ErrorKind.InvalidData text)) ∧
            cn_sent c' = cn_sent c)).
Proof.
  intros Hst Hw. cbv zeta. unfold on_request, protocol_error, send_or_close. rewrite Hw.
  assert (∀ P : Prop, ¬ P → (cn_next c = S (cn_next c) ↔ P)) as Hno by (intros; split; [lia|done]).
  destruct (cn_draining c) eqn:Hd.
  { split; [apply Hno; naive_solver|]. right; left. by eexists _, _. }
  destruct (request_id f =? 0) eqn:Hid; bool_to_prop.
  { split; [apply Hno; naive_solver|]. right; right. by eexists. }
  destruct (cn_permits c <=? 0) eqn:Hp; bool_to_prop.
  { split; [apply Hno; intros (_ & _ & ? & _); lia|]. right; left. by eexists _, _. }
  destruct (_ && _) eqn:Hs.
  { apply andb_prop in Hs as [Hs1 Hs2]. bool_to_prop.
    split; [apply Hno; intros (_ & _ & _ & _ & Hx); by apply Hx|]. right; left. by eexists _, _. }
  destruct (cn_active c !! request_id f) as [r|] eqn:Ha.
  { rewrite bool_decide_true by done. split; [apply Hno; naive_solver|].
    right; right. by eexists. }
  rewrite bool_decide_false by (by intros [? ?]).
  assert (is_streaming router (method_id f) = true →
    Z.land (features negotiated) FEATURE_SERVER_STREAMING ≠ 0) as Hstr.
  { intros Hx. rewrite Hx in Hs. simpl in Hs. by bool_to_prop. }
  split; [|by left]. simpl. done.
Qed.
End properties.

(** ** Handshake *)

(** [a] asks for no more than [b] allows. *)
Definition settings_within (a b : PeerSettingsV2) : Prop :=
  max_body_len a ≤ max_body_len b ∧ max_decoded_body_len a ≤ max_decoded_body_len b ∧
  max_metadata_len a ≤ max_metadata_len b ∧ max_in_flight a ≤ max_in_flight b ∧
  max_concurrent_streams a ≤ max_concurrent_streams b ∧
  initial_stream_credit a ≤ initial_stream_credit b ∧
  Z.land (compression_codecs a) (compression_codecs b) = compression_codecs a ∧
  Z.land (features a) (features b) = features a ∧
  Z.land (diagnostic_features a) (diagnostic_features b) = diagnostic_features a.

Lemma land_le_r a b m : 0 ≤ a → 0 ≤ b ≤ m → 0 ≤ Z.land a b ≤ m.
Proof.
  intros Ha Hb. split; [apply Z.land_nonneg; lia|].
  rewrite <- (Z2N.id a Ha), <- (Z2N.id b) by lia. rewrite <- N2Z.inj_land.
  pose proof (N.land_le_r (Z.to_N a) (Z.to_N b)). lia.
Qed.

Lemma negotiate_within client server :
  settings_within (negotiate client server) client ∧
  settings_within (negotiate client server) server.
Proof.
  split; unfold settings_within; simpl; split_and!; try lia.
  all: rewrite <- Z.land_assoc; rewrite ?Z.land_diag; try done.
  all: rewrite (Z.land_comm (_ server) (_ client)), Z.land_assoc, Z.land_diag; done.
Qed.

Lemma negotiate_wf client server :
  PeerSettingsV2_wf client → PeerSettingsV2_wf server →
  PeerSettingsV2_wf (negotiate client server).
Proof.
  unfold PeerSettingsV2_wf. rewrite !Forall_cons. simpl.
  intros [(? & ? & ? & ? & ? & ? & ? & _) (? & ? & _)]
         [(? & ? & ? & ? & ? & ? & ? & _) (? & ? & _)].
  split; repeat (apply conj; [first [lia|apply land_le_r; lia]|]); done.
Qed.

Lemma land_1_cases z : Z.land z 1 = 0 ∨ Z.land z 1 = 1.
Proof.
  pose proof (Z.land_ones z 1 ltac:(lia)) as Hz. change (Z.ones 1) with 1 in Hz.
  rewrite Hz. pose proof (Z.mod_pos_bound z (2 ^ 1) ltac:(lia)) as Hb.
  change (2 ^ 1) with 2 in *. lia.
Qed.

Lemma negotiate_valid client server :
  PeerSettingsV2_wf client → PeerSettingsV2_wf server →
  settings_invalid client = false → settings_invalid server = false →
  settings_invalid (negotiate client server) = false.
Proof.
  unfold PeerSettingsV2_wf. rewrite !Forall_cons. simpl.
  intros [(? & ? & ? & ? & ? & ? & ? & _) _] [(? & ? & ? & ? & ? & ? & ? & _) _].
  unfold settings_invalid. intros Hc Hs. bool_to_prop. simpl.
  rewrite !orb_false_iff, !Z.eqb_neq. split_and!; try lia.
  rewrite <- (Z.land_diag 1), Z.land_assoc, <- (Z.land_assoc (compression_codecs client)),
    (Z.land_comm (compression_codecs server)), Z.land_assoc, <- Z.land_assoc.
  destruct (land_1_cases (compression_codecs client)) as [?| ->]; [done|].
  by destruct (land_1_cases (compression_codecs server)) as [?| ->].
Qed.

(** The handshake agrees with the client: it succeeds only on a HELLO with
    request identifier zero that carries valid settings, what it writes is
    exactly one WELCOME frame, the settings the client decodes from it are the
    ones the server uses, and they are valid and within what both sides
    asked for. *)
Theorem handshake_correct s server negotiated written s' :
  PeerSettingsV2_wf server → settings_invalid server = false →
  handshake s server = Ok (negotiated, written, s') →
  ∃ client hello,
    arrived s = frame_bytes hello ++ arrived s' ∧
    kind hello = FrameKind.Hello ∧ request_id hello = 0 ∧
    body hello = PeerSettingsV2_encode client ∧
    negotiated = negotiate client server ∧
    settings_within negotiated client ∧ settings_within negotiated server ∧
    ∃ welcome, kind welcome = FrameKind.Welcome ∧
      read_frame (MkStream written true) SETTINGS_BODY_LEN
        = Ready (Ok (welcome, MkStream [] true)) ∧
      PeerSettingsV2_decode (body welcome) = Ok negotiated.
Proof.
  intros Hwf Hval. unfold handshake. intros H.
  apply bind_Ok in H as ([hello s1] & Hr & H). destruct (_ || _) eqn:Hk; [done|].
  bool_to_prop. apply bind_Ok in H as (client & Hc & H). apply map_err_Ok in Hc.
  apply PeerSettingsV2_decode_inv in Hc as (Hb & Hcwf & Hcval).
  apply bind_Ok in H as (w & Hw & H). injection H as <- <- <-.
  unfold timeout_io in Hr. destruct (read_frame s SETTINGS_BODY_LEN) as [r|] eqn:Er; [|done].
  subst r. apply read_frame_Ok in Er as (Ha & _ & _).
  exists client, hello. split; [done|]. split; [by apply bool_decide_eq_true in H0|].
  split; [done|]. split; [done|]. split; [done|].
  destruct (negotiate_within client server) as [Hn1 Hn2]. split; [done|]. split; [done|].
  set (n := negotiate client server) in *.
  exists (Frame_new FrameKind.Welcome 0 0 (PeerSettingsV2_encode n)). split; [done|].
  assert (sendable SETTINGS_BODY_LEN (Frame_new FrameKind.Welcome 0 0 (PeerSettingsV2_encode n)))
    as Hs.
  { split; [by vm_compute|]. split; [done|]. cbn [body Frame_new]. unfold zlen.
    by rewrite length_PeerSettingsV2_encode. }
  unfold write_frame in Hw. rewrite (Frame_encode_bytes SETTINGS_BODY_LEN) in Hw by done.
  injection Hw as <-. split.
  - rewrite <- (app_nil_r (frame_bytes _)). by apply read_frame_written.
  - apply PeerSettingsV2_decode_encode; [by apply negotiate_wf|by apply negotiate_valid].
Qed.

(** ** Entries that outlive their task, tasks that outlive their entry *)

Definition sample_runtime : RuntimeState :=
  {| rt_ready := true; rt_active_connections := 1; rt_active_requests := 0;
     rt_max_in_flight := 256; rt_draining := false; rt_drain_value := false;
     rt_force_value := false |}.

Definition sample_start : Connection :=
  connection_start PeerSettingsV2_default sample_runtime 100 witness_budget.

Definition incoming (k : FrameKind) (id : Z) : BufferedFrame :=
  {| bf_frame := Frame_new k 5 id [x2a]; bf_permit := Some 1; bf_received_at := None |}.

Definition panic_router : Router :=
  {| handlers := {[5 := λ _, Panicked]}; stream_handlers := ∅; method_names := ∅;
     required_scopes := ∅; middleware := []; telemetry := None |}.

Definition prompt : task_env :=
  {| te_spurious := []; te_now := 0; te_late := false; te_room := true |}.

Definition sample_step (r : Router) : relation Connection :=
  conn_step r None PeerSettingsV2_default witness_policy.

(** The task of an identifier in the tables of [c], started. *)
Definition started (c : Connection) (tid : nat) : Connection :=
  match cn_tasks c !! tid with Some t => task_start c tid t | None => c end.

Definition ran (r : Router) (c : Connection) (tid : nat) : Connection :=
  match cn_tasks c !! tid with
  | Some t => default c (task_run r None PeerSettingsV2_default witness_policy c tid t prompt)
  | None => c
  end.

(** A frame that arrives at an idle reader, with the permits of its body, and is
    taken by the loop. *)
Definition read_in (c : Connection) (bf : BufferedFrame) : Connection :=
  reader_send (if permits_of bf =? 0 then c else reader_acquire c (permits_of bf)) (Ok bf).

Definition take_frame (r : Router) (c : Connection) (bf : BufferedFrame) : Connection :=
  on_frame r PeerSettingsV2_default
    (push_received (loop_recv (read_in c bf) (Ok bf) []) (bf_frame bf)) bf 0.

Definition can_take (c : Connection) (bf : BufferedFrame) : bool :=
  match cn_status c with Running => true | Closed _ => false end
  && (in_partial (cn_inbox c) =? 0) && bool_decide (length (in_queue (cn_inbox c)) = 0%nat)
  && (0 <=? flags (bf_frame bf)) && (flags (bf_frame bf) <=? u16_max)
  && (0 <=? method_id (bf_frame bf)) && (method_id (bf_frame bf) <=? u32_max)
  && (0 <=? request_id (bf_frame bf)) && (request_id (bf_frame bf) <=? u64_max)
  && (permits_of bf =? zlen (body (bf_frame bf)))
  && (zlen (body (bf_frame bf)) <=? max_body_len PeerSettingsV2_default)
  && (permits_of bf <=? cn_request_bytes c).

Lemma own_read_in r negotiated c bf :
  negotiated = PeerSettingsV2_default → can_take c bf = true →
  rtc (own_step r None negotiated witness_policy) c (read_in c bf) ∧
  own_step r None negotiated witness_policy (read_in c bf) (take_frame r c bf).
Proof.
  intros -> Hc. unfold can_take in Hc. destruct (cn_status c) eqn:Hs; [|done].
  bool_to_prop.
  match goal with H : bool_decide _ = true |- _ => apply bool_decide_eq_true in H; apply nil_length_inv in H; rename H into Hq end.
  assert (0 ≤ zlen (body (bf_frame bf))) by (unfold zlen; lia).
  split.
  - unfold read_in. destruct (permits_of bf =? 0) eqn:Ep; bool_to_prop.
    + apply rtc_once, cs_read; [done| |].
      * unfold reader_live. by rewrite Hq.
      * split_and!; [unfold Frame_wf; lia|done|done|simpl; lia].
    + eapply rtc_l; [apply (cs_acquire _ _ _ _ _ (permits_of bf)); [done| |done|lia|lia]|].
      { unfold reader_live. by rewrite Hq. }
      apply rtc_once, cs_read; [done| |].
      * unfold reader_live. simpl. by rewrite Hq.
      * split_and!; [unfold Frame_wf; lia|done|done|simpl; lia].
  - apply cs_frame; unfold read_in; simpl; destruct (permits_of bf =? 0); simpl; rewrite ?Hq; done.
Qed.

Lemma step_take r c bf : can_take c bf = true → rtc (sample_step r) c (take_frame r c bf).
Proof.
  intros Hc. destruct (own_read_in r _ c bf eq_refl Hc) as [H1 H2].
  eapply rtc_r; [|by apply cs_own]. eapply (rtc_congruence id); [|exact H1]. intros x y. apply cs_own.
Qed.

Definition took (r : Router) (c : Connection) (k : FrameKind) (id : Z) : Connection :=
  take_frame r c (incoming k id).

Lemma step_took r c k id :
  can_take c (incoming k id) = true → rtc (sample_step r) c (took r c k id).
Proof. apply step_take. Qed.

(** The steps below are enabled; decided by evaluation. *)
Definition can_start (c : Connection) (tid : nat) : bool :=
  match cn_tasks c !! tid with Some t => negb (tk_started t) | None => false end.

Definition can_run (r : Router) (c : Connection) (tid : nat) : bool :=
  match cn_tasks c !! tid with
  | Some t =>
      tk_started t &&
      match task_run r None PeerSettingsV2_default witness_policy c tid t prompt with
      | Some _ => true
      | None => false
      end
  | None => false
  end.

Lemma step_started r c tid : can_start c tid = true → sample_step r c (started c tid).
Proof.
  unfold can_start, started. destruct (cn_tasks c !! tid) as [t|] eqn:Ht; [|done].
  intros Hs. bool_to_prop. by apply cs_own, cs_task_start.
Qed.

Lemma step_ran r c tid : can_run r c tid = true → sample_step r c (ran r c tid).
Proof.
  unfold can_run, ran. destruct (cn_tasks c !! tid) as [t|] eqn:Ht; [|done].
  destruct (task_run _ _ _ _ _ _ _ _) as [c'|] eqn:Hr; [|by rewrite andb_false_r].
  rewrite andb_true_r. intros Hs. by eapply cs_own, cs_task_run.
Qed.

Definition leak_1 : Connection :=
  took panic_router sample_start FrameKind.Request 1.
Definition leak_parsed : Connection := ran panic_router (started leak_1 0) 0.
Definition leak_2 : Connection := ran panic_router leak_parsed 0.
Definition leak_3 : Connection := on_drain leak_2.

Lemma leak_reachable : rtc (sample_step panic_router) sample_start leak_3.
Proof.
  etrans; [apply (step_took panic_router sample_start FrameKind.Request 1); vm_compute; reflexivity|].
  eapply rtc_l; [apply (step_started panic_router leak_1 0); vm_compute; reflexivity|].
  eapply rtc_l; [apply (step_ran panic_router (started leak_1 0) 0); vm_compute; reflexivity|].
  eapply rtc_l; [apply (step_ran panic_router leak_parsed 0); vm_compute; reflexivity|].
  apply rtc_once. apply cs_own, (cs_drain panic_router None PeerSettingsV2_default witness_policy leak_2);
    vm_compute; reflexivity.
Qed.

(** A handler panic leaves its table entry behind: after a request whose
    handler panics without middleware, a connection that starts to drain has no
    task left but an entry that nothing removes and no pending notification, so
    the drain does not complete by itself; and a second request with the same
    identifier is refused as a duplicate and closes the connection. *)
Theorem panicked_entry_leaks :
  rtc (sample_step panic_router) sample_start leak_3 ∧
  cn_status leak_3 = Running ∧ cn_draining leak_3 = true ∧
  cn_tasks leak_3 = ∅ ∧ is_Some (cn_active leak_3 !! 1) ∧ cn_notified leak_3 = false ∧
  cn_sent leak_3 = [go_away] ∧
  cn_status (on_frame panic_router PeerSettingsV2_default leak_2
               (incoming FrameKind.Request 1) 0)
    = Closed (Err (io_error ErrorKind.InvalidData "duplicate active request_id")).
Proof.
  split; [apply leak_reachable|]. split_and!; try (vm_compute; reflexivity).
  vm_compute. by eexists.
Qed.

(** Cancelled while it finishes, with its identifier used again. *)
Definition reuse_1 : Connection :=
  started (took echo_router sample_start FrameKind.Request 1) 0.
Definition reuse_2 : Connection :=
  took echo_router reuse_1 FrameKind.Cancel 1.
Definition reuse_3 : Connection :=
  started (took echo_router reuse_2 FrameKind.Request 1) 1.
Definition reuse_parsed : Connection := ran echo_router reuse_3 0.
Definition reuse_4 : Connection := ran echo_router reuse_parsed 0.
Definition reuse_5 : Connection := on_drain reuse_4.

Lemma reuse_4_reachable : rtc (sample_step echo_router) sample_start reuse_4.
Proof.
  transitivity reuse_1.
  { unfold reuse_1. apply (rtc_r _ (took echo_router sample_start FrameKind.Request 1));
      [apply step_took|apply step_started]; vm_compute; reflexivity. }
  transitivity reuse_2; [unfold reuse_2; apply step_took; vm_compute; reflexivity|].
  transitivity reuse_3.
  { unfold reuse_3. apply (rtc_r _ (took echo_router reuse_2 FrameKind.Request 1));
      [apply step_took|apply step_started]; vm_compute; reflexivity. }
  transitivity reuse_parsed; [unfold reuse_parsed|unfold reuse_4];
    apply rtc_once, step_ran; vm_compute; reflexivity.
Qed.

Lemma reuse_reachable : rtc (sample_step echo_router) sample_start reuse_5.
Proof.
  eapply rtc_r; [apply reuse_4_reachable|]. apply cs_own, (cs_drain echo_router None PeerSettingsV2_default witness_policy reuse_4);
    vm_compute; reflexivity.
Qed.

(** A cancelled request that still finishes removes the entry of a newer
    request with the same identifier: the newer task then runs without an
    entry, and a drain closes the connection with GOODBYE while that task is
    live and not aborted. *)
Theorem reused_id_orphans_task :
  rtc (sample_step echo_router) sample_start reuse_5 ∧
  cn_status reuse_5 = Closed (Ok tt) ∧
  cn_active reuse_4 = ∅ ∧
  (∃ t, cn_tasks reuse_5 !! 1%nat = Some t ∧ tk_started t = true ∧ tk_aborted t = false).
Proof.
  split; [apply reuse_reachable|]. split_and!; try (vm_compute; reflexivity).
  vm_compute. by eexists.
Qed.

(** Two streams are admitted at once on a connection whose peers agreed on one. *)
Definition one_stream : PeerSettingsV2 :=
  {| max_body_len := DEFAULT_MAX_BODY_LEN; max_decoded_body_len := DEFAULT_MAX_BODY_LEN;
     max_metadata_len := max_metadata_len PeerSettingsV2_default;
     max_in_flight := max_in_flight PeerSettingsV2_default; max_concurrent_streams := 1;
     initial_stream_credit := initial_stream_credit PeerSettingsV2_default;
     compression_codecs := compression_codecs PeerSettingsV2_default;
     features := features PeerSettingsV2_default;
     diagnostic_features := diagnostic_features PeerSettingsV2_default |}.

Example streams_beyond_negotiated :
  let request id c := on_request echo_router one_stream c (Frame_new FrameKind.Request 6 id []) 0 in
  let c := request 2 (request 1 (connection_start one_stream sample_runtime 100 witness_budget)) in
  is_streaming echo_router 6 = true ∧
  size (cn_active c) = 2%nat ∧ size (cn_tasks c) = 2%nat ∧ cn_status c = Running ∧ cn_sent c = [].
Proof. repeat split; vm_compute; reflexivity. Qed.

(** ** Witnesses *)

Lemma connection_bounded_witness :
  Z.of_nat (size (cn_tasks reuse_5)) ≤ 256.
Proof.
  refine (proj1 (connection_bounded echo_router None PeerSettingsV2_default witness_policy
    sample_runtime 100 witness_budget reuse_5 _ _ _)).
  - vm_compute. discriminate.
  - vm_compute. discriminate.
  - apply reuse_reachable.
Defined.

Lemma connection_drain_protocol_witness :
  count_kind FrameKind.Goodbye (cn_sent leak_3) = 0%nat ∧
  count_kind FrameKind.GoAway (cn_sent leak_3) = 1%nat.
Proof.
  destruct (connection_drain_protocol panic_router None PeerSettingsV2_default witness_policy
    sample_runtime 100 witness_budget leak_3 leak_reachable) as (_ & _ & H & _).
  apply H. vm_compute. reflexivity.
Defined.

Lemma request_admission_witness :
  cn_next (on_request echo_router PeerSettingsV2_default sample_start
             (Frame_new FrameKind.Request 5 3 []) 0) = 1%nat.
Proof.
  refine (proj2 (proj1 (request_admission echo_router PeerSettingsV2_default sample_start
    (Frame_new FrameKind.Request 5 3 []) 0 _ _)) _); [reflexivity|reflexivity|].
  split; [reflexivity|]. split; [discriminate|]. split; [vm_compute; reflexivity|].
  split; [reflexivity|]. intros _. vm_compute. discriminate.
Defined.

Lemma handshake_correct_witness :
  ∃ welcome written,
    handshake (MkStream (frame_bytes (Frame_new FrameKind.Hello 0 0
                 (PeerSettingsV2_encode PeerSettingsV2_default))) true) PeerSettingsV2_default
      = Ok (PeerSettingsV2_default, written, MkStream [] true) ∧
    read_frame (MkStream written true) SETTINGS_BODY_LEN = Ready (Ok (welcome, MkStream [] true)).
Proof.
  destruct (handshake_correct
    (MkStream (frame_bytes (Frame_new FrameKind.Hello 0 0
       (PeerSettingsV2_encode PeerSettingsV2_default))) true)
    PeerSettingsV2_default PeerSettingsV2_default
    (frame_bytes (Frame_new FrameKind.Welcome 0 0 (PeerSettingsV2_encode PeerSettingsV2_default)))
    (MkStream [] true))
    as (client & hello & _ & _ & _ & _ & _ & _ & _ & welcome & _ & Hr & _).
  - split; repeat constructor; vm_compute; discriminate.
  - reflexivity.
  - vm_compute. reflexivity.
  - eexists welcome, _. split; [vm_compute; reflexivity|exact Hr].
Defined.
