(* ===== verification/Flow.v ===== *)
(** Flow control of a connection: the decoded bytes that its tasks hold of the
    budget the whole server shares, and the items its streams send for the
    credits their client grants. *)
From S2P Require Import Prelude OrdMap Compression Protocol Metadata Transport Outbound.
From S2P Require Import Middleware Router Dispatch Connection.

(** * Decoded bytes *)

Definition permits (c : Connection) : gmap nat Z := permit_bytes <$> cn_tasks c.

(** The shared budget is sound, and charged with what the tasks here hold. *)
Record budget_inv (capacity : Z) (c : Connection) : Prop := {
  bv_wf : budget_wf (cn_budget c);
  bv_capacity : bi_capacity (cn_budget c) = capacity;
  bv_permits : map_Forall (λ _ x, 0 ≤ x) (permits c);
  bv_held : decoded c ≤ bi_used (cn_budget c);
}.

Lemma budget_same capacity c c' :
  budget_inv capacity c → permits c' = permits c → cn_budget c' = cn_budget c →
  budget_inv capacity c'.
Proof.
  intros [H1 H2 H3 H4] Hp Hb. split; unfold decoded; fold (permits c'); rewrite ?Hp, ?Hb; done.
Qed.

Lemma budget_close capacity c r : budget_inv capacity c → budget_inv capacity (close c r).
Proof.
  intros Hi. apply (budget_same capacity c); [done| |done]. unfold permits. simpl.
  apply map_eq. intros tid. rewrite !lookup_fmap, map_lookup_imap.
  destruct (cn_tasks c !! tid); [|done]. simpl. by case_bool_decide.
Qed.

Lemma budget_send capacity c f e : budget_inv capacity c → budget_inv capacity (send_or_close c f e).
Proof.
  intros Hi. unfold send_or_close. case_match; [|by apply budget_close]. by apply (budget_same capacity c).
Qed.

Lemma budget_goodbye capacity c : budget_inv capacity c → budget_inv capacity (goodbye c).
Proof. intros Hi. apply budget_close. case_match; [|done]. by apply (budget_same capacity c). Qed.

Lemma budget_alter capacity c active g tid :
  budget_inv capacity c → (∀ t, tk_phase (g t) = tk_phase t) →
  budget_inv capacity (set_tasks c active (alter g tid (cn_tasks c))).
Proof.
  intros Hi Hg. apply (budget_same capacity c); [done| |done]. unfold permits. simpl.
  apply map_eq. intros tid'. rewrite !lookup_fmap, lookup_alter. case_decide; [subst|done].
  destruct (cn_tasks c !! tid'); simpl; [|done]. f_equal. unfold permit_bytes, tk_permit. by rewrite Hg.
Qed.

#[local] Hint Resolve budget_close budget_send budget_goodbye : bridge.

Lemma budget_on_frame router negotiated max total capacity c bf uptime :
  conn_inv max total c → budget_inv capacity c →
  budget_inv capacity (on_frame router negotiated c bf uptime).
Proof.
  intros Hc Hi. unfold on_frame, protocol_error. destruct (kind (bf_frame bf)); auto with bridge.
  - unfold on_request, protocol_error. repeat (case_match; auto with bridge).
    destruct Hi as [Hwf Hcap Hpos Hheld].
    assert (permits (spawn_request c (bf_frame bf) (permits_of bf)
      (is_streaming router (method_id (bf_frame bf)))) = <[cn_next c := 0]> (permits c)) as Hp
      by (unfold permits; simpl; by rewrite fmap_insert).
    assert (permits c !! cn_next c = None) as Hnone.
    { unfold permits. rewrite lookup_fmap. destruct (cn_tasks c !! cn_next c) as [t|] eqn:Ht; [|done].
      apply (ci_task _ _ _ Hc) in Ht as [? _]. lia. }
    split; [done|done| |].
    + rewrite Hp. by apply map_Forall_insert_2.
    + unfold decoded. fold (permits (spawn_request c (bf_frame bf) (permits_of bf)
        (is_streaming router (method_id (bf_frame bf))))). rewrite Hp, msum_insert by done. exact Hheld.
  - unfold on_cancel. destruct (cn_active c !! _) as [r|]; [|done].
    apply (budget_same capacity (set_tasks c (delete (request_id (bf_frame bf)) (cn_active c))
      (alter abort_task (ar_task r) (cn_tasks c)))); [by apply budget_alter|done|done].
  - unfold on_ping, protocol_error. case_match; auto with bridge.
  - unfold on_health, protocol_error. case_match; auto with bridge.
  - unfold on_stream_credit, protocol_error. repeat (case_match; auto with bridge).
    by apply budget_alter.
Qed.

(** Replacing a task moves the charge by the difference of the permits. *)
Lemma budget_insert capacity c c' tid t t' :
  budget_inv capacity c → cn_tasks c !! tid = Some t → cn_tasks c' = <[tid := t']> (cn_tasks c) →
  budget_wf (cn_budget c') → bi_capacity (cn_budget c') = bi_capacity (cn_budget c) →
  bi_used (cn_budget c') - permit_bytes t' = bi_used (cn_budget c) - permit_bytes t →
  0 ≤ permit_bytes t' → budget_inv capacity c'.
Proof.
  intros [H1 H2 H3 H4] Hl Ht Hwf Hcap Hused Hpos.
  assert (permits c' = <[tid := permit_bytes t']> (permits c)) as Hp
    by (unfold permits; by rewrite Ht, fmap_insert).
  assert (permits c !! tid = Some (permit_bytes t)) as Hpl by (unfold permits; by rewrite lookup_fmap, Hl).
  split; [done|by rewrite Hcap| |].
  - rewrite Hp. by apply map_Forall_insert_2.
  - unfold decoded in *. fold (permits c) (permits c') in *. rewrite Hp, (msum_replace _ _ _ _ Hpl). lia.
Qed.

(** What one task holds is within what all hold, and so within the charge. *)
Lemma permit_charged capacity c tid t :
  budget_inv capacity c → cn_tasks c !! tid = Some t →
  0 ≤ permit_bytes t ≤ bi_used (cn_budget c).
Proof.
  intros [H1 H2 H3 H4] Hl.
  assert (permits c !! tid = Some (permit_bytes t)) as Hpl by (unfold permits; by rewrite lookup_fmap, Hl).
  pose proof (H3 _ _ Hpl) as Hpos. simpl in Hpos. split; [done|].
  unfold decoded in H4. fold (permits c) in H4.
  pose proof (msum_delete _ _ _ Hpl) as Hd.
  pose proof (msum_nonneg (delete tid (permits c)) (map_Forall_delete _ _ tid H3)). lia.
Qed.

Lemma budget_gone capacity c c' tid t :
  budget_inv capacity c → cn_tasks c !! tid = Some t → cn_tasks c' = delete tid (cn_tasks c) →
  cn_budget c' = release_permit (tk_permit t) (cn_budget c) → budget_inv capacity c'.
Proof.
  intros Hi Hl Ht Hb. pose proof (permit_charged _ _ _ _ Hi Hl) as Hr.
  destruct Hi as [H1 H2 H3 H4].
  assert (permits c !! tid = Some (permit_bytes t)) as Hpl by (unfold permits; by rewrite lookup_fmap, Hl).
  assert (permits c' = delete tid (permits c)) as Hp by (unfold permits; by rewrite Ht, fmap_delete).
  rewrite release_permit_used in Hb by done. fold (permit_bytes t) in Hb.
  split; rewrite ?Hb; simpl.
  - destruct H1 as [? ?]. split; simpl; lia.
  - done.
  - rewrite Hp. by apply map_Forall_delete.
  - unfold decoded in *. fold (permits c) (permits c') in *. rewrite Hp, (msum_delete _ _ _ Hpl). lia.
Qed.

Section polls.
Context `{Z0 : ZstdOps}.
Context (router : Router) (peer : option PeerIdentity).
Context (negotiated : PeerSettingsV2) (policy : CompressionPolicy).

(** A poll that ends the task returns its permit; one that goes on moves the
    budget by what it takes. *)
Lemma task_poll_budget t env w b :
  budget_wf b →
  match task_poll router peer negotiated policy t env w b with
  | PollFinish _ b' | PollUnwind b' => b' = release_permit (tk_permit t) b
  | PollContinue _ t' b' =>
      budget_wf b' ∧ bi_capacity b' = bi_capacity b ∧
      bi_used b' - permit_bytes t' = bi_used b - permit_bytes t ∧
      (0 ≤ permit_bytes t → 0 ≤ permit_bytes t')
  | PollWait => True
  end.
Proof.
  intros Hwf. unfold task_poll, permit_bytes, tk_permit.
  destruct (tk_phase t) as [| |parsed|permit d]; [by destruct (tk_credits t)|..].
  - unfold poll_parse.
    pose proof (request_payload_budget (te_spurious env) (tk_frame t) (max_metadata_len negotiated)
      {| rc_codecs := compression_codecs negotiated; rc_policy := policy |} (keeps_metadata router)
      b Hwf) as Hb.
    destruct (request_payload _ _ _ _ _ _) as [b1 [parsed|[ec em]]] eqn:Ep; [|done].
    apply request_payload_charge in Ep as (H1 & H2 & H3 & H4); [|done]. simpl. split_and!; try done. lia.
  - unfold poll_handler. destruct (tk_credits t); [|by destruct (d_end _)].
    by destruct (open_stream _ _ _ _ _ _).2.
  - destruct (tk_credits t); [|done]. unfold poll_delivery.
    destruct (stream_turn _ _ _ _ _); try done. by destruct w.
Qed.

Lemma budget_run capacity c tid t env c' :
  budget_inv capacity c → cn_tasks c !! tid = Some t →
  task_run router peer negotiated policy c tid t env = Some c' → budget_inv capacity c'.
Proof.
  intros Hi Hl. unfold task_run.
  pose proof (task_poll_budget t env (cn_writer_open c) (cn_budget c) (bv_wf _ _ Hi)) as Hp.
  destruct (task_poll _ _ _ _ _ _ _ _) as [fs b|b|fs t' b|]; intros [= <-].
  - apply (budget_gone capacity c _ tid t); try done. unfold task_finish. simpl.
    by destruct (cn_writer_open c).
  - by apply (budget_gone capacity c _ tid t).
  - destruct Hp as (H1 & H2 & H3 & H4). pose proof (permit_charged _ _ _ _ Hi Hl) as [Hpos _].
    apply (budget_insert capacity c _ tid t t'); try done; auto.
Qed.

Lemma budget_step max total capacity c c' :
  conn_inv max total c → budget_inv capacity c →
  conn_step router peer negotiated policy c c' → budget_inv capacity c'.
Proof.
  intros Hc Hi Hs. destruct Hs as [c' Hs|request_bytes budget rt Hothers]; [destruct Hs|]; auto with bridge.
  1-3: by apply (budget_same capacity c).
  - destruct (conn_inv_recv _ _ _ _ _ Hc H0) as (Hc' & _).
    eapply budget_on_frame; [by eapply conn_inv_field|]. by apply (budget_same capacity c).
  - assert (budget_inv capacity (loop_recv c (Err e) queue)) by by apply (budget_same capacity c).
    unfold on_read_error. case_match; auto with bridge.
  - unfold on_hub_event. repeat case_match; auto with bridge.
  - assert (budget_inv capacity (set_draining c)) by by apply (budget_same capacity c).
    unfold on_drain. case_match; [|auto with bridge].
    assert (budget_inv capacity (push_sent (set_draining c) [go_away]))
      by by apply (budget_same capacity c).
    case_match; auto with bridge.
  - assert (budget_inv capacity (set_notified c false)) by by apply (budget_same capacity c).
    unfold on_active_changed. case_match; auto with bridge.
  - assert (permit_bytes t = 0) as Hz
      by (unfold permit_bytes, tk_permit, tk_started in *; by destruct (tk_phase t)).
    apply (budget_insert capacity c _ tid t (with_phase t (tk_credits t) Polled)); try done.
    + apply Hi.
    + rewrite Hz. done.
  - by eapply budget_run.
  - by apply (budget_gone capacity c _ tid t).
  - by apply (budget_same capacity c).
  - destruct Hi as [H1 H2 H3 H4]. destruct Hothers as (_ & _ & Hw & Hcap & Hd).
    split; simpl; [done|congruence|done|done].
Qed.
End polls.

(** * Stream credits *)

Definition is_item (id : Z) (f : Frame) : bool :=
  bool_decide (kind f = FrameKind.StreamItem) && (request_id f =? id).

(** How many items were sent for an identifier, and how many a client granted. *)
Definition items_sent (fs : list Frame) (id : Z) : Z := zsum (λ f, if is_item id f then 1 else 0) fs.

Definition credit_in (id : Z) (f : Frame) : Z :=
  if bool_decide (kind f = FrameKind.StreamCredit) && (request_id f =? id)
  then be_val (body f) else 0.

Definition credits_granted (fs : list Frame) (id : Z) : Z := zsum (credit_in id) fs.

(** The credits that the tasks of an identifier have not used. *)
Definition credit_left (id : Z) (t : Task) : Z :=
  if request_id (tk_frame t) =? id then default 0 (tk_credits t) else 0.

Definition unused (c : Connection) (id : Z) : Z := msum (credit_left id <$> cn_tasks c).

Definition spent (c : Connection) (id : Z) : Z := items_sent (cn_sent c) id + unused c id.

Lemma credit_in_nonneg id f : 0 ≤ credit_in id f.
Proof. unfold credit_in. case_match; [apply be_val_range|lia]. Qed.

Lemma items_sent_app fs gs id : items_sent (fs ++ gs) id = items_sent fs id + items_sent gs id.
Proof. apply zsum_app. Qed.

Lemma items_sent_none fs id : Forall (λ f, kind f ≠ FrameKind.StreamItem) fs → items_sent fs id = 0.
Proof.
  unfold items_sent. induction 1 as [|f fs Hf _ IH]; [done|]. simpl. rewrite IH.
  unfold is_item. by rewrite bool_decide_false.
Qed.

(** Steps that keep the credits of the tasks and send no item. *)
Lemma spent_sends c c' fs id :
  (credit_left id <$> cn_tasks c') = (credit_left id <$> cn_tasks c) →
  cn_sent c' = cn_sent c ++ fs → Forall (λ f, kind f ≠ FrameKind.StreamItem) fs →
  spent c' id = spent c id.
Proof.
  intros Ht Hs Hfs. unfold spent, unused. rewrite Ht, Hs, items_sent_app, (items_sent_none fs) by done. lia.
Qed.

Lemma spent_same c c' id :
  cn_tasks c' = cn_tasks c → cn_sent c' = cn_sent c → spent c' id = spent c id.
Proof. intros Ht Hs. unfold spent, unused. by rewrite Ht, Hs. Qed.

Lemma spent_close c r id : spent (close c r) id = spent c id.
Proof.
  apply (spent_sends c _ []); [|by rewrite app_nil_r|done]. simpl. apply map_eq. intros tid.
  rewrite !lookup_fmap, map_lookup_imap. destruct (cn_tasks c !! tid); [|done]. simpl.
  by case_bool_decide.
Qed.

Lemma spent_send c f e id :
  kind f ≠ FrameKind.StreamItem → spent (send_or_close c f e) id = spent c id.
Proof.
  intros Hf. unfold send_or_close. case_match; [|apply spent_close].
  apply (spent_sends c _ [f]); [done|done|by constructor].
Qed.

Lemma spent_goodbye c id : spent (goodbye c) id = spent c id.
Proof.
  unfold goodbye. rewrite spent_close. case_match; [|done].
  apply (spent_sends c _ [Frame_new FrameKind.Goodbye 0 0 []]); [done|done|by constructor].
Qed.

#[local] Hint Rewrite spent_close spent_goodbye : flow.

(** A change of one task. *)
Lemma spent_alter c active g tid id :
  (∀ t, credit_left id (g t) = credit_left id t) →
  spent (set_tasks c active (alter g tid (cn_tasks c))) id = spent c id.
Proof.
  intros Hg. apply (spent_sends c _ []); [|by rewrite app_nil_r|done]. simpl. apply map_eq.
  intros tid'. rewrite !lookup_fmap, lookup_alter. case_decide; [subst|done].
  destruct (cn_tasks c !! tid'); simpl; [|done]. by rewrite Hg.
Qed.

Lemma alter_insert_Some {A} (g : A → A) (m : gmap nat A) i x :
  m !! i = Some x → alter g i m = <[i := g x]> m.
Proof.
  intros Hi. apply map_eq. intros j. destruct (decide (i = j)) as [<-|Hne].
  - by rewrite lookup_alter_eq, lookup_insert_eq, Hi.
  - by rewrite lookup_alter_ne, lookup_insert_ne.
Qed.

Lemma spent_on_stream_credit c f id :
  (∀ id r, cn_active c !! id = Some r → entry_for c id r) → kind f = FrameKind.StreamCredit →
  spent (on_stream_credit c f) id ≤ spent c id + credit_in id f.
Proof.
  intros Ha Hk. pose proof (credit_in_nonneg id f) as Hnn.
  unfold on_stream_credit, protocol_error. case_match; [rewrite spent_close; lia|].
  case_match; [rewrite spent_close; lia|].
  destruct (cn_active c !! request_id f) as [r|] eqn:Er; [|lia].
  case_match; [rewrite spent_close; lia|].
  destruct (cn_tasks c !! ar_task r) as [t|] eqn:Et.
  2: { rewrite (spent_same c); [lia| |done]. simpl. apply map_eq. intros tid.
       rewrite lookup_alter. case_decide; [subst|done]. by rewrite Et. }
  destruct (Ha _ _ Er) as [_ Hm]. destruct (Hm t Et) as [Hid _].
  unfold spent, unused. simpl. rewrite (alter_insert_Some _ _ _ _ Et).
  destruct (msum_task (credit_left id) c _ t (add_credits (be_val (body f)) t) Et) as [-> _].
  unfold credit_left, credit_in. rewrite bool_decide_true by done. simpl. rewrite Hid.
  destruct (request_id f =? id); simpl; [|lia]. pose proof (be_val_range (body f)).
  destruct (tk_credits t) as [n|]; simpl; unfold saturating_sub; lia.
Qed.

Lemma spent_on_frame router negotiated max total c bf uptime id :
  conn_inv max total c →
  spent (on_frame router negotiated c bf uptime) id ≤ spent c id + credit_in id (bf_frame bf).
Proof.
  intros Hc. pose proof (credit_in_nonneg id (bf_frame bf)) as Hnn.
  unfold on_frame, protocol_error.
  destruct (kind (bf_frame bf)) eqn:Hk; try (autorewrite with flow; lia).
  - unfold on_request, protocol_error.
    repeat (case_match; [rewrite ?spent_send, ?spent_close by done; lia|]).
    unfold spent, unused. simpl. rewrite fmap_insert, msum_insert.
    + unfold credit_left at 1. simpl. repeat case_match; simpl; lia.
    + rewrite lookup_fmap. destruct (cn_tasks c !! cn_next c) as [t|] eqn:Ht; [|done].
      apply (ci_task _ _ _ Hc) in Ht as [? _]. lia.
  - unfold on_cancel. destruct (cn_active c !! _) as [r|]; [|lia].
    rewrite (spent_same (set_tasks c (delete (request_id (bf_frame bf)) (cn_active c))
      (alter abort_task (ar_task r) (cn_tasks c)))) by done.
    rewrite spent_alter by done. lia.
  - unfold on_ping, protocol_error. case_match; rewrite ?spent_close, ?spent_send by done; lia.
  - unfold on_health, protocol_error. case_match; rewrite ?spent_close, ?spent_send by done; lia.
  - apply spent_on_stream_credit; [|done]. apply (ci_active _ _ _ Hc).
Qed.

(** ** What was received *)

Lemma received_send c f e : cn_received (send_or_close c f e) = cn_received c.
Proof. unfold send_or_close. by case_match. Qed.

Lemma received_goodbye c : cn_received (goodbye c) = cn_received c.
Proof. unfold goodbye. simpl. by case_match. Qed.

#[export] Hint Rewrite received_send received_goodbye : received.

Lemma received_on_frame router negotiated c bf uptime :
  cn_received (on_frame router negotiated c bf uptime) = cn_received c.
Proof.
  unfold on_frame, on_request, on_cancel, on_ping, on_health, on_stream_credit, protocol_error.
  repeat case_match; autorewrite with received; done.
Qed.

Lemma received_run `{Z0 : ZstdOps} router peer negotiated policy c tid t env c' :
  task_run router peer negotiated policy c tid t env = Some c' → cn_received c' = cn_received c.
Proof.
  unfold task_run, task_finish, task_continue.
  case_match; intros [= <-]; simpl; by destruct (cn_writer_open c).
Qed.

Section credits.
Context `{Z0 : ZstdOps}.
Context (router : Router) (peer : option PeerIdentity).
Context (negotiated : PeerSettingsV2) (policy : CompressionPolicy).

(** A task that goes takes its unused credits with it. *)
Lemma spent_gone max total c c' tid t fs id :
  conn_inv max total c → cn_tasks c !! tid = Some t → cn_tasks c' = delete tid (cn_tasks c) →
  cn_sent c' = cn_sent c ++ fs → Forall (λ f, kind f ≠ FrameKind.StreamItem) fs →
  spent c' id ≤ spent c id.
Proof using.
  intros Hc Hl Ht Hs Hfs. unfold spent, unused.
  rewrite Ht, Hs, items_sent_app, (items_sent_none fs) by done.
  destruct (msum_task (credit_left id) c tid t t Hl) as [_ ->].
  assert (0 ≤ credit_left id t); [|lia]. unfold credit_left. case_match; [|lia].
  destruct (tk_credits t) as [n|] eqn:Hn; simpl; [|lia].
  apply (ci_task _ _ _ Hc) in Hl as (_ & _ & _ & Hb). by apply Hb in Hn as [? _].
Qed.

Lemma ends_without_item t fs : ends_with t fs → Forall (λ f, kind f ≠ FrameKind.StreamItem) fs.
Proof using.
  intros [[-> _]|(f & -> & _ & Hk)]; [done|]. constructor; [|done].
  unfold terminal_kind in Hk. destruct Hk as [->|Hk]; [done|]. rewrite Hk. by destruct (streams t).
Qed.

Lemma sent_if (c : Connection) (fs : list Frame) :
  ∃ gs, cn_sent (if cn_writer_open c then push_sent c fs else c) = cn_sent c ++ gs ∧
        (gs = fs ∨ gs = []) ∧
        cn_tasks (if cn_writer_open c then push_sent c fs else c) = cn_tasks c.
Proof using.
  destruct (cn_writer_open c); [exists fs; auto|exists []; rewrite app_nil_r; auto].
Qed.

Lemma spent_run max total c tid t env c' id :
  conn_inv max total c → cn_tasks c !! tid = Some t →
  task_run router peer negotiated policy c tid t env = Some c' → spent c' id ≤ spent c id.
Proof.
  intros Hc Hl [(fs & b & -> & He)|[(b & ->)|(fs & t' & b & -> & Hcont & Hw)]]%task_run_cases.
  - destruct (sent_if c fs) as (gs & Hs & Hgs & Ht).
    apply (spent_gone max total c _ tid t gs); unfold task_finish; simpl; try done.
    + by rewrite Ht.
    + apply ends_without_item in He. by destruct Hgs as [->| ->].
  - apply (spent_gone max total c _ tid t []); try done. simpl. by rewrite app_nil_r.
  - destruct Hcont as [Hf _ _ _ [[-> Hcr]|(n & item & Hn & Hpos & Hn' & Hfs & _)]].
    + rewrite (spent_sends c _ []); [done| |unfold task_continue; simpl; rewrite app_nil_r;
        by destruct (cn_writer_open c); simpl; rewrite ?app_nil_r|done].
      unfold task_continue. simpl. rewrite fmap_insert. apply insert_id.
      rewrite lookup_fmap, Hl. simpl. unfold credit_left. by rewrite Hf, Hcr.
    + specialize (Hw ltac:(by destruct Hfs as [->| ->])).
      unfold spent, unused, task_continue. simpl. rewrite Hw. simpl.
      rewrite items_sent_app.
      destruct (msum_task (credit_left id) c tid t t' Hl) as [-> _].
      unfold credit_left, items_sent, is_item. rewrite Hf, Hn, Hn'.
      destruct Hfs as [->| ->]; simpl; destruct (request_id (tk_frame t) =? id); simpl; lia.
Qed.

Lemma spent_step max total c c' id :
  conn_inv max total c → conn_step router peer negotiated policy c c' →
  spent c' id - spent c id ≤ credits_granted (cn_received c') id - credits_granted (cn_received c) id.
Proof.
  intros Hc Hs.
  assert (∀ c1, cn_received c1 = cn_received c → spent c1 id ≤ spent c id →
    spent c1 id - spent c id ≤ credits_granted (cn_received c1) id - credits_granted (cn_received c) id)
    as Hless by (intros c1 -> ?; lia).
  destruct Hs as [c' Hs|request_bytes budget rt Hothers]; [destruct Hs|].
  1-3: by apply Hless.
  - destruct (conn_inv_recv _ _ _ _ _ Hc H0) as (Hc' & _).
    rewrite received_on_frame. simpl. unfold credits_granted. rewrite zsum_app. simpl.
    pose proof (spent_on_frame router negotiated max total
      (push_received (loop_recv c (Ok bf) queue) (bf_frame bf)) bf uptime id
      ltac:(by eapply conn_inv_field)) as H'.
    rewrite (spent_same c (push_received (loop_recv c (Ok bf) queue) (bf_frame bf))) in H' by done. lia.
  - apply Hless; unfold on_read_error; case_match; rewrite ?spent_close; done.
  - apply Hless; [done|]. by rewrite spent_close.
  - apply Hless; unfold on_hub_event; repeat case_match; rewrite ?received_send, ?spent_send; done.
  - apply Hless; unfold on_drain; repeat case_match; rewrite ?received_goodbye, ?spent_goodbye, ?spent_close;
      try done; rewrite (spent_sends c _ [go_away]); try done; by constructor.
  - apply Hless; unfold on_active_changed; case_match; rewrite ?received_goodbye, ?spent_goodbye; done.
  - apply Hless; rewrite ?received_goodbye, ?spent_goodbye; done.
  - apply Hless; [done|]. rewrite (spent_sends c _ []); [done| |by rewrite app_nil_r|done].
    simpl. rewrite fmap_insert. apply insert_id. rewrite lookup_fmap.
    match goal with H : cn_tasks c !! _ = Some _ |- _ => by rewrite H end.
  - apply Hless; [by eapply received_run|by eapply spent_run].
  - apply Hless; [done|]. apply (spent_gone max total c _ tid t []); try done. simpl. by rewrite app_nil_r.
  - by apply Hless.
  - by apply Hless.
Qed.
End credits.

(** * Properties *)

(** C6 A connection is flow controlled.  Of the budget of decoded bytes that all
    connections share, whatever the others take and return, the charge always
    covers what the tasks here hold, so they never hold more than its capacity.
    And under every request identifier, the stream items sent so far and the
    credits its tasks still have are within the credits that the client granted
    in STREAM_CREDIT frames, however requests, cancellations and reuse of the
    identifier interleave. *)
Theorem connection_flow_controlled `{Z0 : ZstdOps} router peer negotiated policy rt total budget c :
  0 ≤ max_in_flight negotiated → 0 ≤ total → budget_wf budget →
  rtc (conn_step router peer negotiated policy) (connection_start negotiated rt total budget) c →
  (0 ≤ decoded c ≤ bi_used (cn_budget c) ∧ bi_used (cn_budget c) ≤ bi_capacity budget) ∧
  ∀ id, items_sent (cn_sent c) id + unused c id ≤ credits_granted (cn_received c) id.
Proof.
  intros Hm Ht Hb Hr.
  assert (conn_inv (max_in_flight negotiated) total c ∧ budget_inv (bi_capacity budget) c ∧
    ∀ id, spent c id ≤ credits_granted (cn_received c) id) as (_ & [Hwf Hcap Hpos Hheld] & Hspent).
  { revert c Hr. apply rtc_ind_r.
    - split; [by apply connection_start_inv|].
      unfold connection_start. destruct (rt_drain_value rt); (split; [split; try done|]);
        unfold decoded, permits, spent, unused; simpl; try done; apply Hb.
    - intros c1 c2 _ Hs (IH1 & IH2 & IH3).
      split; [by eapply conn_step_inv|]. split; [by eapply budget_step|]. intros id.
      pose proof (spent_step router peer negotiated policy _ _ _ _ id IH1 Hs). specialize (IH3 id). lia. }
  split; [|done]. rewrite <- Hcap. destruct Hwf as [[? ?] _]. split; [|done]. split; [|done].
  by apply msum_nonneg.
Qed.

(** * Witnesses *)

(** A frame read with the permits of its body and taken by the loop. *)
Definition took_frame (r : Router) (c : Connection) (f : Frame) : Connection :=
  take_frame r c (buffered f).

Lemma step_took_frame r c f :
  can_take c (buffered f) = true → rtc (sample_step r) c (took_frame r c f).
Proof. apply step_take. Qed.

(** A stream of three items whose client grants two credits. *)
Definition stream_request : Frame := Frame_new FrameKind.Request 6 9 [x2a].
Definition stream_credit : Frame := Frame_new FrameKind.StreamCredit 0 9 (be_bytes 8 2).

Definition flow_1 : Connection := took_frame echo_router sample_start stream_request.
Definition flow_2 : Connection := started flow_1 0.
Definition flow_3 : Connection := ran echo_router flow_2 0.
Definition flow_4 : Connection := ran echo_router flow_3 0.
Definition flow_5 : Connection := took_frame echo_router flow_4 stream_credit.
Definition flow_6 : Connection := ran echo_router flow_5 0.
Definition flow_7 : Connection := ran echo_router flow_6 0.

Lemma flow_reachable : rtc (sample_step echo_router) sample_start flow_7.
Proof.
  transitivity flow_1; [unfold flow_1; apply step_took_frame; vm_compute; reflexivity|].
  eapply rtc_l; [apply (step_started echo_router flow_1 0); vm_compute; reflexivity|].
  transitivity flow_3; [unfold flow_3; apply rtc_once, step_ran; vm_compute; reflexivity|].
  transitivity flow_4; [unfold flow_4; apply rtc_once, step_ran; vm_compute; reflexivity|].
  transitivity flow_5; [unfold flow_5; apply step_took_frame; vm_compute; reflexivity|].
  transitivity flow_6; [unfold flow_6|unfold flow_7]; apply rtc_once, step_ran; vm_compute; reflexivity.
Qed.

(** Two items were sent, and the third waits for a credit. *)
Example flow_waits :
  cn_sent flow_7 = [Frame_new FrameKind.StreamItem 6 9 [x2a]; Frame_new FrameKind.StreamItem 6 9 [x01]] ∧
  can_run echo_router flow_7 0 = false.
Proof. split; vm_compute; reflexivity. Qed.

Lemma connection_flow_controlled_witness :
  items_sent (cn_sent flow_7) 9 = 2 ∧
  items_sent (cn_sent flow_7) 9 + unused flow_7 9 ≤ credits_granted (cn_received flow_7) 9.
Proof.
  split; [vm_compute; reflexivity|].
  refine (proj2 (connection_flow_controlled echo_router None PeerSettingsV2_default witness_policy
    sample_runtime 100 witness_budget flow_7 _ _ _ flow_reachable) 9).
  - vm_compute. discriminate.
  - lia.
  - vm_compute. repeat split; discriminate.
Defined.
