(* ===== verification/Lifecycle.v ===== *)
(** How a connection behaves over its life, on top of the step relation of
    [Connection]: every frame it queues is well formed and addressed by its kind,
    so that the writer of [Outbound] can always encode it, and a connection that
    drains ends with GOODBYE once its requests are answered. *)
From stdpp Require Import relations.
From S2P Require Import Prelude OrdMap Compression Protocol Metadata Transport Outbound.
From S2P Require Import Middleware Router Dispatch Connection.

(** * Frames that are sent *)

Lemma Frame_new_ok k m r b :
  0 ≤ m ≤ u32_max → 0 ≤ r ≤ u64_max → frame_ok (Frame_new k m r b).
Proof. intros Hm Hr. split; [|done]. unfold Frame_wf. simpl. unfold u16_max. lia. Qed.

Section output.
Context `{Z0 : ZstdOps}.

(** What a frame may say, by its kind: GOAWAY and GOODBYE are about the
    connection, PONG and HEALTH_STATUS echo the identifier of what they answer,
    an event has its own identifier and no request, and every answer carries the
    identifiers of a request that was received.  No other kind is sent. *)
Definition addressed (received : list Frame) (f : Frame) : Prop :=
  flags f = 0 ∧
  match kind f with
  | FrameKind.GoAway | FrameKind.Goodbye => method_id f = 0 ∧ request_id f = 0 ∧ body f = []
  | FrameKind.Pong =>
      method_id f = 0 ∧ request_id f ≠ 0 ∧
      ∃ ping, ping ∈ received ∧ kind ping = FrameKind.Ping ∧ request_id ping = request_id f ∧
              body ping = body f
  | FrameKind.HealthStatus =>
      method_id f = 0 ∧ request_id f ≠ 0 ∧
      ∃ ask, ask ∈ received ∧ kind ask = FrameKind.Health ∧ request_id ask = request_id f
  | FrameKind.Event => method_id f ≠ 0 ∧ request_id f = 0
  | FrameKind.Response | FrameKind.Error | FrameKind.StreamItem | FrameKind.StreamEnd =>
      ∃ request, request ∈ received ∧ kind request = FrameKind.Request ∧ reply_to request f
  | _ => False
  end.

Definition output_ok (received : list Frame) (f : Frame) : Prop :=
  frame_ok f ∧ addressed received f.

Lemma output_ok_later received received' f :
  received ⊆ received' → output_ok received f → output_ok received' f.
Proof using.
  intros Hsub [Hf [Hfl Ha]]. split; [done|]. split; [done|].
  destruct (kind f); naive_solver set_solver.
Qed.

Lemma reply_output received request f :
  request ∈ received → kind request = FrameKind.Request → Frame_wf request →
  reply_to request f → answer_kind (kind f) → output_ok received f.
Proof using.
  intros Hin Hk (_ & Hm & Hr) Hrep Ha. pose proof Hrep as (H1 & H2 & H3). split.
  - unfold frame_ok, Frame_wf. rewrite H1, H2, H3. split; [|done]. unfold u16_max. lia.
  - split; [done|]. by destruct Ha as [->|[->|[->| ->]]]; exists request.
Qed.

(** Tasks serve well-formed requests that were received, and what was sent so
    far is well formed and addressed. *)
Record output_inv (c : Connection) : Prop := {
  oi_tasks tid t : cn_tasks c !! tid = Some t →
    Frame_wf (tk_frame t) ∧ tk_frame t ∈ cn_received c ∧ kind (tk_frame t) = FrameKind.Request;
  oi_sent : Forall (output_ok (cn_received c)) (cn_sent c);
}.

(** Steps that keep the requests of their tasks and send [fs]. *)
Lemma output_sends c c' fs :
  output_inv c →
  (∀ tid t', cn_tasks c' !! tid = Some t' →
     ∃ t, cn_tasks c !! tid = Some t ∧ tk_frame t' = tk_frame t) →
  cn_sent c' = cn_sent c ++ fs → cn_received c' = cn_received c →
  Forall (output_ok (cn_received c)) fs → output_inv c'.
Proof using.
  intros [Ht Hs] Htasks Hsent Hr Hfs. split; rewrite Hr.
  - intros tid t' (t & Hl & ->)%Htasks. by eapply Ht.
  - rewrite Hsent. by apply Forall_app.
Qed.

Lemma output_same c c' fs :
  output_inv c → cn_tasks c' = cn_tasks c → cn_sent c' = cn_sent c ++ fs →
  cn_received c' = cn_received c → Forall (output_ok (cn_received c)) fs → output_inv c'.
Proof using.
  intros Hi Ht Hs Hr Hfs. apply (output_sends c c' fs); try done.
  intros tid t'. rewrite Ht. eauto.
Qed.

Lemma output_silent c c' :
  output_inv c → cn_tasks c' = cn_tasks c → cn_sent c' = cn_sent c →
  cn_received c' = cn_received c → output_inv c'.
Proof using. intros Hi Ht Hs Hr. apply (output_same c c' []); try done. by rewrite app_nil_r. Qed.

Lemma output_received c f : output_inv c → output_inv (push_received c f).
Proof using.
  intros [Ht Hs]. split; simpl.
  - intros tid t Hl. destruct (Ht tid t Hl) as (? & ? & ?). split_and!; [done|set_solver|done].
  - eapply Forall_impl; [exact Hs|]. intros g. apply output_ok_later. set_solver.
Qed.

Lemma output_close c r : output_inv c → output_inv (close c r).
Proof using.
  intros Hi. apply (output_sends c _ []); [done| |by rewrite app_nil_r|done|done].
  intros tid t'. unfold close. simpl. rewrite map_lookup_imap.
  destruct (cn_tasks c !! tid) as [t|]; simpl; [|done]. intros [= <-]. exists t.
  by case_bool_decide.
Qed.

Lemma output_send c f e :
  output_inv c → output_ok (cn_received c) f → output_inv (send_or_close c f e).
Proof using.
  intros Hi Hf. unfold send_or_close. case_match; [|by apply output_close].
  apply (output_same c _ [f]); [done|done|done|done|by constructor].
Qed.

Lemma output_push c fs :
  output_inv c → Forall (output_ok (cn_received c)) fs →
  output_inv (if cn_writer_open c then push_sent c fs else c).
Proof using. intros Hi Hf. case_match; [|done]. by apply (output_same c _ fs). Qed.

Lemma output_goodbye c : output_inv c → output_inv (goodbye c).
Proof using.
  intros Hi. apply output_close, output_push; [done|]. constructor; [|done]. by repeat split.
Qed.

Lemma output_gone c tid t budget : output_inv c → output_inv (task_gone c tid t budget).
Proof using.
  intros Hi. apply (output_sends c _ []); [done| |by rewrite app_nil_r|done|done].
  intros tid' t'. simpl. intros [_ ?]%lookup_delete_Some. eauto.
Qed.

Lemma output_finish c tid t fs budget :
  output_inv c → Forall (output_ok (cn_received c)) fs → output_inv (task_finish c tid t fs budget).
Proof using.
  intros Hi Hf. unfold task_finish. apply output_gone.
  by apply (output_silent (if cn_writer_open c then push_sent c fs else c)); [apply output_push|..].
Qed.

Lemma output_alter c active g tid :
  output_inv c → (∀ t, tk_frame (g t) = tk_frame t) →
  output_inv (set_tasks c active (alter g tid (cn_tasks c))).
Proof using.
  intros Hi Hg. apply (output_sends c _ []); [done| |by rewrite app_nil_r|done|done].
  intros tid' t'. simpl. rewrite lookup_alter. case_decide; [subst|eauto].
  destruct (cn_tasks c !! tid') as [t|]; simpl; [|done]. intros [= <-]. eauto.
Qed.

#[local] Hint Resolve output_close output_send output_goodbye output_gone : bridge.

Lemma output_on_frame router negotiated c bf uptime :
  output_inv c → Frame_wf (bf_frame bf) → bf_frame bf ∈ cn_received c →
  output_inv (on_frame router negotiated c bf uptime).
Proof using.
  intros Hi Hf Hin. pose proof Hf as (_ & Hm & Hr). unfold on_frame, protocol_error.
  destruct (kind (bf_frame bf)) eqn:Hk; auto with bridge.
  - assert (∀ code m, output_ok (cn_received c) (error_frame (bf_frame bf) code m)) as He.
    { intros. apply (reply_output _ (bf_frame bf)); try done. unfold answer_kind. auto. }
    unfold on_request, protocol_error. repeat (case_match; auto with bridge).
    destruct Hi as [Ht Hs]. split; simpl; [|done]. intros tid t.
    rewrite lookup_insert_Some. intros [[_ <-]|[_ Hl]]; [done|by eapply Ht].
  - unfold on_cancel. destruct (cn_active c !! _) as [a|]; [|done].
    apply (output_silent (set_tasks c (delete (request_id (bf_frame bf)) (cn_active c))
      (alter abort_task (ar_task a) (cn_tasks c)))); [by apply output_alter|done..].
  - unfold on_ping, protocol_error. case_match; [auto with bridge|]. bool_to_prop.
    apply output_send; [done|]. split; [by apply Frame_new_ok|]. split; [done|]. simpl.
    split_and!; [done|done|]. by exists (bf_frame bf).
  - unfold on_health, protocol_error. case_match eqn:E; [auto with bridge|].
    apply orb_false_iff in E as [[E _]%orb_false_iff _]. bool_to_prop.
    apply output_send; [done|]. split; [by apply Frame_new_ok|]. split; [done|]. simpl.
    split_and!; [done|done|]. by exists (bf_frame bf).
  - unfold on_stream_credit, protocol_error. repeat (case_match; auto with bridge).
    by apply output_alter.
Qed.

Lemma replies_output c tid t fs :
  output_inv c → cn_tasks c !! tid = Some t →
  Forall (λ f, reply_to (tk_frame t) f ∧ answer_kind (kind f)) fs →
  Forall (output_ok (cn_received c)) fs.
Proof using.
  intros Hi Ht Hfs. destruct (oi_tasks _ Hi _ _ Ht) as (Hw & Hin & Hk).
  eapply Forall_impl; [exact Hfs|]. intros f [Hr Ha]. by apply (reply_output _ (tk_frame t)).
Qed.

Lemma output_run router peer negotiated policy c tid t env c' :
  output_inv c → cn_tasks c !! tid = Some t →
  task_run router peer negotiated policy c tid t env = Some c' → output_inv c'.
Proof.
  intros Hi Ht. pose proof (λ fs, replies_output c tid t fs Hi Ht) as Hout.
  intros [(fs & b & -> & He)|[(b & ->)|(fs & t' & b & -> & Hc & _)]]%task_run_cases.
  - apply output_finish; [done|]. by apply Hout, ends_with_replies.
  - auto with bridge.
  - apply (output_sends (if cn_writer_open c then push_sent c fs else c) _ []); [|..|done].
    + apply output_push; [done|]. by eapply Hout, continues_replies.
    + intros tid' t1. unfold task_continue. simpl. rewrite lookup_insert_Some.
      assert (cn_tasks (if cn_writer_open c then push_sent c fs else c) = cn_tasks c) as ->
        by by destruct (cn_writer_open c).
      intros [[<- <-]|[_ Hl]]; [|eauto]. exists t. split; [done|]. by eapply ct_frame.
    + unfold task_continue. simpl. by rewrite app_nil_r.
    + done.
Qed.

Lemma output_step router peer negotiated policy c c' :
  output_inv c → inbox_wf c → conn_step router peer negotiated policy c c' → output_inv c'.
Proof.
  intros Hi Hbox Hs.
  destruct Hs as [c' Hs|request_bytes budget rt Hothers]; [destruct Hs|]; auto with bridge.
  1-3: by eapply output_silent.
  - unfold inbox_wf in Hbox. rewrite H0 in Hbox. apply Forall_cons in Hbox as [[Hw _] _].
    apply output_on_frame; [apply output_received; by apply (output_silent c)|done|].
    simpl. set_solver.
  - assert (output_inv (loop_recv c (Err e) queue)) by by apply (output_silent c).
    unfold on_read_error. case_match; auto with bridge.
  - unfold on_hub_event. do 2 (case_match; [done|]). apply output_send; [done|].
    split; [apply Frame_new_ok; unfold u64_max; lia|]. split; [done|]. simpl. lia.
  - unfold on_drain. simpl. destruct (cn_writer_open c); [|apply output_close; by eapply output_silent].
    assert (output_inv (push_sent (set_draining c) [go_away])).
    { apply (output_same c _ [go_away]); try done. constructor; [|done]. by repeat split. }
    case_match; auto with bridge.
  - unfold on_active_changed. assert (output_inv (set_notified c false)) by by eapply output_silent.
    case_match; auto with bridge.
  - apply (output_sends c _ []); [done| |by rewrite app_nil_r|done|done].
    intros tid' t'. simpl. rewrite lookup_insert_Some. intros [[<- <-]|[_ Hl]]; eauto.
  - by eapply output_run.
  - by apply output_gone.
  - by eapply output_silent.
  - by eapply output_silent.
Qed.

Lemma connection_start_output negotiated rt total budget :
  output_inv (connection_start negotiated rt total budget).
Proof using.
  unfold connection_start. destruct (rt_drain_value rt); split; simpl; try (by intros ? ? ?%lookup_empty_Some);
    [|done]. constructor; [|done]. by repeat split.
Qed.

Lemma connection_start_inbox negotiated rt total budget :
  inbox_wf (connection_start negotiated rt total budget).
Proof using. unfold connection_start. destruct (rt_drain_value rt); constructor. Qed.

Lemma output_reachable router peer negotiated policy c c' :
  output_inv c → inbox_wf c → rtc (conn_step router peer negotiated policy) c c' → output_inv c'.
Proof. intros Hi Hbox. induction 1; eauto using output_step, inbox_wf_step. Qed.
End output.

(** * Draining to the end *)

(** Turns that bring two counts down in lexicographic order run out. *)
Lemma lexicographic_sn {A} (R : relation A) (f g : A → Z) :
  (∀ x, 0 ≤ f x) → (∀ x, 0 ≤ g x) →
  (∀ x y, R x y → f y < f x ∨ f y = f x ∧ g y < g x) → ∀ x, sn R x.
Proof.
  intros Hf Hg Hdown x.
  remember (Z.to_nat (f x)) as n eqn:Hn. remember (Z.to_nat (g x)) as m eqn:Hm.
  revert m x Hn Hm. induction (lt_wf n) as [n _ IHn]. intros m. induction (lt_wf m) as [m _ IHm].
  intros x -> ->. constructor. intros y Hs. apply Hdown in Hs.
  pose proof (Hf y). pose proof (Hg y). destruct Hs as [Hlt|[Heq Hlt]].
  - eapply IHn; [|reflexivity..]. lia.
  - eapply IHm; [|lia|reflexivity]. lia.
Qed.

Section drain.
Context `{Z0 : ZstdOps}.
Context (router : Router) (peer : option PeerIdentity).
Context (negotiated : PeerSettingsV2) (policy : CompressionPolicy).

#[local] Abbreviation step := (conn_step router peer negotiated policy).
#[local] Abbreviation run := (task_run router peer negotiated policy).
#[local] Abbreviation poll_of := (task_poll router peer negotiated policy).

(** No handler of the router unwinds: unary handlers return unless middleware
    contains their panics, and streams open and end without a panic. *)
Definition calm_router : Prop :=
  (∀ id h b, handlers router !! id = Some h → middleware router = [] → h b ≠ Panicked) ∧
  (∀ id h b, stream_handlers router !! id = Some h →
     h b ≠ OpenPanicked ∧ ∀ s, h b = Opened s → stream_last s ≠ TailPanics).

(** What is kept in the tasks of such a router. *)
Definition calm_task (t : Task) : Prop :=
  match tk_phase t with
  | Parsed parsed => is_Some (pr_metadata parsed) ↔ keeps_metadata router = true
  | Delivering _ d => dv_tail d ≠ TailPanics
  | _ => True
  end.

(** The stages a task can go through, and a task that none of them holds up for
    ever. *)
Inductive goes_on (t : Task) : Task → Prop :=
  | go_start : tk_phase t = Spawned → goes_on t (with_phase t (tk_credits t) Polled)
  | go_poll env w b fs t' b' : poll_of t env w b = PollContinue fs t' b' → goes_on t t'.

Definition answerable (t : Task) : Prop :=
  ∀ t', rtc goes_on t t' → tk_started t' = true →
    ∀ w b, ∃ env, poll_of t' env w b ≠ PollWait.

(** The turns of a connection that drains and hears nothing from its client: a
    task is polled, ends or is dropped, or the loop looks at the table. *)
Inductive drain_turn (c : Connection) : Connection → Prop :=
  | dt_start tid t :
      cn_tasks c !! tid = Some t → tk_started t = false → drain_turn c (task_start c tid t)
  | dt_run tid t env c' :
      cn_tasks c !! tid = Some t → tk_started t = true → run c tid t env = Some c' →
      drain_turn c c'
  | dt_aborted tid t :
      cn_tasks c !! tid = Some t → tk_aborted t = true → at_await t = true →
      drain_turn c (task_dropped c tid t)
  | dt_active_changed :
      cn_status c = Running → cn_draining c = true → cn_notified c = true →
      drain_turn c (on_active_changed c).

Lemma drain_turn_own c c' : drain_turn c c' → own_step router peer negotiated policy c c'.
Proof.
  intros Hs.
  destruct Hs; [by apply cs_task_start|by eapply cs_task_run|by apply cs_task_aborted|
                by apply cs_active_changed].
Qed.

Lemma drain_turn_step c c' : drain_turn c c' → step c c'.
Proof. intros Hs. by apply cs_own, drain_turn_own. Qed.

(** ** Polls of calm tasks *)

Lemma calm_invoke frame h now o parsed :
  (∀ b, middleware router = [] → h b ≠ Panicked) →
  (is_Some (pr_metadata parsed) ↔ keeps_metadata router = true) →
  (invoke router frame h now o parsed).2 ≠ Panicked.
Proof using.
  intros Hh Hk Hp. pose proof (invoke_panics _ _ _ _ _ _ Hp) as Hm. revert Hp.
  unfold invoke. rewrite Hm. simpl. apply Hh. unfold keeps_metadata in Hk. rewrite Hm in Hk.
  destruct (middleware router); [done|]. destruct Hk as [_ Hk]. by destruct (Hk eq_refl).
Qed.

Lemma calm_open frame now late parsed :
  calm_router →
  match (open_stream router frame peer now late parsed).2 with
  | OpenUnwinds => False
  | OpenDelivers s => stream_last s ≠ TailPanics
  | _ => True
  end.
Proof using.
  intros [_ Hs]. unfold open_stream.
  destruct (stream_handlers router !! method_id frame) as [h|] eqn:Eh; [|done].
  destruct (match pr_metadata parsed with Some _ => _ | None => _ end) as [chain before]. simpl.
  destruct before as [[payload|e]| |]; try done. destruct (Hs _ _ payload Eh) as [Hp Ht].
  unfold opening_of. destruct (_ && _); [done|]. destruct (h payload) as [s|e| |]; try done; eauto.
  by destruct (bool_decide _).
Qed.

Lemma calm_poll t env w b :
  calm_router → calm_task t →
  match poll_of t env w b with
  | PollUnwind _ => False
  | PollContinue _ t' _ => calm_task t'
  | _ => True
  end.
Proof.
  intros Hc Ht. unfold task_poll, calm_task in *.
  destruct (tk_phase t) as [| |parsed|permit d]; [by destruct (tk_credits t)|..].
  - unfold poll_parse. destruct (request_payload _ _ _ _ _ _) as [b' [parsed|[ec em]]] eqn:Ep; [|done].
    simpl. by eapply request_payload_retain.
  - unfold poll_handler. destruct (tk_credits t) as [n|].
    + pose proof (calm_open (tk_frame t) (te_now env) (te_late env) parsed Hc) as Ho.
      by destruct (open_stream _ _ _ _ _ _).2.
    + unfold dispatch_parsed, answer_frame.
      destruct (handlers router !! method_id (tk_frame t)) as [h|] eqn:Eh; [|done].
      pose proof (calm_invoke (tk_frame t) h (te_now env) peer parsed
        (λ b, proj1 Hc _ _ b Eh) Ht) as Hi.
      destruct (invoke _ _ _ _ _ _) as [ev o]. simpl in Hi. destruct (_ && _); [done|].
      destruct o as [[response|e]| |]; try done. by destruct (_ >? _).
  - destruct (tk_credits t) as [n|]; [|done]. unfold poll_delivery, stream_turn.
    repeat case_match; simplify_eq/=; done.
Qed.

(** ** Entries and notifications *)

(** Every entry of the table has its task, and an empty table of a draining
    connection has been, or will be, noticed. *)
Record tidy (c : Connection) : Prop := {
  td_entry id r : cn_active c !! id = Some r →
    ∃ t, cn_tasks c !! ar_task r = Some t ∧ tk_aborted t = false ∧ request_id (tk_frame t) = id;
  td_noticed : cn_status c = Running → cn_draining c = true → cn_active c = ∅ →
    cn_notified c = true;
  td_calm tid t : cn_tasks c !! tid = Some t → calm_task t;
}.

Lemma tidy_closed c r : (∀ tid t, cn_tasks c !! tid = Some t → calm_task t) → tidy (close c r).
Proof using.
  intros Hc. split; simpl; [|done|].
  - by intros id x ?%lookup_empty_Some.
  - intros tid t'. rewrite map_lookup_imap. destruct (cn_tasks c !! tid) as [t|] eqn:Hl; [|done].
    simpl. intros [= <-]. specialize (Hc _ _ Hl). by case_bool_decide.
Qed.

Lemma tidy_close c r : tidy c → tidy (close c r).
Proof using. intros Hi. apply tidy_closed, td_calm, Hi. Qed.

(** Steps that keep the table and the tasks it names. *)
Lemma tidy_same c c' :
  tidy c → cn_active c' = cn_active c → cn_status c' = cn_status c →
  cn_draining c' = cn_draining c → cn_notified c' = cn_notified c →
  (∀ tid t, cn_tasks c !! tid = Some t → tk_aborted t = false →
     ∃ t', cn_tasks c' !! tid = Some t' ∧ tk_aborted t' = false ∧ tk_frame t' = tk_frame t) →
  (∀ tid t', cn_tasks c' !! tid = Some t' → calm_task t') →
  tidy c'.
Proof using.
  intros [He Hn _] Ha Hs Hd Hno Ht Hc. split; [| |done].
  - intros id r. rewrite Ha. intros (t & Hl & Hab & Hid)%He.
    destruct (Ht _ _ Hl Hab) as (t' & ? & ? & Hf). exists t'. by rewrite Hf.
  - by rewrite Ha, Hs, Hd, Hno.
Qed.

(** Steps that change neither the table nor the tasks. *)
Lemma tidy_fields c c' :
  tidy c → cn_active c' = cn_active c → cn_status c' = cn_status c →
  cn_draining c' = cn_draining c → cn_notified c' = cn_notified c → cn_tasks c' = cn_tasks c →
  tidy c'.
Proof using.
  intros Hi Ha Hs Hd Hn Ht. apply (tidy_same c); try done; rewrite Ht; [eauto|apply td_calm, Hi].
Qed.

Lemma tidy_send c f e : tidy c → tidy (send_or_close c f e).
Proof using.
  intros Hi. unfold send_or_close. case_match; [|by apply tidy_close]. by apply (tidy_fields c).
Qed.

Lemma tidy_goodbye c : tidy c → tidy (goodbye c).
Proof using. intros Hi. apply tidy_close. case_match; [|done]. by apply (tidy_fields c). Qed.

#[local] Hint Resolve tidy_close tidy_goodbye tidy_send : bridge.

(** The entry of a task that is done or cancelled goes, and the loop is told. *)
Lemma tidy_without c c' id tid :
  tidy c → (∀ t, cn_tasks c !! tid = Some t → request_id (tk_frame t) = id) →
  cn_active c' = delete id (cn_active c) → cn_notified c' = true →
  (∀ tid', tid' ≠ tid → cn_tasks c' !! tid' = cn_tasks c !! tid') →
  (∀ t', cn_tasks c' !! tid = Some t' → calm_task t') → tidy c'.
Proof using.
  intros [He _ Hc] Hid Ha Hn Ht Hct. split; [|done|].
  - intros id' r. rewrite Ha. intros [Hne (t & Hl & Hab & Hi)%He]%lookup_delete_Some.
    exists t. rewrite Ht; [done|]. intros Heq. rewrite Heq in Hl. specialize (Hid t Hl). congruence.
  - intros tid' t' Hl. destruct (decide (tid' = tid)) as [->|Hne]; [by apply Hct|].
    rewrite Ht in Hl by done. by eapply Hc.
Qed.

(** One task is replaced by a calm one of the same request. *)
Lemma tidy_insert c c' tid t t' :
  tidy c → cn_tasks c !! tid = Some t → cn_active c' = cn_active c → cn_status c' = cn_status c →
  cn_draining c' = cn_draining c → cn_notified c' = cn_notified c →
  cn_tasks c' = <[tid := t']> (cn_tasks c) → tk_aborted t' = tk_aborted t →
  tk_frame t' = tk_frame t → calm_task t' → tidy c'.
Proof using.
  intros Hi Hl Ha Hs Hd Hn Ht Hab Hf Hc. apply (tidy_same c); try done; rewrite Ht.
  - intros tid1 t1 Hl1 Hab1. destruct (decide (tid = tid1)) as [->|Hne].
    + rewrite lookup_insert_eq. simplify_eq. exists t'. by rewrite Hab, Hf.
    + rewrite lookup_insert_ne by done. eauto.
  - intros tid1 t1 [[_ <-]|[_ Hl1]]%lookup_insert_Some; [done|]. by eapply td_calm.
Qed.

Lemma tidy_gone c tid t budget :
  tidy c → cn_tasks c !! tid = Some t → tk_aborted t = true → tidy (task_gone c tid t budget).
Proof using.
  intros Hi Ht Hab. apply (tidy_same c); try done; simpl.
  - intros tid' t' Hl Hab'. exists t'. rewrite lookup_delete_ne; [done|]. intros ->. congruence.
  - intros tid' t' [_ Hl]%lookup_delete_Some. by eapply td_calm.
Qed.

Lemma tidy_finish c tid t frames budget :
  tidy c → cn_tasks c !! tid = Some t → tidy (task_finish c tid t frames budget).
Proof using.
  intros Hi Ht. apply (tidy_without c _ (request_id (tk_frame t)) tid); [done|..].
  - intros t' Hl. by simplify_eq.
  - unfold task_finish. simpl. by destruct (cn_writer_open c).
  - done.
  - intros tid' Hne. unfold task_finish. simpl. rewrite lookup_delete_ne by done.
    by destruct (cn_writer_open c).
  - unfold task_finish. simpl. by rewrite lookup_delete_eq.
Qed.

Lemma tidy_on_frame max total c bf uptime :
  conn_inv max total c → tidy c → tidy (on_frame router negotiated c bf uptime).
Proof using.
  intros Hc Hi. unfold on_frame, protocol_error. destruct (kind (bf_frame bf)); auto with bridge.
  - unfold on_request, protocol_error. destruct (cn_draining c) eqn:Hd; [auto with bridge|].
    repeat (case_match; auto with bridge). destruct Hi as [He _ Hcalm]. split; simpl; [|congruence|].
    + intros id r [[<- <-]|[Hne (t & Hl & Hr)%He]]%lookup_insert_Some.
      * simpl. rewrite lookup_insert_eq. eauto.
      * exists t. rewrite lookup_insert_ne; [done|]. intros Heq. rewrite <- Heq in Hl.
        apply (ci_task _ _ _ Hc) in Hl as [? _]. lia.
    + intros tid t [[_ <-]|[_ Hl]]%lookup_insert_Some; [done|by eapply Hcalm].
  - unfold on_cancel. destruct (cn_active c !! _) as [r|] eqn:Er; [|done].
    apply (tidy_without c _ (request_id (bf_frame bf)) (ar_task r)); [done| |done|done|..].
    + intros t Hl. destruct (td_entry _ Hi _ _ Er) as (t' & Hl' & _ & Hid). by simplify_eq.
    + intros tid' Hne. simpl. by rewrite lookup_alter_ne.
    + intros t'. simpl. rewrite lookup_alter_eq. intros (t & Hl & ->)%fmap_Some.
      by apply (td_calm _ Hi _ _ Hl).
  - unfold on_ping, protocol_error. case_match; auto with bridge.
  - unfold on_health, protocol_error. case_match; auto with bridge.
  - unfold on_stream_credit, protocol_error. repeat (case_match; auto with bridge).
    apply (tidy_same c); [done..| |].
    + intros tid t Hl Hab. simpl. rewrite lookup_alter.
      case_decide; [subst; rewrite Hl; simpl; eauto|eauto].
    + intros tid t'. simpl. rewrite lookup_alter. case_decide as Hd; [|by apply td_calm].
      subst tid. intros (t & Hl & ->)%fmap_Some. by apply (td_calm _ Hi _ _ Hl).
Qed.

Lemma tidy_run c tid t env c' :
  calm_router → tidy c → cn_tasks c !! tid = Some t → run c tid t env = Some c' → tidy c'.
Proof.
  intros Hcalm Hi Ht. unfold task_run.
  pose proof (calm_poll t env (cn_writer_open c) (cn_budget c) Hcalm (td_calm _ Hi _ _ Ht)) as Hp.
  destruct (task_poll _ _ _ _ _ _ _ _) as [fs b|b|fs t' b|] eqn:Er; try done; intros [= <-].
  - by apply tidy_finish.
  - apply task_poll_continue in Er as [[Hf _ Hab _ _] _].
    apply (tidy_insert c _ tid t t'); unfold task_continue; simpl; try done;
      by destruct (cn_writer_open c).
Qed.

Lemma tidy_step max total c c' :
  calm_router → conn_inv max total c → tidy c → step c c' → tidy c'.
Proof.
  intros Hcalm Hc Hi Hs. destruct Hs as [c' Hs|request_bytes budget rt Hothers]; [destruct Hs|]; auto with bridge.
  1-3: by apply (tidy_fields c).
  - destruct (conn_inv_recv _ _ _ _ _ Hc H0) as (Hc' & _).
    eapply tidy_on_frame; [by eapply conn_inv_field|]. by apply (tidy_fields c).
  - assert (tidy (loop_recv c (Err e) queue)) by by apply (tidy_fields c).
    unfold on_read_error. case_match; auto with bridge.
  - unfold on_hub_event. repeat case_match; auto with bridge.
  - unfold on_drain. simpl. destruct (cn_writer_open c).
    2: apply tidy_closed; exact (td_calm c Hi).
    case_bool_decide as He.
    { apply tidy_closed. simpl. destruct (cn_writer_open c); exact (td_calm c Hi). }
    destruct Hi as [Hentry _ Hct]. by split.
  - unfold on_active_changed. case_bool_decide as He.
    + apply tidy_closed. simpl. destruct (cn_writer_open c); exact (td_calm c Hi).
    + destruct Hi as [Hentry _ Hct]. by split.
  - by apply (tidy_insert c _ tid t (with_phase t (tk_credits t) Polled)).
  - by eapply tidy_run.
  - by apply tidy_gone.
  - by apply (tidy_fields c).
  - by apply (tidy_fields c).
Qed.

Lemma tidy_start rt total budget :
  rt_drain_value rt = false → tidy (connection_start negotiated rt total budget).
Proof using.
  intros Hd. unfold connection_start. rewrite Hd. split; simpl; [|congruence|].
  - by intros id r ?%lookup_empty_Some.
  - by intros id r ?%lookup_empty_Some.
Qed.

(** ** Turns run out *)

(** Every turn of a task brings it to a later phase, or delivers one of the
    items that are left; the loop's own turn uses up a notification. *)
Definition weight (t : Task) : Z :=
  match tk_phase t with Spawned => 8 | Polled => 6 | Parsed _ => 4 | Delivering _ _ => 2 end.
Definition undelivered (t : Task) : Z :=
  match tk_phase t with Delivering _ d => zlen (dv_items d) | _ => 0 end.

Definition stages_left (c : Connection) : Z :=
  msum (weight <$> cn_tasks c) + (if cn_notified c then 1 else 0).
Definition items_left (c : Connection) : Z := msum (undelivered <$> cn_tasks c).

Lemma msum_fmap_nonneg (g : Task → Z) m : (∀ t, 0 ≤ g t) → 0 ≤ msum (g <$> m).
Proof using.
  intros Hg. apply msum_nonneg. intros tid x. rewrite lookup_fmap.
  destruct (m !! tid) as [t|]; simpl; [|done]. by intros [= <-].
Qed.

Lemma stages_nonneg c : 0 ≤ stages_left c.
Proof using.
  unfold stages_left. pose proof (msum_fmap_nonneg weight (cn_tasks c)) as H.
  specialize (H ltac:(intros t; unfold weight; case_match; lia)). case_match; lia.
Qed.

Lemma items_nonneg c : 0 ≤ items_left c.
Proof using.
  apply msum_fmap_nonneg. intros t. unfold undelivered. case_match; try lia. apply zlen_nonneg.
Qed.

(** The order in which turns go down. *)
Definition fewer (c' c : Connection) : Prop :=
  stages_left c' < stages_left c ∨
  stages_left c' = stages_left c ∧ items_left c' < items_left c.

Lemma poll_continue_down t env w b fs t' b' :
  poll_of t env w b = PollContinue fs t' b' →
  weight t' < weight t ∨ weight t' = weight t ∧ undelivered t' < undelivered t.
Proof.
  unfold task_poll, weight, undelivered.
  destruct (tk_phase t) as [| |parsed|permit d]; [by destruct (tk_credits t)|..].
  - unfold poll_parse. destruct (request_payload _ _ _ _ _ _) as [b1 [parsed|[]]]; [|done].
    intros [= _ <- _]. left. simpl. lia.
  - unfold poll_handler. destruct (tk_credits t); [|by destruct (d_end _)].
    destruct (open_stream _ _ _ _ _ _).2; try done. intros [= _ <- _]. left. simpl. lia.
  - destruct (tk_credits t); [|done]. unfold poll_delivery.
    destruct (stream_turn _ _ _ _ _) as [f d'| | |] eqn:Ht; try done. destruct w; [|done].
    apply stream_turn_item in Ht as (_ & item & _ & _ & Hd & _). intros [= _ <- _]. right.
    cbn [tk_phase with_phase]. rewrite Hd, zlen_cons. lia.
Qed.

Lemma fewer_gone c c' tid t :
  cn_tasks c !! tid = Some t → cn_tasks c' = delete tid (cn_tasks c) → fewer c' c.
Proof using.
  intros Ht Htk. left. unfold stages_left. rewrite Htk.
  destruct (msum_task weight c tid t t Ht) as [_ ->].
  assert (2 ≤ weight t) by (unfold weight; case_match; lia). repeat case_match; lia.
Qed.

(** With an empty table the loop's end aborts nothing. *)
Lemma goodbye_tasks c : cn_active c = ∅ → cn_tasks (goodbye c) = cn_tasks c.
Proof using.
  intros He. unfold goodbye, close. simpl.
  assert (∀ m : gmap nat Task, map_imap (λ tid t,
    Some (if bool_decide (tid ∈ ar_task <$> (map_to_list (∅ : gmap Z ActiveRequest)).*2)
          then abort_task t else t)) m = m) as Hid.
  { intros m. apply map_eq. intros tid. rewrite map_lookup_imap, map_to_list_empty.
    by destruct (m !! tid). }
  destruct (cn_writer_open c); simpl; rewrite He; apply Hid.
Qed.

Lemma goodbye_notified c : cn_notified (goodbye c) = cn_notified c.
Proof using. unfold goodbye. simpl. by destruct (cn_writer_open c). Qed.

Lemma drain_turn_down c c' : drain_turn c c' → fewer c' c.
Proof.
  intros Hs. destruct Hs as [tid t Ht Hst|tid t env c' Ht Hst Hr|tid t Ht Hab Haw|Hrun Hd Hn].
  - left. unfold stages_left. simpl.
    destruct (msum_task weight c tid t (with_phase t (tk_credits t) Polled) Ht) as [-> _].
    unfold tk_started in Hst. unfold weight. simpl. destruct (tk_phase t); try done. lia.
  - revert Hr. unfold task_run.
    destruct (task_poll _ _ _ _ _ _ _ _) as [fs b|b|fs t' b|] eqn:Hp; intros [= <-].
    + apply (fewer_gone _ _ tid t Ht). unfold task_finish. simpl. by destruct (cn_writer_open c).
    + by apply (fewer_gone _ _ tid t Ht).
    + generalize (fs ≫= queue_form (te_room env)). intros gs.
      assert (cn_notified (task_continue c tid t' gs b) = cn_notified c) as Hn
        by (unfold task_continue; simpl; by destruct (cn_writer_open c)).
      assert (cn_tasks (task_continue c tid t' gs b) = <[tid := t']> (cn_tasks c)) as Htk
        by (unfold task_continue; simpl; by destruct (cn_writer_open c)).
      unfold fewer, stages_left, items_left. rewrite Hn, Htk.
      destruct (msum_task weight c tid t t' Ht) as [-> _].
      destruct (msum_task undelivered c tid t t' Ht) as [-> _].
      apply poll_continue_down in Hp. lia.
  - by apply (fewer_gone _ _ tid t Ht).
  - assert (fewer (set_notified c false) c) as Hlt.
    { left. unfold stages_left. simpl. rewrite Hn. lia. }
    unfold on_active_changed. case_bool_decide as He; [|done].
    revert Hlt. unfold fewer, stages_left, items_left.
    rewrite goodbye_tasks, (goodbye_notified (set_notified c false)) by done. done.
Qed.

Lemma drain_turns_end c : sn drain_turn c.
Proof.
  apply (lexicographic_sn _ stages_left items_left stages_nonneg items_nonneg).
  intros x y. apply drain_turn_down.
Qed.

(** ** The end of the turns *)

(** What stays of a connection while it takes its turns: its tasks can go on,
    and if it ran at first, it runs or has said goodbye. *)
Record draining_from (c0 c : Connection) : Prop := {
  df_draining : cn_draining c0 = true → cn_draining c = true;
  df_writer : cn_writer_open c = cn_writer_open c0;
  df_tasks tid t : cn_tasks c !! tid = Some t → answerable t;
  df_status : cn_status c0 = Running → cn_draining c0 = true ∨ cn_writer_open c0 = true →
    cn_status c = Running ∨
    cn_status c = Closed (Ok tt) ∧
    (cn_writer_open c = true → Frame_new FrameKind.Goodbye 0 0 [] ∈ cn_sent c);
}.

Lemma answerable_on t t' : answerable t → goes_on t t' → answerable t'.
Proof using. intros Ha Hg t2 Hr. apply Ha. by eapply rtc_l. Qed.

(** Aborting a task changes none of its polls. *)
Lemma poll_abort t env w b :
  poll_of (abort_task t) env w b
  = match poll_of t env w b with
    | PollContinue fs t' b' => PollContinue fs (abort_task t') b'
    | r => r
    end.
Proof.
  unfold task_poll. cbn [tk_phase abort_task tk_credits tk_frame].
  unfold poll_parse, poll_handler, poll_delivery. repeat first [case_match; simplify_eq/=|done].
Qed.

Lemma goes_on_abort t t' : goes_on (abort_task t) t' → ∃ t1, goes_on t t1 ∧ t' = abort_task t1.
Proof.
  intros [Hp|env w b fs t1 b' Hp].
  - eexists. split; [by apply go_start|done].
  - rewrite poll_abort in Hp. destruct (poll_of t env w b) as [| |fs2 t2 b2|] eqn:Er; try done.
    injection Hp as <- <- <-. exists t2. split; [by eapply go_poll|done].
Qed.

Lemma answerable_abort t : answerable t → answerable (abort_task t).
Proof.
  intros Ha t' Hr Hs w b.
  assert (∃ t1, rtc goes_on t t1 ∧ t' = abort_task t1) as (t1 & Hr1 & ->).
  { remember (abort_task t) as u eqn:Hu. clear Hs Ha. revert t Hu.
    induction Hr as [|u u1 u2 Hg _ IH]; intros t ->; [by exists t|].
    apply goes_on_abort in Hg as (t1 & Hg & ->). destruct (IH t1 eq_refl) as (t2 & ? & ->).
    exists t2. split; [by eapply rtc_l|done]. }
  destruct (Ha t1 Hr1 Hs w b) as [env He]. exists env. rewrite poll_abort.
  by destruct (poll_of t1 env w b).
Qed.

(** Turns that keep the loop's state, send [fs] and keep tasks answerable. *)
Lemma draining_from_sends c0 c c' fs :
  draining_from c0 c → cn_draining c' = cn_draining c → cn_writer_open c' = cn_writer_open c →
  cn_status c' = cn_status c → cn_sent c' = cn_sent c ++ fs →
  (∀ tid t, cn_tasks c' !! tid = Some t → answerable t) → draining_from c0 c'.
Proof using.
  intros [Hd Hw _ Hst] Hd' Hw' Hst' Hs' Ht'. split; rewrite ?Hd', ?Hw', ?Hst', ?Hs'; try done.
  intros Hr0 Hc0. destruct (Hst Hr0 Hc0) as [?|[? Hg]]; [by left|right]. split; [done|]. intros Ho.
  apply elem_of_app. auto.
Qed.

Lemma pushed c (fs : list Frame) :
  ∃ fs', cn_sent (if cn_writer_open c then push_sent c fs else c) = cn_sent c ++ fs' ∧
  cn_tasks (if cn_writer_open c then push_sent c fs else c) = cn_tasks c ∧
  cn_writer_open (if cn_writer_open c then push_sent c fs else c) = cn_writer_open c ∧
  cn_draining (if cn_writer_open c then push_sent c fs else c) = cn_draining c ∧
  cn_status (if cn_writer_open c then push_sent c fs else c) = cn_status c.
Proof using.
  destruct (cn_writer_open c) eqn:Hw; [by exists fs|]. exists []. by rewrite app_nil_r, Hw.
Qed.

Lemma draining_from_turn c0 c c' :
  calm_router → tidy c → draining_from c0 c → drain_turn c c' → draining_from c0 c'.
Proof.
  intros Hcalm Hi Hf Hs. pose proof (df_tasks _ _ Hf) as Ht.
  destruct Hs as [tid t Hl Hstart|tid t env c' Hl Hstart Hr|tid t Hl Hab Haw|Hrun _ Hn].
  - apply (draining_from_sends c0 c _ []); try done; [by rewrite app_nil_r|].
    intros tid' t'. simpl. intros [[<- <-]|[_ ?]]%lookup_insert_Some; [|by eapply Ht].
    eapply answerable_on; [by eapply Ht|]. constructor. unfold tk_started in Hstart.
    by destruct (tk_phase t).
  - revert Hr. unfold task_run.
    pose proof (calm_poll t env (cn_writer_open c) (cn_budget c) Hcalm (td_calm _ Hi _ _ Hl)) as Hp.
    destruct (task_poll _ _ _ _ _ _ _ _) as [fs b|b|fs t' b|] eqn:Er; try done; intros [= <-];
      destruct (pushed c (fs ≫= queue_form (te_room env))) as (fs' & Hs1 & Hs2 & Hs3 & Hs4 & Hs5);
      apply (draining_from_sends c0 c _ fs'); unfold task_finish, task_continue; simpl; try done;
      rewrite ?Hs2; intros tid' t1.
    + intros [_ Hl']%lookup_delete_Some. by eapply Ht.
    + intros [[<- <-]|[_ ?]]%lookup_insert_Some; [|by eapply Ht].
      eapply answerable_on; [by eapply Ht|]. by eapply go_poll.
  - apply (draining_from_sends c0 c _ []); try done; [by rewrite app_nil_r|].
    intros tid' t'. simpl. intros [_ ?]%lookup_delete_Some. by eapply Ht.
  - unfold on_active_changed. case_bool_decide as He; [|by destruct Hf; split].
    destruct Hf as [Hd Hw _ _]. pose proof (goodbye_tasks (set_notified c false) He) as Hg.
    split.
    + intros H0. rewrite <- (Hd H0). simpl. by destruct (cn_writer_open c).
    + rewrite <- Hw. simpl. by destruct (cn_writer_open c) eqn:Ew; simpl; rewrite ?Ew.
    + intros tid t. rewrite Hg. apply Ht.
    + intros _ _. right. split; [done|]. simpl. destruct (cn_writer_open c) eqn:Ew; simpl; rewrite ?Ew; [|done].
      intros _. apply elem_of_app. right. by left.
Qed.

(** The loop hears of the drain: it says GOAWAY, and goodbye if nothing is pending. *)
Lemma draining_from_drain c0 c :
  cn_status c = Running → cn_draining c = false → draining_from c0 c → draining_from c0 (on_drain c).
Proof using.
  intros Hrun Hnot [Hd Hw Ht Hst].
  assert (∀ c1 r tid t, cn_tasks c1 = cn_tasks c → cn_tasks (close c1 r) !! tid = Some t →
    answerable t) as Hclose.
  { intros c1 r tid t' Hc1. simpl. rewrite map_lookup_imap, Hc1.
    destruct (cn_tasks c !! tid) as [t|] eqn:Hl; [|done]. simpl. intros [= <-].
    case_bool_decide; [|by eapply Ht]. by eapply answerable_abort, Ht. }
  unfold on_drain. cbn [cn_writer_open set_draining]. destruct (cn_writer_open c) eqn:Ew.
  - case_bool_decide as He; [|by split; simpl; rewrite ?Ew; auto].
    split; simpl; rewrite ?Ew; simpl; [done|congruence| |].
    + intros tid t. apply (Hclose (push_sent (push_sent (set_draining c) [go_away])
        [Frame_new FrameKind.Goodbye 0 0 []]) (Ok tt)). done.
    + intros _ _. right. split; [done|]. intros _. apply elem_of_app. right. by left.
  - split; simpl; rewrite ?Ew; [done|congruence| |].
    + intros tid t. by apply (Hclose (set_draining c) (Err writer_stopped)).
    + intros _ [H0|H0]; [rewrite (Hd H0) in Hnot|]; congruence.
Qed.

(** A task that can go on has a turn. *)
Lemma answerable_turn c tid t :
  cn_tasks c !! tid = Some t → answerable t → ∃ c', drain_turn c c'.
Proof.
  intros Hl Ha. destruct (tk_started t) eqn:Hs; [|eexists; by eapply dt_start].
  destruct (Ha t ltac:(done) Hs (cn_writer_open c) (cn_budget c)) as [env He].
  assert (∃ c', run c tid t env = Some c') as [c' Hr].
  { unfold task_run. destruct (task_poll _ _ _ _ _ _ _ _); eauto. done. }
  exists c'. by eapply dt_run.
Qed.

(** When no turn is left, there are no tasks and the loop has ended. *)
Lemma drain_finished c0 c :
  cn_draining c0 = true → tidy c → draining_from c0 c → nf drain_turn c →
  cn_tasks c = ∅ ∧ cn_status c ≠ Running.
Proof.
  intros Hd0 [Hentry Hnoticed _] [Hd Hw Ht Hst] Hnf.
  assert (cn_tasks c = ∅) as Hempty.
  { apply map_eq. intros tid. rewrite lookup_empty.
    destruct (cn_tasks c !! tid) as [t|] eqn:Hl; [exfalso; apply Hnf|done].
    eapply answerable_turn; eauto. }
  split; [done|]. intros Hrun. apply Hnf. eexists. apply dt_active_changed; [done|by apply Hd|].
  apply Hnoticed; [done|by apply Hd|]. apply map_eq. intros id. rewrite lookup_empty.
  destruct (cn_active c !! id) as [r|] eqn:Ha; [|done].
  apply Hentry in Ha as (t & Hl & _). by rewrite Hempty in Hl.
Qed.

Lemma drain_turn_or_end c0 c :
  cn_draining c0 = true → draining_from c0 c → red drain_turn c ∨ nf drain_turn c.
Proof.
  intros Hd0 [Hd _ Ht _]. specialize (Hd Hd0). destruct (map_choose_or_empty (cn_tasks c)) as [(tid & t & Hl)|Hempty].
  - left. eapply answerable_turn; eauto.
  - assert (∀ c', drain_turn c c' → cn_status c = Running ∧ cn_notified c = true) as Hinv.
    { intros c' Hs. destruct Hs; [..|done]; by rewrite Hempty in *. }
    destruct (cn_status c) eqn:Hst, (cn_notified c) eqn:Hn.
    1: left; eexists; by apply dt_active_changed.
    all: right; intros [c' Hs]; apply Hinv in Hs as [? ?]; done.
Qed.

(** The invariants along the turns. *)
Lemma drain_turns_keep total c0 c c' :
  calm_router → conn_inv (max_in_flight negotiated) total c → tidy c → draining_from c0 c → rtc drain_turn c c' →
  tidy c' ∧ draining_from c0 c'.
Proof.
  intros Hcalm Hc Hi Hf Hr. revert Hc Hi Hf. induction Hr as [|c c1 c2 Hs _ IH]; [done|].
  intros Hc Hi Hf. pose proof (drain_turn_step _ _ Hs). apply IH.
  - by eapply conn_step_inv.
  - by eapply tidy_step.
  - by eapply draining_from_turn.
Qed.

Lemma drain_reaches_end total c0 c :
  cn_draining c0 = true → calm_router → conn_inv (max_in_flight negotiated) total c → tidy c →
  draining_from c0 c → ∃ c', rtc drain_turn c c' ∧ nf drain_turn c'.
Proof.
  intros Hd Hcalm. induction (drain_turns_end c) as [c _ IH]. intros Hc Hi Hf.
  destruct (drain_turn_or_end c0 c Hd Hf) as [[c1 Hs]|Hnf]; [|by exists c].
  pose proof (drain_turn_step _ _ Hs).
  destruct (IH c1 Hs) as (c' & Hr & Hnf);
    [by eapply conn_step_inv|by eapply tidy_step|by eapply draining_from_turn|].
  exists c'. split; [|done]. by eapply rtc_l.
Qed.

Lemma tidy_reachable total c c' :
  calm_router → conn_inv (max_in_flight negotiated) total c → tidy c → rtc step c c' →
  conn_inv (max_in_flight negotiated) total c' ∧ tidy c'.
Proof.
  intros Hcalm Hc Hi Hr. induction Hr as [|c c1 c2 Hs _ IH]; [done|].
  apply IH; [by eapply conn_step_inv|by eapply tidy_step].
Qed.
End drain.

(** * Properties *)

(** C23 Every frame that a connection queues for its writer is well formed and
    addressed by its kind, whatever clients, handlers and subscribers do.  Its
    identifiers are within their widths and it has no flags; GOAWAY and GOODBYE
    have no identifiers, PONG and HEALTH_STATUS have the identifier of a PING or
    HEALTH frame that was received and no method, an event has its identifier
    and no request, and a response, an error, a stream item or the end of a
    stream carries the method and the identifier of a request that was received;
    no other kind is ever queued.  So the writer never fails to encode what it
    is given. *)
Theorem connection_output_wellformed `{Z0 : ZstdOps} router peer negotiated policy rt total budget c :
  0 ≤ max_body_len negotiated ≤ u32_max →
  rtc (conn_step router peer negotiated policy) (connection_start negotiated rt total budget) c →
  Forall (λ f, frame_ok f ∧ addressed (cn_received c) f) (cn_sent c) ∧
  ∀ visibles, ∃ batches st,
    writer_run negotiated policy visibles {| ws_deferred := None; ws_channel := cn_sent c |}
      = Ok (batches, st).
Proof.
  intros Hm Hr.
  pose proof (oi_sent _ (output_reachable _ _ _ _ _ _ (connection_start_output _ _ _ _)
    (connection_start_inbox _ _ _ _) Hr)) as Hs.
  split; [done|]. intros visibles.
  destruct (writer_run_batched negotiated policy Hm false visibles (cn_sent c))
    as (bs & again & left & Hrun & _); [|by eexists _, _].
  eapply Forall_impl; [exact Hs|]. by intros f [Hf _].
Qed.

(** A drain completes.  Take a connection that drains, of a router whose handlers
    do not unwind, and whose pending requests can be answered: no stage of their
    tasks waits for ever.  However its tasks and its loop take turns, the turns
    run out; and when none is left, no task is left, the loop has ended without
    an error, and GOODBYE was sent if the writer still runs.  (The connection
    must not have begun in a server that drained already: see
    [late_connection_stays].) *)
Theorem drain_completes `{Z0 : ZstdOps} router peer negotiated policy rt total budget c :
  calm_router router →
  0 ≤ max_in_flight negotiated → 0 ≤ total → rt_drain_value rt = false →
  rtc (conn_step router peer negotiated policy) (connection_start negotiated rt total budget) c →
  cn_status c = Running → cn_draining c = true →
  (∀ tid t, cn_tasks c !! tid = Some t → answerable router peer negotiated policy t) →
  let turn := drain_turn router peer negotiated policy in
  let ended c' := cn_tasks c' = ∅ ∧ cn_status c' = Closed (Ok tt) ∧
    (cn_writer_open c = true → Frame_new FrameKind.Goodbye 0 0 [] ∈ cn_sent c') in
  sn turn c ∧ (∃ c', rtc turn c c' ∧ ended c') ∧ (∀ c', rtc turn c c' → nf turn c' → ended c').
Proof.
  intros Hcalm Hm Ht Hd Hr Hrun Hdr Hans turn ended.
  destruct (tidy_reachable router peer negotiated policy total
    (connection_start negotiated rt total budget) c) as [Hc Hi];
    [done|by apply connection_start_inv|by apply tidy_start|done|].
  assert (draining_from router peer negotiated policy c c) as Hf by (split; auto).
  assert (∀ c', rtc turn c c' → nf turn c' → ended c') as Hend.
  { intros c' Hr' Hnf.
    destruct (drain_turns_keep _ _ _ _ _ c c c' Hcalm Hc Hi Hf Hr') as (Hi' & Hf').
    destruct (drain_finished _ _ _ _ c c' Hdr Hi' Hf' Hnf) as [Hempty Hst].
    destruct Hf' as [_ Hw _ Hst']. destruct (Hst' Hrun (or_introl Hdr)) as [?|[? Hg]]; [done|]. split; [done|]. split; [done|].
    rewrite <- Hw. exact Hg. }
  split; [by apply drain_turns_end|]. split; [|done].
  destruct (drain_reaches_end router peer negotiated policy _ c c Hdr Hcalm Hc Hi Hf) as (c' & Hr' & Hnf).
  exists c'. auto.
Qed.

(** Handlers that return, and streams that have the credits they need, make
    every request answerable. *)
Section answerable.
Context `{Z0 : ZstdOps}.
Context (router : Router) (peer : option PeerIdentity).
Context (negotiated : PeerSettingsV2) (policy : CompressionPolicy).
Hypothesis unary_returns :
  ∀ id h b, handlers router !! id = Some h → ∃ a, h b = Returned a.
Hypothesis no_middleware : middleware router = [].
Hypothesis no_streams : stream_handlers router = ∅.

#[local] Abbreviation goes := (goes_on router peer negotiated policy).

Lemma returning_router_calm : calm_router router.
Proof using Z0 unary_returns no_streams.
  split.
  - intros id h b Hh _. destruct (unary_returns id h b Hh) as [a ->]. done.
  - intros id h b. by rewrite no_streams, lookup_empty.
Qed.

(** The stages of a task of this router. *)
Definition plain_task (t : Task) : Prop :=
  match tk_phase t with
  | Parsed parsed => pr_metadata parsed = None
  | Delivering _ _ => False
  | _ => True
  end.

Lemma plain_task_on t t' : plain_task t → goes t t' → plain_task t'.
Proof using Z0 no_middleware no_streams.
  intros Ht [Hp|env w b fs t1 b' Hp]; [done|]. revert Hp. unfold plain_task, task_poll in *.
  destruct (tk_phase t) as [| |parsed|permit d]; [by destruct (tk_credits t)| | |done].
  - unfold poll_parse. destruct (request_payload _ _ _ _ _ _) as [b1 [parsed|[]]] eqn:Ep; [|done].
    intros [= _ <- _]. simpl. apply request_payload_retain in Ep.
    unfold keeps_metadata in Ep. rewrite no_middleware in Ep.
    destruct (pr_metadata parsed); [|done]. by destruct Ep as [Ep _]; discriminate Ep.
  - unfold poll_handler, open_stream. rewrite no_streams, lookup_empty.
    destruct (tk_credits t); [done|by destruct (d_end _)].
Qed.

Lemma plain_task_polls t w b :
  plain_task t → tk_started t = true →
  task_poll router peer negotiated policy t prompt w b ≠ PollWait.
Proof using Z0 unary_returns no_streams.
  unfold plain_task, tk_started, task_poll. destruct (tk_phase t) as [| |parsed|permit d]; try done.
  - intros _ _. unfold poll_parse. by destruct (request_payload _ _ _ _ _ _) as [b1 [parsed|[]]].
  - intros Hm _. unfold poll_handler, open_stream. rewrite no_streams, lookup_empty.
    destruct (tk_credits t); [done|]. unfold dispatch_parsed, answer_frame, invoke. rewrite Hm.
    destruct (handlers router !! _) as [h|] eqn:Eh; [|done].
    destruct (unary_returns _ _ (pr_payload parsed) Eh) as [a ->].
    destruct (_ && _); [done|]. destruct a as [response|e]; [|done]. by destruct (_ >? _).
Qed.

Lemma returning_router_answers t : plain_task t → answerable router peer negotiated policy t.
Proof using Z0 unary_returns no_middleware no_streams.
  intros Ht t' Hr Hs w b. exists prompt. apply plain_task_polls; [|done].
  induction Hr; eauto using plain_task_on.
Qed.
End answerable.

(** ** A connection that begins in a draining server *)

Record late (c : Connection) : Prop := {
  late_draining : cn_draining c = true;
  late_tasks : cn_tasks c = ∅;
  late_active : cn_active c = ∅;
  late_quiet : cn_notified c = false;
}.

Lemma late_close c r : late c → late (close c r).
Proof.
  intros [H1 H2 H3 H4]. split; simpl; [done| |done|done]. rewrite H2.
  apply map_eq. intros i. by rewrite map_lookup_imap, lookup_empty.
Qed.

Lemma late_send c f e : late c → late (send_or_close c f e).
Proof. intros H. unfold send_or_close. case_match; [by destruct H; split|by apply late_close]. Qed.

Lemma late_goodbye c : late c → late (goodbye c).
Proof. intros H. apply late_close. case_match; [by destruct H; split|done]. Qed.

Lemma late_step `{Z0 : ZstdOps} router peer negotiated policy c c' :
  late c → conn_step router peer negotiated policy c c' → late c'.
Proof.
  intros Hl Hs. pose proof Hl as [H1 H2 H3 H4].
  destruct Hs as [c' Hs|request_bytes budget rt Hothers]; [destruct Hs|]; auto using late_close, late_goodbye; try (rewrite H2 in *; by simplify_map_eq).
  1-3: by split.
  - assert (late (push_received (loop_recv c (Ok bf) queue) (bf_frame bf))) as Hl' by by split.
    unfold on_frame, protocol_error. destruct (kind (bf_frame bf)); auto using late_close.
    + unfold on_request. cbn [cn_draining push_received loop_recv set_inbox]. rewrite H1. by apply late_send.
    + unfold on_cancel. cbn [cn_active push_received loop_recv set_inbox]. by rewrite H3, lookup_empty.
    + unfold on_ping, protocol_error. case_match; auto using late_close, late_send.
    + unfold on_health, protocol_error. case_match; auto using late_close, late_send.
    + unfold on_stream_credit, protocol_error. cbn [cn_active push_received loop_recv set_inbox].
      rewrite H3, lookup_empty. repeat (case_match; auto using late_close).
  - assert (late (loop_recv c (Err e) queue)) by by split.
    unfold on_read_error. case_match; auto using late_close.
  - unfold on_hub_event. repeat case_match; auto using late_send.
  - congruence.
  - congruence.
  - by split.
  - by split.
Qed.

(** A connection whose handshake completes after the server began to drain is
    told GOAWAY and then waits for its client: it has no task, no request is
    admitted, and nothing notifies its loop, so it takes no turn of its own and
    says no GOODBYE until the client leaves or the drain is forced. *)
Theorem late_connection_stays `{Z0 : ZstdOps} router peer negotiated policy rt total budget c :
  rt_drain_value rt = true →
  rtc (conn_step router peer negotiated policy) (connection_start negotiated rt total budget) c →
  cn_tasks c = ∅ ∧ cn_notified c = false ∧ nf (drain_turn router peer negotiated policy) c.
Proof.
  intros Hd Hr. assert (late c) as [H1 H2 H3 H4].
  { eapply (rtc_ind_r late); [|intros ? ? _ Hs Hl; by eapply late_step|exact Hr].
    unfold connection_start. rewrite Hd. by split. }
  split; [done|]. split; [done|]. intros [c' Hs].
  destruct Hs; first [congruence | rewrite H2 in *; by simplify_map_eq].
Qed.

(** ** Witnesses *)

Definition unary_router : Router :=
  {| handlers := {[5 := λ b, Returned (Ok b)]}; stream_handlers := ∅; method_names := ∅;
     required_scopes := ∅; middleware := []; telemetry := None |}.

Lemma unary_router_returns id h b : handlers unary_router !! id = Some h → ∃ a, h b = Returned a.
Proof.
  unfold unary_router. cbn [handlers]. intros [<- <-]%lookup_singleton_Some. eauto.
Qed.

(** One request in flight when the drain begins. *)
Definition draining_1 : Connection :=
  on_drain (took unary_router sample_start FrameKind.Request 1).

Lemma draining_1_reachable : rtc (sample_step unary_router) sample_start draining_1.
Proof.
  etrans; [apply (step_took unary_router sample_start FrameKind.Request 1); vm_compute; reflexivity|].
  apply rtc_once. apply cs_own, cs_drain; vm_compute; reflexivity.
Qed.

Lemma drain_completes_witness :
  ∃ c', rtc (drain_turn unary_router None PeerSettingsV2_default witness_policy) draining_1 c' ∧
        cn_status c' = Closed (Ok tt) ∧ Frame_new FrameKind.Goodbye 0 0 [] ∈ cn_sent c'.
Proof.
  destruct (drain_completes unary_router None PeerSettingsV2_default witness_policy sample_runtime
    100 witness_budget draining_1) as (_ & (c' & Hr & _ & Hst & Hg) & _).
  - apply returning_router_calm; [apply unary_router_returns|reflexivity].
  - vm_compute. discriminate.
  - lia.
  - reflexivity.
  - apply draining_1_reachable.
  - vm_compute. reflexivity.
  - vm_compute. reflexivity.
  - intros tid t Ht. apply returning_router_answers; [apply unary_router_returns|reflexivity..|].
    replace (cn_tasks draining_1) with ({[0%nat := MkTask (Frame_new FrameKind.Request 5 1 [x2a])
      None 1 Spawned false]} : gmap nat Task) in Ht by (vm_compute; reflexivity).
    apply lookup_singleton_Some in Ht as [_ <-]. exact I.
  - exists c'. split; [exact Hr|]. split; [exact Hst|]. apply Hg. vm_compute. reflexivity.
Defined.

Lemma connection_output_wellformed_witness :
  Forall (λ f, frame_ok f ∧ addressed (cn_received reuse_5) f) (cn_sent reuse_5).
Proof.
  refine (proj1 (connection_output_wellformed echo_router None PeerSettingsV2_default witness_policy
    sample_runtime 100 witness_budget reuse_5 _ _)).
  - vm_compute. split; discriminate.
  - apply reuse_reachable.
Defined.
