(* ===== verification/Session.v ===== *)
(** The contract of a connection: an RPC session.  Its calls are admitted,
    granted credits, send items or lose them to the byte budget, and end with
    one terminal frame or none; all else it sends belongs to no call.  The
    connection of [Connection] refines this session, whatever its tasks, its
    loop and the rest of the server do; what is queued under an identifier that
    is not reused follows. *)
From stdpp Require Import relations.
From S2P Require Import Prelude OrdMap Compression Protocol Metadata Transport Outbound.
From S2P Require Import Middleware Router Dispatch Connection Flow.

(** * The session *)

Record Call := MkCall {
  cl_request : Frame;
  cl_credits : option Z;
}.

Record Session := MkSession {
  se_next : nat;
  se_calls : gmap nat Call;
}.

Inductive session_event :=
  | Admit (request : Frame)
  | Refuse (request answer : Frame)
  | Grant (call : nat) (n : Z)
  | Item (call : nat) (f : Frame)
  | Lose (call : nat) (f : Frame)
  | Answer (call : nat) (f : Frame)
  | Vanish (call : nat)
  | Notice (f : Frame).

Definition session_start : Session := {| se_next := 0; se_calls := ∅ |}.

Definition replies (request f : Frame) : bool :=
  (method_id f =? method_id request) && (request_id f =? request_id request) && (flags f =? 0).

Definition is_answer (k : FrameKind) : bool :=
  match k with
  | FrameKind.Response | FrameKind.Error | FrameKind.StreamItem | FrameKind.StreamEnd => true
  | _ => false
  end.

Definition ends_call (streaming : bool) (k : FrameKind) : bool :=
  match k with
  | FrameKind.Error => true
  | FrameKind.Response => negb streaming
  | FrameKind.StreamEnd => streaming
  | _ => false
  end.

Lemma terminal_ends streaming k : ends_call streaming k = true ↔ terminal_kind streaming k.
Proof. unfold terminal_kind, ends_call. destruct streaming, k; naive_solver. Qed.

Section session.
Context (is_stream : Z → bool) (max_calls max_body : Z).

(** What each event does, and when it may happen. *)
Definition session_next (s : Session) (ev : session_event) : option Session :=
  match ev with
  | Admit request =>
      guard (request_id request ≠ 0 ∧ Z.of_nat (size (se_calls s)) < max_calls);;
      Some {| se_next := S (se_next s);
              se_calls := <[se_next s := {| cl_request := request;
                                            cl_credits := if is_stream (method_id request)
                                                          then Some 0 else None |}]>
                            (se_calls s) |}
  | Refuse request f =>
      guard (replies request f = true ∧ kind f = FrameKind.Error);; Some s
  | Grant i n =>
      call ← se_calls s !! i;
      credits ← cl_credits call;
      guard (0 ≤ n);;
      Some {| se_next := se_next s;
              se_calls := <[i := {| cl_request := cl_request call;
                                    cl_credits := Some (credits + n) |}]> (se_calls s) |}
  | Item i f =>
      call ← se_calls s !! i;
      credits ← cl_credits call;
      guard (0 < credits ∧ replies (cl_request call) f = true ∧ kind f = FrameKind.StreamItem ∧
             zlen (body f) ≤ max_body);;
      Some {| se_next := se_next s;
              se_calls := <[i := {| cl_request := cl_request call;
                                    cl_credits := Some (credits - 1) |}]> (se_calls s) |}
  | Lose i f =>
      call ← se_calls s !! i;
      credits ← cl_credits call;
      guard (0 < credits ∧ f = rejected_frame (cl_request call));;
      Some {| se_next := se_next s;
              se_calls := <[i := {| cl_request := cl_request call;
                                    cl_credits := Some (credits - 1) |}]> (se_calls s) |}
  | Answer i f =>
      call ← se_calls s !! i;
      guard (replies (cl_request call) f = true ∧
             ends_call (bool_decide (is_Some (cl_credits call))) (kind f) = true);;
      Some {| se_next := se_next s; se_calls := delete i (se_calls s) |}
  | Vanish i =>
      call ← se_calls s !! i;
      Some {| se_next := se_next s; se_calls := delete i (se_calls s) |}
  | Notice f => guard (is_answer (kind f) = false);; Some s
  end.

Fixpoint session_run (s : Session) (evs : list session_event) : option Session :=
  match evs with
  | [] => Some s
  | ev :: evs => s ← session_next s ev; session_run s evs
  end.

Lemma session_run_app s evs evs' :
  session_run s (evs ++ evs') = (session_run s evs ≫= λ s', session_run s' evs').
Proof.
  revert s. induction evs as [|ev evs IH]; intros s; [done|]. simpl.
  destruct (session_next s ev); [apply IH|done].
Qed.
End session.

(** What is seen of the events on the wire, and the requests they are about. *)
Definition event_frames (ev : session_event) : list Frame :=
  match ev with
  | Refuse _ f | Item _ f | Lose _ f | Answer _ f | Notice f => [f]
  | Admit _ | Grant _ _ | Vanish _ => []
  end.

Definition event_requests (ev : session_event) : list Frame :=
  match ev with Admit request | Refuse request _ => [request] | _ => [] end.

Definition wire (evs : list session_event) : list Frame := evs ≫= event_frames.
Definition requested (evs : list session_event) : list Frame := evs ≫= event_requests.

Lemma wire_app evs evs' : wire (evs ++ evs') = wire evs ++ wire evs'.
Proof. apply bind_app. Qed.

Lemma requested_app evs evs' : requested (evs ++ evs') = requested evs ++ requested evs'.
Proof. apply bind_app. Qed.

(** * The connection as a session *)

Definition call_of (t : Task) : Call := {| cl_request := tk_frame t; cl_credits := tk_credits t |}.

Definition session_of (c : Connection) : Session :=
  {| se_next := cn_next c; se_calls := call_of <$> cn_tasks c |}.

Definition requests_in (fs : list Frame) : list Frame :=
  filter (λ f, kind f = FrameKind.Request) fs.

(** A stretch of the connection's life that the session follows. *)
Definition follows (router : Router) (negotiated : PeerSettingsV2) (c c' : Connection) : Prop :=
  ∃ evs rs,
    session_run (is_streaming router) (max_in_flight negotiated) (max_decoded_body_len negotiated)
      (session_of c) evs = Some (session_of c') ∧
    cn_sent c' = cn_sent c ++ wire evs ∧
    cn_received c' = cn_received c ++ rs ∧ requested evs `sublist_of` requests_in rs.

Section refinement.
Context (router : Router) (negotiated : PeerSettingsV2).

#[local] Abbreviation follow := (follows router negotiated).

#[export] Instance follows_preorder : PreOrder follow.
Proof using.
  split.
  - intros c. exists [], []. rewrite !app_nil_r. done.
  - intros c1 c2 c3 (evs & rs & H1 & H2 & H3 & H4) (evs' & rs' & H1' & H2' & H3' & H4').
    exists (evs ++ evs'), (rs ++ rs'). rewrite session_run_app, H1. simpl.
    split; [done|]. rewrite wire_app, requested_app, H2', H2, H3', H3, !app_assoc.
    split; [done|]. split; [done|]. unfold requests_in. rewrite filter_app. by apply sublist_app.
Qed.

(** One event and what it sends. *)
Lemma follows_event c c' ev :
  session_next (is_streaming router) (max_in_flight negotiated) (max_decoded_body_len negotiated)
    (session_of c) ev = Some (session_of c') →
  cn_sent c' = cn_sent c ++ event_frames ev → cn_received c' = cn_received c →
  event_requests ev = [] → follow c c'.
Proof using.
  intros Hn Hs Hr Hq. exists [ev], []. cbn [session_run]. rewrite Hn. split; [done|].
  unfold wire, requested. simpl. rewrite Hq, !app_nil_r. done.
Qed.

Lemma follows_silent c c' :
  session_of c' = session_of c → cn_sent c' = cn_sent c → cn_received c' = cn_received c →
  follow c c'.
Proof using.
  intros Hn Hs Hr. exists [], []. rewrite !app_nil_r. simpl. by rewrite Hn.
Qed.

Lemma follows_received c f : follow c (push_received c f).
Proof using.
  exists [], [f]. rewrite app_nil_r. split; [done|]. split; [done|]. split; [done|]. apply sublist_nil_l.
Qed.

Lemma follows_close c r : follow c (close c r).
Proof using.
  apply follows_silent; [|done|done]. unfold session_of. simpl. f_equal. apply map_eq. intros tid.
  rewrite !lookup_fmap, map_lookup_imap. destruct (cn_tasks c !! tid); [|done]. simpl.
  by case_bool_decide.
Qed.

Lemma follows_notice c c' f :
  is_answer (kind f) = false → session_of c' = session_of c → cn_sent c' = cn_sent c ++ [f] →
  cn_received c' = cn_received c → follow c c'.
Proof using.
  intros Hk Hn Hs Hr. apply (follows_event c c' (Notice f)); [|done|done|done].
  simpl. by rewrite option_guard_True, Hn.
Qed.

Lemma follows_send c f e : is_answer (kind f) = false → follow c (send_or_close c f e).
Proof using.
  intros Hk. unfold send_or_close. case_match; [|apply follows_close]. by apply (follows_notice c _ f).
Qed.

Lemma follows_goodbye c : follow c (goodbye c).
Proof using.
  unfold goodbye. etrans; [|apply follows_close]. case_match; [|reflexivity].
  by apply (follows_notice c _ (Frame_new FrameKind.Goodbye 0 0 [])).
Qed.

Lemma replies_refl request k b : replies request (Frame_new k (method_id request) (request_id request) b) = true.
Proof using. unfold replies. simpl. by rewrite !Z.eqb_refl. Qed.

Lemma replies_reply request f : reply_to request f → replies request f = true.
Proof using. unfold replies. intros (-> & -> & ->). by rewrite !Z.eqb_refl. Qed.

(** A request that is refused with an error frame. *)
Lemma follows_refusal c f code m e :
  kind f = FrameKind.Request →
  follow c (send_or_close (push_received c f) (error_frame f code m) e).
Proof using.
  intros Hk. unfold send_or_close. case_match.
  - exists [Refuse f (error_frame f code m)], [f]. simpl.
    rewrite option_guard_True by (split; [apply replies_refl|done]). simpl.
    split; [done|]. split; [done|]. split; [done|]. unfold requests_in.
    rewrite filter_cons_True by done. done.
  - etrans; [apply follows_received|apply follows_close].
Qed.

Lemma follows_admission max total c f p :
  conn_inv max total c → max = max_in_flight negotiated → 0 < cn_permits c → request_id f ≠ 0 →
  kind f = FrameKind.Request →
  follow c (spawn_request (push_received c f) f p (is_streaming router (method_id f))).
Proof using.
  intros Hc -> Hp Hid Hk. exists [Admit f], [f].
  pose proof (ci_permits _ _ _ Hc) as Hn. unfold held in Hn. rewrite map_size_fmap in Hn.
  cbn [session_run session_next]. rewrite option_guard_True.
  2: { split; [done|]. unfold session_of. simpl. rewrite map_size_fmap. lia. }
  simpl. split; [|rewrite app_nil_r; split; [done|]].
  - unfold session_of. simpl. by rewrite fmap_insert.
  - split; [done|]. unfold requests_in. rewrite filter_cons_True by done. done.
Qed.

Lemma follows_cancel c f : follow c (on_cancel c f).
Proof using.
  unfold on_cancel. destruct (cn_active c !! _) as [r|]; [|reflexivity].
  apply follows_silent; [|done|done]. unfold session_of. simpl. f_equal. apply map_eq. intros tid.
  rewrite !lookup_fmap, lookup_alter. case_decide; [subst tid|done].
  by destruct (cn_tasks c !! ar_task r).
Qed.

Lemma follows_credit max total c f : conn_inv max total c → follow c (on_stream_credit c f).
Proof using.
  intros Hc. unfold on_stream_credit, protocol_error. case_match; [apply follows_close|].
  case_match; [apply follows_close|].
  destruct (cn_active c !! request_id f) as [r|] eqn:Er; [|reflexivity].
  case_match eqn:Hstr; [apply follows_close|].
  destruct (cn_tasks c !! ar_task r) as [t|] eqn:Et.
  2: { apply follows_silent; [|done|done]. unfold session_of. simpl. f_equal. f_equal. apply map_eq.
       intros tid. rewrite lookup_alter. case_decide; [subst|done]. by rewrite Et. }
  destruct (ci_active _ _ _ Hc _ _ Er) as [_ Hm]. destruct (Hm t Et) as [_ Hs].
  destruct (tk_credits t) as [n|] eqn:Hn; [|by rewrite Hs in Hstr].
  pose proof (be_val_range (body f)) as Hb.
  apply (follows_event c _ (Grant (ar_task r)
    (Z.min (be_val (body f)) (saturating_sub MAX_PERMITS n)))); [|simpl; by rewrite app_nil_r|done|done].
  cbn [session_next]. unfold session_of. cbn [se_calls]. rewrite lookup_fmap, Et. simpl. rewrite Hn. simpl.
  rewrite option_guard_True by (unfold saturating_sub; lia). simpl. do 2 f_equal.
  rewrite (alter_insert_Some _ _ _ _ Et), fmap_insert. unfold call_of. simpl. by rewrite Hn.
Qed.

Lemma follows_frame max total c bf uptime :
  conn_inv max total c → max = max_in_flight negotiated →
  follow c (on_frame router negotiated (push_received c (bf_frame bf)) bf uptime).
Proof using.
  intros Hc Hmax.
  assert (∀ c', follow (push_received c (bf_frame bf)) c' → follow c c') as Hthen
    by (intros c' Hf; etrans; [apply follows_received|exact Hf]).
  unfold on_frame, protocol_error. destruct (kind (bf_frame bf)) eqn:Hk; try (apply Hthen, follows_close).
  - unfold on_request, protocol_error. repeat (case_match; [first [by apply follows_refusal
      |apply Hthen, follows_close]|]). bool_to_prop.
    by apply (follows_admission max total).
  - apply Hthen, follows_cancel.
  - unfold on_ping, protocol_error. case_match; apply Hthen; [apply follows_close|by apply follows_send].
  - unfold on_health, protocol_error. case_match; apply Hthen; [apply follows_close|by apply follows_send].
  - apply Hthen, (follows_credit max total). by apply (conn_inv_field max total c).
Qed.

Context `{Z0 : ZstdOps}.
Context (peer : option PeerIdentity) (policy : CompressionPolicy).

Lemma follows_vanish c c' tid t :
  cn_tasks c !! tid = Some t → cn_next c' = cn_next c → cn_tasks c' = delete tid (cn_tasks c) →
  cn_sent c' = cn_sent c → cn_received c' = cn_received c → follow c c'.
Proof using.
  intros Hl Hn Ht Hs Hr. apply (follows_event c c' (Vanish tid)); [|by rewrite app_nil_r|done|done].
  cbn [session_next]. unfold session_of. simpl. by rewrite lookup_fmap, Hl, Hn, Ht, fmap_delete.
Qed.

Lemma follows_finish c tid t fs b :
  cn_tasks c !! tid = Some t → ends_with t fs → follow c (task_finish c tid t fs b).
Proof using.
  intros Hl He. destruct (cn_writer_open c) eqn:Hw.
  2: { apply (follows_vanish _ _ tid t Hl); unfold task_finish; simpl; by rewrite ?Hw. }
  destruct He as [[-> _]|(f & -> & Hr & Hk)].
  { apply (follows_vanish _ _ tid t Hl); unfold task_finish; simpl; rewrite ?Hw; simpl; by rewrite ?app_nil_r. }
  apply (follows_event c _ (Answer tid f)); unfold task_finish; simpl; rewrite ?Hw; [|done|done|done].
  unfold session_of. simpl. rewrite lookup_fmap, Hl. simpl.
  rewrite option_guard_True by (split; [by apply replies_reply|by apply terminal_ends]). simpl.
  by rewrite fmap_delete.
Qed.

Lemma follows_continue c tid t t' fs b :
  cn_tasks c !! tid = Some t → continues (max_decoded_body_len negotiated) t t' fs →
  (fs ≠ [] → cn_writer_open c = true) → follow c (task_continue c tid t' fs b).
Proof using.
  intros Hl [Hf _ _ _ [[-> Hcr]|(n & item & Hn & Hpos & Hn' & Hfs & Hlen)]] Hw.
  - apply follows_silent; unfold task_continue; simpl;
      [|by destruct (cn_writer_open c); simpl; rewrite ?app_nil_r|by destruct (cn_writer_open c)].
    unfold session_of. simpl. rewrite fmap_insert. f_equal; [by destruct (cn_writer_open c)|].
    apply insert_id. rewrite lookup_fmap, Hl. simpl. unfold call_of. by rewrite Hf, Hcr.
  - specialize (Hw ltac:(by destruct Hfs as [->| ->])).
    assert (∀ ev f, fs = [f] → event_frames ev = fs → event_requests ev = [] →
      session_next (is_streaming router) (max_in_flight negotiated)
        (max_decoded_body_len negotiated) (session_of c) ev
      = Some {| se_next := cn_next c; se_calls := <[tid := {| cl_request := tk_frame t;
                cl_credits := Some (n - 1) |}]> (call_of <$> cn_tasks c) |} →
      follow c (task_continue c tid t' fs b)) as Hev.
    { intros ev f -> Hfr Hq Hnext. apply (follows_event c _ ev); unfold task_continue;
        rewrite ?Hw; [|by rewrite Hfr|done|done].
      rewrite Hnext. unfold session_of. simpl. rewrite fmap_insert. unfold call_of at 2.
      by rewrite Hf, Hn'. }
    destruct Hfs as [->| ->].
    + apply (Hev (Item tid (stream_item (tk_frame t) item)) _ eq_refl); [done|done|].
      cbn [session_next]. unfold session_of. cbn [se_calls se_next]. rewrite lookup_fmap, Hl. simpl.
      rewrite Hn. simpl. rewrite option_guard_True by (split_and!; [lia|apply replies_refl|done|done]).
      done.
    + apply (Hev (Lose tid (rejected_frame (stream_item (tk_frame t) item))) _ eq_refl); [done|done|].
      cbn [session_next]. unfold session_of. cbn [se_calls se_next]. rewrite lookup_fmap, Hl. simpl.
      rewrite Hn. simpl. rewrite option_guard_True by (split; [lia|done]). done.
Qed.

Lemma follows_step max total c c' :
  conn_inv max total c → max = max_in_flight negotiated →
  conn_step router peer negotiated policy c c' → follow c c'.
Proof.
  intros Hc Hmax Hs. destruct Hs as [c' Hs|request_bytes budget rt Hothers]; [destruct Hs|].
  1-3: by apply follows_silent.
  - destruct (conn_inv_recv _ _ _ _ _ Hc H0) as (Hc' & _).
    etrans; [by apply (follows_silent c (loop_recv c (Ok bf) queue))|].
    by apply (follows_frame max total).
  - etrans; [by apply (follows_silent c (loop_recv c (Err e) queue))|].
    unfold on_read_error. case_match; apply follows_close.
  - apply follows_close.
  - unfold on_hub_event. do 2 (case_match; [reflexivity|]). by apply follows_send.
  - assert (follow c (set_draining c)) as Hd by by apply follows_silent.
    unfold on_drain. case_match; [|etrans; [exact Hd|apply follows_close]].
    assert (follow c (push_sent (set_draining c) [go_away])) as Hg
      by by apply (follows_notice c _ go_away).
    case_match; [etrans; [exact Hg|apply follows_goodbye]|exact Hg].
  - assert (follow c (set_notified c false)) as Hn by by apply follows_silent.
    unfold on_active_changed. case_match; [etrans; [exact Hn|apply follows_goodbye]|exact Hn].
  - apply follows_goodbye.
  - apply follows_silent; [|done|done]. unfold session_of. simpl. rewrite fmap_insert. f_equal.
    apply insert_id. rewrite lookup_fmap.
    match goal with H : cn_tasks c !! _ = Some _ |- _ => by rewrite H end.
  - match goal with H : task_run _ _ _ _ _ _ _ _ = Some _ |- _ => apply task_run_cases in H end.
    match goal with H : _ ∨ _ |- _ => destruct H as [(fs & b & -> & He)|[(b & ->)|(fs & t' & b & -> & Hk & Hw)]] end.
    + by apply follows_finish.
    + by apply (follows_vanish _ _ tid t).
    + by eapply follows_continue.
  - by apply (follows_vanish _ _ tid t).
  - by apply follows_silent.
  - by apply follows_silent.
Qed.
End refinement.

(** * What is sent under an identifier *)

Definition answers_to (id : Z) (fs : list Frame) : list Frame :=
  filter (λ f, is_answer (kind f) = true ∧ request_id f = id) fs.

(** What a stream shows before it ends: items, and errors in the place of items
    that were lost. *)
Definition in_stream (f : Frame) : Prop :=
  kind f = FrameKind.StreamItem ∨ kind f = FrameKind.Error.

(** The frames of a call that has not ended. *)
Definition pending (streaming : bool) (fs : list Frame) : Prop :=
  if streaming then Forall in_stream fs else fs = [].

(** The frames of a call: it may have ended, with one frame. *)
Definition conversation (streaming : bool) (fs : list Frame) : Prop :=
  pending streaming fs ∨
  ∃ front f, fs = front ++ [f] ∧ pending streaming front ∧ terminal_kind streaming (kind f).

Lemma pending_nil streaming : pending streaming [].
Proof. destruct streaming; constructor. Qed.

Section client.
Context (is_stream : Z → bool) (max_calls max_body : Z).

#[local] Abbreviation next := (session_next is_stream max_calls max_body).
#[local] Abbreviation run := (session_run is_stream max_calls max_body).
#[local] Abbreviation streams_request r := (is_stream (method_id r)).

(** The answers to a request are those of one conversation with its method. *)
Definition talks_about (request : Frame) (fs : list Frame) : Prop :=
  conversation (streams_request request) fs ∧ Forall (λ f, method_id f = method_id request) fs.

(** What is known after [evs] of the frames under every identifier, when no
    request reuses one. *)
Record talk (evs : list session_event) (s : Session) : Prop := {
  ta_new id : id ∉ request_id <$> requested evs →
    answers_to id (wire evs) = [] ∧
    ∀ i call, se_calls s !! i = Some call → request_id (cl_request call) ≠ id;
  ta_talk r : r ∈ requested evs → talks_about r (answers_to (request_id r) (wire evs));
  ta_open i call : se_calls s !! i = Some call →
    cl_request call ∈ requested evs ∧
    (is_Some (cl_credits call) ↔ streams_request (cl_request call) = true) ∧
    pending (streams_request (cl_request call)) (answers_to (request_id (cl_request call)) (wire evs));
  ta_one i j call call' : se_calls s !! i = Some call → se_calls s !! j = Some call' →
    request_id (cl_request call) = request_id (cl_request call') → i = j;
  ta_fresh i call : se_calls s !! i = Some call → (i < se_next s)%nat;
}.

Lemma answers_to_app id fs gs : answers_to id (fs ++ gs) = answers_to id fs ++ answers_to id gs.
Proof using. apply filter_app. Qed.

Lemma answers_to_other id f : request_id f ≠ id → answers_to id [f] = [].
Proof using. intros Hf. unfold answers_to. rewrite filter_cons_False; [done|]. by intros [_ ?]. Qed.

Lemma answers_to_notice id f : is_answer (kind f) = false → answers_to id [f] = [].
Proof using.
  intros Hf. unfold answers_to. rewrite filter_cons_False; [done|]. intros [Ha _]. by rewrite Hf in Ha.
Qed.

Lemma answers_to_hit f : is_answer (kind f) = true → answers_to (request_id f) [f] = [f].
Proof using. intros Hf. unfold answers_to. by rewrite filter_cons_True. Qed.

Lemma replies_fields request f :
  replies request f = true → method_id f = method_id request ∧ request_id f = request_id request.
Proof using. unfold replies. intros H. bool_to_prop. lia. Qed.

Lemma pending_more streaming fs f :
  streaming = true → in_stream f → pending streaming fs → pending streaming (fs ++ [f]).
Proof using. intros -> Hf Hfs. apply Forall_app. split; [done|by constructor]. Qed.

(** With different identifiers, the one of a request tells which it is. *)
Lemma requested_same evs r r' :
  NoDup (request_id <$> requested evs) → r ∈ requested evs → r' ∈ requested evs →
  request_id r = request_id r' → r = r'.
Proof using. apply NoDup_fmap_same. Qed.

Lemma talk_start : talk [] session_start.
Proof using. split; simpl; try done. intros r. by intros ?%not_elem_of_nil. Qed.

(** An event that shows nothing and keeps the requests of the calls. *)
Lemma talk_quiet evs s s' ev :
  talk evs s → event_frames ev = [] → event_requests ev = [] → se_next s' = se_next s →
  (∀ i call', se_calls s' !! i = Some call' →
     ∃ call, se_calls s !! i = Some call ∧ cl_request call' = cl_request call ∧
       (is_Some (cl_credits call') ↔ is_Some (cl_credits call))) →
  talk (evs ++ [ev]) s'.
Proof using.
  intros [H1 H2 H3 H4 H5] Hf Hq Hn Hc.
  assert (wire (evs ++ [ev]) = wire evs) as Hw
    by (rewrite wire_app; unfold wire at 2; simpl; by rewrite Hf, !app_nil_r).
  assert (requested (evs ++ [ev]) = requested evs) as Hr
    by (rewrite requested_app; unfold requested at 2; simpl; by rewrite Hq, !app_nil_r).
  split; rewrite ?Hw, ?Hr, ?Hn.
  - intros id Hid. destruct (H1 id Hid) as [Ha Hno]. split; [done|]. intros i call' Hl.
    destruct (Hc i call' Hl) as (call & Hl' & -> & _). by eapply Hno.
  - done.
  - intros i call' Hl. destruct (Hc i call' Hl) as (call & Hl' & -> & ->). by eapply H3.
  - intros i j call' call2' Hl Hl2 Heq. destruct (Hc i call' Hl) as (call & Hl' & E1 & _).
    destruct (Hc j call2' Hl2) as (call2 & Hl2' & E2 & _). eapply H4; [done..|]. by rewrite <- E1, <- E2.
  - intros i call' Hl. destruct (Hc i call' Hl) as (call & Hl' & _). by eapply H5.
Qed.

(** A frame [f] of a live call [i], which goes on as a stream or ends with it. *)
Lemma talk_frame evs s s' ev i call f :
  talk evs s → NoDup (request_id <$> requested evs) →
  event_frames ev = [f] → event_requests ev = [] → se_next s' = se_next s →
  se_calls s !! i = Some call → replies (cl_request call) f = true → is_answer (kind f) = true →
  streams_request (cl_request call) = true ∧ in_stream f ∨
    terminal_kind (streams_request (cl_request call)) (kind f) ∧ se_calls s' !! i = None →
  (∀ j call', se_calls s' !! j = Some call' →
     ∃ call0, se_calls s !! j = Some call0 ∧ cl_request call' = cl_request call0 ∧
       (is_Some (cl_credits call') ↔ is_Some (cl_credits call0))) →
  talk (evs ++ [ev]) s'.
Proof using.
  intros [H1 H2 H3 H4 H5] Hd Hf Hq Hn Hl [Hmeth Hid]%replies_fields Hans Hk Hc.
  assert (wire (evs ++ [ev]) = wire evs ++ [f]) as Hw
    by (rewrite wire_app; unfold wire at 2; simpl; by rewrite Hf).
  assert (requested (evs ++ [ev]) = requested evs) as Hr
    by (rewrite requested_app; unfold requested at 2; simpl; by rewrite Hq, !app_nil_r).
  assert (∀ id, id ≠ request_id f → answers_to id (wire evs ++ [f]) = answers_to id (wire evs)) as Hother.
  { intros id Hne. by rewrite answers_to_app, answers_to_other, app_nil_r. }
  assert (answers_to (request_id f) (wire evs ++ [f]) = answers_to (request_id f) (wire evs) ++ [f])
    as Hmine by (by rewrite answers_to_app, answers_to_hit).
  destruct (H3 _ _ Hl) as (Hreq & _ & Hpend). rewrite <- Hid in Hpend.
  split; rewrite ?Hw, ?Hr, ?Hn.
  - intros id Hin. destruct (H1 id Hin) as [Ha Hno]. split.
    + rewrite Hother; [done|]. rewrite Hid. intros ->. by eapply Hno.
    + intros j call' Hj. destruct (Hc j call' Hj) as (call0 & Hl0 & -> & _). by eapply Hno.
  - intros r Hin. destruct (decide (request_id r = request_id f)) as [Heq|Hne]; [|rewrite Hother; auto].
    assert (r = cl_request call) as -> by (eapply requested_same; [done..|congruence]).
    destruct (H2 _ Hreq) as [_ Hm]. rewrite <- Hid in Hm |- *. rewrite Hmine. split.
    + destruct Hk as [[Hst Hin']|[Hterm _]]; [left; by apply pending_more|right; eauto].
    + apply Forall_app. split; [done|by constructor].
  - intros j call' Hj. destruct (Hc j call' Hj) as (call0 & Hl0 & -> & ->).
    destruct (H3 _ _ Hl0) as (Hr0 & Hs0 & Hp0). split; [done|]. split; [done|].
    destruct (decide (request_id (cl_request call0) = request_id f)) as [Heq|Hne]; [|by rewrite Hother].
    assert (j = i) as -> by (eapply H4; [done..|congruence]). simplify_eq.
    rewrite Heq, Hmine. destruct Hk as [[Hst Hin']|[_ Hgone]]; [by apply pending_more|congruence].
  - intros j1 j2 call1 call2 Hj1 Hj2 Heq.
    destruct (Hc j1 call1 Hj1) as (call1' & Hl1 & E1 & _).
    destruct (Hc j2 call2 Hj2) as (call2' & Hl2 & E2 & _). eapply H4; [done..|]. congruence.
  - intros j call' Hj. destruct (Hc j call' Hj) as (call0 & Hl0 & _). by eapply H5.
Qed.

Lemma fresh_request evs ev f :
  event_requests ev = [f] → NoDup (request_id <$> requested (evs ++ [ev])) →
  request_id f ∉ request_id <$> requested evs ∧ requested (evs ++ [ev]) = requested evs ++ [f].
Proof using.
  intros Hq. assert (requested (evs ++ [ev]) = requested evs ++ [f]) as ->
    by (rewrite requested_app; unfold requested at 2; simpl; by rewrite Hq).
  rewrite fmap_app. intros (_ & Hd & _)%NoDup_app. split; [|done].
  intros Hin. by apply (Hd _ Hin), list_elem_of_singleton.
Qed.

Lemma talk_admit evs s f :
  talk evs s → NoDup (request_id <$> requested (evs ++ [Admit f])) →
  talk (evs ++ [Admit f])
    {| se_next := S (se_next s);
       se_calls := <[se_next s := {| cl_request := f;
                                     cl_credits := if streams_request f then Some 0 else None |}]>
                     (se_calls s) |}.
Proof using.
  intros [H1 H2 H3 H4 H5] Hd. destruct (fresh_request _ (Admit f) f eq_refl Hd) as [Hnew Hids].
  assert (wire (evs ++ [Admit f]) = wire evs) as Hw by (by rewrite wire_app, app_nil_r).
  destruct (H1 _ Hnew) as [Hnone Hno]. split; rewrite ?Hw, ?Hids; simpl.
  - intros id Hin. rewrite fmap_app in Hin. simpl in Hin.
    rewrite not_elem_of_app, list_elem_of_singleton in Hin. destruct Hin as [Hin Hne].
    destruct (H1 id Hin) as [Ha Hb]. split; [done|].
    intros i call [[_ <-]|[_ Hl]]%lookup_insert_Some; [done|by eapply Hb].
  - intros r [Hr| ->%list_elem_of_singleton]%elem_of_app; [by apply H2|]. rewrite Hnone.
    split; [|done]. left. apply pending_nil.
  - intros i call [[_ <-]|[_ Hl]]%lookup_insert_Some; simpl.
    + split; [set_solver|]. rewrite Hnone. split; [|apply pending_nil].
      destruct (streams_request f); split; by try intros [? [=]].
    + destruct (H3 _ _ Hl) as (? & ? & ?). split_and!; [set_solver|done|done].
  - intros i j call call' [[<- <-]|[Hne Hl]]%lookup_insert_Some
      [[<- <-]|[Hne' Hl']]%lookup_insert_Some Heq; simpl in *; try done.
    + by destruct (Hno _ _ Hl').
    + by destruct (Hno _ _ Hl).
    + by eapply H4.
  - intros i call [[<- _]|[_ Hl]]%lookup_insert_Some; [lia|]. specialize (H5 _ _ Hl). lia.
Qed.

Lemma talk_refuse evs s request f :
  talk evs s → replies request f = true → kind f = FrameKind.Error →
  NoDup (request_id <$> requested (evs ++ [Refuse request f])) → talk (evs ++ [Refuse request f]) s.
Proof using.
  intros [H1 H2 H3 H4 H5] [Hmeth Hid]%replies_fields Hk Hd.
  destruct (fresh_request _ (Refuse request f) request eq_refl Hd) as [Hnew Hids].
  destruct (H1 _ Hnew) as [Hnone Hno].
  assert (wire (evs ++ [Refuse request f]) = wire evs ++ [f]) as Hw by by rewrite wire_app.
  assert (∀ id, id ≠ request_id f → answers_to id (wire evs ++ [f]) = answers_to id (wire evs)) as Hother.
  { intros id Hne. by rewrite answers_to_app, answers_to_other, app_nil_r. }
  split; rewrite ?Hw, ?Hids; [| | |done|done].
  - intros id Hin. rewrite fmap_app in Hin. simpl in Hin.
    rewrite not_elem_of_app, list_elem_of_singleton in Hin. destruct Hin as [Hin Hne].
    rewrite Hother by congruence. auto.
  - intros r [Hr| ->%list_elem_of_singleton]%elem_of_app.
    + rewrite Hother; [by apply H2|]. rewrite Hid. intros Heq. apply Hnew. rewrite <- Heq.
      by apply list_elem_of_fmap_2.
    + rewrite answers_to_app, Hnone, <- Hid, answers_to_hit by by rewrite Hk. split; [|by constructor].
      right. exists [], f. split; [done|]. rewrite Hk. split; [apply pending_nil|by left].
  - intros i call Hl. destruct (H3 _ _ Hl) as (Hr & Hs & Hp). split; [set_solver|]. split; [done|].
    rewrite Hother; [done|]. rewrite Hid. by eapply Hno.
Qed.

Lemma talk_notice evs s f : talk evs s → is_answer (kind f) = false → talk (evs ++ [Notice f]) s.
Proof using.
  intros [H1 H2 H3 H4 H5] Hk.
  assert (wire (evs ++ [Notice f]) = wire evs ++ [f]) as Hw by by rewrite wire_app.
  assert (requested (evs ++ [Notice f]) = requested evs) as Hr by by rewrite requested_app, app_nil_r.
  assert (∀ id, answers_to id (wire evs ++ [f]) = answers_to id (wire evs)) as Hsame.
  { intros id. by rewrite answers_to_app, answers_to_notice, app_nil_r. }
  split; rewrite ?Hw, ?Hr; try done; intros; rewrite ?Hsame; eauto.
Qed.

(** One call is replaced by one of the same request, or goes. *)
Lemma call_replaced (m : gmap nat Call) i call call' :
  m !! i = Some call → cl_request call' = cl_request call →
  (is_Some (cl_credits call') ↔ is_Some (cl_credits call)) →
  ∀ j x, <[i := call']> m !! j = Some x →
    ∃ y, m !! j = Some y ∧ cl_request x = cl_request y ∧ (is_Some (cl_credits x) ↔ is_Some (cl_credits y)).
Proof using. intros Hl Hr Hcr j x [[<- <-]|[_ Hj]]%lookup_insert_Some; eauto. Qed.

(** A frame that takes a credit of its stream. *)
Lemma talk_credit evs s ev i call n f :
  talk evs s → NoDup (request_id <$> requested evs) → event_frames ev = [f] → event_requests ev = [] →
  se_calls s !! i = Some call → cl_credits call = Some n → replies (cl_request call) f = true →
  in_stream f →
  talk (evs ++ [ev]) {| se_next := se_next s;
    se_calls := <[i := {| cl_request := cl_request call; cl_credits := Some (n - 1) |}]> (se_calls s) |}.
Proof using.
  intros Ht Hd Hf Hq Hl Hcr Hrep Hin. destruct (ta_open _ _ Ht _ _ Hl) as (_ & Hs & _).
  apply (talk_frame evs s _ _ i call f); try done.
  - destruct Hin as [-> | ->]; done.
  - left. split; [|done]. apply Hs. by rewrite Hcr.
  - apply (call_replaced _ _ _ _ Hl); [done|]. rewrite Hcr. by split; eauto.
Qed.

Lemma talk_next evs s ev s' :
  next s ev = Some s' → NoDup (request_id <$> requested (evs ++ [ev])) →
  talk evs s → talk (evs ++ [ev]) s'.
Proof using.
  intros Hn Hd Ht. assert (NoDup (request_id <$> requested evs)) as Hd0.
  { rewrite requested_app, fmap_app in Hd. by apply NoDup_app in Hd as [? _]. }
  destruct ev as [f|request f|i n|i f|i f|i f|i|f]; simpl in Hn.
  - case_guard; [|done]. injection Hn as <-. by apply talk_admit.
  - case_guard as Hg; [|done]. injection Hn as <-. destruct Hg. by apply talk_refuse.
  - destruct (se_calls s !! i) as [call|] eqn:Hl; [|done]. simpl in Hn.
    destruct (cl_credits call) eqn:Hcr; [|done]. simpl in Hn. case_guard; [|done]. injection Hn as <-.
    apply (talk_quiet evs s); try done. apply (call_replaced _ _ _ _ Hl); [done|].
    rewrite Hcr. by split; eauto.
  - destruct (se_calls s !! i) as [call|] eqn:Hl; [|done]. simpl in Hn.
    destruct (cl_credits call) eqn:Hcr; [|done]. simpl in Hn. case_guard as Hg; [|done]. injection Hn as <-.
    destruct Hg as (_ & Hrep & Hk & _). apply (talk_credit evs s _ i call _ f); try done. by left.
  - destruct (se_calls s !! i) as [call|] eqn:Hl; [|done]. simpl in Hn.
    destruct (cl_credits call) eqn:Hcr; [|done]. simpl in Hn. case_guard as Hg; [|done]. injection Hn as <-.
    destruct Hg as (_ & ->). apply (talk_credit evs s _ i call _ (rejected_frame (cl_request call)));
      try done; [apply replies_refl|by right].
  - destruct (se_calls s !! i) as [call|] eqn:Hl; [|done]. simpl in Hn.
    case_guard as Hg; [|done]. injection Hn as <-. destruct Hg as [Hrep Hk].
    destruct (ta_open _ _ Ht _ _ Hl) as (_ & Hs & _).
    apply (talk_frame evs s _ _ i call f); try done.
    + by destruct (kind f).
    + right. split; [|apply lookup_delete_eq]. apply terminal_ends. rewrite <- Hk. f_equal.
      symmetry. destruct (streams_request _); [by apply bool_decide_eq_true, Hs|].
      apply bool_decide_eq_false. by intros ?%Hs.
    + intros j x. simpl. intros [Hne Hj]%lookup_delete_Some. eauto.
  - destruct (se_calls s !! i) as [call|] eqn:Hl; [|done]. injection Hn as <-.
    apply (talk_quiet evs s); try done. intros j x. simpl. intros [_ Hj]%lookup_delete_Some. eauto.
  - case_guard; [|done]. injection Hn as <-. by apply talk_notice.
Qed.

Lemma talk_run evs s : run session_start evs = Some s → NoDup (request_id <$> requested evs) → talk evs s.
Proof using.
  revert s. induction evs as [|ev evs IH] using rev_ind; intros s.
  { intros [= <-] _. apply talk_start. }
  rewrite session_run_app. destruct (run session_start evs) as [s1|] eqn:Hr; [|done]. simpl.
  destruct (next s1 ev) as [s2|] eqn:Hn; [|done]. intros [= <-] Hd.
  eapply talk_next; [done..|]. apply IH; [done|].
  rewrite requested_app, fmap_app in Hd. by apply NoDup_app in Hd as [? _].
Qed.
End client.

(** * Properties *)

Section properties.
Context `{Z0 : ZstdOps}.
Context (router : Router) (peer : option PeerIdentity).
Context (negotiated : PeerSettingsV2) (policy : CompressionPolicy).
Context (rt : RuntimeState) (total : Z) (budget : BudgetInner) (c : Connection).
Hypothesis in_flight : 0 ≤ max_in_flight negotiated.
Hypothesis request_bytes : 0 ≤ total.
Hypothesis reached :
  rtc (conn_step router peer negotiated policy) (connection_start negotiated rt total budget) c.

Lemma connection_follows :
  ∃ evs,
    session_run (is_streaming router) (max_in_flight negotiated) (max_decoded_body_len negotiated)
      session_start evs = Some (session_of c) ∧
    cn_sent c = wire evs ∧ requested evs `sublist_of` requests_in (cn_received c).
Proof using Type*.
  set (c0 := {| cn_status := Running; cn_draining := rt_drain_value rt;
              cn_permits := max_in_flight negotiated; cn_active := ∅; cn_tasks := ∅;
              cn_next := 0; cn_notified := false; cn_writer_open := true; cn_sent := [];
              cn_received := [];
              cn_inbox := empty_inbox; cn_request_capacity := total; cn_request_bytes := total; cn_budget := budget;
              cn_runtime := rt |}).
  assert (follows router negotiated c0 (connection_start negotiated rt total budget)) as Hstart.
  { unfold connection_start. fold c0. case_match; [|reflexivity].
    by apply (follows_notice router negotiated c0 _ go_away). }
  assert (conn_inv (max_in_flight negotiated) total c ∧ follows router negotiated c0 c) as [_ Hf].
  { revert c reached. apply rtc_ind_r; [split; [by apply connection_start_inv|exact Hstart]|].
    intros c1 c2 _ Hs [Hc Hf]. split; [by eapply conn_step_inv|].
    etrans; [exact Hf|]. by eapply follows_step. }
  destruct Hf as (evs & rs & Hrun & Hs & Hr & Hq). exists evs. simpl in Hs, Hr.
  rewrite Hr. done.
Qed.

(** C4 A connection refines an RPC session.  Whatever the client sends and the
    tasks, the loop, the handlers, the byte budgets and the other connections
    do, the frames that were put into the response queue so far are those of a
    run of the session.  Requests are admitted within the negotiated limit or
    refused with an error under their own identifiers.  An admitted call of a
    streaming method uses one credit for every item that it sends within the
    body limit, or loses to the byte budget, in which case the error of the
    budget takes the item's place and the stream goes on.  A call ends with one
    terminal frame of the kind its method calls for, which may be an error, or
    vanishes without one, and sends nothing afterwards; every other frame
    belongs to no call.  The calls of the session are exactly the live request
    tasks, and its requests are among those received. *)
Theorem connection_refines_session :
  ∃ evs,
    session_run (is_streaming router) (max_in_flight negotiated) (max_decoded_body_len negotiated)
      session_start evs = Some (session_of c) ∧
    cn_sent c = wire evs ∧ requested evs `sublist_of` requests_in (cn_received c).
Proof using Type*. apply connection_follows. Qed.

(** Under every identifier that the client used once, one conversation. *)
Lemma connection_talks :
  NoDup (request_id <$> requests_in (cn_received c)) →
  (∀ r, r ∈ requests_in (cn_received c) →
     talks_about (is_streaming router) r (answers_to (request_id r) (cn_sent c))) ∧
  (∀ id, answers_to id (cn_sent c) ≠ [] → id ∈ request_id <$> requests_in (cn_received c)) ∧
  ∀ tid t, cn_tasks c !! tid = Some t →
    pending (is_streaming router (method_id (tk_frame t)))
      (answers_to (request_id (tk_frame t)) (cn_sent c)).
Proof using Type*.
  intros Hd. destruct connection_follows as (evs & Hrun & -> & Hsub).
  assert (NoDup (request_id <$> requested evs)) as Hd'.
  { eapply sublist_NoDup; [exact Hd|]. by apply fmap_sublist. }
  pose proof (talk_run _ _ _ evs _ Hrun Hd') as [H1 H2 H3 _ _]. split_and!.
  - intros r Hr. destruct (decide (request_id r ∈ request_id <$> requested evs)) as [Hin|Hno].
    + apply list_elem_of_fmap in Hin as (r' & Heq & Hin).
      assert (r = r') as ->; [|by apply H2].
      assert (r' ∈ requests_in (cn_received c)) as Hr'
        by (eapply elem_of_submseteq; [exact Hin|by apply sublist_submseteq]).
      by apply (NoDup_fmap_same request_id _ _ _ Hd).
    + destruct (H1 _ Hno) as [-> _]. split; [|done]. left. apply pending_nil.
  - intros id Hne. destruct (decide (id ∈ request_id <$> requested evs)) as [Hin|Hno].
    + eapply elem_of_submseteq; [exact Hin|]. by apply sublist_submseteq, fmap_sublist.
    + by destruct (H1 id Hno).
  - intros tid t Hl. apply (H3 tid (call_of t)). unfold session_of. simpl. by rewrite lookup_fmap, Hl.
Qed.
End properties.

(** * Witnesses *)

Lemma connection_refines_session_witness :
  ∃ evs,
    session_run (is_streaming echo_router) (max_in_flight PeerSettingsV2_default)
      (max_decoded_body_len PeerSettingsV2_default) session_start evs = Some (session_of flow_7) ∧
    wire evs = [Frame_new FrameKind.StreamItem 6 9 [x2a]; Frame_new FrameKind.StreamItem 6 9 [x01]].
Proof.
  destruct (connection_refines_session echo_router None PeerSettingsV2_default witness_policy
    sample_runtime 100 witness_budget flow_7) as (evs & Hrun & Hs & _).
  - vm_compute. discriminate.
  - lia.
  - apply flow_reachable.
  - exists evs. split; [exact Hrun|]. rewrite <- Hs. vm_compute. reflexivity.
Defined.

(** A client that reuses the identifier of a cancelled request can see two
    answers under it: the cancelled task still ends, and the new one answers
    too. *)
Definition twice_1 : Connection := ran echo_router reuse_4 1.
Definition twice_2 : Connection := ran echo_router twice_1 1.

Example reused_id_two_answers :
  rtc (sample_step echo_router) sample_start twice_2 ∧
  answers_to 1 (cn_sent twice_2)
    = [Frame_new FrameKind.Response 5 1 [x2a]; Frame_new FrameKind.Response 5 1 [x2a]].
Proof.
  split; [|vm_compute; reflexivity]. etrans; [apply reuse_4_reachable|].
  transitivity twice_1; [unfold twice_1|unfold twice_2];
    apply rtc_once, step_ran; vm_compute; reflexivity.
Qed.
