(* ===== verification/Wire.v ===== *)
(** A connection from its frames to the bytes on its socket: the frames that its
    loop and tasks hand to the response queue, the queue, the writer task, and
    what a peer reads back; what a client sees under each of its identifiers; and
    how [serve_connection] ends. *)
From stdpp Require Import relations.
From S2P Require Import Prelude OrdMap Compression Protocol Metadata Transport Outbound.
From S2P Require Import Middleware Router Dispatch Connection Flow Lifecycle Session.

(** * The policy of a connection *)

(** [CompressionPolicy { max_decoded_body_len: negotiated…, ..runtime.compression_policy }] *)
Definition connection_policy (negotiated : PeerSettingsV2) (p : CompressionPolicy)
    : CompressionPolicy :=
  {| min_payload_bytes := min_payload_bytes p; min_savings_bytes := min_savings_bytes p;
     Compression.max_decoded_body_len := Protocol.max_decoded_body_len negotiated;
     max_expansion_ratio := max_expansion_ratio p; compression_level := compression_level p |}.

(** * The end of a connection *)

(** The writer task within its shutdown timeout: it ended, it panicked, or it
    has to be aborted. *)
Inductive writer_end :=
  | WriterEnded (r : result IoError unit)
  | WriterPanicked
  | WriterLate.

(** [Result::and] *)
Definition result_and {E A B} (r : result E A) (r' : result E B) : result E B :=
  match r with Ok _ => r' | Err e => Err e end.

(** The last lines of [serve_connection]; the panic of the writer is returned at
    once, before the result of the loop is looked at. *)
Definition serve_result (connection_result : result IoError unit) (w : writer_end)
    : result IoError unit :=
  match w with
  | WriterPanicked => Err (io_error ErrorKind.Other "task panicked")
  | WriterEnded writer_result => result_and connection_result writer_result
  | WriterLate =>
      result_and connection_result
        (Err (io_error ErrorKind.TimedOut "response writer shutdown timed out"))
  end.

(** A connection is reported as served exactly when its loop and its writer both
    ended well. *)
Lemma serve_result_ok r w : serve_result r w = Ok tt ↔ r = Ok tt ∧ w = WriterEnded (Ok tt).
Proof.
  split; [|by intros [-> ->]]. destruct w as [w| |], r as [[]|e]; simpl; try done.
  by intros ->.
Qed.

(** * The writer's buffer *)

Record Buffer := MkBuffer {
  bf_bytes : bytes;
  bf_capacity : Z;
}.

Definition READER_BUFFER_BYTES : Z := 32 * 1024.

(** [Vec::with_capacity] reserves at least what is asked; here, exactly that. *)
Definition recycle_writer_buffer (encoded : Buffer) : Buffer :=
  if bf_capacity encoded >? WRITER_BATCH_BYTES * 2
  then {| bf_bytes := []; bf_capacity := WRITER_BATCH_BYTES |}
  else {| bf_bytes := []; bf_capacity := bf_capacity encoded |}.

Lemma recycle_writer_buffer_bounded b :
  bf_bytes (recycle_writer_buffer b) = [] ∧
  bf_capacity (recycle_writer_buffer b) ≤ WRITER_BATCH_BYTES * 2.
Proof.
  unfold recycle_writer_buffer. rewrite Z.gtb_ltb. destruct (_ <? _) eqn:E; bool_to_prop.
  - simpl. split; [done|]. vm_compute. discriminate.
  - simpl. split; [done|lia].
Qed.

(** * Frames on the wire *)

(** What a peer may get for a frame: the same identifiers, and the same kind or
    an error. *)
Definition wire_form (f g : Frame) : Prop :=
  method_id g = method_id f ∧ request_id g = request_id f ∧
  (kind g = kind f ∨ kind g = FrameKind.Error).

#[export] Instance wire_form_preorder : PreOrder wire_form.
Proof.
  split; [intros f; unfold wire_form; auto|].
  intros f g h (H1 & H2 & H3) (H1' & H2' & H3'). split_and!; [congruence..|].
  destruct H3' as [->|?]; [done|auto].
Qed.

Lemma into_error_form f b : wire_form f (into_error f b).
Proof. unfold wire_form. auto. Qed.

Lemma set_body_form f fl b : wire_form f (set_body f fl b).
Proof. unfold wire_form. auto. Qed.

Lemma fit_outbound_form f max : wire_form f (fit_outbound_frame f max).
Proof. unfold fit_outbound_frame. case_match; [reflexivity|apply into_error_form]. Qed.

Section wire.
Context `{Z0 : ZstdOps}.
Context (negotiated : PeerSettingsV2) (policy : CompressionPolicy).

Lemma compress_outbound_form f codecs max : wire_form f (compress_outbound_frame f codecs policy max).
Proof.
  unfold compress_outbound_frame.
  repeat (case_match; try reflexivity); auto using into_error_form, set_body_form.
Qed.

Lemma outbound_form f : wire_form f (outbound_frame negotiated policy f).
Proof.
  unfold outbound_frame. etrans; [apply fit_outbound_form|].
  etrans; [apply compress_outbound_form|apply fit_outbound_form].
Qed.

(** Every frame of a batch is a form of the queued one. *)
Lemma batch_out_form b : Forall2 wire_form (bt_frames b) (batch_out negotiated policy b).
Proof.
  unfold batch_out. destruct (bt_frames b) as [|f fs]; [done|]. constructor.
  - destruct (bt_again b); [|apply outbound_form]. etrans; apply outbound_form.
  - induction fs; constructor; [apply outbound_form|done].
Qed.

Lemma batches_form bs :
  Forall2 wire_form (concat (map bt_frames bs)) (concat (map (batch_out negotiated policy) bs)).
Proof. induction bs; simpl; [constructor|]. by apply Forall2_app; [apply batch_out_form|]. Qed.

(** The bytes of the batches are the encodings of their frames. *)
Lemma batches_bytes bs :
  concat (map fst (map (batch_written negotiated policy) bs))
  = concat (map frame_bytes (concat (map (batch_out negotiated policy) bs))).
Proof. induction bs as [|b bs IH]; [done|]. simpl. by rewrite IH, map_app, concat_app. Qed.

Lemma batches_frames bs :
  concat (map snd (map (batch_written negotiated policy) bs))
  = concat (map (batch_out negotiated policy) bs).
Proof. by rewrite map_map. Qed.

Lemma batches_sendable bs :
  Forall (batch_ok negotiated policy) bs →
  Forall (sendable (max_body_len negotiated)) (concat (map (batch_out negotiated policy) bs)).
Proof.
  induction 1 as [|b bs Hb _ IH]; [constructor|]. simpl. apply Forall_app. split; [|done].
  apply (batch_frames _ _ _ Hb).
Qed.

(** What a run of the writer has written. *)
Lemma writer_run_written visibles fs batches st :
  0 ≤ max_body_len negotiated ≤ u32_max → Forall frame_ok fs →
  writer_run negotiated policy visibles {| ws_deferred := None; ws_channel := fs |} = Ok (batches, st) →
  ∃ sent left, fs = sent ++ left ∧ Forall2 wire_form sent (concat (map snd batches)) ∧
    concat (map fst batches) = concat (map frame_bytes (concat (map snd batches))) ∧
    Forall (sendable (max_body_len negotiated)) (concat (map snd batches)) ∧
    ((length fs ≤ length visibles)%nat → left = []).
Proof.
  intros Hm Hok Hrun.
  destruct (writer_run_batched negotiated policy Hm false visibles fs Hok)
    as (bs & again & left & Hrun' & Hb).
  change (writer_with negotiated policy false fs) with {| ws_deferred := None; ws_channel := fs |} in Hrun'.
  rewrite Hrun in Hrun'. injection Hrun' as -> _.
  exists (concat (map bt_frames bs)), left. rewrite batches_frames, batches_bytes.
  split; [by eapply batched_split|]. split; [apply batches_form|]. split; [done|].
  split; [by eapply batches_sendable, batched_ok|by eapply batched_all].
Qed.
End wire.

(** ** Under one identifier *)

Definition under (id : Z) (fs : list Frame) : list Frame := filter (λ f, request_id f = id) fs.

Lemma under_form id fs gs : Forall2 wire_form fs gs → Forall2 wire_form (under id fs) (under id gs).
Proof.
  induction 1 as [|f g fs gs Hfg _ IH]; [constructor|]. pose proof Hfg as (_ & Hid & _).
  unfold under. destruct (decide (request_id f = id)) as [He|Hne].
  - rewrite !filter_cons_True by congruence. by constructor.
  - rewrite !filter_cons_False by congruence. done.
Qed.

Lemma pending_form streaming fs gs : Forall2 wire_form fs gs → pending streaming fs → pending streaming gs.
Proof.
  destruct streaming; simpl; [|intros H2 ->; by apply Forall2_nil_inv_l in H2].
  induction 1 as [|f g fs gs (_ & _ & Hk) _ IH]; [done|]. intros [Hf Hfs]%Forall_cons.
  constructor; [|by apply IH]. unfold in_stream in *. destruct Hk as [->|?]; auto.
Qed.

Lemma conversation_form streaming fs gs :
  Forall2 wire_form fs gs → conversation streaming fs → conversation streaming gs.
Proof.
  intros H2 [Hp|(front & f & -> & Hp & Hk)]; [left; by eapply pending_form|].
  apply Forall2_app_inv_l in H2 as (front' & last & Hfront & Hlast & ->).
  apply Forall2_cons_inv_l in Hlast as (g & nil & (_ & _ & Hg) & ->%Forall2_nil_inv_l & ->).
  right. exists front', g. split; [done|]. split; [by eapply pending_form|].
  destruct Hg as [->| ->]; [done|by left].
Qed.

Lemma pending_prefix streaming fs gs : pending streaming (fs ++ gs) → pending streaming fs.
Proof. destruct streaming; simpl; [by intros [? _]%Forall_app|by intros [-> _]%app_eq_nil]. Qed.

Lemma conversation_prefix streaming fs gs : conversation streaming (fs ++ gs) → conversation streaming fs.
Proof.
  intros [Hp|(front & f & Heq & Hp & Hk)]; [left; by eapply pending_prefix|].
  destruct gs as [|g gs _] using rev_ind.
  - rewrite app_nil_r in Heq. subst fs. right. eauto.
  - rewrite app_assoc in Heq. apply app_inj_tail in Heq as [<- _]. left. by eapply pending_prefix.
Qed.

(** The frames of a client that carry an identifier of their own. *)
Definition asked (fs : list Frame) : list Frame :=
  filter (λ f, kind f = FrameKind.Request ∨ kind f = FrameKind.Ping ∨ kind f = FrameKind.Health) fs.

Lemma asked_requests received :
  NoDup (request_id <$> asked received) → NoDup (request_id <$> requests_in received).
Proof.
  intros Hd. eapply sublist_NoDup; [exact Hd|]. apply fmap_sublist. clear Hd.
  unfold requests_in, asked. induction received as [|f fs IH]; [done|].
  destruct (decide (kind f = FrameKind.Request)) as [Hk|Hk].
  - rewrite !filter_cons_True by auto. by constructor.
  - rewrite filter_cons_False by done. rewrite filter_cons. case_decide; [by constructor|done].
Qed.

Lemma filter_same {A} (P Q : A → Prop) `{∀ x, Decision (P x), ∀ x, Decision (Q x)} (l : list A) :
  Forall (λ x, P x ↔ Q x) l → filter P l = filter Q l.
Proof.
  induction 1 as [|x l Hx _ IH]; [done|]. rewrite !filter_cons, IH.
  do 2 case_decide; tauto || done.
Qed.

Lemma form_methods fs gs m :
  Forall2 wire_form fs gs → Forall (λ f, method_id f = m) fs → Forall (λ f, method_id f = m) gs.
Proof.
  induction 1 as [|f g fs gs (Hm & _) _ IH]; [done|]. intros [Hf Hfs]%Forall_cons.
  constructor; [congruence|auto].
Qed.

(** Every identifier but zero was asked about. *)
Lemma under_known received fs gs id :
  Forall (addressed received) fs → id ≠ 0 → Forall2 wire_form (under id fs) gs → gs ≠ [] →
  id ∈ request_id <$> asked received.
Proof.
  intros Ha Hne H2 Hgs. destruct (under id fs) as [|f rest] eqn:Hf; [by apply Forall2_nil_inv_l in H2|].
  assert (f ∈ under id fs) as Hin by (rewrite Hf; by left).
  apply list_elem_of_filter in Hin as [<- Hin]. rewrite Forall_forall in Ha.
  destruct (Ha f Hin) as [_ Hk]. apply list_elem_of_fmap.
  assert (∃ a, a ∈ received ∧ request_id f = request_id a ∧
    (kind a = FrameKind.Request ∨ kind a = FrameKind.Ping ∨ kind a = FrameKind.Health)) as (a & Har & Hid & Hka).
  { destruct (kind f); try done; try (by destruct Hk as (_ & ? & _)); try (by destruct Hk);
      repeat match goal with H : _ ∧ _ |- _ => destruct H | H : ∃ _, _ |- _ => destruct H end;
      eauto 6.
    all: match goal with H : reply_to _ _ |- _ => destruct H as (_ & H & _) end; eauto 6. }
  exists a. split; [done|]. by apply list_elem_of_filter.
Qed.

(** Under the identifier of a request there are only answers. *)
Lemma under_request received fs r :
  Forall (addressed received) fs → NoDup (request_id <$> asked received) →
  r ∈ requests_in received → request_id r ≠ 0 →
  under (request_id r) fs = answers_to (request_id r) fs.
Proof.
  intros Ha Hd Hr Hne. unfold under, answers_to. apply filter_same.
  eapply Forall_impl; [exact Ha|]. intros f [_ Hf]. split; [|by intros [_ ?]]. intros Hid. split; [|done].
  assert (∀ a, a ∈ received → kind a = FrameKind.Ping ∨ kind a = FrameKind.Health →
    request_id a ≠ request_id r) as Hno.
  { intros a Hin Hk Heq. unfold requests_in in Hr. apply list_elem_of_filter in Hr as [Hkr Hr].
    assert (a = r) as ->; [|by destruct Hk; congruence].
    apply (NoDup_fmap_same request_id (asked received)); try done; apply list_elem_of_filter; auto. }
  destruct (kind f); try done; simpl in *.
  all: repeat match goal with H : _ ∧ _ |- _ => destruct H | H : ∃ _, _ |- _ => destruct H end;
    exfalso; first [congruence|eapply Hno; eauto; congruence].
Qed.

(** * Properties *)

Section properties.
Context `{Z0 : ZstdOps}.
Context (router : Router) (peer : option PeerIdentity).
Context (negotiated : PeerSettingsV2) (policy : CompressionPolicy).
Context (rt : RuntimeState) (total : Z) (budget : BudgetInner) (c : Connection).
Hypothesis body_limit : 0 ≤ max_body_len negotiated ≤ u32_max.
Hypothesis reached :
  rtc (conn_step router peer negotiated policy) (connection_start negotiated rt total budget) c.

Lemma reached_output : Forall (output_ok (cn_received c)) (cn_sent c).
Proof using Type*.
  apply (oi_sent _ (output_reachable _ _ _ _ _ _ (connection_start_output _ _ _ _)
    (connection_start_inbox _ _ _ _) reached)).
Qed.

Lemma reached_ok : Forall frame_ok (cn_sent c).
Proof using Type*. eapply Forall_impl; [exact reached_output|]. by intros f [? _]. Qed.

Lemma reached_task tid t :
  0 ≤ max_in_flight negotiated → 0 ≤ total → cn_tasks c !! tid = Some t →
  tk_frame t ∈ requests_in (cn_received c) ∧ request_id (tk_frame t) ≠ 0.
Proof using Type*.
  intros Hm Ht Hl. split.
  - destruct (oi_tasks _ (output_reachable _ _ _ _ _ _ (connection_start_output _ _ _ _)
      (connection_start_inbox _ _ _ _) reached) _ _ Hl) as (_ & Hin & Hk).
    by apply list_elem_of_filter.
  - assert (conn_inv (max_in_flight negotiated) total c) as Hc
      by (eapply conn_reachable_inv; [|exact reached]; by apply connection_start_inv).
    by apply (ci_task _ _ _ Hc) in Hl as (_ & _ & ? & _).
Qed.

(** C13 What a connection queues is what its peer reads.  Take any state that a
    connection reaches, and any history of its response queue, with its byte
    budgets, in which exactly the frames of the connection came through: an
    event without room was dropped, a response or stream item without room was
    replaced.  Then the frames that the writer took from the queue and those
    left in it are, in order, the frames of the connection.  With enough turns
    the writer, which batches, compresses and fits them, writes them all, and a
    peer with room for them that reads the bytes frame by frame gets exactly
    one frame for each, in order, with the same identifiers and of the same
    kind, or an error in its place; then the clean end of the stream. *)
Theorem connection_on_the_wire `{S0 : SemaphoreOps} (L : SemaphoreLaws S0) q evs q' visibles :
  queued_frames q = [] → queue_trace q evs q' → queue_in evs = cn_sent c →
  (length (cn_sent c) ≤ length visibles)%nat →
  queue_out evs ++ queued_frames q' = cn_sent c ∧
  ∃ batches st gs,
    writer_run negotiated policy visibles
      {| ws_deferred := None; ws_channel := queue_out evs ++ queued_frames q' |} = Ok (batches, st) ∧
    Forall2 wire_form (cn_sent c) gs ∧
    ∀ room, is_closed room = false → zsum (λ f, zlen (body f)) gs ≤ available_permits room →
      reader_task (S (length gs)) (MkStream (concat (map fst batches)) true)
        (max_body_len negotiated) room
      = (map buffered gs, Some (io_error ErrorKind.UnexpectedEof "early eof")).
Proof using Type*.
  intros Hempty Htrace%queue_trace_fifo Hin Hlen. rewrite Hempty, Hin in Htrace. simpl in Htrace.
  rewrite <- Htrace. split; [done|].
  destruct (writer_run_batched negotiated policy body_limit false visibles (cn_sent c) reached_ok)
    as (bs & again & left & Hrun & _).
  destruct (writer_run_written negotiated policy visibles (cn_sent c) _ _ body_limit reached_ok Hrun)
    as (sent & left' & Hsplit & Hform & Hbytes & Hsend & Hall).
  rewrite (Hall Hlen), app_nil_r in Hsplit. subst sent.
  eexists _, _, _. split; [exact Hrun|]. split; [exact Hform|]. intros room Hopen Hroom.
  rewrite Hbytes. by apply (reader_task_reads L); try lia.
Qed.

(** C12 What a client gets.  Take a client that uses every identifier for one
    request, PING or HEALTH frame only, any state that its connection reaches,
    and what the writer has written so far of the frames in the response queue.
    Under the identifier of a request for a unary method there is at most one
    frame, a response or an error; for a streaming method there are stream
    items, and errors in the place of items that did not fit the byte budget or
    the frame limit, then at most one STREAM_END or error; all with the method
    of the request.  While the task of a request lives, a unary one got no
    frame, and a stream no STREAM_END.  Nothing is written under an identifier
    that the client did not use, except that events and the connection's own
    frames have identifier zero. *)
Theorem client_conversations visibles batches st :
  0 ≤ max_in_flight negotiated → 0 ≤ total →
  NoDup (request_id <$> asked (cn_received c)) →
  writer_run negotiated policy visibles {| ws_deferred := None; ws_channel := cn_sent c |}
    = Ok (batches, st) →
  let seen := concat (map snd batches) in
  (∀ r, r ∈ requests_in (cn_received c) → request_id r ≠ 0 →
     talks_about (is_streaming router) r (under (request_id r) seen)) ∧
  (∀ tid t, cn_tasks c !! tid = Some t →
     pending (is_streaming router (method_id (tk_frame t))) (under (request_id (tk_frame t)) seen)) ∧
  (∀ id, id ≠ 0 → under id seen ≠ [] → id ∈ request_id <$> asked (cn_received c)).
Proof using Type*.
  intros Hm Ht Hd Hrun seen. pose proof reached_output as Hout.
  assert (Forall (addressed (cn_received c)) (cn_sent c)) as Haddr
    by (eapply Forall_impl; [exact Hout|by intros f [_ ?]]).
  destruct (writer_run_written negotiated policy visibles (cn_sent c) _ _ body_limit reached_ok Hrun)
    as (sent & left & Hsplit & Hform & _). fold seen in Hform.
  destruct (connection_talks router peer negotiated policy rt total budget c Hm Ht reached)
    as (Htalk & _ & Hopen); [by eapply asked_requests|].
  assert (∀ r, r ∈ requests_in (cn_received c) → request_id r ≠ 0 →
    answers_to (request_id r) (cn_sent c)
    = under (request_id r) sent ++ under (request_id r) left) as Hsent.
  { intros r Hr Hne. rewrite <- under_request with (received := cn_received c) by done.
    rewrite Hsplit. apply filter_app. }
  split_and!.
  - intros r Hr Hne. destruct (Htalk r Hr) as [Hconv Hmeth]. rewrite Hsent in Hconv, Hmeth by done.
    split; [by eapply conversation_form, conversation_prefix; [apply under_form|]|].
    apply Forall_app in Hmeth as [Hmeth _]. eapply form_methods; [by apply under_form|done].
  - intros tid t Hl. destruct (reached_task tid t Hm Ht Hl) as [Hr Hne].
    specialize (Hopen tid t Hl). rewrite Hsent in Hopen by done.
    by eapply pending_form, pending_prefix; [apply under_form|].
  - intros id Hne Hseen. eapply under_known; [|done|by apply under_form|done].
    rewrite Hsplit in Haddr. by apply Forall_app in Haddr as [? _].
Qed.
End properties.

(** * Witnesses *)

(** A queue with room for the two items of the sample. *)
Definition wide_queue : ResponseQueue :=
  {| rq_queued := []; rq_capacity := 4; rq_open := true;
     rq_global_bytes := MkCounting 1000 false; rq_connection_bytes := MkCounting 1000 false |}.

Definition queue_after (q : ResponseQueue) (f : Frame) : ResponseQueue :=
  match queue_send q f with Ready (Ok q') => q' | _ => q end.

Lemma trace_sent q f evs q' :
  queue_send q f = Ready (Ok (queue_after q f)) → is_ok (queue_try_reserve q f) = true →
  queue_trace (queue_after q f) evs q' → queue_trace q (Sent true f :: evs) q'.
Proof. intros Hs <-. by apply qt_send. Qed.

Lemma connection_on_the_wire_witness :
  ∃ batches st gs,
    writer_run PeerSettingsV2_default witness_policy [1; 1]%nat
      {| ws_deferred := None; ws_channel := cn_sent flow_7 |} = Ok (batches, st) ∧
    Forall2 wire_form (cn_sent flow_7) gs.
Proof.
  destruct (connection_on_the_wire echo_router None PeerSettingsV2_default witness_policy
    sample_runtime 100 witness_budget flow_7 ltac:(vm_compute; split; discriminate) flow_reachable
    counting_laws wide_queue (map (Sent true) (cn_sent flow_7))
    (foldl queue_after wide_queue (cn_sent flow_7)) [1; 1]%nat)
    as (Hq & batches & st & gs & Hrun & Hf & _).
  - reflexivity.
  - rewrite (proj1 flow_waits). do 2 (apply trace_sent; [vm_compute; reflexivity..|]). constructor.
  - vm_compute. reflexivity.
  - vm_compute. repeat constructor.
  - exists batches, st, gs. rewrite Hq in Hrun. split; [exact Hrun|exact Hf].
Defined.

Definition flow_batches : list (bytes * list Frame) :=
  map (batch_written PeerSettingsV2_default witness_policy)
    [MkBatch false [Frame_new FrameKind.StreamItem 6 9 [x2a]; Frame_new FrameKind.StreamItem 6 9 [x01]]].

Lemma client_conversations_witness :
  conversation true (under 9 (concat (map snd flow_batches))) ∧
  under 9 (concat (map snd flow_batches)) = cn_sent flow_7.
Proof.
  split; [|vm_compute; reflexivity].
  destruct (client_conversations echo_router None PeerSettingsV2_default witness_policy
    sample_runtime 100 witness_budget flow_7 ltac:(vm_compute; split; discriminate) flow_reachable
    [1]%nat flow_batches {| ws_deferred := None; ws_channel := [] |}) as (Hall & _).
  - vm_compute. discriminate.
  - lia.
  - vm_compute. repeat constructor; set_solver.
  - vm_compute. reflexivity.
  - apply (Hall stream_request); [by_decide|done].
Defined.

(** A peer that accepts decoded bodies larger than frames: an item that does not
    compress goes out as an error in the middle of its stream, and the stream
    goes on behind it. *)
Definition narrow_settings : PeerSettingsV2 :=
  {| max_body_len := 4; Protocol.max_decoded_body_len := 16; max_metadata_len := 64; max_in_flight := 4;
     max_concurrent_streams := 1; initial_stream_credit := 1; compression_codecs := 1;
     features := 3; diagnostic_features := 0 |}.

Example item_replaced_in_stream :
  settings_invalid narrow_settings = false ∧
  kind <$> map (outbound_frame narrow_settings witness_policy)
    (map (stream_item stream_request) [[x01]; [x01; x02; x03; x04; x05; x06]; [x02]])
  = [FrameKind.StreamItem; FrameKind.Error; FrameKind.StreamItem].
Proof. split; vm_compute; reflexivity. Qed.
