(* ===== verification/Ingress.v ===== *)
(** From the wire to the loop: a connection together with the byte stream of its
    client.  The reader takes headers and bodies from what has arrived, holds the
    permits of a body, and hands frames to the loop; the loop and the tasks take
    their steps meanwhile.  What the loop takes is what the client wrote, frame
    by frame and from the first one on. *)
From stdpp Require Import relations.
From S2P Require Import Prelude OrdMap Compression Protocol Metadata Transport Outbound.
From S2P Require Import Middleware Router Dispatch Connection Flow Session.

(** * A connection with its stream *)

(** [wi_written] is all that the client has written since its handshake. *)
Record Wired := MkWired {
  wi_conn : Connection;
  wi_stream : Stream;
  wi_written : bytes;
}.

Definition set_conn (w : Wired) (c : Connection) : Wired :=
  {| wi_conn := c; wi_stream := wi_stream w; wi_written := wi_written w |}.

(** The frames of the inbox. *)
Definition frame_in (r : result IoError BufferedFrame) : list Frame :=
  match r with Ok bf => [bf_frame bf] | Err _ => [] end.
Definition waiting (c : Connection) : list Frame := concat (map frame_in (in_queue (cn_inbox c))).

Section ingress.
Context `{Z0 : ZstdOps}.
Context (router : Router) (peer : option PeerIdentity).
Context (negotiated : PeerSettingsV2) (policy : CompressionPolicy).

#[local] Abbreviation step := (conn_step router peer negotiated policy).

(** The header of the next frame has arrived. *)
Definition header_ready (s : Stream) (d : DecodedHeader) : Prop :=
  ∃ header s', read_exact s HEADER_LEN = Ready (Ok (header, s')) ∧
    decode_header header (max_body_len negotiated) = Ok d.

(** The frame as the reader returns it, and the errors it can return. *)
Definition stamped (f : Frame) (received_at : option Z) : BufferedFrame :=
  {| bf_frame := f; bf_permit := bf_permit (buffered f); bf_received_at := received_at |}.

Definition read_fails (s : Stream) (e : IoError) : Prop :=
  read_frame s (max_body_len negotiated) = Ready (Err e) ∨ e = read_timed_out.

(** A step of the connection that is not one of the reader: the inbox is kept,
    taken from or dropped. *)
Definition keeps_inbox (c c' : Connection) : Prop :=
  (∃ n, in_queue (cn_inbox c') = drop n (in_queue (cn_inbox c))) ∧
  (in_partial (cn_inbox c') = in_partial (cn_inbox c) ∨ cn_inbox c' = empty_inbox).

Inductive wired_step (w : Wired) : Wired → Prop :=
  | wi_arrive bs :
      closed (wi_stream w) = false →
      wired_step w {| wi_conn := wi_conn w;
                      wi_stream := MkStream (arrived (wi_stream w) ++ bs) false;
                      wi_written := wi_written w ++ bs |}
  | wi_hang_up :
      wired_step w {| wi_conn := wi_conn w; wi_stream := MkStream (arrived (wi_stream w)) true;
                      wi_written := wi_written w |}
  | wi_acquire d :
      cn_status (wi_conn w) = Running → reader_live negotiated (wi_conn w) = true →
      in_partial (cn_inbox (wi_conn w)) = 0 → header_ready (wi_stream w) d →
      0 < dh_body_len d ≤ cn_request_bytes (wi_conn w) →
      wired_step w (set_conn w (reader_acquire (wi_conn w) (dh_body_len d)))
  | wi_read f s' received_at :
      cn_status (wi_conn w) = Running → reader_live negotiated (wi_conn w) = true →
      read_frame (wi_stream w) (max_body_len negotiated) = Ready (Ok (f, s')) →
      in_partial (cn_inbox (wi_conn w)) = zlen (body f) →
      wired_step w {| wi_conn := reader_send (wi_conn w) (Ok (stamped f received_at));
                      wi_stream := s'; wi_written := wi_written w |}
  | wi_fail e :
      cn_status (wi_conn w) = Running → reader_live negotiated (wi_conn w) = true →
      read_fails (wi_stream w) e →
      wired_step w (set_conn w (reader_send (wi_conn w) (Err e)))
  | wi_other c' :
      step (wi_conn w) c' → keeps_inbox (wi_conn w) c' → wired_step w (set_conn w c').

Definition wired_start (rt : RuntimeState) (total : Z) (budget : BudgetInner) : Wired :=
  {| wi_conn := connection_start negotiated rt total budget; wi_stream := MkStream [] false;
     wi_written := [] |}.

(** ** Its steps are steps of the connection *)

Lemma stamped_permits f t : permits_of (stamped f t) = zlen (body f).
Proof using.
  unfold permits_of. simpl. destruct (zlen (body f) =? 0) eqn:E; simpl; [|done]. bool_to_prop. lia.
Qed.

Lemma header_ready_len s d : header_ready s d → dh_body_len d ≤ max_body_len negotiated.
Proof using.
  intros (h & s' & Hr & Hd). apply read_exact_Ok in Hr as (_ & _ & Hl); [|done].
  apply decode_header_inv in Hd as (_ & _ & ?); [done|unfold zlen, HEADER_LEN in Hl; lia].
Qed.

Lemma wired_step_conn w w' :
  wired_step w w' → wi_conn w' = wi_conn w ∨ step (wi_conn w) (wi_conn w').
Proof.
  intros Hs. destruct Hs as [bs _| |d Hst Hl Hp Hh Hn|f s' t Hst Hl Hr Hp|e Hst Hl He|c' Hs _];
    [by left|by left|right..|by right].
  - apply cs_own, cs_acquire; try done. by eapply header_ready_len.
  - apply read_frame_Ok in Hr as (_ & _ & Hw & _ & Hlen). apply cs_own, cs_read; [done..|].
    split_and!; [done|done|apply stamped_permits|by rewrite stamped_permits].
  - by apply cs_own, cs_read.
Qed.

Lemma wired_reached rt total budget w :
  rtc wired_step (wired_start rt total budget) w →
  rtc step (connection_start negotiated rt total budget) (wi_conn w).
Proof.
  revert w. apply rtc_ind_r; [apply rtc_refl|]. intros w w' _ Hs IH.
  destruct (wired_step_conn _ _ Hs) as [->|?]; [done|]. by eapply rtc_r.
Qed.
(** ** What was written is what was taken, what waits, and the rest *)

Definition taken (c : Connection) : list Frame := cn_received c ++ waiting c.

Lemma waiting_same c c' : cn_inbox c' = cn_inbox c → waiting c' = waiting c.
Proof using. unfold waiting. by intros ->. Qed.

Lemma taken_same c c' : cn_received c' = cn_received c → cn_inbox c' = cn_inbox c → taken c' = taken c.
Proof using. unfold taken, waiting. by intros -> ->. Qed.

Lemma status_run c tid t env c' :
  task_run router peer negotiated policy c tid t env = Some c' → cn_status c' = cn_status c.
Proof.
  unfold task_run, task_finish, task_continue.
  case_match; intros [= <-]; simpl; by destruct (cn_writer_open c).
Qed.

Lemma still_running c c' : step c c' → cn_status c' = Running → cn_status c = Running.
Proof.
  intros Hs. destruct Hs as [c' Hs|]; [|done]. destruct Hs; try done.
  match goal with H : task_run _ _ _ _ _ _ _ _ = Some _ |- _ => apply status_run in H; by rewrite H end.
Qed.

(** The loop takes frames from the front; what a closed loop drops is behind them. *)
Lemma step_takes c c' :
  step c c' → keeps_inbox c c' →
  ∃ dropped, taken c = taken c' ++ dropped ∧ (cn_status c' = Running → dropped = []).
Proof.
  intros Hs [[n Hn] _].
  assert (∀ c', taken c' = taken c →
    ∃ dropped, taken c = taken c' ++ dropped ∧ (cn_status c' = Running → dropped = [])) as Hsame
    by (intros c1 ->; exists []; by rewrite app_nil_r).
  destruct Hs as [c' Hs|]; [destruct Hs|by apply Hsame]; try by apply Hsame.
  - apply (f_equal length) in Hn. simpl in Hn. rewrite length_app, length_drop in Hn. simpl in Hn. lia.
  - exists (waiting c). unfold taken. simpl. rewrite app_nil_r. split; [done|]. simpl. congruence.
  - apply Hsame. unfold taken. rewrite received_on_frame.
    rewrite (waiting_same (loop_recv c (Ok bf) queue)) by by autorewrite with inbox.
    unfold waiting. rewrite H0. simpl. by rewrite <- app_assoc.
  - apply Hsame. unfold taken. rewrite (waiting_same (loop_recv c (Err e) queue)) by by autorewrite with inbox.
    unfold waiting. rewrite H0. simpl. unfold on_read_error. by case_match.
  - apply Hsame, taken_same; [|by autorewrite with inbox].
    unfold on_hub_event. repeat case_match; by autorewrite with received.
  - apply Hsame, taken_same; [|by autorewrite with inbox].
    unfold on_drain. repeat case_match; by autorewrite with received.
  - apply Hsame, taken_same; [|by autorewrite with inbox].
    unfold on_active_changed. case_match; by autorewrite with received.
  - apply Hsame, taken_same; [by autorewrite with received|by autorewrite with inbox].
  - apply Hsame, taken_same; [by eapply received_run|by eapply inbox_run].
Qed.

Record stream_inv (w : Wired) (dropped : list Frame) : Prop := {
  st_written : wi_written w
    = concat (map frame_bytes (taken (wi_conn w) ++ dropped)) ++ arrived (wi_stream w);
  st_sendable : Forall (sendable (max_body_len negotiated)) (taken (wi_conn w) ++ dropped);
  st_running : cn_status (wi_conn w) = Running → dropped = [];
}.

Lemma stream_inv_step w w' dropped :
  stream_inv w dropped → wired_step w w' → ∃ dropped', stream_inv w' dropped'.
Proof.
  intros [Hw Hok Hrun] Hs.
  destruct Hs as [bs _| |d Hst Hl Hp Hh Hn|f s' t Hst Hl Hr Hp|e Hst Hl He|c' Hs Hk].
  - exists dropped. split; [|done|done]. simpl. by rewrite Hw, app_assoc.
  - exists dropped. by split.
  - exists dropped. by split.
  - specialize (Hrun Hst). subst dropped. rewrite app_nil_r in *.
    apply read_frame_Ok in Hr as (Ha & _ & Hf). exists [].
    assert (taken (reader_send (wi_conn w) (Ok (stamped f t))) = taken (wi_conn w) ++ [f]) as Ht.
    { unfold taken, waiting. simpl. by rewrite map_app, concat_app, app_assoc. }
    split; simpl; rewrite ?app_nil_r, ?Ht; [|by apply Forall_app; auto|done].
    rewrite map_app, concat_app, Hw, Ha. simpl. by rewrite app_nil_r, <- app_assoc.
  - assert (taken (reader_send (wi_conn w) (Err e)) = taken (wi_conn w)) as Ht.
    { unfold taken, waiting. simpl. by rewrite map_app, concat_app, app_nil_r. }
    exists dropped. by split; simpl; rewrite ?Ht.
  - destruct (step_takes _ _ Hs Hk) as (more & Hmore & Hm). exists (more ++ dropped).
    split; simpl; rewrite ?app_assoc, <- ?Hmore; [done|done|]. intros Hr. rewrite Hm by done.
    by apply Hrun, (still_running _ _ Hs).
Qed.

Lemma wired_stream rt total budget w :
  rtc wired_step (wired_start rt total budget) w → ∃ dropped, stream_inv w dropped.
Proof.
  revert w. apply rtc_ind_r.
  - exists []. unfold wired_start. split; simpl; try done; unfold taken, waiting, connection_start;
      by case_match.
  - intros w w' _ Hs [dropped IH]. by eapply stream_inv_step.
Qed.
End ingress.

(** ** Frames are read off the wire in one way *)

Lemma frames_prefix max fs gs r :
  max ≤ u32_max → Forall (sendable max) fs → Forall (sendable max) gs →
  concat (map frame_bytes fs) ++ r = concat (map frame_bytes gs) → fs `prefix_of` gs.
Proof.
  intros Hmax Hfs. revert gs. induction Hfs as [|f fs Hf _ IH]; intros gs Hgs Heq; [apply prefix_nil|].
  destruct Hgs as [|g gs Hg Hgs]; cbn [map concat] in Heq.
  - apply (f_equal zlen) in Heq. rewrite !zlen_app, zlen_frame_bytes in Heq.
    pose proof (zlen_nonneg (body f)). pose proof (zlen_nonneg (concat (map frame_bytes fs))).
    pose proof (zlen_nonneg r). change (zlen []) with 0 in Heq. unfold HEADER_LEN in Heq. lia.
  - rewrite <- app_assoc in Heq.
    pose proof (read_frame_written max f (concat (map frame_bytes fs) ++ r) true Hf Hmax) as H1.
    rewrite Heq, (read_frame_written max g _ true Hg Hmax) in H1. injection H1 as -> Hrest.
    apply prefix_cons, IH; done.
Qed.

(** * Properties *)

(** C33 What the loop handles is what the client wrote.  Let the bytes of a client
    arrive in any pieces, its reader read headers and bodies, wait for permits
    and fail or time out, and the loop, the tasks and the rest of the server take
    their steps in any order: the bytes written so far are those of the frames
    that the loop has taken, of those that wait in the inbox and of those that
    were dropped with a closed loop, in this order, and the unread rest.  So if
    the client writes the frames [fs], the loop has taken a prefix of [fs]: none
    is lost, repeated, reordered or read across its bounds.  And the connection
    is a run of the RPC session in which every admitted or refused request is
    one of the requests in [fs], in their order. *)
Theorem session_from_the_wire `{Z0 : ZstdOps} router peer negotiated policy rt total budget w :
  0 ≤ max_in_flight negotiated → 0 ≤ total → max_body_len negotiated ≤ u32_max →
  rtc (wired_step router peer negotiated policy) (wired_start negotiated rt total budget) w →
  let c := wi_conn w in
  (∃ dropped,
     wi_written w = concat (map frame_bytes (cn_received c ++ waiting c ++ dropped))
                      ++ arrived (wi_stream w) ∧
     (cn_status c = Running → dropped = [])) ∧
  ∀ fs, Forall (sendable (max_body_len negotiated)) fs →
    wi_written w `prefix_of` concat (map frame_bytes fs) →
    cn_received c `prefix_of` fs ∧
    ∃ evs,
      session_run (is_streaming router) (max_in_flight negotiated) (max_decoded_body_len negotiated)
        session_start evs = Some (session_of c) ∧
      cn_sent c = wire evs ∧ requested evs `sublist_of` requests_in fs.
Proof.
  intros Hm Ht Hmax Hr c. destruct (wired_stream _ _ _ _ _ _ _ _ Hr) as (dropped & [Hw Hok Hrun]).
  fold c in Hw, Hok, Hrun. unfold taken in Hw, Hok. rewrite <- app_assoc in Hw, Hok.
  split; [by exists dropped|]. intros fs Hfs [rest Hpre].
  assert (cn_received c `prefix_of` fs) as Hprefix.
  { apply Forall_app in Hok as [Hrec _]. eapply frames_prefix; [done|done|done|].
    rewrite Hpre, Hw, map_app, concat_app, <- !app_assoc. reflexivity. }
  split; [done|]. apply wired_reached in Hr.
  destruct (connection_follows router peer negotiated policy rt total budget c Hm Ht Hr)
    as (evs & Hrun' & Hs & Hq).
  exists evs. split; [done|]. split; [done|]. etrans; [exact Hq|].
  destruct Hprefix as [more ->]. unfold requests_in. rewrite filter_app. apply sublist_inserts_r. done.
Qed.

(** * Witnesses *)

Definition wire_frame : Frame := bf_frame (incoming FrameKind.Request 1).

Definition wire_1 : Wired :=
  {| wi_conn := sample_start; wi_stream := MkStream (frame_bytes wire_frame) false;
     wi_written := frame_bytes wire_frame |}.
Definition wire_2 : Wired := set_conn wire_1 (reader_acquire sample_start 1).
Definition wire_3 : Wired :=
  {| wi_conn := reader_send (reader_acquire sample_start 1) (Ok (stamped wire_frame None));
     wi_stream := MkStream [] false; wi_written := frame_bytes wire_frame |}.
Definition wire_4 : Wired :=
  set_conn wire_3
    (on_frame echo_router PeerSettingsV2_default
       (push_received (loop_recv (wi_conn wire_3) (Ok (stamped wire_frame None)) []) wire_frame)
       (stamped wire_frame None) 0).

Lemma wire_4_reachable :
  rtc (wired_step echo_router None PeerSettingsV2_default witness_policy)
    (wired_start PeerSettingsV2_default sample_runtime 100 witness_budget) wire_4.
Proof.
  transitivity wire_1; [apply rtc_once, (wi_arrive _ _ _ _
    (wired_start PeerSettingsV2_default sample_runtime 100 witness_budget) (frame_bytes wire_frame)); reflexivity|].
  transitivity wire_2.
  { apply rtc_once, (wi_acquire _ _ _ _ wire_1 (header_of wire_frame)); try (vm_compute; reflexivity).
    - eexists _, _. split; vm_compute; reflexivity.
    - vm_compute. split; [reflexivity|discriminate]. }
  transitivity wire_3.
  { apply rtc_once, (wi_read _ _ _ _ wire_2 wire_frame (MkStream [] false) None);
      vm_compute; reflexivity. }
  apply rtc_once, wi_other.
  - apply cs_own, cs_frame; vm_compute; reflexivity.
  - split; [exists 1%nat; vm_compute; reflexivity|left; vm_compute; reflexivity].
Qed.

Lemma session_from_the_wire_witness :
  cn_received (wi_conn wire_4) = [wire_frame] ∧
  cn_received (wi_conn wire_4) `prefix_of` [wire_frame; wire_frame].
Proof.
  split; [vm_compute; reflexivity|].
  destruct (session_from_the_wire echo_router None PeerSettingsV2_default witness_policy
    sample_runtime 100 witness_budget wire_4) as [_ H].
  - vm_compute. discriminate.
  - lia.
  - vm_compute. discriminate.
  - apply wire_4_reachable.
  - apply (H [wire_frame; wire_frame]).
    + repeat constructor; vm_compute; first [reflexivity|discriminate].
    + exists (frame_bytes wire_frame). vm_compute. reflexivity.
Defined.
