(* ===== verification/Events.v ===== *)
(** One-way events: [EventHub] of [moonlight-bridge-server/src/lib.rs], the
    broadcast channel behind it, and the arm of the connection loop that
    forwards events to a client. *)
From S2P Require Import Prelude OrdMap Compression Protocol Metadata Transport Outbound.
From S2P Require Import Middleware Router Dispatch Connection.

(** * The broadcast channel *)

(** A connection holds a clone of the hub, so a receiver never sees the channel
    closed. *)
Inductive received :=
  | Got (f : Frame)
  | Lagged (skipped : nat)
  | Waits.

(** What the code uses of [tokio::sync::broadcast].  [sent] is the history of the
    values sent to receivers, [seen] the position of a receiver in it. *)
Class BroadcastOps := {
  Sender : Type;
  Receiver : Type;
  channel : nat → Sender;
  subscribe : Sender → Sender * Receiver;
  receiver_count : Sender → nat;
  broadcast : Sender → Frame → option (Sender * nat);
  recv : Sender → Receiver → received * Receiver;
  sent : Sender → list Frame;
  retained : Sender → nat;
  seen : Receiver → nat;
}.

(** A send fails without receivers and else reaches all of them; a receiver that
    is within the retained values gets them in order, and one that is not is
    told how many it missed. *)
Class BroadcastLaws (B : BroadcastOps) := {
  channel_sent n : sent (channel n) = [] ∧ (n ≤ retained (channel n))%nat ∧ receiver_count (channel n) = 0%nat;
  subscribe_seen s s' r : subscribe s = (s', r) →
    sent s' = sent s ∧ retained s' = retained s ∧ seen r = length (sent s) ∧
    receiver_count s' = S (receiver_count s);
  broadcast_None s f : broadcast s f = None ↔ receiver_count s = 0%nat;
  broadcast_Some s f s' n : broadcast s f = Some (s', n) →
    n = receiver_count s ∧ receiver_count s' = receiver_count s ∧
    sent s' = sent s ++ [f] ∧ retained s' = retained s;
  recv_Got s r f r' : recv s r = (Got f, r') → sent s !! seen r = Some f ∧ seen r' = S (seen r);
  recv_Lagged s r k r' : recv s r = (Lagged k, r') →
    seen r' = (seen r + k)%nat ∧ (0 < k)%nat ∧ (retained s + k ≤ length (sent s) - seen r)%nat;
  recv_Waits s r r' : recv s r = (Waits, r') → r' = r ∧ (length (sent s) ≤ seen r)%nat;
}.

(** * The hub *)

Section hub.
Context `{B : BroadcastOps}.

(** [EventHub::new]; [None] is the panic. *)
Definition EventHub_new (capacity : nat) : option Sender :=
  _ ← assert_ (negb (Nat.eqb capacity 0));
  Some (channel capacity).

Definition EventHub_default : option Sender := EventHub_new 1024.

(** [publish]: the hub after it and the number of receivers reached. *)
Definition EventHub_publish (s : Sender) (event_id : Z) (body : bytes) : option (Sender * nat) :=
  _ ← assert_ (negb (event_id =? 0));
  Some (default (s, 0%nat) (broadcast s (Frame_new FrameKind.Event event_id 0 body))).

(** * The event arm of a connection *)

(** Whether an event is forwarded. *)
Definition fits (negotiated : PeerSettingsV2) (f : Frame) : bool :=
  zlen (body f) <=? max_decoded_body_len negotiated.

(** One turn of the arm; [None] while there is nothing to receive.  [room] tells
    whether an event finds room in the byte budgets of the response queue. *)
Definition event_arm (negotiated : PeerSettingsV2) (s : Sender) (c : Connection) (r : Receiver)
    (room : bool) : option (Connection * Receiver) :=
  match recv s r with
  | (Got f, r) => Some (on_hub_event negotiated c f room, r)
  | (Lagged _, r) => Some (c, r)
  | (Waits, _) => None
  end.

(** A hub that is published to while one connection takes turns of its arm. *)
Inductive hub_turn :=
  | Publish (event_id : Z) (body : bytes)
  | Poll (room : bool).

Definition hub_next (negotiated : PeerSettingsV2) (st : Sender * Connection * Receiver) (t : hub_turn)
    : option (Sender * Connection * Receiver) :=
  let '(s, c, r) := st in
  match t with
  | Publish event_id body =>
      '(s, _) ← EventHub_publish s event_id body;
      Some (s, c, r)
  | Poll room => Some (default (s, c, r) ('(c, r) ← event_arm negotiated s c r room; Some (s, c, r)))
  end.

Fixpoint hub_run (negotiated : PeerSettingsV2) (st : Sender * Connection * Receiver)
    (ts : list hub_turn) : option (Sender * Connection * Receiver) :=
  match ts with
  | [] => Some st
  | t :: ts => st ← hub_next negotiated st t; hub_run negotiated st ts
  end.

(** At every poll of a run the receiver is within the retained values, and the
    byte budgets have room. *)
Fixpoint unhindered (negotiated : PeerSettingsV2) (st : Sender * Connection * Receiver)
    (ts : list hub_turn) : Prop :=
  match ts with
  | [] => True
  | t :: ts =>
      (∀ room, t = Poll room →
         room = true ∧ (length (sent st.1.1) ≤ seen st.2 + retained st.1.1)%nat) ∧
      match hub_next negotiated st t with
      | Some st => unhindered negotiated st ts
      | None => True
      end
  end.
End hub.

(** * Lemmas *)

Section lemmas.
Context `{B : BroadcastOps} {B_laws : BroadcastLaws B}.
Context (negotiated : PeerSettingsV2).

#[local] Abbreviation next := (hub_next negotiated).
#[local] Abbreviation run := (hub_run negotiated).

Lemma publish_cases s id b s' n :
  EventHub_publish s id b = Some (s', n) →
  id ≠ 0 ∧ n = receiver_count s ∧ receiver_count s' = receiver_count s ∧ retained s' = retained s ∧
  (receiver_count s = 0%nat ∧ s' = s ∨
   receiver_count s ≠ 0%nat ∧ sent s' = sent s ++ [Frame_new FrameKind.Event id 0 b]).
Proof.
  unfold EventHub_publish, assert_. destruct (id =? 0) eqn:Hid; [done|]. simpl. bool_to_prop.
  destruct (broadcast s _) as [[s1 n1]|] eqn:Hb; simpl; intros [= <- <-].
  - pose proof (broadcast_Some _ _ _ _ Hb) as (-> & Hc & Hs & Hr). split_and!; try done. right.
    split; [|done]. intros Hz. apply (broadcast_None s (Frame_new FrameKind.Event id 0 b)) in Hz.
    congruence.
  - pose proof (proj1 (broadcast_None _ _) Hb) as Hz. split_and!; auto.
Qed.

(** What a turn of the arm adds to the frames sent. *)
Lemma on_hub_event_sent c f room :
  cn_writer_open c = true →
  cn_writer_open (on_hub_event negotiated c f room) = true ∧
  ∃ fs, cn_sent (on_hub_event negotiated c f room)
        = cn_sent c ++ filter (λ f, fits negotiated f = true) fs ∧
    (fs = [f] ∨ fs = [] ∧ room = false).
Proof.
  intros Hw. unfold on_hub_event, send_or_close. rewrite Hw. rewrite Z.gtb_ltb, Z.ltb_antisym.
  fold (fits negotiated f). destruct (fits negotiated f) eqn:Hf; simpl.
  - destruct (queue_form room f) as [|g gs] eqn:Hq.
    + split; [done|]. exists []. rewrite app_nil_r. destruct room; [done|]. auto.
    + split; [done|]. exists [f]. rewrite filter_cons_True by done. auto.
  - split; [done|]. exists [f]. rewrite filter_cons_False by congruence. rewrite app_nil_r. auto.
Qed.

(** Between two states of a run: the history grows, and what is sent comes from
    the part of the history that was passed. *)
Record passed (kept : Prop) (st st' : Sender * Connection * Receiver) : Prop := {
  ps_history : sent st.1.1 `prefix_of` sent st'.1.1;
  ps_seen : (seen st.2 ≤ seen st'.2 ≤ length (sent st'.1.1))%nat;
  ps_writer : cn_writer_open st'.1.2 = true;
  ps_sent : ∃ fs, cn_sent st'.1.2 = cn_sent st.1.2 ++ filter (λ f, fits negotiated f = true) fs ∧
    fs `sublist_of` take (seen st'.2 - seen st.2) (drop (seen st.2) (sent st'.1.1)) ∧
    (kept → fs = take (seen st'.2 - seen st.2) (drop (seen st.2) (sent st'.1.1)));
}.

Lemma passed_turn st t st' :
  cn_writer_open st.1.2 = true → (seen st.2 ≤ length (sent st.1.1))%nat → next st t = Some st' →
  passed (∀ room, t = Poll room →
    room = true ∧ (length (sent st.1.1) ≤ seen st.2 + retained st.1.1)%nat) st st'.
Proof.
  destruct st as [[s c] r]. simpl. intros Hw Hle.
  assert (∀ kept s', sent s `prefix_of` sent s' → passed kept (s, c, r) (s', c, r)) as Hquiet.
  { intros kept s' Hp. split; simpl; [done| |done|].
    - split; [lia|]. apply prefix_length in Hp. lia.
    - exists []. rewrite Nat.sub_diag, take_0, app_nil_r. done. }
  destruct t as [id b|room]; simpl.
  - destruct (EventHub_publish s id b) as [[s' n]|] eqn:Hp; [|done]. simpl. intros [= <-].
    apply publish_cases in Hp as (_ & _ & _ & _ & [[_ ->]|[_ Hs]]); apply Hquiet; [done|].
    rewrite Hs. by apply prefix_app_r.
  - intros [= <-]. unfold event_arm. destruct (recv s r) as [[f|k|] r'] eqn:Hr; simpl.
    + apply recv_Got in Hr as [Hl Hs]. pose proof (lookup_lt_Some _ _ _ Hl).
      destruct (on_hub_event_sent c f room Hw) as (Hopen & fs & Hsent & Hfs).
      assert (take (S (seen r) - seen r) (drop (seen r) (sent s)) = [f]) as Ht.
      { replace (S (seen r) - seen r)%nat with 1%nat by lia.
        rewrite (drop_S _ f) by done. simpl. by rewrite take_0. }
      split; simpl; [done|lia|done|]. exists fs. rewrite Hs, Ht. split; [done|].
      split; [destruct Hfs as [->|[-> _]]; [done|apply sublist_nil_l]|].
      intros Hroom. destruct (Hroom room eq_refl) as [-> _]. by destruct Hfs as [?|[_ ?]].
    + apply recv_Lagged in Hr as (Hs & Hk & Hb). split; simpl; [done|lia|done|].
      exists []. rewrite app_nil_r. split; [done|]. split; [apply sublist_nil_l|].
      intros Hno. destruct (Hno room eq_refl) as [_ ?]. lia.
    + by apply Hquiet.
Qed.

Lemma passed_trans kept1 kept2 st st1 st2 :
  passed kept1 st st1 → passed kept2 st1 st2 → passed (kept1 ∧ kept2) st st2.
Proof using.
  intros [Hh [Hs1 Hs2] _ (fs & Hsent & Hsub & Hall)] [Hh' [Hs1' Hs2'] Hw (gs & Hsent' & Hsub' & Hall')].
  assert (take (seen st1.2 - seen st.2) (drop (seen st.2) (sent st2.1.1))
    = take (seen st1.2 - seen st.2) (drop (seen st.2) (sent st1.1.1))) as Hold.
  { destruct Hh' as [tl ->]. rewrite drop_app_le by lia. rewrite take_app_le; [done|].
    rewrite length_drop. lia. }
  assert (take (seen st2.2 - seen st.2) (drop (seen st.2) (sent st2.1.1))
    = take (seen st1.2 - seen st.2) (drop (seen st.2) (sent st1.1.1))
      ++ take (seen st2.2 - seen st1.2) (drop (seen st1.2) (sent st2.1.1))) as Hsplit.
  { rewrite <- Hold. replace (seen st2.2 - seen st.2)%nat
      with ((seen st1.2 - seen st.2) + (seen st2.2 - seen st1.2))%nat by lia.
    rewrite <- take_take_drop, drop_drop. do 3 f_equal. lia. }
  split; [by etrans|lia|done|].
  exists (fs ++ gs). rewrite Hsent', Hsent, filter_app, app_assoc, Hsplit. split; [done|].
  split; [by apply sublist_app|]. intros [Hk1 Hk2]. by rewrite Hall, Hall'.
Qed.

Lemma passed_run ts : ∀ st st',
  cn_writer_open st.1.2 = true → (seen st.2 ≤ length (sent st.1.1))%nat → run st ts = Some st' →
  passed (unhindered negotiated st ts) st st'.
Proof.
  induction ts as [|t ts IH]; intros st st' Hw Hle; simpl.
  - intros [= <-]. split; [done|lia|done|]. exists []. rewrite Nat.sub_diag, take_0, app_nil_r. done.
  - destruct (next st t) as [st1|] eqn:Hn; [|done]. simpl. intros Hr.
    pose proof (passed_turn _ _ _ Hw Hle Hn) as Hp.
    apply (passed_trans _ _ _ _ _ Hp). apply IH; [apply Hp|apply (ps_seen _ _ _ Hp)|done].
Qed.
End lemmas.

(** * Properties *)

(** C15 Events reach a client in the order of their publication and at most once.
    However publications and turns of a connection's event arm interleave, the
    frames it puts into the response queue are, in order, among the events
    published since it subscribed that fit the negotiated limit; and as long as
    it is never behind by more than the backlog the hub keeps, and the byte
    budgets of the response queue have room whenever it forwards one, they are
    exactly those it has received so far, none skipped.  Publishing panics for the identifier zero
    only, and tells how many receivers there are. *)
Theorem events_in_order `{B : BroadcastOps} (L : BroadcastLaws B) negotiated hub hub1 c r ts hub2 c2 r2 :
  subscribe hub = (hub1, r) → cn_writer_open c = true →
  hub_run negotiated (hub1, c, r) ts = Some (hub2, c2, r2) →
  let published := drop (length (sent hub)) (sent hub2) in
  ∃ received missed,
    published = received ++ missed ∧
    (∃ fs, fs `sublist_of` received ∧
       cn_sent c2 = cn_sent c ++ filter (λ f, fits negotiated f = true) fs ∧
       (unhindered negotiated (hub1, c, r) ts → fs = received)) ∧
    (∀ id b, EventHub_publish hub2 id b = None ↔ id = 0) ∧
    (∀ id b hub3 n, EventHub_publish hub2 id b = Some (hub3, n) → n = receiver_count hub2).
Proof.
  intros Hsub Hw Hr. cbv zeta. apply subscribe_seen in Hsub as (Hs & _ & Hseen & _).
  destruct (passed_run negotiated ts (hub1, c, r) (hub2, c2, r2)) as [_ [Hle Hle'] _ (fs & Hsent & Hsl & Hall)];
    [done|simpl; rewrite Hs; lia|done|]. simpl in *.
  rewrite Hseen in *. exists (take (seen r2 - length (sent hub)) (drop (length (sent hub)) (sent hub2))).
  exists (drop (seen r2 - length (sent hub)) (drop (length (sent hub)) (sent hub2))).
  split; [by rewrite take_drop|]. split; [by exists fs|]. split.
  - intros id b. unfold EventHub_publish, assert_. destruct (id =? 0) eqn:Hid; simpl; bool_to_prop; done.
  - intros id b hub3 n Hp. by apply publish_cases in Hp as (_ & -> & _).
Qed.

(** * A channel that keeps its history *)

Record history := MkHistory {
  hs_sent : list Frame;
  hs_retained : nat;
  hs_receivers : nat;
}.

#[export] Instance history_ops : BroadcastOps :=
  {| Sender := history;
     Receiver := nat;
     channel n := {| hs_sent := []; hs_retained := n; hs_receivers := 0 |};
     subscribe s := ({| hs_sent := hs_sent s; hs_retained := hs_retained s;
                        hs_receivers := S (hs_receivers s) |}, length (hs_sent s));
     receiver_count := hs_receivers;
     broadcast s f :=
       if Nat.eqb (hs_receivers s) 0 then None
       else Some ({| hs_sent := hs_sent s ++ [f]; hs_retained := hs_retained s;
                     hs_receivers := hs_receivers s |}, hs_receivers s);
     recv s r :=
       if (hs_retained s + r <? length (hs_sent s))%nat
       then (Lagged (length (hs_sent s) - hs_retained s - r), (length (hs_sent s) - hs_retained s)%nat)
       else match hs_sent s !! r with Some f => (Got f, S r) | None => (Waits, r) end;
     sent := hs_sent;
     retained := hs_retained;
     seen r := r |}.

#[export] Instance history_laws : BroadcastLaws history_ops.
Proof.
  split; simpl.
  - done.
  - intros s s' r [= <- <-]. done.
  - intros s f. destruct (Nat.eqb_spec (hs_receivers s) 0); done.
  - intros s f s' n. destruct (Nat.eqb_spec (hs_receivers s) 0); [done|]. intros [= <- <-]. done.
  - intros s r f r'. destruct (Nat.ltb_spec (hs_retained s + r) (length (hs_sent s))); [done|].
    destruct (hs_sent s !! r); [|done]. intros [= <- <-]. done.
  - intros s r k r'. destruct (Nat.ltb_spec (hs_retained s + r) (length (hs_sent s))).
    + intros [= <- <-]. lia.
    + by destruct (hs_sent s !! r).
  - intros s r r'. destruct (Nat.ltb_spec (hs_retained s + r) (length (hs_sent s))); [done|].
    destruct (hs_sent s !! r) eqn:Hl; [done|]. intros [= <-]. split; [done|]. by apply lookup_ge_None.
Qed.

(** * Witnesses *)

Definition hub_turns : list hub_turn := 
  [Publish 7 [x01]; Publish 8 [x02]; Poll true; Publish 9 [x03]; Poll true; Poll true].

Definition hub_0 : history := channel 2.
Definition hub_subscribed : history := (subscribe hub_0).1.
Definition hub_state : @Sender history_ops * Connection * @Receiver history_ops :=
  (hub_subscribed, sample_start, 0%nat).

Lemma events_in_order_witness :
  ∃ hub2 c2 r2 fs,
    hub_run PeerSettingsV2_default hub_state hub_turns = Some (hub2, c2, r2) ∧
    cn_sent c2 = filter (λ f, fits PeerSettingsV2_default f = true) fs ∧ fs `sublist_of` hs_sent hub2.
Proof.
  destruct (hub_run PeerSettingsV2_default hub_state hub_turns)
    as [[[hub2 c2] r2]|] eqn:Hr; [|vm_compute in Hr; discriminate Hr].
  destruct (events_in_order history_laws PeerSettingsV2_default hub_0 hub_subscribed sample_start 0%nat
    hub_turns hub2 c2 r2) as (received & missed & Hp & (fs & Hsub & Hsent & _) & _).
  - reflexivity.
  - reflexivity.
  - exact Hr.
  - exists hub2, c2, r2, fs. split; [reflexivity|]. split; [exact Hsent|].
    etrans; [exact Hsub|]. change (sent hub2) with (hs_sent hub2) in Hp. simpl in Hp. rewrite drop_0 in Hp.
    rewrite Hp. apply sublist_inserts_r. reflexivity.
Defined.

Example lagging_client_skips :
  (λ st, (kind <$> cn_sent st.1.2, method_id <$> cn_sent st.1.2)) <$>
    hub_run PeerSettingsV2_default hub_state
      [Publish 7 []; Publish 8 []; Publish 9 []; Poll true; Poll true; Poll true]
  = Some ([FrameKind.Event; FrameKind.Event], [8; 9]).
Proof. vm_compute. reflexivity. Qed.

(** An event that finds the byte budgets full is gone. *)
Example event_without_room_dropped :
  (λ st, method_id <$> cn_sent st.1.2) <$>
    hub_run PeerSettingsV2_default hub_state
      [Publish 7 []; Publish 8 []; Poll false; Poll true]
  = Some [8].
Proof. vm_compute. reflexivity. Qed.
