(* ===== verification/System.v ===== *)
(** The connections of a server together: what they share is the semaphore for
    buffered request bytes, the budget for decoded bytes and the runtime counters
    that health reports.  Connections open, take their steps in any order, and
    end; the shared state is accounted for exactly, and every connection behaves
    as [Connection] says, with the others as the rest of the server. *)
From stdpp Require Import relations.
From S2P Require Import Prelude OrdMap Compression Protocol Metadata Transport Outbound.
From S2P Require Import Middleware Router Dispatch Connection Flow.

(** * What a step of a connection does to the shared state *)

(** What a task holds of it: its body permit, and its phase with the permit for
    decoded bytes and the count of started requests. *)
Definition share (t : Task) : Z * phase := (tk_body_permit t, tk_phase t).
Definition shares (c : Connection) : gmap nat (Z * phase) := share <$> cn_tasks c.

Definition phase_permit (p : phase) : option DecodedBytePermit :=
  match p with
  | Parsed parsed => pr_decoded_permit parsed
  | Delivering permit _ => permit
  | _ => None
  end.

Definition phase_started (p : phase) : Z := match p with Spawned => 0 | _ => 1 end.

(** The shared state as a connection sees it. *)
Definition view (c : Connection) : Z * BudgetInner * RuntimeState :=
  (cn_request_bytes c, cn_budget c, cn_runtime c).

(** The four ways in which the tasks of a connection change. *)
Inductive change (c c' : Connection) : Prop :=
  | ch_same : shares c' = shares c → view c' = view c → change c c'
  | ch_spawn p :
      shares c !! cn_next c = None → 0 ≤ p ≤ cn_request_bytes c →
      shares c' = <[cn_next c := (p, Spawned)]> (shares c) →
      view c' = (cn_request_bytes c - p, cn_budget c, cn_runtime c) → change c c'
  | ch_move tid p ph ph' b :
      shares c !! tid = Some (p, ph) → shares c' = <[tid := (p, ph')]> (shares c) →
      view c' = (cn_request_bytes c, b,
                 count_request (cn_runtime c) (phase_started ph' - phase_started ph)) →
      (budget_wf (cn_budget c) →
       budget_wf b ∧ bi_capacity b = bi_capacity (cn_budget c) ∧
       bi_used b - permit_size (phase_permit ph')
         = bi_used (cn_budget c) - permit_size (phase_permit ph)) →
      change c c'
  | ch_gone tid p ph :
      shares c !! tid = Some (p, ph) → shares c' = delete tid (shares c) →
      view c' = (cn_request_bytes c + p, release_permit (phase_permit ph) (cn_budget c),
                 count_request (cn_runtime c) (- phase_started ph)) →
      change c c'.

Lemma count_request_0 rt : 0 ≤ rt_active_requests rt < 2 ^ 64 → count_request rt 0 = rt.
Proof.
  intros Hr. destruct rt. unfold count_request. simpl in *. f_equal. rewrite Z.add_0_r. by apply Z.mod_small.
Qed.

Section changes.
Context `{Z0 : ZstdOps}.
Context (router : Router) (peer : option PeerIdentity).
Context (negotiated : PeerSettingsV2) (policy : CompressionPolicy).

Lemma change_fields c c' : cn_tasks c' = cn_tasks c → view c' = view c → change c c'.
Proof using. intros Ht Hv. apply ch_same; [|done]. unfold shares. by rewrite Ht. Qed.

Lemma shares_close c r : shares (close c r) = shares c.
Proof using.
  unfold shares. simpl. apply map_eq. intros tid. rewrite !lookup_fmap, map_lookup_imap.
  destruct (cn_tasks c !! tid); [|done]. simpl. by case_bool_decide.
Qed.

Lemma change_close c c1 r : cn_tasks c1 = cn_tasks c → view c1 = view c → change c (close c1 r).
Proof using.
  intros Ht Hv. apply ch_same; [|done]. rewrite shares_close. unfold shares. by rewrite Ht.
Qed.

Lemma change_send c c1 f e :
  cn_tasks c1 = cn_tasks c → view c1 = view c → change c (send_or_close c1 f e).
Proof using.
  intros Ht Hv. unfold send_or_close. case_match; [by apply change_fields|by apply change_close].
Qed.

Lemma change_goodbye c c1 : cn_tasks c1 = cn_tasks c → view c1 = view c → change c (goodbye c1).
Proof using. intros Ht Hv. apply change_close; by destruct (cn_writer_open c1). Qed.

Lemma shares_alter c active g tid :
  (∀ t, share (g t) = share t) → shares (set_tasks c active (alter g tid (cn_tasks c))) = shares c.
Proof using.
  intros Hg. unfold shares. simpl. apply map_eq. intros tid'. rewrite !lookup_fmap, lookup_alter.
  case_decide; [subst|done]. destruct (cn_tasks c !! tid'); simpl; [|done]. by rewrite Hg.
Qed.

Lemma change_frame max total c bf uptime :
  conn_inv max total c → 0 ≤ permits_of bf ≤ cn_request_bytes c →
  change c (on_frame router negotiated (push_received c (bf_frame bf)) bf uptime).
Proof using.
  intros Hc Hp. set (c1 := push_received c (bf_frame bf)).
  assert (cn_tasks c1 = cn_tasks c) as Ht by done. assert (view c1 = view c) as Hv by done.
  unfold on_frame, protocol_error. destruct (kind (bf_frame bf)); try (by apply change_close).
  - unfold on_request, protocol_error.
    repeat (case_match; [first [by apply change_send|by apply change_close]|]).
    apply (ch_spawn _ _ (permits_of bf)); [|done| |done].
    + unfold shares. rewrite lookup_fmap. destruct (cn_tasks c !! cn_next c) as [t|] eqn:Hl; [|done].
      apply (ci_task _ _ _ Hc) in Hl as [? _]. lia.
    + unfold shares. simpl. by rewrite fmap_insert.
  - unfold on_cancel. case_match; [|by apply change_fields]. apply ch_same; [|done].
    by apply (shares_alter c1).
  - unfold on_ping, protocol_error. case_match; [by apply change_close|by apply change_send].
  - unfold on_health, protocol_error. case_match; [by apply change_close|by apply change_send].
  - unfold on_stream_credit, protocol_error.
    repeat (case_match; try (by apply change_close); try (by apply change_fields)).
    apply ch_same; [|done]. by apply (shares_alter c1).
Qed.

Lemma phase_of_share c tid t : cn_tasks c !! tid = Some t → shares c !! tid = Some (share t).
Proof using. intros Hl. unfold shares. by rewrite lookup_fmap, Hl. Qed.

Lemma started_share t : (if tk_started t then 1 else 0) = phase_started (tk_phase t).
Proof using. unfold tk_started, phase_started. by destruct (tk_phase t). Qed.

Lemma change_gone c c' tid t :
  cn_tasks c !! tid = Some t → cn_tasks c' = delete tid (cn_tasks c) →
  0 ≤ rt_active_requests (cn_runtime c) < 2 ^ 64 →
  view c' = (cn_request_bytes c + tk_body_permit t, release_permit (tk_permit t) (cn_budget c),
             if tk_started t then count_request (cn_runtime c) (-1) else cn_runtime c) →
  change c c'.
Proof using.
  intros Hl Ht Hr Hv. apply (ch_gone _ _ tid (tk_body_permit t) (tk_phase t)).
  - by apply phase_of_share.
  - unfold shares. by rewrite Ht, fmap_delete.
  - rewrite Hv, <- started_share. unfold tk_permit, phase_permit.
    destruct (tk_started t); [done|]. simpl. by rewrite count_request_0.
Qed.

Lemma change_run c tid t env c' :
  cn_tasks c !! tid = Some t → tk_started t = true →
  0 ≤ rt_active_requests (cn_runtime c) < 2 ^ 64 → budget_wf (cn_budget c) →
  task_run router peer negotiated policy c tid t env = Some c' → change c c'.
Proof.
  intros Hl Hst Hr Hwf Hrun.
  pose proof (task_poll_budget router peer negotiated policy t env (cn_writer_open c) (cn_budget c) Hwf)
    as Hp.
  revert Hrun. unfold task_run.
  destruct (task_poll _ _ _ _ _ _ _ _) as [fs b|b|fs t' b|] eqn:Ep; intros [= <-].
  - apply (change_gone c _ tid t Hl); [|done|]; unfold task_finish, view; simpl;
      destruct (cn_writer_open c); simpl; by rewrite ?Hp.
  - apply (change_gone c _ tid t Hl); [done|done|]. unfold view. simpl. by rewrite Hp.
  - apply task_poll_continue in Ep as [[_ Hb _ [_ Hst'] _] _].
    apply (ch_move _ _ tid (tk_body_permit t) (tk_phase t) (tk_phase t') b).
    + by apply phase_of_share.
    + unfold shares, task_continue. simpl. rewrite fmap_insert.
      replace (share t') with (tk_body_permit t, tk_phase t') by (unfold share; by rewrite Hb). done.
    + rewrite <- !started_share, Hst, Hst'. simpl. rewrite count_request_0 by done. done.
    + intros _. destruct Hp as (? & ? & Hu & _). done.
Qed.

(** The reader and the loop move request bytes between the semaphore and the
    inbox, and nothing else. *)
Definition refilled (c c1 : Connection) : Prop :=
  cn_tasks c1 = cn_tasks c ∧ cn_budget c1 = cn_budget c ∧ cn_runtime c1 = cn_runtime c ∧
  cn_request_bytes c1 + inbox_bytes (cn_inbox c1) = cn_request_bytes c + inbox_bytes (cn_inbox c).

Lemma refilled_recv c r queue :
  in_queue (cn_inbox c) = r :: queue → refilled c (loop_recv c r queue).
Proof using.
  intros Hq. split_and!; try done. unfold loop_recv, inbox_bytes. rewrite Hq. simpl. lia.
Qed.

Lemma refilled_send c r : can_return negotiated c r → refilled c (reader_send c r).
Proof using.
  intros Hr. split_and!; try done. unfold reader_send, inbox_bytes. simpl. rewrite zsum_app.
  destruct r as [bf|e]; simpl; [|lia]. destruct Hr as (_ & _ & _ & ->). lia.
Qed.

(** A step refills or takes from the inbox, and then changes the tasks. *)
Lemma own_step_change max total c c' :
  conn_inv max total c → budget_wf (cn_budget c) → 0 ≤ rt_active_requests (cn_runtime c) < 2 ^ 64 →
  own_step router peer negotiated policy c c' →
  ∃ c1, refilled c c1 ∧ change c1 c' ∧ cn_inbox c' = cn_inbox c1.
Proof.
  intros Hc Hwf Hr Hs.
  assert (∀ c', refilled c c' → ∃ c1, refilled c c1 ∧ change c1 c' ∧ cn_inbox c' = cn_inbox c1) as Hfill
    by (intros c1 H1; exists c1; split; [done|]; split; [by apply change_fields|done]).
  assert (∀ c', change c c' → cn_inbox c' = cn_inbox c →
    ∃ c1, refilled c c1 ∧ change c1 c' ∧ cn_inbox c' = cn_inbox c1) as Hloop by (intros; by exists c).
  destruct Hs.
  - apply Hfill. split_and!; try done. unfold inbox_bytes. simpl. lia.
  - by apply Hfill, refilled_send.
  - apply Hfill. split_and!; try done. simpl. change (inbox_bytes empty_inbox) with 0. lia.
  - destruct (conn_inv_recv _ _ _ _ _ Hc H0) as (Hc' & [_ Hn] & Hp).
    exists (loop_recv c (Ok bf) queue). split; [by apply refilled_recv|].
    split; [by apply (change_frame max total)|]. by autorewrite with inbox.
  - exists (loop_recv c (Err e) queue). split; [by apply refilled_recv|].
    split; [|by autorewrite with inbox]. unfold on_read_error. case_match; by apply change_close.
  - apply Hloop; [|done]. by apply change_close.
  - apply Hloop; [|by autorewrite with inbox].
    unfold on_hub_event. do 2 (case_match; [by apply change_fields|]). by apply change_send.
  - apply Hloop; [|by autorewrite with inbox].
    unfold on_drain. repeat case_match; [by apply change_goodbye|by apply change_fields|by apply change_close].
  - apply Hloop; [|by autorewrite with inbox].
    unfold on_active_changed. case_match; [by apply change_goodbye|by apply change_fields].
  - apply Hloop; [|by autorewrite with inbox]. by apply change_goodbye.
  - apply Hloop; [|done].
    apply (ch_move _ _ tid (tk_body_permit t) (tk_phase t) Polled (cn_budget c)).
    + by apply phase_of_share.
    + unfold shares. simpl. by rewrite fmap_insert.
    + rewrite <- started_share. match goal with H : tk_started t = false |- _ => rewrite H end. done.
    + intros _. unfold tk_started in *. destruct (tk_phase t); try done.
  - apply Hloop; [by eapply change_run|by eapply inbox_run].
  - apply Hloop; [|done]. by apply (change_gone c _ tid t).
  - apply Hloop; [|done]. by apply change_fields.
Qed.
End changes.

(** * Sums over tasks *)

Definition body_sum (c : Connection) : Z := msum (fst <$> shares c) + inbox_bytes (cn_inbox c).
Definition decoded_sum (c : Connection) : Z := msum ((λ x, permit_size (phase_permit x.2)) <$> shares c).
Definition started_sum (c : Connection) : Z := msum ((λ x, phase_started x.2) <$> shares c).

Lemma body_sum_held c : body_sum c = msum (held c) + inbox_bytes (cn_inbox c).
Proof. unfold body_sum, held, shares. do 2 f_equal. apply map_eq. intros i. rewrite !lookup_fmap. by destruct (cn_tasks c !! i). Qed.

Lemma decoded_sum_decoded c : decoded_sum c = decoded c.
Proof.
  unfold decoded_sum, decoded, shares. f_equal. apply map_eq. intros i. rewrite !lookup_fmap.
  by destruct (cn_tasks c !! i).
Qed.

Lemma started_sum_nonneg c : 0 ≤ started_sum c.
Proof.
  apply msum_nonneg. intros i x. rewrite lookup_fmap. destruct (shares c !! i) as [[p ph]|]; [|done].
  simpl. intros [= <-]. by destruct ph.
Qed.

(** How a sum over the shares follows a change. *)
Lemma msum_share_insert (g : Z * phase → Z) (m : gmap nat (Z * phase)) i x :
  m !! i = None → msum (g <$> <[i := x]> m) = g x + msum (g <$> m).
Proof. intros Hi. rewrite fmap_insert. apply msum_insert. by rewrite lookup_fmap, Hi. Qed.

Lemma msum_share_replace (g : Z * phase → Z) (m : gmap nat (Z * phase)) i x y :
  m !! i = Some x → msum (g <$> <[i := y]> m) = msum (g <$> m) - g x + g y.
Proof. intros Hi. rewrite fmap_insert. apply msum_replace. by rewrite lookup_fmap, Hi. Qed.

Lemma msum_share_delete (g : Z * phase → Z) (m : gmap nat (Z * phase)) i x :
  m !! i = Some x → msum (g <$> delete i m) = msum (g <$> m) - g x.
Proof. intros Hi. rewrite fmap_delete. apply msum_delete. by rewrite lookup_fmap, Hi. Qed.

(** The three sums move with the shared state. *)
Lemma change_accounts capacity c c' :
  change c c' → cn_inbox c' = cn_inbox c → budget_inv capacity c → 0 ≤ rt_active_requests (cn_runtime c) < 2 ^ 64 →
  cn_request_bytes c' + body_sum c' = cn_request_bytes c + body_sum c ∧
  bi_used (cn_budget c') - decoded_sum c' = bi_used (cn_budget c) - decoded_sum c ∧
  bi_capacity (cn_budget c') = capacity ∧ budget_wf (cn_budget c') ∧
  rt_active_requests (cn_runtime c')
    = (rt_active_requests (cn_runtime c) + started_sum c' - started_sum c) mod 2 ^ 64 ∧
  rt_active_connections (cn_runtime c') = rt_active_connections (cn_runtime c).
Proof.
  intros Hch Hbox Hb Hr. pose proof Hb as [Hwf Hcap Hpos Hheld].
  destruct Hch as [Hs Hv|p Hn _ Hs Hv|tid p ph ph' b Hl Hs Hv Hbud|tid p ph Hl Hs Hv];
    unfold view in Hv; injection Hv as -> -> ->; unfold body_sum, decoded_sum, started_sum; rewrite Hs, Hbox.
  - split_and!; try done. rewrite Z.mod_small; lia.
  - rewrite !msum_share_insert by done. simpl. split_and!; try done; try lia. rewrite Z.mod_small; lia.
  - rewrite !(msum_share_replace _ _ _ _ _ Hl). simpl. destruct (Hbud Hwf) as (Hw & Hc & Hu).
    split_and!; try done; try lia. f_equal. lia.
  - rewrite !(msum_share_delete _ _ _ _ Hl). simpl.
    assert (0 ≤ permit_size (phase_permit ph) ≤ bi_used (cn_budget c)) as Hp.
    { unfold shares in Hl. rewrite lookup_fmap in Hl.
      destruct (cn_tasks c !! tid) as [t|] eqn:Ht; [|done]. injection Hl as <- <-.
      apply (permit_charged _ _ _ _ Hb Ht). }
    rewrite release_permit_used by done. simpl. split_and!; try done; try lia.
    + destruct Hwf as [? ?]. split; simpl; lia.
    + f_equal. lia.
Qed.

(** Of a whole step too: what it takes from the inbox stays accounted for. *)
Lemma own_step_accounts `{Z0 : ZstdOps} router peer negotiated policy capacity max total c c' :
  conn_inv max total c → budget_inv capacity c → 0 ≤ rt_active_requests (cn_runtime c) < 2 ^ 64 →
  own_step router peer negotiated policy c c' →
  cn_request_bytes c' + body_sum c' = cn_request_bytes c + body_sum c ∧
  bi_used (cn_budget c') - decoded_sum c' = bi_used (cn_budget c) - decoded_sum c ∧
  bi_capacity (cn_budget c') = capacity ∧ budget_wf (cn_budget c') ∧
  rt_active_requests (cn_runtime c')
    = (rt_active_requests (cn_runtime c) + started_sum c' - started_sum c) mod 2 ^ 64 ∧
  rt_active_connections (cn_runtime c') = rt_active_connections (cn_runtime c).
Proof.
  intros Hc Hb Hr Hs.
  destruct (own_step_change _ _ _ _ _ _ _ _ Hc (bv_wf _ _ Hb) Hr Hs)
    as (c1 & (Ht & Hbud & Hrt & Hbytes) & Hch & Hbox).
  destruct (change_accounts capacity c1 c') as (H1 & H2 & H3 & H4 & H5 & H6); [done|done| |by rewrite Hrt|].
  { apply (budget_same capacity c); [done| |done]. unfold permits. by rewrite Ht. }
  unfold body_sum, decoded_sum, started_sum, shares in *. rewrite Ht, ?Hbud, ?Hrt in *.
  split_and!; try done; lia.
Qed.

(** * The server *)

Record System := MkSystem {
  sy_handshakes : nat;
  sy_conns : gmap nat Connection;
  sy_ended : gset nat;
  sy_request_bytes : Z;
  sy_budget : BudgetInner;
  sy_runtime : RuntimeState;
}.

(** [active_connections.fetch_add] and the drop of its guard. *)
Definition count_connection (rt : RuntimeState) (d : Z) : RuntimeState :=
  {| rt_ready := rt_ready rt;
     rt_active_connections := (rt_active_connections rt + d) mod 2 ^ 64;
     rt_active_requests := rt_active_requests rt; rt_max_in_flight := rt_max_in_flight rt;
     rt_draining := rt_draining rt; rt_drain_value := rt_drain_value rt;
     rt_force_value := rt_force_value rt |}.

(** The flags that the server and its handle set. *)
Definition set_flags (rt : RuntimeState) (ready draining drain_value force_value : bool) : RuntimeState :=
  {| rt_ready := ready; rt_active_connections := rt_active_connections rt;
     rt_active_requests := rt_active_requests rt; rt_max_in_flight := rt_max_in_flight rt;
     rt_draining := draining; rt_drain_value := drain_value; rt_force_value := force_value |}.

Definition set_handshakes (s : System) (n : nat) : System :=
  {| sy_handshakes := n; sy_conns := sy_conns s; sy_ended := sy_ended s;
     sy_request_bytes := sy_request_bytes s; sy_budget := sy_budget s; sy_runtime := sy_runtime s |}.

Definition set_ended (s : System) (ended : gset nat) : System :=
  {| sy_handshakes := sy_handshakes s; sy_conns := sy_conns s; sy_ended := ended;
     sy_request_bytes := sy_request_bytes s; sy_budget := sy_budget s; sy_runtime := sy_runtime s |}.

(** All connections see one shared state. *)
Definition share_view (v : Z * BudgetInner * RuntimeState) (c : Connection) : Connection :=
  set_shared c v.1.1 v.1.2 v.2.

Definition with_view (s : System) (conns : gmap nat Connection) (v : Z * BudgetInner * RuntimeState)
    : System :=
  {| sy_handshakes := sy_handshakes s; sy_conns := share_view v <$> conns; sy_ended := sy_ended s;
     sy_request_bytes := v.1.1; sy_budget := v.1.2; sy_runtime := v.2 |}.

Definition system_view (s : System) : Z * BudgetInner * RuntimeState :=
  (sy_request_bytes s, sy_budget s, sy_runtime s).

Definition is_closed_status (st : connection_status) : bool :=
  match st with Closed _ => true | Running => false end.

Section system.
Context `{Z0 : ZstdOps}.
Context (router : Router) (total : Z).
Context (negotiated : nat → PeerSettingsV2) (peer : nat → option PeerIdentity).
Context (policy : nat → CompressionPolicy).

#[local] Abbreviation own k := (own_step router (peer k) (negotiated k) (policy k)).
#[local] Abbreviation step k := (conn_step router (peer k) (negotiated k) (policy k)).

(** The shared state changes for all connections at once. *)
Definition set_runtime (s : System) (rt : RuntimeState) : System :=
  with_view s (sy_conns s) (sy_request_bytes s, sy_budget s, rt).

(** A connection is counted when it is accepted, before its handshake, and until
    it has ended, with a failed handshake or after its loop. *)
Inductive system_step (s : System) : System → Prop :=
  | sys_accept :
      system_step s (set_handshakes (set_runtime s (count_connection (sy_runtime s) 1))
                       (S (sy_handshakes s)))
  | sys_refused n :
      sy_handshakes s = S n →
      system_step s (set_handshakes (set_runtime s (count_connection (sy_runtime s) (-1))) n)
  | sys_open n k :
      sy_handshakes s = S n → sy_conns s !! k = None →
      system_step s
        (set_handshakes
           (with_view s
              (<[k := connection_start (negotiated k) (sy_runtime s) total (sy_budget s)]> (sy_conns s))
              (system_view s)) n)
  | sys_own k c c' :
      sy_conns s !! k = Some c → own k c c' →
      system_step s (with_view s (<[k := c']> (sy_conns s)) (view c'))
  | sys_end k c :
      sy_conns s !! k = Some c → is_closed_status (cn_status c) = true → k ∉ sy_ended s →
      system_step s (set_ended (set_runtime s (count_connection (sy_runtime s) (-1)))
                       ({[k]} ∪ sy_ended s))
  | sys_flags ready draining drain_value force_value :
      system_step s
        (set_runtime s (set_flags (sy_runtime s) ready draining drain_value force_value)).

Definition system_start (budget : BudgetInner) (rt : RuntimeState) : System :=
  {| sy_handshakes := 0; sy_conns := ∅; sy_ended := ∅; sy_request_bytes := total; sy_budget := budget; sy_runtime := rt |}.

(** ** Invariant *)

(** A connection of the server is one of [Connection]. *)
Record conn_ok (capacity : Z) (k : nat) (c : Connection) : Prop := {
  ok_inv : conn_inv (max_in_flight (negotiated k)) total c;
  ok_budget : budget_inv capacity c;
  ok_reached : ∃ rt b, budget_wf b ∧ bi_capacity b = capacity ∧
    rtc (step k) (connection_start (negotiated k) rt total b) c;
}.

Definition sum_of (g : Connection → Z) (s : System) : Z := msum (g <$> sy_conns s).

Record system_inv (capacity : Z) (s : System) : Prop := {
  si_view k c : sy_conns s !! k = Some c → view c = system_view s;
  si_conn k c : sy_conns s !! k = Some c → conn_ok capacity k c;
  si_bytes : sy_request_bytes s + sum_of body_sum s = total ∧ 0 ≤ sy_request_bytes s;
  si_budget : budget_wf (sy_budget s) ∧ bi_capacity (sy_budget s) = capacity ∧
    bi_used (sy_budget s) = sum_of decoded_sum s;
  si_requests : rt_active_requests (sy_runtime s) = sum_of started_sum s mod 2 ^ 64;
  si_connections : rt_active_connections (sy_runtime s)
    = (Z.of_nat (sy_handshakes s) + Z.of_nat (size (sy_conns s)) - Z.of_nat (size (sy_ended s)))
      mod 2 ^ 64;
  si_ended : sy_ended s ⊆ dom (sy_conns s);
}.

Lemma set_shared_view c : share_view (view c) c = c.
Proof using. by destruct c. Qed.

(** Several steps of one connection are steps of the server. *)
Lemma share_view_twice v w c : share_view w (share_view v c) = share_view w c.
Proof using. done. Qed.

Lemma with_view_twice s k c c' v w :
  with_view (with_view s (<[k := c]> (sy_conns s)) v)
    (<[k := c']> (sy_conns (with_view s (<[k := c]> (sy_conns s)) v))) w
  = with_view s (<[k := c']> (sy_conns s)) w.
Proof using.
  unfold with_view. simpl. f_equal. apply map_eq. intros i. rewrite !lookup_fmap.
  destruct (decide (k = i)) as [<-|Hne]; [by rewrite !lookup_insert_eq|].
  rewrite !lookup_insert_ne, lookup_fmap, lookup_insert_ne by done. by destruct (sy_conns s !! i).
Qed.

Lemma system_own_steps s k c c' :
  sy_conns s !! k = Some c → tc (own k) c c' →
  rtc system_step s (with_view s (<[k := c']> (sy_conns s)) (view c')).
Proof.
  intros Hl Hr. revert s Hl. induction Hr as [c c' H|c c1 c' H _ IH]; intros s Hl.
  - by eapply rtc_once, sys_own.
  - eapply rtc_l; [by eapply sys_own|].
    rewrite <- (with_view_twice s k c1 c' (view c1) (view c')). apply IH.
    simpl. rewrite lookup_fmap, lookup_insert_eq. simpl. by rewrite set_shared_view.
Qed.

Lemma conn_ok_step capacity k c c' : conn_ok capacity k c → step k c c' → conn_ok capacity k c'.
Proof.
  intros [H1 H2 (rt & b & Hb & Hcap & Hr)] Hs. split.
  - by eapply conn_step_inv.
  - by eapply budget_step.
  - exists rt, b. split; [done|]. split; [done|]. by eapply rtc_r.
Qed.

Lemma conn_sums_nonneg capacity k c :
  conn_ok capacity k c → 0 ≤ body_sum c ∧ 0 ≤ decoded_sum c.
Proof using.
  intros [Hc Hb _]. split.
  - pose proof (inbox_bytes_nonneg _ _ (ci_inbox _ _ _ Hc)). unfold body_sum.
    enough (0 ≤ msum (fst <$> shares c)) by lia.
    apply msum_nonneg. intros i x. unfold shares. rewrite !lookup_fmap.
    destruct (cn_tasks c !! i) as [t|] eqn:Ht; [|done]. simpl. intros [= <-].
    by apply (ci_task _ _ _ Hc) in Ht as (_ & ? & _).
  - rewrite decoded_sum_decoded. apply msum_nonneg, (bv_permits _ _ Hb).
Qed.

Lemma sum_le (g : Connection → Z) (m : gmap nat Connection) k c :
  (∀ k c, m !! k = Some c → 0 ≤ g c) → m !! k = Some c → g c ≤ msum (g <$> m).
Proof using.
  intros Hg Hl. assert ((g <$> m) !! k = Some (g c)) as Hk by by rewrite lookup_fmap, Hl.
  pose proof (msum_delete _ _ _ Hk). enough (0 ≤ msum (delete k (g <$> m))) by lia.
  apply msum_nonneg, map_Forall_delete. intros i x. rewrite lookup_fmap.
  destruct (m !! i) as [d|] eqn:Hd; [|done]. simpl. intros [= <-]. by eapply Hg.
Qed.

(** The sums depend on the tasks only, not on the view. *)
Lemma sum_shared (g : Connection → Z) v (m : gmap nat Connection) :
  (∀ c, g (share_view v c) = g c) → msum (g <$> (share_view v <$> m)) = msum (g <$> m).
Proof using.
  intros Hg. f_equal. apply map_eq. intros i. rewrite !lookup_fmap. destruct (m !! i); [|done].
  simpl. by rewrite Hg.
Qed.

(** The others follow a change of the shared state. *)
Lemma conn_ok_shared capacity k c v :
  conn_ok capacity k c → 0 ≤ v.1.1 → v.1.1 + body_sum c ≤ total → budget_wf v.1.2 →
  bi_capacity v.1.2 = capacity → decoded_sum c ≤ bi_used v.1.2 → conn_ok capacity k (share_view v c).
Proof.
  intros Hok H1 H2 H3 H4 H5. apply (conn_ok_step capacity k c); [done|]. apply cs_others.
  rewrite body_sum_held in H2. rewrite decoded_sum_decoded in H5.
  split; [done|]. rewrite (ci_capacity _ _ _ (ok_inv _ _ _ Hok)). split; [lia|]. split; [done|].
  split; [|done]. by rewrite (bv_capacity _ _ (ok_budget _ _ _ Hok)).
Qed.

Lemma system_inv_view capacity n conns ended v :
  (∀ k c, conns !! k = Some c → conn_ok capacity k c) →
  v.1.1 + msum (body_sum <$> conns) = total → 0 ≤ v.1.1 →
  budget_wf v.1.2 → bi_capacity v.1.2 = capacity → bi_used v.1.2 = msum (decoded_sum <$> conns) →
  rt_active_requests v.2 = msum (started_sum <$> conns) mod 2 ^ 64 →
  rt_active_connections v.2 = (Z.of_nat n + Z.of_nat (size conns) - Z.of_nat (size ended)) mod 2 ^ 64 →
  ended ⊆ dom conns →
  system_inv capacity {| sy_handshakes := n; sy_conns := share_view v <$> conns; sy_ended := ended;
                         sy_request_bytes := v.1.1; sy_budget := v.1.2; sy_runtime := v.2 |}.
Proof.
  intros Hok Hb Hb0 Hwf Hcap Hu Hreq Hconn Hend. split; unfold sum_of; simpl.
  - intros k c. rewrite lookup_fmap. destruct (conns !! k); [|done]. by intros [= <-].
  - intros k c. rewrite lookup_fmap. destruct (conns !! k) as [d|] eqn:Hl; [|done]. simpl. intros [= <-].
    assert (∀ k c, conns !! k = Some c → 0 ≤ body_sum c) as Hn1
      by (intros ? ? H; by eapply conn_sums_nonneg, Hok).
    assert (∀ k c, conns !! k = Some c → 0 ≤ decoded_sum c) as Hn2
      by (intros ? ? H; by eapply conn_sums_nonneg, Hok).
    pose proof (sum_le body_sum conns k d Hn1 Hl). pose proof (sum_le decoded_sum conns k d Hn2 Hl).
    apply conn_ok_shared; try done; [by apply Hok|lia|lia].
  - by rewrite sum_shared.
  - by rewrite sum_shared.
  - by rewrite sum_shared.
  - by rewrite map_size_fmap.
  - by rewrite dom_fmap.
Qed.

Lemma system_inv_unchanged capacity s n ended v :
  system_inv capacity s → v.1 = (sy_request_bytes s, sy_budget s) →
  rt_active_requests v.2 = rt_active_requests (sy_runtime s) →
  rt_active_connections v.2
    = (Z.of_nat n + Z.of_nat (size (sy_conns s)) - Z.of_nat (size ended)) mod 2 ^ 64 →
  ended ⊆ dom (sy_conns s) →
  system_inv capacity {| sy_handshakes := n; sy_conns := share_view v <$> sy_conns s; sy_ended := ended;
                         sy_request_bytes := v.1.1; sy_budget := v.1.2; sy_runtime := v.2 |}.
Proof.
  intros [H1 H2 [H3 H3'] (H4 & H4' & H4'') H5 H6 H7] Hv Hr Hc He.
  apply system_inv_view; rewrite ?Hv, ?Hr; simpl; done.
Qed.

Lemma view_requests capacity s k c :
  system_inv capacity s → sy_conns s !! k = Some c →
  0 ≤ rt_active_requests (cn_runtime c) < 2 ^ 64.
Proof using.
  intros Hs Hl. pose proof (si_view _ _ Hs _ _ Hl) as Hv. unfold view, system_view in Hv.
  injection Hv as _ _ ->. rewrite (si_requests _ _ Hs). apply Z.mod_pos_bound. lia.
Qed.

Lemma system_inv_own capacity s k c c' :
  system_inv capacity s → sy_conns s !! k = Some c → own k c c' →
  system_inv capacity (with_view s (<[k := c']> (sy_conns s)) (view c')).
Proof.
  intros Hs Hl Hown. pose proof (view_requests _ _ _ _ Hs Hl) as Hr.
  pose proof (si_view _ _ Hs _ _ Hl) as Hv. unfold view, system_view in Hv. injection Hv as Hv1 Hv2 Hv3.
  pose proof (si_conn _ _ Hs _ _ Hl) as Hok.
  assert (conn_ok capacity k c') as Hok' by (eapply conn_ok_step; [done|by apply cs_own]).
  destruct (own_step_accounts router (peer k) (negotiated k) (policy k) capacity _ _ c c'
    (ok_inv _ _ _ Hok) (ok_budget _ _ _ Hok) Hr Hown) as (Hb & Hu & Hcap & Hwf & Hq & Hc).
  assert (∀ g : Connection → Z, msum (g <$> <[k := c']> (sy_conns s)) = sum_of g s - g c + g c') as Hsum.
  { intros g. rewrite fmap_insert. apply msum_replace. by rewrite lookup_fmap, Hl. }
  destruct Hs as [_ H2 [H3 H3'] (H4 & H4' & H4'') H5 H6 H7].
  apply (system_inv_view capacity (sy_handshakes s) (<[k := c']> (sy_conns s)) (sy_ended s) (view c')); simpl.
  - intros j d [[<- <-]|[_ Hj]]%lookup_insert_Some; [done|by apply H2].
  - rewrite Hsum. lia.
  - apply (ci_bytes_free _ _ _ (ok_inv _ _ _ Hok')).
  - done.
  - done.
  - rewrite Hsum. rewrite Hv2 in Hu. lia.
  - rewrite Hsum, Hq, Hv3, H5, <- Z.add_sub_assoc, Zplus_mod_idemp_l. f_equal. lia.
  - by rewrite Hc, Hv3, H6, map_size_insert_Some by eauto.
  - rewrite dom_insert_L. set_solver.
Qed.

Lemma system_inv_open capacity s n k :
  system_inv capacity s → sy_handshakes s = S n → sy_conns s !! k = None →
  0 ≤ max_in_flight (negotiated k) → 0 ≤ total →
  system_inv capacity
    (set_handshakes
       (with_view s
          (<[k := connection_start (negotiated k) (sy_runtime s) total (sy_budget s)]> (sy_conns s))
          (system_view s)) n).
Proof.
  intros [_ H2 [H3 H3'] (H4 & H4' & H4'') H5 H6 H7] Hhs Hn Hm Ht.
  set (c := connection_start (negotiated k) (sy_runtime s) total (sy_budget s)).
  assert (shares c = ∅) as Hempty by (unfold c, connection_start; by case_match).
  assert (∀ g : Connection → Z, g c = 0 → msum (g <$> <[k := c]> (sy_conns s)) = sum_of g s) as Hsum.
  { intros g Hg. rewrite fmap_insert, msum_insert, Hg by (by rewrite lookup_fmap, Hn). done. }
  assert (cn_inbox c = empty_inbox) as Hbox by (unfold c, connection_start; by case_match).
  assert (body_sum c = 0 ∧ decoded_sum c = 0 ∧ started_sum c = 0) as (E1 & E2 & E3)
    by (unfold body_sum, decoded_sum, started_sum; by rewrite Hempty, ?Hbox).
  apply (system_inv_view capacity n (<[k := c]> (sy_conns s)) (sy_ended s) (system_view s));
    simpl; rewrite ?Hsum by done; try done.
  - intros j d [[<- <-]|[_ Hj]]%lookup_insert_Some; [|by apply H2]. split.
    + by apply connection_start_inv.
    + assert (cn_budget c = sy_budget s) as Hb by (unfold c, connection_start; by case_match).
      split; rewrite ?Hb; try done.
      * intros i x. unfold permits. rewrite lookup_fmap.
        assert (cn_tasks c = ∅) as -> by (unfold c, connection_start; by case_match). done.
      * rewrite <- decoded_sum_decoded, E2. apply H4.
    + exists (sy_runtime s), (sy_budget s). split; [apply H4|]. split; [done|]. apply rtc_refl.
  - rewrite H6, map_size_insert_None, Hhs by done. f_equal. lia.
  - rewrite dom_insert_L. set_solver.
Qed.

Lemma system_inv_step capacity s s' :
  (∀ k, 0 ≤ max_in_flight (negotiated k)) → 0 ≤ total →
  system_inv capacity s → system_step s s' → system_inv capacity s'.
Proof.
  intros Hm Ht Hs Hstep. pose proof (si_connections _ _ Hs) as Hc.
  destruct Hstep as [|n Hn|n k Hhs Hn|k c c' Hl Hown|k c Hl Hst Hk|r d dv fv].
  - apply (system_inv_unchanged capacity s (S (sy_handshakes s)) (sy_ended s)
      (sy_request_bytes s, sy_budget s, count_connection (sy_runtime s) 1)); simpl; try done; [|apply Hs].
    rewrite Hc, Zplus_mod_idemp_l. f_equal. lia.
  - apply (system_inv_unchanged capacity s n (sy_ended s)
      (sy_request_bytes s, sy_budget s, count_connection (sy_runtime s) (-1))); simpl; try done; [|apply Hs].
    rewrite Hc, Hn, Zplus_mod_idemp_l. f_equal. lia.
  - by apply system_inv_open.
  - by eapply system_inv_own.
  - apply (system_inv_unchanged capacity s (sy_handshakes s) ({[k]} ∪ sy_ended s)
      (sy_request_bytes s, sy_budget s, count_connection (sy_runtime s) (-1))); simpl; try done.
    + rewrite Hc, Zplus_mod_idemp_l, size_union, size_singleton by set_solver. f_equal. lia.
    + apply elem_of_dom_2 in Hl. pose proof (si_ended _ _ Hs). set_solver.
  - apply (system_inv_unchanged capacity s (sy_handshakes s) (sy_ended s)
      (sy_request_bytes s, sy_budget s, set_flags (sy_runtime s) r d dv fv)); simpl; try done; apply Hs.
Qed.

Lemma system_reached capacity budget rt s :
  (∀ k, 0 ≤ max_in_flight (negotiated k)) → 0 ≤ total →
  budget_wf budget → bi_capacity budget = capacity → bi_used budget = 0 →
  rt_active_requests rt = 0 → rt_active_connections rt = 0 →
  rtc system_step (system_start budget rt) s → system_inv capacity s.
Proof.
  intros Hm Ht Hb Hcap Hu Hr Hc. revert s. apply rtc_ind_r.
  - split; unfold sum_of; simpl; rewrite ?fmap_empty; try done. unfold msum. rewrite map_fold_empty. lia.
  - intros s1 s2 _ Hs IH. by eapply system_inv_step.
Qed.

Lemma sum_of_ext (g h : Connection → Z) s :
  (∀ k c, sy_conns s !! k = Some c → g c = h c) → sum_of g s = sum_of h s.
Proof using.
  intros He. unfold sum_of. f_equal. apply map_eq. intros k. rewrite !lookup_fmap.
  destruct (sy_conns s !! k) as [c|] eqn:Hl; [|done]. simpl. by rewrite (He _ _ Hl).
Qed.

Lemma sum_of_zero (g : Connection → Z) s :
  (∀ k c, sy_conns s !! k = Some c → g c = 0) → sum_of g s = 0.
Proof using.
  intros Hg. rewrite (sum_of_ext g (λ _, 0) s Hg). unfold sum_of. clear Hg.
  induction (sy_conns s) as [|k c m Hk IH] using map_ind; [by rewrite fmap_empty|].
  rewrite fmap_insert, msum_insert by (by rewrite lookup_fmap, Hk). lia.
Qed.

(** When nothing is left of the connections, everything has been returned. *)
Lemma system_idle capacity s :
  system_inv capacity s → sy_handshakes s = O →
  (∀ k c, sy_conns s !! k = Some c → cn_tasks c = ∅ ∧ cn_inbox c = empty_inbox ∧ k ∈ sy_ended s) →
  sy_request_bytes s = total ∧ bi_used (sy_budget s) = 0 ∧
  rt_active_requests (sy_runtime s) = 0 ∧ rt_active_connections (sy_runtime s) = 0.
Proof using.
  intros Hs Hh Hidle.
  assert (∀ k c, sy_conns s !! k = Some c → shares c = ∅) as He
    by (intros k c Hl; unfold shares; by rewrite (proj1 (Hidle k c Hl))).
  assert (sum_of body_sum s = 0 ∧ sum_of decoded_sum s = 0 ∧ sum_of started_sum s = 0) as (E1 & E2 & E3)
    by (split_and!; apply sum_of_zero; intros k c Hl; unfold body_sum, decoded_sum, started_sum;
        by rewrite (He k c Hl), ?(proj1 (proj2 (Hidle k c Hl)))).
  assert (sy_ended s = dom (sy_conns s)) as Hd.
  { apply set_eq. intros k. split; [apply (si_ended _ _ Hs)|]. intros [c Hl]%elem_of_dom.
    by destruct (Hidle k c Hl) as (_ & _ & ?). }
  destruct (si_bytes _ _ Hs) as [Hb _]. destruct (si_budget _ _ Hs) as (_ & _ & Hu).
  rewrite (si_requests _ _ Hs), (si_connections _ _ Hs), E3, Hh, Hd, size_dom.
  split_and!; try lia; [done|]. by rewrite Z.add_0_l, Z.sub_diag.
Qed.
End system.

(** * Properties *)

(** C5 The state that all connections of a server share is accounted for exactly,
    however connections are accepted, fail their handshake, run, interleave and
    end, and whatever flags the server sets meanwhile.  The free request bytes,
    the body permits of all tasks of all connections and those of the frames
    their readers have read or are reading are together the configured total; the bytes charged to the budget are those of the permits
    the tasks hold, and within its capacity; the active requests that health
    reports are the tasks that have started and not ended, and the active
    connections are those accepted and not ended (both modulo 2^64); each
    connection sees this one state, and is a connection of the one-connection
    model in which the others are the rest of the server.  When all connections
    have ended and their tasks and readers are gone, everything is back: all request bytes
    are free, the budget is unused and both counters are 0. *)
Theorem system_accounts `{Z0 : ZstdOps} router total negotiated peer policy budget rt s :
  (∀ k, 0 ≤ max_in_flight (negotiated k)) → 0 ≤ total →
  budget_wf budget → bi_used budget = 0 →
  rt_active_requests rt = 0 → rt_active_connections rt = 0 →
  rtc (system_step router total negotiated peer policy) (system_start total budget rt) s →
  (sy_request_bytes s + sum_of (λ c, msum (held c) + inbox_bytes (cn_inbox c)) s = total ∧ 0 ≤ sy_request_bytes s) ∧
  (bi_used (sy_budget s) = sum_of decoded s ∧ bi_used (sy_budget s) ≤ bi_capacity budget) ∧
  (rt_active_requests (sy_runtime s) = sum_of started_sum s mod 2 ^ 64 ∧
   rt_active_connections (sy_runtime s)
     = (Z.of_nat (sy_handshakes s) + Z.of_nat (size (sy_conns s)) - Z.of_nat (size (sy_ended s)))
       mod 2 ^ 64) ∧
  (∀ k c, sy_conns s !! k = Some c →
     view c = system_view s ∧
     ∃ rt' budget', budget_wf budget' ∧ bi_capacity budget' = bi_capacity budget ∧
       rtc (conn_step router (peer k) (negotiated k) (policy k))
         (connection_start (negotiated k) rt' total budget') c) ∧
  (sy_handshakes s = O →
   (∀ k c, sy_conns s !! k = Some c → cn_tasks c = ∅ ∧ cn_inbox c = empty_inbox ∧ k ∈ sy_ended s) →
   sy_request_bytes s = total ∧ bi_used (sy_budget s) = 0 ∧
   rt_active_requests (sy_runtime s) = 0 ∧ rt_active_connections (sy_runtime s) = 0).
Proof.
  intros Hm Ht Hb Hu Hr Hc Hs.
  assert (system_inv router total negotiated peer policy (bi_capacity budget) s) as Hi
    by by eapply system_reached.
  destruct (si_bytes _ _ _ _ _ _ _ Hi) as [H1 H1'].
  destruct (si_budget _ _ _ _ _ _ _ Hi) as ([[_ H2] _] & H3 & H4).
  rewrite (sum_of_ext body_sum (λ c, msum (held c) + inbox_bytes (cn_inbox c))) in H1 by (intros; apply body_sum_held).
  rewrite (sum_of_ext decoded_sum decoded) in H4 by (intros; apply decoded_sum_decoded).
  split; [done|]. split; [by rewrite <- H3|].
  split; [split; [apply (si_requests _ _ _ _ _ _ _ Hi)|apply (si_connections _ _ _ _ _ _ _ Hi)]|].
  split; [|by apply (system_idle _ _ _ _ _ _ _ Hi)].
  intros k c Hl. split; [by apply (si_view _ _ _ _ _ _ _ Hi k)|].
  by apply (ok_reached _ _ _ _ _ _ _ _ (si_conn _ _ _ _ _ _ _ Hi k c Hl)).
Qed.

(** * Witnesses *)

Definition sample_system_step (r : Router) : relation System :=
  system_step r 100 (λ _, PeerSettingsV2_default) (λ _, None) (λ _, witness_policy).

Definition accepted (s : System) : System :=
  set_handshakes (set_runtime s (count_connection (sy_runtime s) 1)) (S (sy_handshakes s)).

Definition opened_as (s : System) (k : nat) : System :=
  set_handshakes
    (with_view s
       (<[k := connection_start PeerSettingsV2_default (sy_runtime s) 100 (sy_budget s)]> (sy_conns s))
       (system_view s)) (pred (sy_handshakes s)).

Definition moved (s : System) (k : nat) (g : Connection → Connection) : System :=
  match sy_conns s !! k with
  | Some c => with_view s (<[k := g c]> (sy_conns s)) (view (g c))
  | None => s
  end.

Lemma step_opened r s k :
  (1 <=? sy_handshakes s)%nat = true → sy_conns s !! k = None → sample_system_step r s (opened_as s k).
Proof.
  intros Hh Hk. apply Nat.leb_le in Hh. apply sys_open; [|done]. lia.
Qed.

Lemma step_moved r s k g :
  match sy_conns s !! k with
  | Some c => own_step r None PeerSettingsV2_default witness_policy c (g c)
  | None => False
  end → sample_system_step r s (moved s k g).
Proof. unfold moved. destruct (sy_conns s !! k) eqn:Hl; [|done]. intros Hs. by eapply (sys_own _ _ _ _ _ s k). Qed.

Definition fresh_budget : BudgetInner := {| bi_used := 0; bi_capacity := bi_capacity witness_budget |}.

(** Two clients; each sends a request, and one of the two tasks has started. *)
Definition two_idle : System :=
  system_start 100 fresh_budget
    {| rt_ready := true; rt_active_connections := 0; rt_active_requests := 0;
       rt_max_in_flight := 256; rt_draining := false; rt_drain_value := false;
       rt_force_value := false |}.
Definition two_open : System := opened_as (opened_as (accepted (accepted two_idle)) 0) 1.
Definition request_on (r : Router) (s : System) (k : nat) : System :=
  moved s k (λ c, took r c FrameKind.Request 1).
Definition two_busy : System :=
  moved (request_on echo_router (request_on echo_router two_open 0) 1) 0 (λ c, started c 0).

Definition can_request (s : System) (k : nat) : bool :=
  match sy_conns s !! k with
  | Some c => can_take c (incoming FrameKind.Request 1)
  | None => false
  end.

(** A request is read and taken by steps of its connection. *)
Lemma request_steps r s k :
  can_request s k = true →
  ∃ c, sy_conns s !! k = Some c ∧
    tc (own_step r None PeerSettingsV2_default witness_policy) c (took r c FrameKind.Request 1) ∧
    request_on r s k = with_view s (<[k := took r c FrameKind.Request 1]> (sy_conns s))
                         (view (took r c FrameKind.Request 1)).
Proof.
  unfold can_request, request_on, moved. destruct (sy_conns s !! k) as [c|]; [|done]. intros Hk.
  exists c. split; [done|]. split; [|done].
  destruct (own_read_in r PeerSettingsV2_default c (incoming FrameKind.Request 1) eq_refl Hk) as [H1 H2].
  eapply tc_rtc_l; [exact H1|]. by apply tc_once.
Qed.

Lemma step_request r s k : can_request s k = true → rtc (sample_system_step r) s (request_on r s k).
Proof. intros (c & Hl & Hs & ->)%(request_steps r). by eapply system_own_steps. Qed.

Lemma two_busy_reachable : rtc (sample_system_step echo_router) two_idle two_busy.
Proof.
  eapply rtc_l; [apply sys_accept|]. eapply rtc_l; [apply sys_accept|].
  eapply rtc_l; [apply (step_opened _ _ 0); reflexivity|].
  eapply rtc_l; [apply (step_opened _ _ 1); reflexivity|].
  etrans; [apply (step_request _ _ 0); vm_compute; reflexivity|].
  etrans; [apply (step_request _ _ 1); vm_compute; reflexivity|].
  apply rtc_once, step_moved.
  destruct (sy_conns _ !! 0%nat) as [c|] eqn:Hc; [|by vm_compute in Hc].
  assert (can_start c 0 = true) as Hs.
  { enough (default false (flip can_start 0%nat <$> (sy_conns (request_on echo_router (request_on echo_router two_open 0) 1) !! 0%nat))
      = true) as H' by (rewrite Hc in H'; done). vm_compute. reflexivity. }
  unfold can_start, started in *. destruct (cn_tasks c !! 0%nat) as [t|] eqn:Ht; [|done].
  bool_to_prop. by apply cs_task_start.
Qed.

Lemma system_accounts_witness :
  rt_active_connections (sy_runtime two_busy) = 2 ∧ rt_active_requests (sy_runtime two_busy) = 1 ∧
  sy_request_bytes two_busy = 98 ∧
  sy_request_bytes two_busy + sum_of (λ c, msum (held c) + inbox_bytes (cn_inbox c)) two_busy = 100.
Proof.
  split; [vm_compute; reflexivity|]. split; [vm_compute; reflexivity|]. split; [vm_compute; reflexivity|].
  refine (proj1 (proj1 (system_accounts echo_router 100 (λ _, PeerSettingsV2_default) (λ _, None)
    (λ _, witness_policy) fresh_budget (sy_runtime two_idle) two_busy _ _ _ _ _ _ two_busy_reachable))).
  - intros _. vm_compute. discriminate.
  - lia.
  - vm_compute. repeat split; discriminate.
  - reflexivity.
  - reflexivity.
  - reflexivity.
Defined.
