(* ===== verification/Shutdown.v ===== *)
(** Graceful shutdown of a whole server: once the drain has begun, the loops
    hear of it, the pending requests are answered, every connection says goodbye
    and ends, and everything they shared comes back, so that the counters that
    [ServerHandle::drain] waits for are 0. *)
From stdpp Require Import relations.
From S2P Require Import Prelude OrdMap Compression Protocol Metadata Transport Outbound.
From S2P Require Import Middleware Router Dispatch Connection Flow Lifecycle System.

Definition inbox_empty (i : Inbox) : bool :=
  (in_partial i =? 0) && bool_decide (length (in_queue i) = 0%nat).

Lemma inbox_empty_spec i : inbox_empty i = true ↔ i = empty_inbox.
Proof.
  unfold inbox_empty, empty_inbox. destruct i as [p q]. simpl.
  rewrite andb_true_iff, Z.eqb_eq, bool_decide_eq_true, length_zero_iff_nil. naive_solver.
Qed.

(** What the loops and tasks of a connection have left to do. *)
Definition left_at (c : Connection) : Z :=
  stages_left c + (if cn_draining c then 0 else 1) + (if inbox_empty (cn_inbox c) then 0 else 1).

Lemma left_at_nonneg c : 0 ≤ left_at c.
Proof. unfold left_at. pose proof (stages_nonneg c). repeat case_match; lia. Qed.

(** The loop's end keeps what its tasks have left. *)
Lemma stages_close c r : stages_left (close c r) = stages_left c ∧ items_left (close c r) = items_left c.
Proof.
  assert (∀ g : Task → Z, (∀ t, g (abort_task t) = g t) →
    g <$> cn_tasks (close c r) = g <$> cn_tasks c) as Hg.
  { intros g Hg. apply map_eq. intros tid. simpl. rewrite !lookup_fmap, map_lookup_imap.
    destruct (cn_tasks c !! tid); [|done]. simpl. case_bool_decide; [|done]. by rewrite Hg. }
  unfold stages_left, items_left. by rewrite !Hg.
Qed.

Lemma stages_on_drain c :
  stages_left (on_drain c) = stages_left c ∧ items_left (on_drain c) = items_left c.
Proof.
  unfold on_drain, goodbye. repeat case_match; try done; by rewrite (proj1 (stages_close _ _)), (proj2 (stages_close _ _)).
Qed.

Section shutdown.
Context `{Z0 : ZstdOps}.
Context (router : Router) (total : Z).
Context (negotiated : nat → PeerSettingsV2) (peer : nat → option PeerIdentity).
Context (policy : nat → CompressionPolicy).

#[local] Abbreviation sys := (system_step router total negotiated peer policy).
#[local] Abbreviation turn k := (drain_turn router (peer k) (negotiated k) (policy k)).
#[local] Abbreviation own k := (own_step router (peer k) (negotiated k) (policy k)).
#[local] Abbreviation can_answer k := (answerable router (peer k) (negotiated k) (policy k)).

(** * Turns *)

(** The server works, and has not been asked to drain. *)
Definition serving_step (s s' : System) : Prop :=
  sys s s' ∧ rt_drain_value (sy_runtime s') = false.

(** [begin_drain] *)
Definition drain_begun (s : System) : System :=
  set_runtime s (set_flags (sy_runtime s) false true true (rt_force_value (sy_runtime s))).

(** A turn of a connection: its loop hears of the drain, a task goes on, the
    loop looks at the table, or what was read is dropped behind the loop. *)
Inductive conn_turn (k : nat) (c : Connection) : Connection → Prop :=
  | ct_drain :
      cn_status c = Running → cn_draining c = false → rt_drain_value (cn_runtime c) = true →
      conn_turn k c (on_drain c)
  | ct_turn c' : turn k c c' → conn_turn k c c'
  | ct_inbox result :
      cn_status c = Closed result → inbox_empty (cn_inbox c) = false → conn_turn k c (drop_inbox c).

Inductive shutdown_turn (s : System) : System → Prop :=
  | sh_conn k c c' :
      sy_conns s !! k = Some c → conn_turn k c c' →
      shutdown_turn s (with_view s (<[k := c']> (sy_conns s)) (view c'))
  | sh_end k c :
      sy_conns s !! k = Some c → is_closed_status (cn_status c) = true → k ∉ sy_ended s →
      shutdown_turn s (set_ended (set_runtime s (count_connection (sy_runtime s) (-1)))
                         ({[k]} ∪ sy_ended s)).

Lemma conn_turn_own k c c' : conn_turn k c c' → own k c c'.
Proof.
  intros Hs. destruct Hs; [by apply cs_drain|by apply drain_turn_own|by eapply cs_inbox_dropped].
Qed.

Lemma shutdown_turn_step s s' : shutdown_turn s s' → sys s s'.
Proof.
  intros Hs. destruct Hs; [|by eapply sys_end]. eapply sys_own; [done|by apply conn_turn_own].
Qed.

(** ** Turns run out *)

Lemma drain_turn_keeps k c c' :
  turn k c c' →
  cn_draining c' = cn_draining c ∧ cn_inbox c' = cn_inbox c ∧
  rt_drain_value (cn_runtime c') = rt_drain_value (cn_runtime c).
Proof.
  intros Hs. destruct Hs as [tid t Hl Hst|tid t env c' Hl Hst Hr|tid t Hl Hab Haw|Hrun Hd Hn].
  - done.
  - revert Hr. unfold task_run, task_finish, task_continue.
    case_match; intros [= <-]; simpl; destruct (tk_started t), (cn_writer_open c); done.
  - simpl. by destruct (tk_started t).
  - unfold on_active_changed, goodbye. case_match; simpl; [|done]. by destruct (cn_writer_open c).
Qed.

Lemma conn_turn_down k c c' :
  conn_turn k c c' →
  left_at c' < left_at c ∨ left_at c' = left_at c ∧ items_left c' < items_left c.
Proof.
  intros Hs. unfold left_at. destruct Hs as [Hrun Hd Hv|c' Hs|result Hst Hi].
  - left. destruct (stages_on_drain c) as [-> _]. rewrite inbox_on_drain, Hd.
    assert (cn_draining (on_drain c) = true) as ->; [|lia].
    unfold on_drain, goodbye. repeat case_match; simpl; try done; by destruct (cn_writer_open _).
  - destruct (drain_turn_keeps k c c' Hs) as (-> & -> & _). apply drain_turn_down in Hs as [?|[? ?]]; lia.
  - left. rewrite Hi. change (inbox_empty (cn_inbox (drop_inbox c))) with true. simpl.
    change (stages_left (drop_inbox c)) with (stages_left c). lia.
Qed.
(** What is left of the whole server. *)
Definition turns_left (s : System) : Z :=
  sum_of left_at s + Z.of_nat (size (dom (sy_conns s) ∖ sy_ended s)).

Lemma sum_of_nonneg (g : Connection → Z) s : (∀ c, 0 ≤ g c) → 0 ≤ sum_of g s.
Proof using.
  intros Hg. apply msum_nonneg. intros k x. rewrite lookup_fmap.
  destruct (sy_conns s !! k); [|done]. simpl. by intros [= <-].
Qed.

Lemma sum_of_moved (g : Connection → Z) s k c c' v :
  (∀ c, g (share_view v c) = g c) → sy_conns s !! k = Some c →
  sum_of g (with_view s (<[k := c']> (sy_conns s)) v) = sum_of g s - g c + g c'.
Proof.
  intros Hg Hl. unfold sum_of. simpl. rewrite sum_shared by done. rewrite fmap_insert.
  apply msum_replace. by rewrite lookup_fmap, Hl.
Qed.

Lemma dom_moved s k c c' v :
  sy_conns s !! k = Some c → dom (sy_conns (with_view s (<[k := c']> (sy_conns s)) v)) = dom (sy_conns s).
Proof using.
  intros Hl. simpl. rewrite dom_fmap_L, dom_insert_L. apply elem_of_dom_2 in Hl.
  clear -Hl. set_solver.
Qed.

Lemma shutdown_turn_down s s' :
  shutdown_turn s s' →
  turns_left s' < turns_left s ∨
  turns_left s' = turns_left s ∧ sum_of items_left s' < sum_of items_left s.
Proof.
  intros Hs. unfold turns_left. destruct Hs as [k c c' Hl Hs|k c Hl Hst Hk].
  - rewrite (dom_moved s k c c' (view c') Hl). rewrite !(sum_of_moved _ s k c c') by done.
    change (sy_ended (with_view s (<[k := c']> (sy_conns s)) (view c'))) with (sy_ended s).
    apply conn_turn_down in Hs. lia.
  - left. unfold sum_of. simpl. rewrite sum_shared, dom_fmap_L by done.
    enough ((size (dom (sy_conns s) ∖ ({[k]} ∪ sy_ended s)) < size (dom (sy_conns s) ∖ sy_ended s))%nat)
      by lia.
    apply subset_size. apply elem_of_dom_2 in Hl. set_solver.
Qed.

Lemma shutdown_turns_end s : sn shutdown_turn s.
Proof.
  apply (lexicographic_sn _ turns_left (sum_of items_left)); [..|apply shutdown_turn_down].
  - intros x. unfold turns_left. pose proof (sum_of_nonneg left_at x left_at_nonneg). lia.
  - intros x. apply sum_of_nonneg, items_nonneg.
Qed.

(** ** What the turns keep *)

Record shutting (k : nat) (c0 c : Connection) : Prop := {
  sg_tidy : tidy router c;
  sg_from : draining_from router (peer k) (negotiated k) (policy k) c0 c;
}.

Lemma shutting_view k c0 c v : shutting k c0 c → shutting k c0 (share_view v c).
Proof using.
  intros [Ht Hf]. split; [by apply (tidy_fields _ c)|].
  apply (draining_from_sends _ _ _ _ c0 c _ []); try done; [by rewrite app_nil_r|apply Hf].
Qed.

Lemma shutting_turn k max c0 c c' :
  calm_router router → conn_inv max total c → shutting k c0 c → conn_turn k c c' → shutting k c0 c'.
Proof.
  intros Hcalm Hc [Ht Hf] Hs. split.
  - eapply tidy_step; [done|done|done|]. apply cs_own. by apply conn_turn_own.
  - destruct Hs; [by apply draining_from_drain|by eapply draining_from_turn|].
    apply (draining_from_sends _ _ _ _ c0 c _ []); try done; [by rewrite app_nil_r|apply Hf].
Qed.

(** A server that shuts down, from the state in which it began to. *)
Record shutdown_inv (capacity : Z) (s0 s : System) : Prop := {
  sd_inv : system_inv router total negotiated peer policy capacity s;
  sd_flag : rt_drain_value (sy_runtime s) = true;
  sd_handshakes : sy_handshakes s = O;
  sd_dom : dom (sy_conns s) = dom (sy_conns s0);
  sd_conn k c0 c : sy_conns s0 !! k = Some c0 → sy_conns s !! k = Some c → shutting k c0 c;
}.

Lemma shutdown_inv_turn capacity s0 s s' :
  calm_router router → (∀ k, 0 ≤ max_in_flight (negotiated k)) → 0 ≤ total →
  shutdown_inv capacity s0 s → shutdown_turn s s' → shutdown_inv capacity s0 s'.
Proof.
  intros Hcalm Hm Ht [Hi Hv Hh Hdom Hc] Hs.
  assert (system_inv router total negotiated peer policy capacity s') as Hi'
    by (eapply system_inv_step; [done..|by apply shutdown_turn_step]).
  destruct Hs as [k c c' Hl Hs|k c Hl Hst Hk].
  - split; [done| |done|by rewrite (dom_moved s k c)|].
    + simpl. pose proof (si_view _ _ _ _ _ _ _ Hi k c Hl) as Hview. unfold view, system_view in Hview.
      injection Hview as _ _ Hrt. rewrite <- Hrt in Hv. rewrite <- Hv.
      destruct Hs as [| c' Hs|]; [|by apply (drain_turn_keeps k)|done].
      unfold on_drain, goodbye. repeat case_match; simpl; try done; by destruct (cn_writer_open _).
    + intros j c0 d H0. simpl. rewrite lookup_fmap.
      destruct (decide (k = j)) as [<-|Hne].
      * rewrite lookup_insert_eq. simpl. intros [= <-]. apply shutting_view.
        eapply shutting_turn; [done|apply (si_conn _ _ _ _ _ _ _ Hi k c Hl)|by apply Hc|done].
      * rewrite lookup_insert_ne by done. destruct (sy_conns s !! j) as [d'|] eqn:Hj; [|done].
        simpl. intros [= <-]. apply shutting_view. by apply Hc.
  - split; [done|done|done|by simpl; rewrite dom_fmap_L|].
    intros j c0 d H0. simpl. rewrite lookup_fmap. destruct (sy_conns s !! j) as [d'|] eqn:Hj; [|done].
    simpl. intros [= <-]. apply shutting_view. by apply Hc.
Qed.
(** ** Until the drain begins *)

Lemma tidy_shared v (conns : gmap nat Connection) :
  (∀ k c, conns !! k = Some c → tidy router c) →
  ∀ k c, (share_view v <$> conns) !! k = Some c → tidy router c.
Proof using.
  intros Ht k c. rewrite lookup_fmap. destruct (conns !! k) as [d|] eqn:Hl; [|done].
  simpl. intros [= <-]. apply (tidy_fields _ d); try done. by eapply Ht.
Qed.

Lemma serving_tidy capacity s s' :
  calm_router router → system_inv router total negotiated peer policy capacity s →
  rt_drain_value (sy_runtime s) = false → (∀ k c, sy_conns s !! k = Some c → tidy router c) →
  serving_step s s' → ∀ k c, sy_conns s' !! k = Some c → tidy router c.
Proof.
  intros Hcalm Hi Hv Ht [Hs _].
  destruct Hs as [|n Hn|n k Hhs Hn|k c c' Hl Hown|k c Hl Hst Hk|r d dv fv]; apply tidy_shared; try done.
  - intros j c [[<- <-]|[_ Hj]]%lookup_insert_Some; [by apply tidy_start|by eapply Ht].
  - intros j d [[<- <-]|[_ Hj]]%lookup_insert_Some; [|by eapply Ht].
    eapply tidy_step; [done|apply (si_conn _ _ _ _ _ _ _ Hi k c Hl)|by eapply Ht|by apply cs_own].
Qed.

Lemma served budget rt s :
  calm_router router → (∀ k, 0 ≤ max_in_flight (negotiated k)) → 0 ≤ total →
  budget_wf budget → bi_used budget = 0 → rt_active_requests rt = 0 → rt_active_connections rt = 0 →
  rt_drain_value rt = false → rtc serving_step (system_start total budget rt) s →
  system_inv router total negotiated peer policy (bi_capacity budget) s ∧
  rt_drain_value (sy_runtime s) = false ∧ ∀ k c, sy_conns s !! k = Some c → tidy router c.
Proof.
  intros Hcalm Hm Ht Hb Hu Hr Hc Hv. revert s. apply rtc_ind_r.
  - split; [by eapply system_reached; [..|apply rtc_refl]|]. split; [done|].
    intros k c. simpl. by rewrite lookup_empty.
  - intros s1 s2 _ Hs (IH1 & IH2 & IH3). split; [by eapply system_inv_step; [..|apply Hs]|].
    split; [apply Hs|by eapply serving_tidy].
Qed.

Lemma shutdown_begins capacity s :
  (∀ k, 0 ≤ max_in_flight (negotiated k)) → 0 ≤ total →
  system_inv router total negotiated peer policy capacity s → sy_handshakes s = O →
  (∀ k c, sy_conns s !! k = Some c → tidy router c) →
  (∀ k c tid t, sy_conns s !! k = Some c → cn_tasks c !! tid = Some t → can_answer k t) →
  shutdown_inv capacity s (drain_begun s).
Proof.
  intros Hm H0 Hi Hh Ht Ha. split; [|done|done|by simpl; rewrite dom_fmap_L|].
  - eapply system_inv_step; [done..|]. apply sys_flags.
  - intros k c0 c Hl. simpl. rewrite lookup_fmap, Hl. simpl. intros [= <-]. apply shutting_view.
    split; [by eapply Ht|]. split; auto. intros tid t. by eapply Ha.
Qed.

(** ** The end of the turns *)

(** The loop of a connection has ended, its tasks and what it read are gone. *)
Definition gone (s : System) (k : nat) (c : Connection) : bool :=
  is_closed_status (cn_status c) && bool_decide (size (cn_tasks c) = 0%nat)
  && inbox_empty (cn_inbox c) && bool_decide (k ∈ sy_ended s).

Lemma busy_has_turn capacity s0 s k c :
  shutdown_inv capacity s0 s → sy_conns s !! k = Some c → gone s k c = false →
  ∃ s', shutdown_turn s s'.
Proof.
  intros [Hi Hv Hh Hdom Hc] Hl Hg.
  destruct (sy_conns s0 !! k) as [c0|] eqn:H0.
  2: { apply elem_of_dom_2 in Hl. rewrite Hdom in Hl. apply not_elem_of_dom in H0. done. }
  destruct (Hc k c0 c H0 Hl) as [Htidy Hfrom].
  assert (∀ c', conn_turn k c c' → ∃ s', shutdown_turn s s') as Hmove
    by (intros c' Hs; eexists; by eapply sh_conn).
  destruct (map_choose_or_empty (cn_tasks c)) as [(tid & t & Ht)|Hempty].
  { destruct (answerable_turn router (peer k) (negotiated k) (policy k) c tid t Ht) as [c' Hs].
    - by eapply df_tasks.
    - by eapply Hmove, ct_turn. }
  destruct (cn_status c) as [|result] eqn:Hst.
  - destruct (cn_draining c) eqn:Hd.
    + eapply Hmove, ct_turn, dt_active_changed; [done..|]. apply (td_noticed _ _ Htidy); [done..|].
      apply map_eq. intros id. rewrite lookup_empty. destruct (cn_active c !! id) as [r|] eqn:Ha; [|done].
      apply (td_entry _ _ Htidy) in Ha as (t & Hlt & _). by rewrite Hempty in Hlt.
    + eapply Hmove, ct_drain; [done..|]. pose proof (si_view _ _ _ _ _ _ _ Hi k c Hl) as Hview.
      unfold view, system_view in Hview. injection Hview as _ _ Hrt. by rewrite Hrt.
  - unfold gone in Hg. rewrite Hst, Hempty, map_size_empty in Hg. simpl in Hg.
    destruct (inbox_empty (cn_inbox c)) eqn:Hin; [|by eapply Hmove, ct_inbox].
    simpl in Hg. apply bool_decide_eq_false in Hg. eexists. eapply sh_end; [done| |done].
    by rewrite Hst.
Qed.

(** Everything is back, and whoever was served has been told goodbye. *)
Definition shut_down (s s' : System) : Prop :=
  (∀ k c', sy_conns s' !! k = Some c' →
     cn_status c' ≠ Running ∧ cn_tasks c' = ∅ ∧ cn_inbox c' = empty_inbox ∧ k ∈ sy_ended s') ∧
  (∀ k c, sy_conns s !! k = Some c → cn_status c = Running → cn_writer_open c = true →
     ∃ c', sy_conns s' !! k = Some c' ∧ cn_status c' = Closed (Ok tt) ∧
       Frame_new FrameKind.Goodbye 0 0 [] ∈ cn_sent c') ∧
  sy_request_bytes s' = total ∧ bi_used (sy_budget s') = 0 ∧
  rt_active_requests (sy_runtime s') = 0 ∧ rt_active_connections (sy_runtime s') = 0.

Lemma all_gone_shut_down capacity s0 s :
  shutdown_inv capacity s0 s → map_Forall (λ k c, gone s k c = true) (sy_conns s) → shut_down s0 s.
Proof.
  intros [Hi Hv Hh Hdom Hc] Hg.
  assert (∀ k c, sy_conns s !! k = Some c →
    cn_status c ≠ Running ∧ cn_tasks c = ∅ ∧ cn_inbox c = empty_inbox ∧ k ∈ sy_ended s) as Hgone.
  { intros k c Hl. specialize (Hg k c Hl). simpl in Hg. unfold gone in Hg. bool_to_prop.
    repeat match goal with H : bool_decide _ = true |- _ => apply bool_decide_eq_true in H end.
    split_and!; [by destruct (cn_status c)|by apply map_size_empty_iff|by apply inbox_empty_spec|done]. }
  split; [done|]. split.
  - intros k c Hl Hrun Hw.
    assert (is_Some (sy_conns s !! k)) as [c' Hl'].
    { apply elem_of_dom. rewrite Hdom. by eapply elem_of_dom_2. }
    exists c'. split; [done|]. destruct (Hc k c c' Hl Hl') as [_ [_ Hw' _ Hst]].
    destruct (Hst Hrun (or_intror Hw)) as [Hr|[Hr Hbye]].
    + by destruct (Hgone k c' Hl') as [? _].
    + split; [done|]. apply Hbye. by rewrite Hw'.
  - eapply system_idle; [done..|]. intros k c Hl. by destruct (Hgone k c Hl).
Qed.

Lemma shutdown_end capacity s0 s :
  shutdown_inv capacity s0 s → (∃ s', shutdown_turn s s') ∨ shut_down s0 s.
Proof.
  intros Hs. destruct (decide (map_Forall (λ k c, gone s k c = true) (sy_conns s))) as [Hall|Hnot].
  - right. by eapply all_gone_shut_down.
  - left. apply map_not_Forall in Hnot as (k & c & Hl & Hg); [|apply _].
    apply not_true_is_false in Hg. by eapply busy_has_turn.
Qed.

Lemma shutdown_reaches_end capacity s0 s :
  calm_router router → (∀ k, 0 ≤ max_in_flight (negotiated k)) → 0 ≤ total →
  shutdown_inv capacity s0 s → ∃ s', rtc shutdown_turn s s' ∧ shut_down s0 s'.
Proof.
  intros Hcalm Hm Ht. induction (shutdown_turns_end s) as [s _ IH]. intros Hi.
  destruct (shutdown_end capacity s0 s Hi) as [[s1 Hs]|Hend]; [|by exists s].
  destruct (IH s1 Hs) as (s' & Hr & Hend); [by eapply shutdown_inv_turn|].
  exists s'. split; [by eapply rtc_l|done].
Qed.
End shutdown.

(** * Properties *)

(** C24 A server shuts down gracefully.  Take a server that has served any number
    of connections, whatever they did, and is asked to drain when no handshake
    is pending; its handlers do not unwind and its pending requests can be
    answered: no stage of their tasks waits for ever.  However the tasks and
    loops of all its connections then take turns, as long as no further frame is
    taken from a client, no event is forwarded and no writer stops, the turns run
    out, and they can go on until the shutdown is complete.  It is complete when no turn is left: every loop has ended, no
    task is left, what the readers had read is dropped and every connection is
    counted as ended; a connection that was served and whose writer runs has
    sent GOODBYE and ended without an error; and all request bytes, the whole
    decoded budget and both counters that [drain] waits for are back. *)
Theorem shutdown_completes `{Z0 : ZstdOps} router total negotiated peer policy budget rt s :
  calm_router router → (∀ k, 0 ≤ max_in_flight (negotiated k)) → 0 ≤ total →
  budget_wf budget → bi_used budget = 0 →
  rt_active_requests rt = 0 → rt_active_connections rt = 0 → rt_drain_value rt = false →
  rtc (serving_step router total negotiated peer policy) (system_start total budget rt) s →
  sy_handshakes s = O →
  (∀ k c tid t, sy_conns s !! k = Some c → cn_tasks c !! tid = Some t →
     answerable router (peer k) (negotiated k) (policy k) t) →
  let turn := shutdown_turn router negotiated peer policy in
  sn turn (drain_begun s) ∧
  (∃ s', rtc turn (drain_begun s) s' ∧ shut_down total s s') ∧
  (∀ s', rtc turn (drain_begun s) s' → nf turn s' → shut_down total s s').
Proof.
  intros Hcalm Hm Ht Hb Hu Hr Hc Hv Hs Hh Ha turn.
  destruct (served router total negotiated peer policy budget rt s Hcalm Hm Ht Hb Hu Hr Hc Hv Hs)
    as (Hi & _ & Htidy).
  pose proof (shutdown_begins router total negotiated peer policy _ s Hm Ht Hi Hh Htidy Ha) as Hbegun.
  split; [by apply shutdown_turns_end|]. split; [by eapply shutdown_reaches_end|].
  intros s' Hr' Hnf.
  assert (shutdown_inv router total negotiated peer policy (bi_capacity budget) s s') as Hend
    by (clear Hnf; induction Hr'; eauto using shutdown_inv_turn).
  destruct (shutdown_end _ _ _ _ _ _ _ _ Hend) as [Hred|Hdone]; [by destruct Hnf|done].
Qed.

(** * Witnesses *)

Section serving.
Context (r : Router).

#[local] Abbreviation sample_serving_step :=
  (serving_step r 100 (λ _, PeerSettingsV2_default) (λ _, None) (λ _, witness_policy)).
#[local] Abbreviation sample_inv :=
  (system_inv r 100 (λ _, PeerSettingsV2_default) (λ _, None) (λ _, witness_policy)).

(** Connections do not touch the flags of the server. *)
Lemma own_keeps_flag capacity s k c c' :
  sample_inv capacity s → sy_conns s !! k = Some c →
  own_step r None PeerSettingsV2_default witness_policy c c' →
  rt_drain_value (cn_runtime c') = rt_drain_value (sy_runtime s).
Proof.
  intros Hi Hl Hown. pose proof (view_requests _ _ _ _ _ _ _ _ _ Hi Hl) as Hr.
  pose proof (si_view _ _ _ _ _ _ _ Hi k c Hl) as Hv. injection Hv as _ _ Hrt.
  destruct (si_conn _ _ _ _ _ _ _ Hi k c Hl) as [Hc Hb _].
  destruct (own_step_change r None PeerSettingsV2_default witness_policy _ 100 c c' Hc (bv_wf _ _ Hb) Hr Hown)
    as (c1 & (_ & _ & Hrt1 & _) & Hch & _).
  rewrite <- Hrt, <- Hrt1. by destruct Hch as [_ Hv|p _ _ _ Hv|tid p ph ph' b _ _ Hv _|tid p ph _ _ Hv];
    injection Hv as _ _ ->.
Qed.

Lemma serving_request capacity s k :
  sample_inv capacity s → rt_drain_value (sy_runtime s) = false → can_request s k = true →
  rtc sample_serving_step s (request_on r s k).
Proof.
  intros Hi Hf (c & Hl & Hs & ->)%(request_steps r). revert s Hi Hf Hl.
  induction Hs as [c c' H|c c1 c' H _ IH]; intros s Hi Hf Hl.
  - apply rtc_once. split; [by eapply sys_own|]. simpl. by rewrite (own_keeps_flag capacity s k c).
  - eapply rtc_l.
    + split; [by eapply (sys_own _ _ _ _ _ s k)|]. simpl. by rewrite (own_keeps_flag capacity s k c).
    + rewrite <- (with_view_twice s k c1 c' (view c1) (view c')). apply IH.
      * eapply system_inv_step; [..|by eapply (sys_own _ _ _ _ _ s k)]; try done.
      * simpl. by rewrite (own_keeps_flag capacity s k c).
      * simpl. rewrite lookup_fmap, lookup_insert_eq. simpl. by rewrite set_shared_view.
Qed.

Lemma two_open_served : rtc sample_serving_step two_idle two_open.
Proof.
  unfold two_open. eapply rtc_l; [split; [apply sys_accept|reflexivity]|].
  eapply rtc_l; [split; [apply sys_accept|reflexivity]|].
  eapply rtc_l; [split; [apply (step_opened r _ 0); reflexivity|reflexivity]|].
  apply rtc_once. split; [apply (step_opened r _ 1); reflexivity|reflexivity].
Qed.
End serving.

(** Two clients, of which one waits for an answer. *)
Definition one_pending : System := request_on unary_router two_open 0.

Lemma one_pending_served :
  rtc (serving_step unary_router 100 (λ _, PeerSettingsV2_default) (λ _, None) (λ _, witness_policy))
    two_idle one_pending.
Proof.
  etrans; [apply two_open_served|].
  eapply (serving_request _ (bi_capacity fresh_budget)); [|vm_compute; reflexivity..].
  eapply (system_reached _ _ _ _ _ _ fresh_budget (sy_runtime two_idle)).
  - intros _. vm_compute. discriminate.
  - lia.
  - vm_compute. repeat split; discriminate.
  - reflexivity.
  - reflexivity.
  - reflexivity.
  - reflexivity.
  - eapply (rtc_congruence id); [|apply (two_open_served unary_router)]. by intros x y [? _].
Qed.

(** The tasks that wait for their first poll. *)
Definition all_spawned (s : System) : bool :=
  forallb (λ kc, forallb (λ it, negb (tk_started it.2)) (map_to_list (cn_tasks kc.2)))
    (map_to_list (sy_conns s)).

Lemma all_spawned_lookup s k c tid t :
  all_spawned s = true → sy_conns s !! k = Some c → cn_tasks c !! tid = Some t → tk_phase t = Spawned.
Proof.
  unfold all_spawned. rewrite forallb_forall. intros Hall Hc Ht.
  apply elem_of_map_to_list, list_elem_of_In in Hc. specialize (Hall _ Hc). simpl in Hall.
  rewrite forallb_forall in Hall. apply elem_of_map_to_list, list_elem_of_In in Ht.
  specialize (Hall _ Ht). simpl in Hall. unfold tk_started in Hall. by destruct (tk_phase t).
Qed.

Lemma shutdown_completes_witness :
  ∃ s', rtc (shutdown_turn unary_router (λ _, PeerSettingsV2_default) (λ _, None)
               (λ _, witness_policy)) (drain_begun one_pending) s' ∧
    sy_request_bytes one_pending = 99 ∧ sy_request_bytes s' = 100 ∧
    rt_active_connections (sy_runtime s') = 0 ∧ rt_active_requests (sy_runtime s') = 0.
Proof.
  destruct (shutdown_completes unary_router 100 (λ _, PeerSettingsV2_default) (λ _, None)
    (λ _, witness_policy) fresh_budget (sy_runtime two_idle) one_pending)
    as (_ & (s' & Hr & _ & _ & Hb & _ & Hq & Hc) & _).
  - apply returning_router_calm; [apply unary_router_returns|reflexivity].
  - intros _. vm_compute. discriminate.
  - lia.
  - vm_compute. repeat split; discriminate.
  - reflexivity.
  - reflexivity.
  - reflexivity.
  - reflexivity.
  - apply one_pending_served.
  - vm_compute. reflexivity.
  - intros k c tid t Hl Ht. apply returning_router_answers; [apply unary_router_returns|reflexivity..|].
    unfold plain_task. rewrite (all_spawned_lookup one_pending k c tid t); [exact I| |exact Hl|exact Ht].
    vm_compute. reflexivity.
  - exists s'. split; [exact Hr|]. split; [vm_compute; reflexivity|]. split; [exact Hb|].
    split; [exact Hc|exact Hq].
Defined.
