(* ===== verification/Server.v ===== *)
(** Server construction, limits and graceful shutdown: [ServerLimits] and
    [Server] of [moonlight-bridge-server/src/lib.rs] and the drain handle of
    [drain.rs], with the accept loop, the drain callers and the ends of
    connections as interleaved atomic steps. *)
From S2P Require Import Prelude OrdMap Compression Protocol Metadata Transport Outbound.
From S2P Require Import Middleware Router Dispatch Connection.

(** * Limits *)

(** Durations are milliseconds. *)
Record ServerLimits := MkServerLimits {
  max_connections : Z;
  max_buffered_request_bytes : Z;
  max_buffered_response_bytes : Z;
  max_buffered_response_bytes_per_connection : Z;
  frame_read_timeout : Z;
  writer_shutdown_timeout : Z;
}.

Definition ServerLimits_default : ServerLimits :=
  {| max_connections := 1024;
     max_buffered_request_bytes := 64 * 1024 * 1024;
     max_buffered_response_bytes := 64 * 1024 * 1024;
     max_buffered_response_bytes_per_connection := 32 * 1024 * 1024;
     frame_read_timeout := 30 * 1000;
     writer_shutdown_timeout := 500 |}.

Record Server := MkServer {
  sv_router : Router;
  sv_settings : PeerSettingsV2;
  sv_hello_timeout : Z;
  sv_limits : ServerLimits;
}.

(** [bind_tcp], [bind_tls] and [bind_unix] once the listener is bound. *)
Definition Server_bound (router : Router) : Server :=
  {| sv_router := router; sv_settings := PeerSettingsV2_default;
     sv_hello_timeout := 10 * 1000; sv_limits := ServerLimits_default |}.

Definition with_hello_timeout (s : Server) (hello_timeout : Z) : option Server :=
  _ ← assert_ (negb (hello_timeout =? 0));
  Some {| sv_router := sv_router s; sv_settings := sv_settings s;
          sv_hello_timeout := hello_timeout; sv_limits := sv_limits s |}.

(** [with_limits]; [None] is a failed assertion. *)
Definition with_limits (s : Server) (l : ServerLimits) : option Server :=
  _ ← assert_ ((max_connections l >? 0) && (max_connections l <=? MAX_PERMITS));
  _ ← assert_ (max_buffered_request_bytes l >=? max_body_len (sv_settings s));
  _ ← assert_ (max_buffered_request_bytes l <=? MAX_PERMITS);
  let largest_response := max_decoded_body_len (sv_settings s) + HEADER_LEN in
  _ ← assert_ ((max_buffered_response_bytes l >=? largest_response)
               && (max_buffered_response_bytes l <=? MAX_PERMITS));
  _ ← assert_ ((max_buffered_response_bytes_per_connection l >=? largest_response)
               && (max_buffered_response_bytes_per_connection l
                     <=? max_buffered_response_bytes l));
  _ ← assert_ (negb (frame_read_timeout l =? 0) && negb (writer_shutdown_timeout l =? 0));
  Some {| sv_router := sv_router s; sv_settings := sv_settings s;
          sv_hello_timeout := sv_hello_timeout s; sv_limits := l |}.

(** The compression policy of a server, and of one of its connections. *)
Definition runtime_policy (settings : PeerSettingsV2) : CompressionPolicy :=
  {| min_payload_bytes := min_payload_bytes CompressionPolicy_default;
     min_savings_bytes := min_savings_bytes CompressionPolicy_default;
     Compression.max_decoded_body_len := max_decoded_body_len settings;
     max_expansion_ratio := max_expansion_ratio CompressionPolicy_default;
     compression_level := compression_level CompressionPolicy_default |}.

(** A queue of a connection of the server, with nothing queued. *)
Definition fresh_queue `{S0 : SemaphoreOps} (capacity : nat) (global connection : Semaphore)
    : ResponseQueue :=
  {| rq_queued := []; rq_capacity := capacity; rq_open := true;
     rq_global_bytes := global; rq_connection_bytes := connection |}.

Lemma with_limits_Some s l s' :
  with_limits s l = Some s' →
  sv_limits s' = l ∧ sv_settings s' = sv_settings s ∧
  0 < max_connections l ∧
  max_body_len (sv_settings s) ≤ max_buffered_request_bytes l ≤ MAX_PERMITS ∧
  max_decoded_body_len (sv_settings s) + HEADER_LEN
    ≤ max_buffered_response_bytes_per_connection l ≤ max_buffered_response_bytes l ∧
  max_buffered_response_bytes l ≤ MAX_PERMITS.
Proof.
  unfold with_limits. intros H.
  repeat (apply bind_Some in H as ([] & ?%assert_Some & H)).
  injection H as <-. rewrite ?Z.gtb_ltb, ?Z.geb_leb in *. bool_to_prop. simpl.
  split_and!; try done; lia.
Qed.

(** * Shutdown *)

(** A [tokio::sync::watch] channel of [bool]: sending fails, and changes
    nothing, while there is no receiver. *)
Record watch := MkWatch { w_value : bool; w_receivers : nat }.

Definition watch_send (w : watch) (v : bool) : watch :=
  match w_receivers w with
  | O => w
  | S _ => {| w_value := v; w_receivers := w_receivers w |}
  end.

Definition watch_subscribe (w : watch) : watch :=
  {| w_value := w_value w; w_receivers := S (w_receivers w) |}.

(** Where [Server::run] is: before its check of [draining], before the store to
    [ready], before the subscription, in the accept loop (with the value the
    receiver last saw), or returned. *)
Inductive run_pc := RunCheck | RunReady | RunSubscribe | RunAccept (seen : bool) | RunDone.

(** Where a caller of [begin_drain] is. *)
Inductive drain_pc := DrainCas | DrainReady | DrainSend | DrainNotify | DrainReturned (first : bool).

(** Where the first caller's [drain] is: still in [begin_drain], before the
    check of its wait loop, between the check and the registration, registered,
    returned. *)
Inductive wait_pc := WaitIdle | WaitCheck | WaitChecked | WaitRegistered | WaitReturned (drained : bool).

Record server_world := MkServerWorld {
  sw_ready : bool;
  sw_draining : bool;
  sw_drain : watch;
  sw_connections : nat;
  sw_run : run_pc;
  sw_callers : list drain_pc;
  sw_waiter : wait_pc;
}.

Definition sw_set_run (w : server_world) (pc : run_pc) : server_world :=
  {| sw_ready := sw_ready w; sw_draining := sw_draining w; sw_drain := sw_drain w;
     sw_connections := sw_connections w; sw_run := pc; sw_callers := sw_callers w;
     sw_waiter := sw_waiter w |}.

Definition sw_set_caller (w : server_world) (i : nat) (pc : drain_pc) : server_world :=
  {| sw_ready := sw_ready w; sw_draining := sw_draining w; sw_drain := sw_drain w;
     sw_connections := sw_connections w; sw_run := sw_run w;
     sw_callers := <[i := pc]> (sw_callers w); sw_waiter := sw_waiter w |}.

Definition sw_set_waiter (w : server_world) (pc : wait_pc) : server_world :=
  {| sw_ready := sw_ready w; sw_draining := sw_draining w; sw_drain := sw_drain w;
     sw_connections := sw_connections w; sw_run := sw_run w; sw_callers := sw_callers w;
     sw_waiter := pc |}.

Definition sw_set_flags (w : server_world) (ready draining : bool) (d : watch) (n : nat)
    : server_world :=
  {| sw_ready := ready; sw_draining := draining; sw_drain := d; sw_connections := n;
     sw_run := sw_run w; sw_callers := sw_callers w; sw_waiter := sw_waiter w |}.

(** [state_changed.notify_waiters()] wakes the registered waiter only. *)
Definition notify_waiters (w : server_world) : server_world :=
  match sw_waiter w with
  | WaitRegistered => sw_set_waiter w WaitCheck
  | _ => w
  end.

(** One atomic step of [run]. *)
Definition run_step (w : server_world) : server_world :=
  match sw_run w with
  | RunCheck => sw_set_run w (if sw_draining w then RunDone else RunReady)
  | RunReady => sw_set_run (sw_set_flags w true (sw_draining w) (sw_drain w) (sw_connections w))
                  RunSubscribe
  | RunSubscribe =>
      sw_set_run (sw_set_flags w (sw_ready w) (sw_draining w) (watch_subscribe (sw_drain w))
                    (sw_connections w)) (RunAccept (w_value (sw_drain w)))
  | RunAccept seen =>
      if bool_decide (seen = w_value (sw_drain w)) then w
      else sw_set_run w (if w_value (sw_drain w) then RunDone
                         else RunAccept (w_value (sw_drain w)))
  | RunDone => w
  end.

(** One atomic step of [begin_drain] by caller [i]. *)
Definition drain_step (w : server_world) (i : nat) (pc : drain_pc) : server_world :=
  match pc with
  | DrainCas =>
      if sw_draining w then sw_set_caller w i (DrainReturned false)
      else sw_set_caller (sw_set_flags w (sw_ready w) true (sw_drain w) (sw_connections w)) i
             DrainReady
  | DrainReady =>
      sw_set_caller (sw_set_flags w false (sw_draining w) (sw_drain w) (sw_connections w)) i
        DrainSend
  | DrainSend =>
      sw_set_caller (sw_set_flags w (sw_ready w) (sw_draining w)
                       (watch_send (sw_drain w) true) (sw_connections w)) i DrainNotify
  | DrainNotify => notify_waiters (sw_set_caller w i (DrainReturned true))
  | DrainReturned _ => w
  end.

(** One step of the wait loop of [drain]. *)
Definition wait_step (w : server_world) : server_world :=
  match sw_waiter w with
  | WaitIdle =>
      match sw_callers w !! 0%nat with
      | Some (DrainReturned _) => sw_set_waiter w WaitCheck
      | _ => w
      end
  | WaitCheck =>
      sw_set_waiter w (if bool_decide (sw_connections w = 0%nat) then WaitReturned true
                       else WaitChecked)
  | WaitChecked => sw_set_waiter w WaitRegistered
  | _ => w
  end.

Inductive server_step (w : server_world) : server_world → Prop :=
  | ss_run : server_step w (run_step w)
  | ss_drain i pc : sw_callers w !! i = Some pc → server_step w (drain_step w i pc)
  | ss_wait : server_step w (wait_step w)
  | ss_accept seen :
      sw_run w = RunAccept seen →
      server_step w (sw_set_flags w (sw_ready w) (sw_draining w) (sw_drain w)
                       (S (sw_connections w)))
  | ss_closed n :
      sw_connections w = S n →
      server_step w (notify_waiters (sw_set_flags w (sw_ready w) (sw_draining w) (sw_drain w) n))
  | ss_timeout :
      sw_waiter w = WaitRegistered → server_step w (sw_set_waiter w (WaitReturned false)).

Definition server_start (callers : nat) : server_world :=
  {| sw_ready := false; sw_draining := false; sw_drain := MkWatch false 0; sw_connections := 0;
     sw_run := RunCheck; sw_callers := replicate callers DrainCas; sw_waiter := WaitIdle |}.

(** ** Who began the drain *)

(** A caller past its successful compare-exchange. *)
Definition began (pc : drain_pc) : bool :=
  match pc with
  | DrainReady | DrainSend | DrainNotify | DrainReturned true => true
  | DrainCas | DrainReturned false => false
  end.

Definition beginners (l : list drain_pc) : Z := zsum (λ pc, if began pc then 1 else 0) l.

Definition drain_once (w : server_world) : Prop :=
  beginners (sw_callers w) = if sw_draining w then 1 else 0.

Lemma notify_waiters_same w :
  sw_draining (notify_waiters w) = sw_draining w ∧ sw_callers (notify_waiters w) = sw_callers w ∧
  sw_run (notify_waiters w) = sw_run w ∧ sw_drain (notify_waiters w) = sw_drain w.
Proof. unfold notify_waiters. by destruct (sw_waiter w). Qed.

Lemma wait_step_same w :
  sw_draining (wait_step w) = sw_draining w ∧ sw_callers (wait_step w) = sw_callers w ∧
  sw_run (wait_step w) = sw_run w ∧ sw_drain (wait_step w) = sw_drain w.
Proof.
  unfold wait_step. destruct (sw_waiter w); try done.
  by destruct (sw_callers w !! 0%nat) as [[]|].
Qed.

Lemma drain_once_step w w' : drain_once w → server_step w w' → drain_once w'.
Proof.
  unfold drain_once. intros Hi Hs. destruct Hs as [|i pc Hpc| |seen Hr|n Hn|Hw].
  - unfold run_step. destruct (sw_run w); simpl; try done. by destruct (bool_decide _).
  - assert (∀ pc', beginners (<[i := pc']> (sw_callers w)) =
      beginners (sw_callers w) - (if began pc then 1 else 0) + (if began pc' then 1 else 0)) as Hb
      by (intros pc'; exact (zsum_insert (λ pc, if began pc then 1 else 0) _ _ _ pc' Hpc)).
    unfold drain_step. destruct pc; simpl.
    + destruct (sw_draining w) eqn:Hd; simpl; rewrite Hb; simpl; rewrite ?Hd; lia.
    + rewrite Hb. simpl. lia.
    + rewrite Hb. simpl. lia.
    + destruct (notify_waiters_same (sw_set_caller w i (DrainReturned true))) as (-> & -> & _).
      simpl. rewrite Hb. simpl. lia.
    + done.
  - by destruct (wait_step_same w) as (-> & -> & _).
  - done.
  - match goal with |- context [notify_waiters ?x] =>
      destruct (notify_waiters_same x) as (-> & -> & _) end. done.
  - done.
Qed.

Lemma drain_once_start n : drain_once (server_start n).
Proof. unfold drain_once, beginners. simpl. induction n; simpl in *; lia. Qed.

(** * Properties *)

(** Draining begins exactly once: however the calls of [begin_drain]
    interleave with each other, with [run] and with the connections, at most
    one of them returns true, and if any of them was the first the draining
    flag is set. *)
Theorem begin_drain_once callers w :
  rtc server_step (server_start callers) w →
  (∀ i j, sw_callers w !! i = Some (DrainReturned true) →
          sw_callers w !! j = Some (DrainReturned true) → i = j) ∧
  (∀ i, sw_callers w !! i = Some (DrainReturned true) → sw_draining w = true).
Proof.
  intros Hr. assert (drain_once w) as Hi.
  { eapply (rtc_ind_r drain_once); [apply drain_once_start| |exact Hr].
    intros ? ? _ Hs Hw. by eapply drain_once_step. }
  assert (∀ pc : drain_pc, pc ∈ sw_callers w → 0 ≤ (if began pc then 1 else 0)) as Hnn
    by (intros pc _; destruct (began pc); lia).
  unfold drain_once, beginners in Hi. split.
  - intros i j H1 H2. destruct (decide (i = j)) as [|Hne]; [done|].
    pose proof (zsum_insert (λ pc, if began pc then 1 else 0) _ _ _ DrainCas H1) as Hz. simpl in Hz.
    assert (<[i := DrainCas]> (sw_callers w) !! j = Some (DrainReturned true)) as H2'
      by (by rewrite list_lookup_insert_ne).
    apply (zsum_elem_le (λ pc, if began pc then 1 else 0)) in H2'.
    + simpl in H2'. destruct (sw_draining w); lia.
    + intros pc _. destruct (began pc); lia.
  - intros i H1. apply (zsum_elem_le (λ pc, if began pc then 1 else 0)) in H1; [|done].
    simpl in H1. destruct (sw_draining w); [done|lia].
Qed.

(** Limits that [with_limits] accepts admit every frame the server may
    handle: a request body within the negotiated limit fits the request budget,
    and a response within the decoded limit, with its header, fits both
    response budgets, so an idle queue takes it at once and sending can not
    wait for permits that never come. *)
Theorem with_limits_admits `{S0 : SemaphoreOps} (L : SemaphoreLaws S0) s l s' capacity global
    connection f :
  with_limits s l = Some s' → max_decoded_body_len (sv_settings s) ≤ u32_max - HEADER_LEN →
  available_permits global = max_buffered_response_bytes l →
  available_permits connection = max_buffered_response_bytes_per_connection l →
  is_closed global = false → is_closed connection = false → (0 < capacity)%nat →
  zlen (body f) ≤ max_decoded_body_len (sv_settings s) →
  max_body_len (sv_settings s) ≤ max_buffered_request_bytes l ∧
  ∃ q', (await (q, item) := queue_reserve (fresh_queue capacity global connection) f;;
         channel_send q item) = Ready (Ok q') ∧ rq_queued q' = [(f, frame_cost f)].
Proof.
  intros (_ & _ & _ & Hreq & Hresp & _)%with_limits_Some Hu Hg Hc Hog Hoc Hcap Hf.
  split; [lia|]. unfold queue_reserve, try_into_max, frame_cost. cbn [fresh_queue rq_connection_bytes rq_global_bytes].
  rewrite (proj2 (Z.leb_le _ _)) by lia. cbn [ok_or async_then]. unfold acquire_or_closed.
  destruct (acquire_ready connection (HEADER_LEN + zlen (body f)) Hoc) as [c' ->]; [lia|].
  destruct (acquire_ready global (HEADER_LEN + zlen (body f)) Hog) as [g' ->]; [lia|].
  cbn [async_then]. unfold channel_send. simpl. destruct capacity as [|n]; [lia|]. simpl.
  eexists. split; [reflexivity|]. done.
Qed.

(** ** Missed signals *)

(** The caller's signal falls between [run]'s check and its subscription. *)
Definition missed_1 : server_world := run_step (server_start 1).
Definition missed_2 : server_world :=
  drain_step (drain_step (drain_step (drain_step missed_1 0 DrainCas) 0 DrainReady) 0 DrainSend)
    0 DrainNotify.
Definition missed_3 : server_world := run_step (run_step missed_2).

Lemma missed_reachable : rtc server_step (server_start 1) missed_3.
Proof.
  eapply rtc_l; [apply ss_run|].
  eapply rtc_l; [apply (ss_drain _ 0 DrainCas); reflexivity|].
  eapply rtc_l; [apply (ss_drain _ 0 DrainReady); reflexivity|].
  eapply rtc_l; [apply (ss_drain _ 0 DrainSend); reflexivity|].
  eapply rtc_l; [apply (ss_drain _ 0 DrainNotify); reflexivity|].
  eapply rtc_l; [apply ss_run|]. apply rtc_once. apply ss_run.
Qed.

(** A server that accepts although it drains, and will not hear of it. *)
Definition deaf (w : server_world) : Prop :=
  sw_run w = RunAccept false ∧ sw_draining w = true ∧ w_value (sw_drain w) = false ∧
  Forall (λ pc, pc = DrainCas ∨ ∃ b, pc = DrainReturned b) (sw_callers w).

Lemma deaf_step w w' : deaf w → server_step w w' → deaf w'.
Proof.
  intros (Hr & Hd & Hv & Hc) Hs. destruct Hs as [|i pc Hpc| |seen Hr'|n Hn|Hw].
  - unfold run_step. rewrite Hr, Hv, bool_decide_true by done. done.
  - pose proof (Forall_lookup_1 _ _ _ _ Hc Hpc) as [-> |[b ->]]; simpl; [|done].
    rewrite Hd. split_and!; try done. apply Forall_insert; [done|]. right. by exists false.
  - unfold deaf. by destruct (wait_step_same w) as (-> & -> & -> & ->).
  - done.
  - match goal with |- deaf (notify_waiters ?x) => unfold deaf;
      destruct (notify_waiters_same x) as (-> & -> & -> & ->) end. done.
  - done.
Qed.

(** A drain that begins while the server starts can be missed for good: if
    [begin_drain] runs between [run]'s check of the draining flag and its
    subscription, the call returns true, yet the server reports ready, keeps
    accepting, and no later call of [begin_drain] ever stops it. *)
Theorem drain_missed_at_startup :
  rtc server_step (server_start 1) missed_3 ∧
  sw_callers missed_3 = [DrainReturned true] ∧ sw_ready missed_3 = true ∧
  (∀ w, rtc server_step missed_3 w → sw_run w = RunAccept false ∧ sw_draining w = true).
Proof.
  split; [apply missed_reachable|]. split; [reflexivity|]. split; [reflexivity|].
  intros w Hr. assert (deaf w) as (? & ? & _); [|done].
  eapply (rtc_ind_r deaf); [|intros ? ? _ Hs Hw; by eapply deaf_step|exact Hr].
  split_and!; try reflexivity. constructor; [|done]. right. by exists true.
Qed.

(** The last connection ends between the waiter's check and its registration. *)
Definition lost_1 : server_world :=
  let w := run_step (run_step (run_step (server_start 1))) in
  sw_set_flags w (sw_ready w) (sw_draining w) (sw_drain w) 1.
Definition lost_2 : server_world :=
  wait_step (wait_step
    (drain_step (drain_step (drain_step (drain_step lost_1 0 DrainCas) 0 DrainReady) 0 DrainSend)
       0 DrainNotify)).
Definition lost_3 : server_world :=
  wait_step (notify_waiters
    (sw_set_flags lost_2 (sw_ready lost_2) (sw_draining lost_2) (sw_drain lost_2) 0)).

(** The wait of [drain] can lose its wake-up: when the last connection ends
    after the counters were read and before the waiter is registered, the
    waiter sleeps although nothing is active any more, and only the timeout
    ends its wait, which reports that the drain failed. *)
Theorem drain_wakeup_lost :
  rtc server_step (server_start 1) lost_3 ∧ sw_connections lost_3 = 0%nat ∧
  sw_waiter lost_3 = WaitRegistered ∧
  server_step lost_3 (sw_set_waiter lost_3 (WaitReturned false)).
Proof.
  split; [|split; [reflexivity|split; [reflexivity|by apply ss_timeout]]].
  eapply rtc_l; [apply ss_run|]. eapply rtc_l; [apply ss_run|]. eapply rtc_l; [apply ss_run|].
  eapply rtc_l; [apply (ss_accept _ false); reflexivity|].
  eapply rtc_l; [apply (ss_drain _ 0 DrainCas); reflexivity|].
  eapply rtc_l; [apply (ss_drain _ 0 DrainReady); reflexivity|].
  eapply rtc_l; [apply (ss_drain _ 0 DrainSend); reflexivity|].
  eapply rtc_l; [apply (ss_drain _ 0 DrainNotify); reflexivity|].
  eapply rtc_l; [apply ss_wait|]. eapply rtc_l; [apply ss_wait|].
  eapply rtc_l; [apply (ss_closed _ 0); reflexivity|].
  apply rtc_once. apply ss_wait.
Qed.

(** ** Witnesses *)

Lemma begin_drain_once_witness : sw_draining missed_3 = true.
Proof.
  refine (proj2 (begin_drain_once 1 missed_3 missed_reachable) 0%nat _). reflexivity.
Defined.

Definition bare_router : Router :=
  {| handlers := ∅; stream_handlers := ∅; method_names := ∅; required_scopes := ∅;
     middleware := []; telemetry := None |}.

(** The default limits are accepted for the default settings. *)
Lemma default_limits_accepted :
  ∃ s', with_limits (Server_bound bare_router) ServerLimits_default = Some s'.
Proof. eexists. vm_compute. reflexivity. Qed.

Lemma with_limits_admits_witness :
  ∃ q', (await (q, item) :=
           queue_reserve (fresh_queue 1 (MkCounting (64 * 1024 * 1024) false)
                            (MkCounting (32 * 1024 * 1024) false))
             (Frame_new FrameKind.Response 5 9 [x2a]);;
         channel_send q item) = Ready (Ok q').
Proof.
  destruct (with_limits_admits counting_laws (Server_bound bare_router) ServerLimits_default
    (Server_bound bare_router) 1 (MkCounting (64 * 1024 * 1024) false)
    (MkCounting (32 * 1024 * 1024) false) (Frame_new FrameKind.Response 5 9 [x2a]))
    as [_ (q' & Hq & _)].
  - vm_compute. reflexivity.
  - vm_compute. discriminate.
  - reflexivity.
  - reflexivity.
  - reflexivity.
  - reflexivity.
  - lia.
  - vm_compute. discriminate.
  - exists q'. exact Hq.
Defined.
