(* ===== verification/Acceptor.v ===== *)
(** The accept loops of [Server::run] in [server/src/lib.rs] for TCP, TLS and Unix
    listeners, and the life of a connection task around [serve_connection]: its
    admission permit, its TLS handshake, and the connection guard.  The listener,
    the TLS acceptor and the task scheduler are the environment: what they answer
    and which task is polled next are choices. *)
From stdpp Require Import relations.
From S2P Require Import Prelude Protocol Transport Middleware.

Inductive Listener := Tcp | Tls | Unix.
#[export] Instance Listener_eq_dec : EqDecision Listener.
Proof. solve_decision. Defined.

(** A spawned task holds its admission permit until it ends; [Spawned] has not
    been polled yet. *)
Inductive conn_task :=
  | Spawned
  | TlsHandshake
  | Serving (peer_identity : option PeerIdentity)
  | Ended.

(** What [timeout(.., acceptor.accept(stream))] gives: the chain of the client's
    certificates, when it presented one. *)
Inductive tls_outcome :=
  | TlsAccepted (peer_certificates : option (list bytes))
  | TlsRejected
  | TlsTimedOut.

Section acceptor.
Context `{S0 : SemaphoreOps}.

Record acceptor := MkAcceptor {
  ac_permits : Semaphore;
  ac_active_connections : Z;
  ac_tasks : list conn_task;
  ac_returned : option (result IoError unit);
}.

Definition ac_return (a : acceptor) (r : result IoError unit) : acceptor :=
  {| ac_permits := ac_permits a; ac_active_connections := ac_active_connections a;
     ac_tasks := ac_tasks a; ac_returned := Some r |}.

Definition ac_set (a : acceptor) (permits : Semaphore) (active : Z) (i : nat) (t : conn_task)
    : acceptor :=
  {| ac_permits := permits; ac_active_connections := active;
     ac_tasks := <[i := t]> (ac_tasks a); ac_returned := ac_returned a |}.

(** One turn of the loop: the result of [accept] and, for the streams that set it,
    of [set_nodelay].  Without a permit the stream is dropped. *)
Definition on_accept (l : Listener) (accepted : result IoError (result IoError unit)) (a : acceptor)
    : acceptor :=
  match accepted with
  | Err e => ac_return a (Err e)
  | Ok nodelay =>
      match (if bool_decide (l = Unix) then Ok tt else nodelay) with
      | Err e => ac_return a (Err e)
      | Ok _ =>
          match try_acquire_many (ac_permits a) 1 with
          | None => a
          | Some permits =>
              {| ac_permits := permits; ac_active_connections := ac_active_connections a;
                 ac_tasks := ac_tasks a ++ [Spawned]; ac_returned := ac_returned a |}
          end
      end
  end.

(** The drain receiver: closed, or changed to a value. *)
Definition on_drain_changed (changed : option bool) (a : acceptor) : acceptor :=
  match changed with
  | None | Some true => ac_return a (Ok tt)
  | Some false => a
  end.

(** The start of [serve_connection]: the counter and its guard. *)
Definition serve (a : acceptor) (i : nat) (peer_identity : option PeerIdentity) : acceptor :=
  ac_set a (ac_permits a) ((ac_active_connections a + 1) mod 2 ^ 64) i (Serving peer_identity).

(** The first poll of a task. *)
Definition task_begin (l : Listener) (a : acceptor) (i : nat) : acceptor :=
  match l with
  | Tls => ac_set a (ac_permits a) (ac_active_connections a) i TlsHandshake
  | Tcp | Unix => serve a i None
  end.

(** The end of a task gives its admission permit back. *)
Definition task_end (a : acceptor) (i : nat) (active : Z) : acceptor :=
  ac_set a (release_permits (ac_permits a) 1) active i Ended.

Definition tls_identity (peer_certificates : option (list bytes)) : option PeerIdentity :=
  certificates ← peer_certificates; MkPeerIdentity <$> head certificates.

Definition on_handshake (a : acceptor) (i : nat) (outcome : tls_outcome) : acceptor :=
  match outcome with
  | TlsAccepted certificates => serve a i (tls_identity certificates)
  | TlsRejected | TlsTimedOut => task_end a i (ac_active_connections a)
  end.

(** [serve_connection] returns, or its task is dropped: [ConnectionGuard]. *)
Definition serve_end (a : acceptor) (i : nat) : acceptor :=
  task_end a i ((ac_active_connections a - 1) mod 2 ^ 64).

Inductive accept_step (l : Listener) (a : acceptor) : acceptor → Prop :=
  | as_accept accepted : ac_returned a = None → accept_step l a (on_accept l accepted a)
  | as_drain changed : ac_returned a = None → accept_step l a (on_drain_changed changed a)
  | as_begin i : ac_tasks a !! i = Some Spawned → accept_step l a (task_begin l a i)
  | as_handshake i outcome :
      ac_tasks a !! i = Some TlsHandshake → accept_step l a (on_handshake a i outcome)
  | as_end i peer : ac_tasks a !! i = Some (Serving peer) → accept_step l a (serve_end a i).

(** The state when the loop is entered. *)
Definition acceptor_start (permits : Semaphore) : acceptor :=
  {| ac_permits := permits; ac_active_connections := 0; ac_tasks := []; ac_returned := None |}.

(** * Invariant *)

Definition live (t : conn_task) : Z := match t with Ended => 0 | _ => 1 end.
Definition serving (t : conn_task) : Z := match t with Serving _ => 1 | _ => 0 end.
Definition live_tasks (a : acceptor) : Z := zsum live (ac_tasks a).
Definition serving_tasks (a : acceptor) : Z := zsum serving (ac_tasks a).

(** Only the TLS loop has handshakes and identities. *)
Definition task_of (l : Listener) (t : conn_task) : Prop :=
  match t with
  | TlsHandshake => l = Tls
  | Serving (Some _) => l = Tls
  | _ => True
  end.

Record acceptor_inv (l : Listener) (max : Z) (a : acceptor) : Prop := {
  inv_permits : available_permits (ac_permits a) + live_tasks a = max;
  inv_free : 0 <= available_permits (ac_permits a);
  inv_active : ac_active_connections a = serving_tasks a mod 2 ^ 64;
  inv_tasks : Forall (task_of l) (ac_tasks a);
}.

Context {S0_laws : SemaphoreLaws S0}.

Lemma acceptor_inv_start l permits :
  0 <= available_permits permits →
  acceptor_inv l (available_permits permits) (acceptor_start permits).
Proof. intros H. split; unfold live_tasks, serving_tasks; simpl; [lia|done|done|constructor]. Qed.

(** Moving one task, with the permits and the counter that go with it. *)
Lemma acceptor_inv_set l max a i t t' permits active :
  acceptor_inv l max a → ac_tasks a !! i = Some t → task_of l t' →
  available_permits permits = available_permits (ac_permits a) + live t - live t' →
  live t' <= live t →
  active = (ac_active_connections a + (serving t' - serving t)) mod 2 ^ 64 →
  acceptor_inv l max (ac_set a permits active i t').
Proof using.
  intros [Hp Hf Ha Ht] Hi Ht' Hperm Hle Hact.
  split; unfold live_tasks, serving_tasks in *; simpl.
  - rewrite (zsum_insert _ _ _ _ _ Hi). lia.
  - lia.
  - rewrite (zsum_insert _ _ _ _ _ Hi), Hact, Ha, Zplus_mod_idemp_l. f_equal. lia.
  - by apply Forall_insert.
Qed.

Lemma serve_inv l max a i t peer :
  acceptor_inv l max a → ac_tasks a !! i = Some t → live t = 1 → serving t = 0 →
  task_of l (Serving peer) → acceptor_inv l max (serve a i peer).
Proof using.
  intros Hinv Hi Hl Hs Ht. eapply acceptor_inv_set; [done..| | |]; simpl; [lia|lia|].
  by rewrite Hs.
Qed.

Lemma task_end_inv l max a i t active :
  acceptor_inv l max a → ac_tasks a !! i = Some t → live t = 1 →
  active = (ac_active_connections a - serving t) mod 2 ^ 64 →
  acceptor_inv l max (task_end a i active).
Proof.
  intros Hinv Hi Hl Ha. eapply acceptor_inv_set; [done..| | |]; simpl; [|lia|].
  - rewrite release_gives. lia.
  - by rewrite Ha.
Qed.

Lemma acceptor_inv_step l max a a' :
  acceptor_inv l max a → accept_step l a a' → acceptor_inv l max a'.
Proof.
  intros Hinv Hs. destruct Hs as [accepted _|changed _|i Hi|i outcome Hi|i peer Hi].
  - unfold on_accept. destruct accepted as [nodelay|e]; [|by destruct Hinv; split].
    destruct (if bool_decide (l = Unix) then Ok tt else nodelay); [|by destruct Hinv; split].
    destruct (try_acquire_many (ac_permits a) 1) as [p|] eqn:E; [|done].
    apply try_acquire_takes in E as [H1 H2]. destruct Hinv as [Hp Hf Ha Ht].
    split; unfold live_tasks, serving_tasks in *; simpl; rewrite ?zsum_app; simpl.
    + lia.
    + lia.
    + by rewrite Z.add_0_r.
    + apply Forall_app. split; [done|]. by repeat constructor.
  - by destruct changed as [[]|]; simpl; [destruct Hinv; split|..|destruct Hinv; split].
  - destruct l; simpl; [by eapply serve_inv| |by eapply serve_inv].
    eapply acceptor_inv_set; [done..| | |]; simpl; [lia|lia|].
    destruct Hinv as [_ _ -> _]. by rewrite Z.add_0_r, Zmod_mod.
  - assert (l = Tls) as -> by (destruct Hinv as [_ _ _ Ht]; by apply (Forall_lookup_1 _ _ _ _ Ht Hi)).
    destruct outcome as [certificates| |]; simpl.
    + eapply serve_inv; [done..|]. simpl. by destruct (tls_identity certificates).
    + eapply task_end_inv; [done..|]. simpl. destruct Hinv as [_ _ -> _].
      by rewrite Z.sub_0_r, Zmod_mod.
    + eapply task_end_inv; [done..|]. simpl. destruct Hinv as [_ _ -> _].
      by rewrite Z.sub_0_r, Zmod_mod.
  - by eapply task_end_inv.
Qed.

Lemma acceptor_reachable l permits a :
  0 <= available_permits permits → rtc (accept_step l) (acceptor_start permits) a →
  acceptor_inv l (available_permits permits) a.
Proof.
  intros H0 Hr. eapply (rtc_ind_r (acceptor_inv l (available_permits permits)));
    [by apply acceptor_inv_start| |exact Hr].
  intros ? ? _ Hs Hi. by eapply acceptor_inv_step.
Qed.

Lemma zsum_le_live ts : zsum serving ts <= zsum live ts.
Proof using. induction ts as [|t ts IH]; simpl; [lia|]. destruct t; simpl in *; lia. Qed.
Lemma zsum_serving_nonneg ts : 0 <= zsum serving ts.
Proof using. apply zsum_nonneg. intros [] _; simpl; lia. Qed.
End acceptor.

(** C25 The server admits at most as many connections as its limit, and reports
    them exactly: in every reachable state of an accept loop, with any results of
    accepts, handshakes and connections, the connection tasks and the free permits
    add up to [max_connections], the counter of active connections is the number
    of tasks that serve one, and no connection has an identity unless it came
    through the TLS listener. *)
Theorem accept_loop_bounded `{S0 : SemaphoreOps} (L : SemaphoreLaws S0) l permits a :
  0 <= available_permits permits < 2 ^ 64 →
  rtc (accept_step l) (acceptor_start permits) a →
  live_tasks a + available_permits (ac_permits a) = available_permits permits ∧
  ac_active_connections a = serving_tasks a ∧
  0 <= ac_active_connections a <= available_permits permits ∧
  (∀ i identity, ac_tasks a !! i = Some (Serving (Some identity)) → l = Tls).
Proof.
  intros H0 Hr. destruct (acceptor_reachable l permits a ltac:(lia) Hr) as [Hp Hf Ha Ht].
  pose proof (zsum_le_live (ac_tasks a)). pose proof (zsum_serving_nonneg (ac_tasks a)).
  unfold live_tasks, serving_tasks in *. rewrite Z.mod_small in Ha by lia.
  split; [lia|]. split; [done|]. split; [lia|].
  intros i identity Hi. by apply (Forall_lookup_1 _ _ _ _ Ht Hi).
Qed.

(** ** Witnesses *)

Definition two_permits : Semaphore := MkCounting 2 false.

(** Two clients: one presents a certificate, the other is not polled yet. *)
Definition two_clients : acceptor :=
  on_handshake
    (task_begin Tls (on_accept Tls (Ok (Ok tt)) (on_accept Tls (Ok (Ok tt))
       (acceptor_start two_permits))) 0)
    0 (TlsAccepted (Some [[x01]; [x02]])).

Lemma two_clients_reachable : rtc (accept_step Tls) (acceptor_start two_permits) two_clients.
Proof.
  eapply rtc_l; [by apply (as_accept _ _ (Ok (Ok tt)))|].
  eapply rtc_l; [by apply (as_accept _ _ (Ok (Ok tt)))|].
  eapply rtc_l; [by apply (as_begin _ _ 0)|].
  apply rtc_once. by apply (as_handshake _ _ 0 (TlsAccepted (Some [[x01]; [x02]]))).
Qed.

Lemma accept_loop_bounded_witness :
  ac_tasks two_clients = [Serving (Some (MkPeerIdentity [x01])); Spawned] ∧
  live_tasks two_clients + available_permits (ac_permits two_clients) = 2 ∧
  ac_active_connections two_clients = 1.
Proof.
  destruct (accept_loop_bounded counting_laws Tls two_permits two_clients) as (H1 & H2 & _).
  - vm_compute. split; congruence.
  - apply two_clients_reachable.
  - split; [reflexivity|]. split; [exact H1|]. rewrite H2. reflexivity.
Defined.

(** * Behaviour at the edges *)

(** A task that was admitted and does not serve yet is not counted: the counters
    that [ServerHandle::drain] waits for are zero while a client is in its TLS
    handshake, and the connection is served afterwards. *)
Example handshake_not_counted :
  let waiting := on_drain_changed (Some true)
    (task_begin Tls (on_accept Tls (Ok (Ok tt)) (acceptor_start two_permits)) 0) in
  ac_active_connections waiting = 0 ∧ ac_returned waiting = Some (Ok tt) ∧
  live_tasks waiting = 1 ∧
  ac_active_connections (on_handshake waiting 0 (TlsAccepted None)) = 1.
Proof. vm_compute. done. Qed.

(** A failure on one accepted stream ends the loop for all of them. *)
Example nodelay_failure_stops_server e :
  ac_returned (on_accept Tcp (Ok (Err e)) (acceptor_start two_permits)) = Some (Err e).
Proof. reflexivity. Qed.
