(* ===== verification/Descriptor.v ===== *)
(** The Protobuf descriptors the code generator reads, and the small helpers
    that its modules share.  The descriptor records have the fields of
    [prost_types] that [codegen/src/lib.rs] and [codegen/src/schema.rs] look
    at, optional where the Protobuf descriptors are; [fl_java_package] is the
    option of that name, absent without options. *)
From S2P Require Import Prelude OrdMap.

Record FieldDescriptorProto := MkField {
  fd_name : option string;
  fd_number : option Z;
  fd_label : option Z;
  fd_type : option Z;
  fd_type_name : option string;
  fd_oneof_index : option Z;
  fd_proto3_optional : option bool;
}.

Record ReservedRange := MkReservedRange { rr_start : option Z; rr_end : option Z }.

Record EnumValueDescriptorProto := MkEnumValue {
  evd_name : option string;
  evd_number : option Z;
}.

Record EnumDescriptorProto := MkEnum {
  ed_name : option string;
  ed_value : list EnumValueDescriptorProto;
  ed_reserved_range : list ReservedRange;
  ed_reserved_name : list string;
}.

Inductive DescriptorProto :=
  | MkMessage (name : option string) (field : list FieldDescriptorProto)
      (nested_type : list DescriptorProto) (enum_type : list EnumDescriptorProto)
      (reserved_range : list ReservedRange) (reserved_name : list string).

Definition message_name (m : DescriptorProto) : option string :=
  match m with MkMessage name _ _ _ _ _ => name end.

Record MethodDescriptorProto := MkMethod {
  md_name : option string;
  md_input_type : option string;
  md_output_type : option string;
  md_client_streaming : option bool;
  md_server_streaming : option bool;
}.

Record ServiceDescriptorProto := MkService {
  sd_name : option string;
  sd_method : list MethodDescriptorProto;
}.

Record FileDescriptorProto := MkFile {
  fl_name : option string;
  fl_package : option string;
  fl_java_package : option string;
  fl_message_type : list DescriptorProto;
  fl_enum_type : list EnumDescriptorProto;
  fl_service : list ServiceDescriptorProto;
}.

(** * Errors

    Every error of the generator is an [io::Error] of kind [InvalidData] around
    a text; texts that format numbers or debug output are kept as data. *)
Inductive CodegenError :=
  | Invalid (text : string)
  | IdCollision (what canonical : string) (id : Z)
  | UnknownEnumValue (field : string) (value : Z)
  | InvalidScope (canonical scope : string).

Definition required (value : option string) (field : string) : result CodegenError string :=
  ok_or value (Invalid ("missing " +:+ field)).

(** * Iterators *)

(** A [for] loop whose body may leave the function with [?]. *)
Fixpoint try_fold {E A B} (f : A → B → result E B) (l : list A) (acc : B) : result E B :=
  match l with
  | [] => Ok acc
  | x :: l => acc ← f x acc; try_fold f l acc
  end.

(** [.map(f).collect::<io::Result<BTreeMap<_, _>>>()] *)
Definition collect_map {E A K V} `{!Ord K} (f : A → result E (K * V)) (l : list A)
    : result E (list (K * V)) :=
  try_fold (λ x acc, p ← f x; Ok (bt_insert p.1 p.2 acc)) l [].

(** [slice::sort_by_key], which is stable. *)
Section sort.
Context {A K : Type} `{!Ord K} (key : A → K).

Definition key_leb (x y : A) : bool :=
  match cmp (key x) (key y) with Gt => false | _ => true end.

Fixpoint sorted_insert (x : A) (l : list A) : list A :=
  match l with
  | [] => [x]
  | y :: l' => if key_leb x y then x :: l else y :: sorted_insert x l'
  end.

Definition sort_by_key (l : list A) : list A := foldr sorted_insert [] l.

Definition key_le (x y : A) : Prop := key_leb x y = true.

Context `{!OrdLaws K}.

Lemma key_le_trans x y z : key_le x y → key_le y z → key_le x z.
Proof.
  unfold key_le, key_leb. intros H1 H2.
  destruct (cmp (key x) (key y)) eqn:E1; [|..|done].
  - by apply cmp_eq_iff in E1 as ->.
  - destruct (cmp (key y) (key z)) eqn:E2; [|..|done].
    + apply cmp_eq_iff in E2 as <-. by rewrite E1.
    + by rewrite (cmp_lt_trans _ _ _ E1 E2).
Qed.

Lemma key_le_total x y : key_leb x y = false → key_le y x.
Proof.
  unfold key_le, key_leb. rewrite (cmp_antisym (key x) (key y)).
  by destruct (cmp (key x) (key y)).
Qed.

Lemma sorted_insert_perm x l : sorted_insert x l ≡ₚ x :: l.
Proof.
  induction l as [|y l IH]; simpl; [done|]. destruct (key_leb x y); [done|].
  rewrite IH. constructor.
Qed.

Lemma sort_by_key_perm l : sort_by_key l ≡ₚ l.
Proof. induction l as [|x l IH]; simpl; [done|]. by rewrite sorted_insert_perm, IH. Qed.

Lemma sorted_insert_sorted x l :
  StronglySorted key_le l → StronglySorted key_le (sorted_insert x l).
Proof.
  induction 1 as [|y l Hl IH Hy]; simpl; [repeat constructor|].
  destruct (key_leb x y) eqn:E.
  - constructor; [by constructor|]. constructor; [done|].
    eapply Forall_impl; [done|]. intros z. by apply key_le_trans.
  - constructor; [done|]. rewrite sorted_insert_perm. constructor; [|done].
    by apply key_le_total.
Qed.

Lemma sort_by_key_sorted l : StronglySorted key_le (sort_by_key l).
Proof. induction l; simpl; [constructor|]. by apply sorted_insert_sorted. Qed.
End sort.

(** * Lemmas on the iterators *)

Lemma try_fold_inv {E A B} (P : B → Prop) (f : A → B → result E B) l acc b :
  (∀ x acc b, P acc → f x acc = Ok b → P b) →
  P acc → try_fold f l acc = Ok b → P b.
Proof.
  intros Hf. revert acc. induction l as [|x l IH]; simpl; intros acc Hacc Hb; [by simplify_eq|].
  apply bind_Ok in Hb as (acc' & Hx & Hb). eauto.
Qed.

(** The accumulator after a prefix of the list. *)
Lemma try_fold_prefix {E A B} (P : list A → B → Prop) (f : A → B → result E B) l acc b :
  (∀ pre x acc b, P pre acc → f x acc = Ok b → P (pre ++ [x]) b) →
  P [] acc → try_fold f l acc = Ok b → P l b.
Proof.
  intros Hf H0. assert (∀ pre acc, P pre acc → try_fold f l acc = Ok b → P (pre ++ l) b) as H.
  { clear H0 acc. induction l as [|x l IH]; simpl; intros pre acc Hpre Hb.
    - simplify_eq. by rewrite app_nil_r.
    - apply bind_Ok in Hb as (acc' & Hx & Hb). rewrite cons_middle, (assoc_L (++)). eauto. }
  exact (H [] acc H0).
Qed.

(** The same, of a loop that is to succeed. *)
Lemma try_fold_prefix_ok {E A B} (P : list A → B → Prop) (f : A → B → result E B) l acc :
  (∀ pre x suf acc, l = pre ++ x :: suf → P pre acc → ∃ b, f x acc = Ok b ∧ P (pre ++ [x]) b) →
  P [] acc → ∃ b, try_fold f l acc = Ok b ∧ P l b.
Proof.
  intros Hf H0. assert (∀ suf pre acc, l = pre ++ suf → P pre acc →
    ∃ b, try_fold f suf acc = Ok b ∧ P l b) as H; [|exact (H l [] acc eq_refl H0)].
  clear H0 acc. induction suf as [|x suf IH]; intros pre acc Hl Hp; simpl.
  - exists acc. by rewrite Hl, app_nil_r.
  - destruct (Hf pre x suf acc Hl Hp) as (b & -> & Hb). simpl. apply (IH (pre ++ [x])); [|done].
    by rewrite <- (assoc_L (++)).
Qed.

(** What holds of the accumulator, when the elements are known. *)
Lemma try_fold_inv_elem {E A B} (P : B → Prop) (f : A → B → result E B) l acc b :
  (∀ x acc b, x ∈ l → P acc → f x acc = Ok b → P b) →
  P acc → try_fold f l acc = Ok b → P b.
Proof.
  revert acc. induction l as [|x l IH]; simpl; intros acc Hf Hacc; [by intros [= <-]|].
  intros (acc' & Hx & Hb)%bind_Ok. apply (IH acc'); [|by eapply Hf; [left|..]|done].
  intros y a b' Hy. apply Hf. by right.
Qed.

Lemma try_fold_split {E A B} (f : A → B → result E B) l acc b x :
  x ∈ l → try_fold f l acc = Ok b →
  ∃ l1 l2 acc1 acc2, l = l1 ++ x :: l2 ∧ f x acc1 = Ok acc2 ∧ try_fold f l2 acc2 = Ok b.
Proof.
  intros Hx. revert acc. induction l as [|y l IH]; intros acc; [by apply elem_of_nil in Hx|].
  simpl. intros (acc' & Hy & H)%bind_Ok. apply elem_of_cons in Hx as [->|Hx].
  - by exists [], l, acc, acc'.
  - destruct (IH Hx acc' H) as (l1 & l2 & acc1 & acc2 & -> & H1 & H2).
    by exists (y :: l1), l2, acc1, acc2.
Qed.

(** The turn of one element in a loop that only adds to what it has. *)
Lemma try_fold_elem {E A B} (R : B → B → Prop) `{!PreOrder R} (f : A → B → result E B) l acc b x :
  (∀ x acc b, f x acc = Ok b → R acc b) → x ∈ l → try_fold f l acc = Ok b →
  ∃ acc1 acc2, f x acc1 = Ok acc2 ∧ R acc2 b.
Proof.
  intros Hf Hx (l1 & l2 & acc1 & acc2 & _ & Ht & H2)%(λ H, try_fold_split _ _ _ _ _ Hx H).
  exists acc1, acc2. split; [done|]. clear Ht Hx.
  revert acc2 H2. induction l2 as [|y l2 IH]; simpl; intros acc2; [by intros [= ->]|].
  intros (acc3 & Hy%Hf & H)%bind_Ok. etrans; eauto.
Qed.

Lemma try_fold_ok {E A B} (f : A → B → result E B) l acc :
  (∀ x acc, x ∈ l → is_ok (f x acc) = true) → is_ok (try_fold f l acc) = true.
Proof.
  revert acc. induction l as [|x l IH]; simpl; intros acc H; [done|].
  specialize (H x acc ltac:(by left)) as Hx. destruct (f x acc); [|done]. simpl.
  apply IH. intros y acc' Hy. apply H. by right.
Qed.

(** A loop whose body never leaves. *)
Lemma try_fold_pure {E A B} (f : A → B → result E B) (g : B → A → B) l acc :
  (∀ x acc, x ∈ l → f x acc = Ok (g acc x)) → try_fold f l acc = Ok (foldl g acc l).
Proof.
  revert acc. induction l as [|x l IH]; intros acc H; [done|]. simpl.
  rewrite (H x) by set_solver. simpl. apply IH. intros y acc' Hy. apply H. set_solver.
Qed.

Lemma try_fold_Err {E A B} (f : A → B → result E B) l acc e :
  try_fold f l acc = Err e → ∃ x acc', x ∈ l ∧ f x acc' = Err e.
Proof.
  revert acc. induction l as [|x l IH]; simpl; intros acc; [done|].
  intros [Hx|(acc' & _ & Hl)]%bind_Err; [exists x, acc; set_solver|].
  apply IH in Hl as (y & acc'' & Hy & He). exists y, acc''. set_solver.
Qed.

Lemma collect_map_sorted {E A K V} `{OrdLaws K} (f : A → result E (K * V)) l m :
  collect_map f l = Ok m → bt_sorted m.
Proof.
  apply (try_fold_inv bt_sorted); [|constructor].
  intros x acc b Hacc (p & _ & [= <-])%bind_Ok. by apply bt_insert_sorted.
Qed.
