(* ===== verification/Tls.v ===== *)
(** Loading a mutual-TLS configuration, [moonlight-bridge-server/src/tls.rs].
    The PEM reader and [rustls] are parameters: the outcomes of reading the
    three files, the root store's test of a certificate, and the two builders. *)
From S2P Require Import Prelude Descriptor Transport.

Section tls.
Context {Certificate PrivateKey Verifier Config RustlsError : Type}.
(** [RootCertStore::add] accepts a certificate or says why not. *)
Context (root_accepts : Certificate → result RustlsError unit).
Context (build_verifier : list Certificate → result RustlsError Verifier).
Context (build_config : Verifier → list Certificate → PrivateKey → result RustlsError Config).

(** [pem::Error]: of the file, or of its contents. *)
Inductive pem_failure :=
  | PemIo (e : IoError)
  | PemInvalid.

Inductive tls_error :=
  | TlsIo (e : IoError)
  | TlsPem
  | TlsEmptyChain
  | TlsEmptyRoots
  | TlsRejected (e : RustlsError).

(** A PEM file opens or not; its items are read one by one. *)
Definition pem_file (A : Type) : Type := result pem_failure (list (result pem_failure A)).

Definition pem_error (e : pem_failure) : tls_error :=
  match e with PemIo e => TlsIo e | PemInvalid => TlsPem end.

(** [collect::<Result<Vec<_>, _>>()] *)
Definition collect_items {A} (items : list (result pem_failure A)) : result pem_failure (list A) :=
  try_fold (λ item acc, x ← item; Ok (acc ++ [x])) items [].

Definition add_root (item : result pem_failure Certificate) (roots : list Certificate)
    : result tls_error (list Certificate) :=
  certificate ← map_err pem_error item;
  _ ← map_err TlsRejected (root_accepts certificate);
  Ok (roots ++ [certificate]).

Definition load_mtls_server_config (certificate_chain : pem_file Certificate)
    (private_key : result pem_failure PrivateKey) (client_ca : pem_file Certificate)
    : result tls_error Config :=
  items ← map_err pem_error certificate_chain;
  certificates ← map_err pem_error (collect_items items);
  _ ← guard_err (bool_decide (length certificates = 0%nat)) TlsEmptyChain;
  key ← map_err pem_error private_key;
  roots ← map_err pem_error client_ca;
  roots ← try_fold add_root roots [];
  _ ← guard_err (bool_decide (length roots = 0%nat)) TlsEmptyRoots;
  verifier ← map_err TlsRejected (build_verifier roots);
  map_err TlsRejected (build_config verifier certificates key).

(** * Lemmas *)

Lemma collect_items_Ok {A} (items : list (result pem_failure A)) l :
  collect_items items = Ok l → items = map Ok l.
Proof.
  unfold collect_items. apply (try_fold_prefix (λ pre acc, pre = map Ok acc)); [|done].
  intros pre x acc b -> (y & -> & [= <-])%bind_Ok. by rewrite map_app.
Qed.

Lemma add_roots_Ok items roots :
  try_fold add_root items [] = Ok roots →
  items = map Ok roots ∧ Forall (λ c, root_accepts c = Ok tt) roots.
Proof.
  apply (try_fold_prefix (λ pre acc,
    pre = map Ok acc ∧ Forall (λ c, root_accepts c = Ok tt) acc)); [|done].
  intros pre x acc b [-> Hacc] (y & Hy%map_err_Ok & H)%bind_Ok.
  apply bind_Ok in H as ([] & Ha%map_err_Ok & [= <-]). subst x.
  rewrite map_app. split; [done|]. apply Forall_app. by repeat constructor.
Qed.

(** A server that starts with TLS authenticates its clients: the configuration
    comes from a verifier built from all certificates of the client-CA bundle,
    each accepted by the root store and at least one, and from the whole
    certificate chain, which is not empty, and the private key.  An incomplete
    bundle never yields a configuration. *)
Theorem mtls_config_complete chain key ca config :
  load_mtls_server_config chain key ca = Ok config →
  ∃ certificates k roots verifier,
    chain = Ok (map Ok certificates) ∧ certificates ≠ [] ∧ key = Ok k ∧
    ca = Ok (map Ok roots) ∧ roots ≠ [] ∧ Forall (λ c, root_accepts c = Ok tt) roots ∧
    build_verifier roots = Ok verifier ∧ build_config verifier certificates k = Ok config.
Proof.
  unfold load_mtls_server_config. intros (items & Hc%map_err_Ok & H)%bind_Ok.
  apply bind_Ok in H as (certificates & Hi%map_err_Ok%collect_items_Ok & H).
  apply bind_Ok in H as ([] & Hne%guard_err_Ok & H).
  apply bind_Ok in H as (k & Hk%map_err_Ok & H).
  apply bind_Ok in H as (cas & Hca%map_err_Ok & H).
  apply bind_Ok in H as (roots & [-> Hroots]%add_roots_Ok & H).
  apply bind_Ok in H as ([] & Hnr%guard_err_Ok & H).
  apply bind_Ok in H as (verifier & Hv%map_err_Ok & H%map_err_Ok). subst items.
  apply bool_decide_eq_false in Hne, Hnr.
  exists certificates, k, roots, verifier. split_and!; try done; by intros ->.
Qed.
End tls.
