(* ===== verification/Policy.v ===== *)
(** RPC policies of the code generator, [codegen/src/policy.rs]: how a method
    option is read from a reflected Protobuf message, normalised, validated and
    stored.  Protobuf reflection ([prost_reflect]) is an interface. *)
From S2P Require Import Prelude OrdMap Descriptor.

Definition DEFAULT_TIMEOUT_MS : Z := 2000.
Definition DEFAULT_STREAM_IDLE_TIMEOUT_MS : Z := 30000.
Definition DEFAULT_MAX_BODY_BYTES : Z := 16 * 1024 * 1024.

Module Idempotency.
Inductive Idempotency := Unspecified | ReadOnly | Idempotent | KeyRequired.
#[global] Instance Idempotency_eq_dec : EqDecision Idempotency.
Proof. solve_decision. Defined.
End Idempotency.
Abbreviation Idempotency := Idempotency.Idempotency.

Module CompressionMode.
Inductive CompressionMode := Default | Disabled | Prefer | Required.
#[global] Instance CompressionMode_eq_dec : EqDecision CompressionMode.
Proof. solve_decision. Defined.
End CompressionMode.
Abbreviation CompressionMode := CompressionMode.CompressionMode.

Record RetryPolicy := MkRetryPolicy {
  max_attempts : Z;
  initial_backoff_ms : Z;
  max_backoff_ms : Z;
  multiplier_milli : Z;
}.
#[export] Instance RetryPolicy_eq_dec : EqDecision RetryPolicy.
Proof. solve_decision. Defined.

Definition RetryPolicy_default : RetryPolicy :=
  {| max_attempts := 1; initial_backoff_ms := 25; max_backoff_ms := 1000;
     multiplier_milli := 2000 |}.

Record RpcPolicy := MkRpcPolicy {
  timeout_ms : Z;
  idle_timeout_ms : Z;
  retry : RetryPolicy;
  idempotency : Idempotency;
  max_request_bytes : Z;
  max_response_bytes : Z;
  required_scopes : list string;
  compression : CompressionMode;
  trace_sample_per_million : Z;
}.
#[export] Instance RpcPolicy_eq_dec : EqDecision RpcPolicy.
Proof. solve_decision. Defined.

Definition RpcPolicy_defaults (server_streaming : bool) : RpcPolicy :=
  {| timeout_ms := DEFAULT_TIMEOUT_MS;
     idle_timeout_ms := if server_streaming then DEFAULT_STREAM_IDLE_TIMEOUT_MS else 0;
     retry := RetryPolicy_default;
     idempotency := Idempotency.Unspecified;
     max_request_bytes := DEFAULT_MAX_BODY_BYTES;
     max_response_bytes := DEFAULT_MAX_BODY_BYTES;
     required_scopes := [];
     compression := CompressionMode.Default;
     trace_sample_per_million := 0 |}.

(** * Validation *)

(** [(lo..=hi).contains(&x)] *)
Definition within (lo hi x : Z) : bool := (lo <=? x) && (x <=? hi).

Definition policy_error (canonical text : string) : CodegenError :=
  Invalid ("RPC " +:+ canonical +:+ ": " +:+ text).

Definition scope_byte (b : byte) : bool :=
  within 0x61 0x7A (u8 b) || within 0x30 0x39 (u8 b)
  || bool_decide (u8 b ∈ [0x2E; 0x5F; 0x3A; 0x2D]).

Definition scope_invalid (scope : string) : bool :=
  bool_decide (as_bytes scope = []) || (128 <? zlen (as_bytes scope))
  || negb (forallb scope_byte (as_bytes scope)).

Definition validate_policy (canonical : string) (policy : RpcPolicy)
    (streaming server_streaming : bool) : result CodegenError unit :=
  let fails c text := guard_err c (policy_error canonical text) in
  let r := retry policy in
  _ ← fails (negb (within 1 600000 (timeout_ms policy)))
        "timeout_ms must be between 1 and 600000";
  _ ← (if server_streaming then
         fails (negb (within 1 600000 (idle_timeout_ms policy)))
           "idle_timeout_ms must be between 1 and 600000 for streams"
       else fails (negb (idle_timeout_ms policy =? 0))
           "idle_timeout_ms is valid only for streaming RPCs");
  _ ← fails (negb (within 1 8 (max_attempts r)))
        "retry max_attempts must be between 1 and 8";
  _ ← fails (negb (within 1 60000 (initial_backoff_ms r))
             || (max_backoff_ms r <? initial_backoff_ms r)
             || (300000 <? max_backoff_ms r)
             || negb (within 1000 10000 (multiplier_milli r)))
        "retry backoff settings are outside safe ranges";
  _ ← fails ((1 <? max_attempts r)
             && bool_decide (idempotency policy = Idempotency.Unspecified))
        "retries require read-only, idempotent, or idempotency-key semantics";
  _ ← fails (streaming && (1 <? max_attempts r))
        "streaming RPCs cannot enable transparent retry";
  _ ← fails (negb (within 1 (64 * 1024 * 1024) (max_request_bytes policy)))
        "max_request_bytes must be between 1 and 67108864";
  _ ← fails (negb (within 1 (64 * 1024 * 1024) (max_response_bytes policy)))
        "max_response_bytes must be between 1 and 67108864";
  _ ← fails (32 <? zlen (required_scopes policy))
        "at most 32 required scopes are permitted";
  _ ← try_fold (λ scope _, guard_err (scope_invalid scope) (InvalidScope canonical scope))
        (required_scopes policy) tt;
  fails (1000000 <? trace_sample_per_million policy)
    "trace_sample_per_million must not exceed 1000000".

(** * Reading a policy from a reflected message *)

Inductive Value (M : Type) :=
  | VU32 (value : Z)
  | VEnumNumber (value : Z)
  | VString (value : string)
  | VList (values : list (Value M))
  | VMessage (message : M)
  | VOther.
Arguments VU32 {M} value.
Arguments VEnumNumber {M} value.
Arguments VString {M} value.
Arguments VList {M} values.
Arguments VMessage {M} message.
Arguments VOther {M}.

(** What the generator calls of [prost_reflect::DynamicMessage]. *)
Class ReflectOps := {
  DynamicMessage : Type;
  has_field_by_name : DynamicMessage → string → bool;
  get_field_by_name : DynamicMessage → string → option (Value DynamicMessage);
  message_fields : DynamicMessage → list (string * Value DynamicMessage);
}.

Section reflect.
Context `{R0 : ReflectOps}.

Definition optional_u32 (message : DynamicMessage) (name : string) (default : Z)
    : result CodegenError Z :=
  if negb (has_field_by_name message name) then Ok default
  else match get_field_by_name message name with
       | Some (VU32 value) => Ok value
       | _ => Err (Invalid ("field " +:+ name +:+ " is not uint32"))
       end.

Definition enum_number (message : DynamicMessage) (name : string) : result CodegenError Z :=
  match get_field_by_name message name with
  | Some (VEnumNumber value) => Ok value
  | _ => Err (Invalid ("field " +:+ name +:+ " is not an enum"))
  end.

(** [iter().find_map(f)] *)
Fixpoint find_map {A B} (f : A → option B) (l : list A) : option B :=
  match l with
  | [] => None
  | x :: l => match f x with Some b => Some b | None => find_map f l end
  end.

Definition message_field (message : DynamicMessage) (name : string)
    : result CodegenError (option DynamicMessage) :=
  if negb (has_field_by_name message name) then Ok None
  else
    let found := find_map (λ p : string * Value DynamicMessage,
      if bool_decide (p.1 = name)
      then match p.2 with VMessage m => Some m | _ => None end
      else None) (message_fields message) in
    Some <$> ok_or found (Invalid ("field " +:+ name +:+ " is not a message")).

Definition string_list (message : DynamicMessage) (name : string)
    : result CodegenError (list string) :=
  match get_field_by_name message name with
  | Some (VList values) =>
      try_fold (λ v acc,
        match v with
        | VString s => Ok (acc ++ [s])
        | _ => Err (Invalid ("field " +:+ name +:+ " contains a non-string value"))
        end) values []
  | _ => Err (Invalid ("field " +:+ name +:+ " is not repeated string"))
  end.

Definition parse_retry (message : DynamicMessage) : result CodegenError RetryPolicy :=
  let defaults := RetryPolicy_default in
  attempts ← optional_u32 message "max_attempts" (max_attempts defaults);
  initial ← optional_u32 message "initial_backoff_ms" (initial_backoff_ms defaults);
  maximum ← optional_u32 message "max_backoff_ms" (max_backoff_ms defaults);
  multiplier ← optional_u32 message "multiplier_milli" (multiplier_milli defaults);
  Ok {| max_attempts := attempts; initial_backoff_ms := initial;
        max_backoff_ms := maximum; multiplier_milli := multiplier |}.

(** [windows(2).any(|pair| pair[0] == pair[1])] *)
Fixpoint has_adjacent_equal (l : list string) : bool :=
  match l with
  | x :: ((y :: _) as l') => bool_decide (x = y) || has_adjacent_equal l'
  | _ => false
  end.

Definition idempotency_of (n : Z) : result CodegenError Idempotency :=
  match n with
  | 0 => Ok Idempotency.Unspecified
  | 1 => Ok Idempotency.ReadOnly
  | 2 => Ok Idempotency.Idempotent
  | 3 => Ok Idempotency.KeyRequired
  | other => Err (UnknownEnumValue "idempotency" other)
  end.

Definition compression_of (n : Z) : result CodegenError CompressionMode :=
  match n with
  | 0 => Ok CompressionMode.Default
  | 1 => Ok CompressionMode.Disabled
  | 2 => Ok CompressionMode.Prefer
  | 3 => Ok CompressionMode.Required
  | other => Err (UnknownEnumValue "compression" other)
  end.

Definition parse_policy (message : DynamicMessage) (server_streaming : bool)
    : result CodegenError RpcPolicy :=
  let defaults := RpcPolicy_defaults server_streaming in
  scopes ← string_list message "required_scopes";
  let scopes := sort_by_key id scopes in
  _ ← guard_err (has_adjacent_equal scopes) (Invalid "duplicate required scope");
  timeout ← optional_u32 message "timeout_ms" (timeout_ms defaults);
  idle ← optional_u32 message "idle_timeout_ms" (idle_timeout_ms defaults);
  field ← message_field message "retry";
  retry ← match field with Some m => parse_retry m | None => Ok RetryPolicy_default end;
  number ← enum_number message "idempotency";
  idempotency ← idempotency_of number;
  request ← optional_u32 message "max_request_bytes" (max_request_bytes defaults);
  response ← optional_u32 message "max_response_bytes" (max_response_bytes defaults);
  number ← enum_number message "compression";
  compression ← compression_of number;
  sample ← optional_u32 message "trace_sample_per_million" 0;
  Ok {| timeout_ms := timeout; idle_timeout_ms := idle; retry := retry;
        idempotency := idempotency; max_request_bytes := request;
        max_response_bytes := response; required_scopes := scopes;
        compression := compression; trace_sample_per_million := sample |}.

(** * All policies of a descriptor pool *)

(** A method of the pool; [pm_option] is the value of the policy extension when
    the method's options have it. *)
Record PoolMethod := MkPoolMethod {
  pm_name : string;
  pm_client_streaming : bool;
  pm_server_streaming : bool;
  pm_option : option (Value DynamicMessage);
}.

Record Pool := MkPool {
  pool_has_extension : bool;
  pool_services : list (string * list PoolMethod);
}.

Definition canonical_name (service : string) (m : PoolMethod) : string :=
  service +:+ "/" +:+ pm_name m.

Definition method_policy (has_extension : bool) (canonical : string) (m : PoolMethod)
    : result CodegenError RpcPolicy :=
  match (if has_extension then pm_option m else None) with
  | None => Ok (RpcPolicy_defaults (pm_server_streaming m))
  | Some (VMessage message) => parse_policy message (pm_server_streaming m)
  | Some _ => Err (Invalid ("RPC " +:+ canonical +:+ " has a non-message rpc_policy option"))
  end.

Definition insert_policy (has_extension : bool) (service : string) (m : PoolMethod)
    (policies : list (string * RpcPolicy)) : result CodegenError (list (string * RpcPolicy)) :=
  let canonical := canonical_name service m in
  policy ← method_policy has_extension canonical m;
  _ ← validate_policy canonical policy (pm_client_streaming m || pm_server_streaming m)
        (pm_server_streaming m);
  Ok (bt_insert canonical policy policies).

Definition policies_from_pool (pool : Pool) : result CodegenError (list (string * RpcPolicy)) :=
  try_fold (λ service policies,
    try_fold (insert_policy (pool_has_extension pool) service.1) service.2 policies)
    (pool_services pool) [].
End reflect.

(** * What a stored policy guarantees *)

Definition scope_ok (s : string) : Prop :=
  1 <= zlen (as_bytes s) <= 128 ∧ Forall (λ b, scope_byte b = true) (as_bytes s).

Record policy_safe (streaming server_streaming : bool) (p : RpcPolicy) : Prop := {
  ps_timeout : 1 <= timeout_ms p <= 600000;
  ps_idle : if server_streaming then 1 <= idle_timeout_ms p <= 600000
            else idle_timeout_ms p = 0;
  ps_attempts : 1 <= max_attempts (retry p) <= 8;
  ps_backoff : 1 <= initial_backoff_ms (retry p) <= max_backoff_ms (retry p) ∧
               initial_backoff_ms (retry p) <= 60000 ∧ max_backoff_ms (retry p) <= 300000;
  ps_multiplier : 1000 <= multiplier_milli (retry p) <= 10000;
  ps_retry : 1 < max_attempts (retry p) →
             idempotency p ≠ Idempotency.Unspecified ∧ streaming = false;
  ps_sizes : 1 <= max_request_bytes p <= 67108864 ∧ 1 <= max_response_bytes p <= 67108864;
  ps_scopes : zlen (required_scopes p) <= 32 ∧ Forall scope_ok (required_scopes p);
  ps_sample : trace_sample_per_million p <= 1000000;
}.

Lemma within_true lo hi x : within lo hi x = true ↔ lo <= x <= hi.
Proof. unfold within. rewrite andb_true_iff, !Z.leb_le. done. Qed.

Lemma scope_invalid_false s : scope_invalid s = false ↔ scope_ok s.
Proof.
  unfold scope_invalid, scope_ok. rewrite !orb_false_iff, negb_false_iff, forallb_forall.
  rewrite bool_decide_eq_false, Z.ltb_ge, Forall_forall.
  setoid_rewrite list_elem_of_In.
  assert (as_bytes s ≠ [] ↔ 1 <= zlen (as_bytes s)) as ->.
  { destruct (as_bytes s); unfold zlen; simpl; split; (done || lia). }
  tauto.
Qed.

Lemma try_fold_guard {E A} (c : A → bool) (e : A → E) l u :
  try_fold (λ x _, guard_err (c x) (e x)) l tt = Ok u ↔ Forall (λ x, c x = false) l.
Proof.
  destruct u. induction l as [|x l IH]; simpl; [naive_solver|].
  rewrite bind_Ok, Forall_cons, <- IH. split.
  - intros ([] & H1%guard_err_Ok & H2). done.
  - intros []. exists tt. by rewrite guard_err_Ok.
Qed.

Lemma bind_unit_Ok {E} (r : result E unit) (f : result E unit) :
  (r ≫= (λ _, f)) = Ok tt ↔ r = Ok tt ∧ f = Ok tt.
Proof.
  rewrite bind_Ok. split; [intros ([] & ? & ?); done|]. intros []. by exists tt.
Qed.

(** Validation accepts exactly the safe policies. *)
Lemma validate_policy_Ok canonical p streaming server_streaming u :
  validate_policy canonical p streaming server_streaming = Ok u ↔
  policy_safe streaming server_streaming p.
Proof.
  destruct u. unfold validate_policy.
  assert (Hidle : (if server_streaming
      then guard_err (negb (within 1 600000 (idle_timeout_ms p)))
             (policy_error canonical "idle_timeout_ms must be between 1 and 600000 for streams")
      else guard_err (negb (idle_timeout_ms p =? 0))
             (policy_error canonical "idle_timeout_ms is valid only for streaming RPCs"))
    = Ok tt ↔ if server_streaming then 1 <= idle_timeout_ms p <= 600000
              else idle_timeout_ms p = 0).
  { destruct server_streaming; rewrite guard_err_Ok, negb_false_iff;
      [apply within_true|apply Z.eqb_eq]. }
  rewrite !bind_unit_Ok, Hidle, !guard_err_Ok, try_fold_guard, !orb_false_iff, !negb_false_iff,
    !within_true, !andb_false_iff, !Z.ltb_ge, bool_decide_eq_false.
  setoid_rewrite scope_invalid_false. split.
  - intros (? & ? & ? & ? & Hid & Hst & ? & ? & ? & ? & ?).
    constructor; try (done || lia). intros ?. split; [|destruct Hst; [done|lia]].
    destruct Hid; [lia|done].
  - intros [? ? ? ? ? Hr ? ? ?].
    destruct (Z.lt_ge_cases 1 (max_attempts (retry p))) as [Hm|Hm].
    + destruct (Hr Hm). naive_solver lia.
    + naive_solver lia.
Qed.

Lemma sorted_distinct_NoDup l :
  StronglySorted (key_le id) l → has_adjacent_equal l = false → NoDup l.
Proof.
  induction 1 as [|x l Hl IH Hx]; intros Hd; [constructor|].
  destruct l as [|y l]; [repeat constructor; set_solver|].
  simpl in Hd. apply orb_false_iff in Hd as [Hxy%bool_decide_eq_false Hd].
  constructor; [|by apply IH]. intros Hin.
  apply elem_of_cons in Hin as [->|Hin]; [done|].
  inversion Hl as [|? ? _ Hy]; subst. rewrite Forall_forall in Hy. apply Hy in Hin.
  inversion Hx as [|? ? Hle _]; subst. unfold key_le, key_leb, id in Hle, Hin.
  rewrite (cmp_antisym x y) in Hin. destruct (cmp x y) eqn:E; try done.
  by apply cmp_eq_iff in E.
Qed.

Lemma defaults_safe client server : policy_safe (client || server) server (RpcPolicy_defaults server).
Proof.
  constructor; unfold RpcPolicy_defaults, DEFAULT_TIMEOUT_MS, DEFAULT_STREAM_IDLE_TIMEOUT_MS,
    DEFAULT_MAX_BODY_BYTES; simpl; try lia.
  - destruct server; lia.
  - split; [by vm_compute|constructor].
Qed.

Section policy_lemmas.
Context `{R0 : ReflectOps}.

Lemma parse_policy_scopes message server_streaming p :
  parse_policy message server_streaming = Ok p → NoDup (required_scopes p).
Proof.
  unfold parse_policy. intros (scopes & _ & H)%bind_Ok.
  apply bind_Ok in H as ([] & Hd%guard_err_Ok & H).
  repeat (apply bind_Ok in H as (? & _ & H)). simplify_eq. simpl.
  apply sorted_distinct_NoDup; [exact (sort_by_key_sorted id scopes)|done].
Qed.

(** What the map holds for a method of the pool. *)
Definition policy_of (m : PoolMethod) (p : RpcPolicy) : Prop :=
  policy_safe (pm_client_streaming m || pm_server_streaming m) (pm_server_streaming m) p ∧
  NoDup (required_scopes p) ∧
  (pm_option m = None → p = RpcPolicy_defaults (pm_server_streaming m)).

Lemma insert_policy_Ok ext service m ps ps' :
  insert_policy ext service m ps = Ok ps' →
  ∃ p, policy_of m p ∧ ps' = bt_insert (canonical_name service m) p ps.
Proof.
  unfold insert_policy. intros (p & Hp & H)%bind_Ok.
  apply bind_Ok in H as (u & Hv%validate_policy_Ok & [= <-]).
  exists p. split; [|done]. split; [done|]. unfold method_policy in Hp.
  destruct ext, (pm_option m) as [[]|] eqn:E; simplify_eq;
    (split; [first [by eapply parse_policy_scopes|constructor]|done]).
Qed.

(** The methods of the pool, each with the full name of its service. *)
Definition pool_methods (pool : Pool) : list (string * PoolMethod) :=
  '(service, ms) ← pool_services pool; pair service <$> ms.

Definition policies_for (ms : list (string * PoolMethod)) (ps : list (string * RpcPolicy)) : Prop :=
  bt_sorted ps ∧
  (∀ service m, (service, m) ∈ ms → is_Some (bt_get (canonical_name service m) ps)) ∧
  (∀ c p, bt_get c ps = Some p →
     ∃ service m, (service, m) ∈ ms ∧ c = canonical_name service m ∧ policy_of m p).

Lemma policies_for_insert ms ps service m p :
  policies_for ms ps → policy_of m p →
  policies_for (ms ++ [(service, m)]) (bt_insert (canonical_name service m) p ps).
Proof.
  intros (Hs & Hall & Hget) Hp. split; [by apply bt_insert_sorted|]. split.
  - intros service' m' Hin.
    destruct (decide (canonical_name service' m' = canonical_name service m)) as [->|Hne].
    + by rewrite bt_get_insert_eq.
    + rewrite bt_get_insert_ne by done. apply Hall. set_solver.
  - intros c q Hq. destruct (decide (c = canonical_name service m)) as [->|Hne].
    + rewrite bt_get_insert_eq in Hq. simplify_eq. exists service, m. set_solver.
    + rewrite bt_get_insert_ne in Hq by done.
      apply Hget in Hq as (s' & m' & ? & ? & ?). exists s', m'. set_solver.
Qed.

Lemma service_policies ext service ms pre ps ps' :
  policies_for pre ps →
  try_fold (insert_policy ext service) ms ps = Ok ps' →
  policies_for (pre ++ (pair service <$> ms)) ps'.
Proof.
  intros Hps. apply (try_fold_prefix (λ ms ps, policies_for (pre ++ (pair service <$> ms)) ps)).
  - intros done_ m acc b Hacc (p & Hp & ->)%insert_policy_Ok.
    rewrite fmap_app, (assoc_L (++)). by apply policies_for_insert.
  - by rewrite app_nil_r.
Qed.

Lemma insert_policy_Err ext service m ps e :
  insert_policy ext service m ps = Err e → ext = true ∧ is_Some (pm_option m).
Proof.
  unfold insert_policy, method_policy. destruct ext, (pm_option m) eqn:E; try done.
  all: simpl; intros [Hv|(? & _ & ?)]%bind_Err; [|done].
  all: pose proof (proj2 (validate_policy_Ok (canonical_name service m)
         (RpcPolicy_defaults (pm_server_streaming m)) _ _ tt)
         (defaults_safe (pm_client_streaming m) (pm_server_streaming m))); congruence.
Qed.

(** * Properties *)

(** A descriptor pool is turned into exactly one policy per RPC method, and
    every stored policy is safe: timeouts, retry counts, backoff, body sizes and
    the sampling rate are within their bounds, scopes are valid and without
    duplicates, more than one attempt is allowed only to a non-streaming
    method that declares how repeating it is safe, and a method without the
    policy option gets the defaults.  Only a method that sets the option can
    make the generator fail. *)
Theorem policies_from_pool_correct (pool : Pool) :
  match policies_from_pool pool with
  | Ok ps => policies_for (pool_methods pool) ps
  | Err _ => pool_has_extension pool = true ∧
             ∃ service m, (service, m) ∈ pool_methods pool ∧ is_Some (pm_option m)
  end.
Proof.
  destruct (policies_from_pool pool) as [ps|e] eqn:H.
  - revert H. unfold policies_from_pool, pool_methods.
    apply (try_fold_prefix (λ services ps,
      policies_for ('(service, ms) ← services; pair service <$> ms) ps)).
    + intros pre [service ms] acc b Hacc Hb. rewrite bind_app. simpl. rewrite app_nil_r.
      by eapply service_policies.
    + split; [constructor|]. split; [set_solver|done].
  - apply try_fold_Err in H as ([service ms] & ps & Hs & H).
    apply try_fold_Err in H as (m & ps' & Hm & [? ?]%insert_policy_Err). split; [done|].
    exists service, m. split; [|done]. unfold pool_methods.
    apply list_elem_of_bind. exists (service, ms). set_solver.
Qed.
End policy_lemmas.

(** * A concrete reflection: messages as association lists *)

Inductive assoc_message := Assoc (fields : list (string * Value assoc_message)).

Definition assoc_fields (m : assoc_message) : list (string * Value assoc_message) :=
  match m with Assoc fields => fields end.
Definition assoc_find (m : assoc_message) (name : string) : option (Value assoc_message) :=
  find_map (λ p, if bool_decide (p.1 = name) then Some p.2 else None) (assoc_fields m).

(** A field that is not set reads as its default. *)
Definition assoc_default (name : string) : option (Value assoc_message) :=
  if bool_decide (name = "required_scopes") then Some (VList [])
  else if bool_decide (name ∈ ["idempotency"; "compression"]) then Some (VEnumNumber 0)
  else None.

#[export] Instance assoc_ops : ReflectOps :=
  {| DynamicMessage := assoc_message;
     has_field_by_name m name := bool_decide (is_Some (assoc_find m name));
     get_field_by_name m name :=
       match assoc_find m name with Some v => Some v | None => assoc_default name end;
     message_fields := assoc_fields |}.

Definition retrying (idempotency : Z) : Value assoc_message :=
  VMessage (Assoc [("idempotency", VEnumNumber idempotency);
                   ("required_scopes", VList [VString "write"; VString "admin"]);
                   ("retry", VMessage (Assoc [("max_attempts", VU32 3)]))]).

Definition sample_pool (idempotency : Z) (streaming : bool) : Pool :=
  {| pool_has_extension := true;
     pool_services := [("shop.Orders", [
       {| pm_name := "Put"; pm_client_streaming := false; pm_server_streaming := streaming;
          pm_option := Some (retrying idempotency) |};
       {| pm_name := "Get"; pm_client_streaming := false; pm_server_streaming := false;
          pm_option := None |}])] |}.

Example sample_pool_accepted :
  (λ ps, (ps.1, max_attempts (retry ps.2), required_scopes ps.2)) <$>
    default [] (ok (policies_from_pool (sample_pool 3 false))) =
  [("shop.Orders/Get", 1, []); ("shop.Orders/Put", 3, ["admin"; "write"])]%string.
Proof. vm_compute. reflexivity. Qed.

(** Retries of a method that declares nothing, and of a stream, are refused. *)
Example sample_pool_refused :
  is_err (policies_from_pool (sample_pool 0 false)) = true ∧
  is_err (policies_from_pool (sample_pool 3 true)) = true.
Proof. vm_compute. auto. Qed.
