(* ===== verification/Schema.v ===== *)
(** Schema locks of the code generator, [codegen/src/schema.rs]: the normalised
    snapshot of a descriptor set and the check that a newer schema is
    compatible with a locked one.  Reading files, Protobuf decoding and the
    JSON of the lock file are outside: the operations here start from the
    decoded values. *)
From S2P Require Import Prelude OrdMap Descriptor Policy.

Definition LOCK_FORMAT : Z := 2.
Definition i32_max : Z := 2 ^ 31 - 1.

Record NumberRange := MkNumberRange { start : Z; end_ : Z }.

Record LockedField := MkLockedField {
  lf_name : string;
  lf_number : Z;
  lf_label : Z;
  lf_kind : Z;
  lf_type_name : string;
  lf_oneof_index : option Z;
  lf_proto3_optional : bool;
}.
#[export] Instance LockedField_eq_dec : EqDecision LockedField.
Proof. solve_decision. Defined.

Record LockedMessage := MkLockedMessage {
  lm_fields : list (Z * LockedField);
  lm_reserved_ranges : list NumberRange;
  lm_reserved_names : list string;
}.

Record LockedEnum := MkLockedEnum {
  le_values : list (Z * string);
  le_reserved_ranges : list NumberRange;
  le_reserved_names : list string;
}.

Record LockedMethod := MkLockedMethod {
  lk_input : string;
  lk_output : string;
  lk_client_streaming : bool;
  lk_server_streaming : bool;
  lk_policy : RpcPolicy;
}.

Record LockedService := MkLockedService { ls_methods : list (string * LockedMethod) }.

Record SchemaLock := MkSchemaLock {
  format : Z;
  messages : list (string * LockedMessage);
  enums : list (string * LockedEnum);
  services : list (string * LockedService);
}.

(** * The snapshot of a descriptor set *)

Definition qualify (prefix name : string) : string :=
  if bool_decide (prefix = "") then name else prefix +:+ "." +:+ name.

Definition insert_message (lock : SchemaLock) (name : string) (m : LockedMessage) : SchemaLock :=
  {| format := format lock; messages := bt_insert name m (messages lock);
     enums := enums lock; services := services lock |}.
Definition insert_enum (lock : SchemaLock) (name : string) (e : LockedEnum) : SchemaLock :=
  {| format := format lock; messages := messages lock;
     enums := bt_insert name e (enums lock); services := services lock |}.
Definition insert_service (lock : SchemaLock) (name : string) (s : LockedService) : SchemaLock :=
  {| format := format lock; messages := messages lock; enums := enums lock;
     services := bt_insert name s (services lock) |}.

Definition locked_field (f : FieldDescriptorProto) : result CodegenError (Z * LockedField) :=
  number ← ok_or (fd_number f) (Invalid "field number is missing");
  name ← required (fd_name f) "field name";
  Ok (number,
      {| lf_name := name; lf_number := number; lf_label := default 0 (fd_label f);
         lf_kind := default 0 (fd_type f); lf_type_name := default "" (fd_type_name f);
         lf_oneof_index := fd_oneof_index f;
         lf_proto3_optional := default false (fd_proto3_optional f) |}).

Definition message_range (r : ReservedRange) : NumberRange :=
  {| start := default 0 (rr_start r); end_ := default 0 (rr_end r) |}.

(** Enum ranges are inclusive in the descriptor: [saturating_add(1)]. *)
Definition enum_range (r : ReservedRange) : NumberRange :=
  {| start := default 0 (rr_start r); end_ := Z.min i32_max (default 0 (rr_end r) + 1) |}.

Definition locked_value (v : EnumValueDescriptorProto) : result CodegenError (Z * string) :=
  number ← ok_or (evd_number v) (Invalid "enum value number is missing");
  name ← required (evd_name v) "enum value name";
  Ok (number, name).

Definition snapshot_enum (prefix : string) (e : EnumDescriptorProto) (lock : SchemaLock)
    : result CodegenError SchemaLock :=
  name ← required (ed_name e) "enum name";
  values ← collect_map locked_value (ed_value e);
  Ok (insert_enum lock (qualify prefix name)
        {| le_values := values;
           le_reserved_ranges := map enum_range (ed_reserved_range e);
           le_reserved_names := ed_reserved_name e |}).

Fixpoint snapshot_message (prefix : string) (m : DescriptorProto) (lock : SchemaLock)
    : result CodegenError SchemaLock :=
  match m with
  | MkMessage name field nested_type enum_type reserved_range reserved_name =>
      name ← required name "message name";
      let full_name := qualify prefix name in
      fields ← collect_map locked_field field;
      let lock := insert_message lock full_name
        {| lm_fields := fields; lm_reserved_ranges := map message_range reserved_range;
           lm_reserved_names := reserved_name |} in
      lock ← (fix nested l lock :=
        match l with
        | [] => Ok lock
        | m :: l => lock ← snapshot_message full_name m lock; nested l lock
        end) nested_type lock;
      try_fold (snapshot_enum full_name) enum_type lock
  end.

Definition locked_method (policies : list (string * RpcPolicy)) (full_name : string)
    (m : MethodDescriptorProto) : result CodegenError (string * LockedMethod) :=
  name ← required (md_name m) "method name";
  let canonical := full_name +:+ "/" +:+ name in
  input ← required (md_input_type m) "method input";
  output ← required (md_output_type m) "method output";
  policy ← ok_or (bt_get canonical policies) (Invalid ("missing policy for " +:+ canonical));
  Ok (name,
      {| lk_input := input; lk_output := output;
         lk_client_streaming := default false (md_client_streaming m);
         lk_server_streaming := default false (md_server_streaming m);
         lk_policy := policy |}).

Definition snapshot_service (policies : list (string * RpcPolicy)) (package : string)
    (s : ServiceDescriptorProto) (lock : SchemaLock) : result CodegenError SchemaLock :=
  name ← required (sd_name s) "service name";
  let full_name := qualify package name in
  methods ← collect_map (locked_method policies full_name) (sd_method s);
  Ok (insert_service lock full_name {| ls_methods := methods |}).

Definition snapshot_file (policies : list (string * RpcPolicy)) (file : FileDescriptorProto)
    (lock : SchemaLock) : result CodegenError SchemaLock :=
  let package := default "" (fl_package file) in
  lock ← try_fold (snapshot_message package) (fl_message_type file) lock;
  lock ← try_fold (snapshot_enum package) (fl_enum_type file) lock;
  try_fold (snapshot_service policies package) (fl_service file) lock.

Definition is_runtime_file (file : FileDescriptorProto) : bool :=
  bool_decide (fl_name file = Some "google/protobuf/descriptor.proto")
  || bool_decide (fl_name file = Some "moonlight/bridge/options/v1/options.proto").

Definition snapshot (descriptor : list FileDescriptorProto)
    (policies : list (string * RpcPolicy)) : result CodegenError SchemaLock :=
  try_fold (λ file lock,
    if is_runtime_file file then Ok lock else snapshot_file policies file lock) descriptor
    {| format := LOCK_FORMAT; messages := []; enums := []; services := [] |}.

(** * Compatibility

    The texts of the error list are kept as data. *)

Inductive breaking :=
  | Removed (kind name : string)
  | NumbersReleased (kind name : string) (first last : Z)
  | NameReleased (kind name reserved : string)
  | FieldChanged (name : string) (number : Z) (old new : LockedField)
  | FieldRemoved (name : string) (number : Z) (old : LockedField)
  | ValueChanged (name : string) (number : Z) (old new : string)
  | ValueRemoved (name : string) (number : Z) (old : string)
  | MethodRemoved (service method : string)
  | SignatureChanged (service method : string)
  | PolicyChanged (service method : string).

(** The loop of [range_is_covered] over the sorted ranges. *)
Fixpoint covered_loop (cursor required_end : Z) (ranges : list NumberRange) : bool :=
  match ranges with
  | [] => required_end <=? cursor
  | range :: ranges =>
      if end_ range <=? cursor then covered_loop cursor required_end ranges
      else if cursor <? start range then false
      else
        let cursor := Z.max cursor (end_ range) in
        if required_end <=? cursor then true else covered_loop cursor required_end ranges
  end.

Definition range_is_covered (required : NumberRange) (available : list NumberRange) : bool :=
  covered_loop (start required) (end_ required) (sort_by_key start available).

Definition is_reserved (number : Z) (name : string) (ranges : list NumberRange)
    (names : list string) : bool :=
  existsb (λ r, (start r <=? number) && (number <? end_ r)) ranges
  && existsb (λ n, bool_decide (n = name)) names.

Definition check_preserved_reservations (kind name : string) (old_ranges : list NumberRange)
    (old_names : list string) (new_ranges : list NumberRange) (new_names : list string)
    : list breaking :=
  omap (λ r, if range_is_covered r new_ranges then None
             else Some (NumbersReleased kind name (start r) (end_ r))) old_ranges
  ++ omap (λ n, if existsb (λ m, bool_decide (m = n)) new_names then None
                else Some (NameReleased kind name n)) old_names.

Definition field_error (name : string) (new : LockedMessage) (e : Z * LockedField)
    : option breaking :=
  let '(number, old_field) := e in
  match bt_get number (lm_fields new) with
  | Some new_field =>
      if bool_decide (new_field ≠ old_field)
      then Some (FieldChanged name number old_field new_field) else None
  | None =>
      if negb (is_reserved number (lf_name old_field) (lm_reserved_ranges new)
                 (lm_reserved_names new))
      then Some (FieldRemoved name number old_field) else None
  end.

Definition value_error (name : string) (new : LockedEnum) (e : Z * string) : option breaking :=
  let '(number, old_name) := e in
  match bt_get number (le_values new) with
  | Some new_name =>
      if bool_decide (new_name ≠ old_name)
      then Some (ValueChanged name number old_name new_name) else None
  | None =>
      if negb (is_reserved number old_name (le_reserved_ranges new) (le_reserved_names new))
      then Some (ValueRemoved name number old_name) else None
  end.

Definition method_error (name : string) (new : LockedService) (e : string * LockedMethod)
    : option breaking :=
  let '(method, old_method) := e in
  match bt_get method (ls_methods new) with
  | None => Some (MethodRemoved name method)
  | Some new_method =>
      if bool_decide (lk_input new_method ≠ lk_input old_method)
         || bool_decide (lk_output new_method ≠ lk_output old_method)
         || bool_decide (lk_client_streaming new_method ≠ lk_client_streaming old_method)
         || bool_decide (lk_server_streaming new_method ≠ lk_server_streaming old_method)
      then Some (SignatureChanged name method)
      else if bool_decide (lk_policy new_method ≠ lk_policy old_method)
      then Some (PolicyChanged name method) else None
  end.

Definition message_errors (new : SchemaLock) (e : string * LockedMessage) : list breaking :=
  let '(name, old_message) := e in
  match bt_get name (messages new) with
  | None => [Removed "message" name]
  | Some new_message =>
      check_preserved_reservations "message" name
        (lm_reserved_ranges old_message) (lm_reserved_names old_message)
        (lm_reserved_ranges new_message) (lm_reserved_names new_message)
      ++ omap (field_error name new_message) (lm_fields old_message)
  end.

Definition enum_errors (new : SchemaLock) (e : string * LockedEnum) : list breaking :=
  let '(name, old_enum) := e in
  match bt_get name (enums new) with
  | None => [Removed "enum" name]
  | Some new_enum =>
      check_preserved_reservations "enum" name
        (le_reserved_ranges old_enum) (le_reserved_names old_enum)
        (le_reserved_ranges new_enum) (le_reserved_names new_enum)
      ++ omap (value_error name new_enum) (le_values old_enum)
  end.

Definition service_errors (new : SchemaLock) (e : string * LockedService) : list breaking :=
  let '(name, old_service) := e in
  match bt_get name (services new) with
  | None => [Removed "service" name]
  | Some new_service => omap (method_error name new_service) (ls_methods old_service)
  end.

Definition compatibility_errors (old new : SchemaLock) : list breaking :=
  (messages old ≫= message_errors new)
  ++ (enums old ≫= enum_errors new)
  ++ (services old ≫= service_errors new).

(** * [check_lock] *)

Inductive lock_error :=
  | SnapshotFailed (e : CodegenError)
  | LockMissing
  | LockUnreadable
  | LockMalformed
  | UnsupportedFormat (format : Z)
  | BreakingChanges (errors : list breaking).

(** What reading and parsing the lock file gives. *)
Inductive lock_file :=
  | NotFound
  | Unreadable
  | Malformed
  | Parsed (lock : SchemaLock).

Definition check_lock (current : result CodegenError SchemaLock) (file : lock_file)
    : result lock_error unit :=
  current ← map_err SnapshotFailed current;
  previous ← match file with
             | NotFound => Err LockMissing
             | Unreadable => Err LockUnreadable
             | Malformed => Err LockMalformed
             | Parsed previous => Ok previous
             end;
  _ ← guard_err (negb (format previous =? LOCK_FORMAT)) (UnsupportedFormat (format previous));
  let errors := compatibility_errors previous current in
  if bool_decide (length errors = 0%nat) then Ok tt else Err (BreakingChanges errors).

(** * Specification *)

Definition reserves (ranges : list NumberRange) (n : Z) : Prop :=
  ∃ r, r ∈ ranges ∧ start r <= n < end_ r.

(** What survives of a set of reservations and of a numbered table. *)
Definition reservations_kept (old_ranges : list NumberRange) (old_names : list string)
    (new_ranges : list NumberRange) (new_names : list string) : Prop :=
  (∀ n, reserves old_ranges n → reserves new_ranges n) ∧ old_names ⊆ new_names.

Definition entries_kept {V} (label : V → string) (old new : list (Z * V))
    (ranges : list NumberRange) (names : list string) : Prop :=
  ∀ n v, bt_get n old = Some v →
    bt_get n new = Some v ∨
    (bt_get n new = None ∧ reserves ranges n ∧ label v ∈ names).

Definition message_kept (old new : LockedMessage) : Prop :=
  reservations_kept (lm_reserved_ranges old) (lm_reserved_names old)
    (lm_reserved_ranges new) (lm_reserved_names new) ∧
  entries_kept lf_name (lm_fields old) (lm_fields new)
    (lm_reserved_ranges new) (lm_reserved_names new).

Definition enum_kept (old new : LockedEnum) : Prop :=
  reservations_kept (le_reserved_ranges old) (le_reserved_names old)
    (le_reserved_ranges new) (le_reserved_names new) ∧
  entries_kept id (le_values old) (le_values new)
    (le_reserved_ranges new) (le_reserved_names new).

Definition service_kept (old new : LockedService) : Prop :=
  ∀ name m, bt_get name (ls_methods old) = Some m → bt_get name (ls_methods new) = Some m.

(** Every entry of a table is still there, in a form that keeps its promises. *)
Definition all_kept {V} (kept : V → V → Prop) (old new : list (string * V)) : Prop :=
  ∀ name v, bt_get name old = Some v → ∃ v', bt_get name new = Some v' ∧ kept v v'.

Record compatible (old new : SchemaLock) : Prop := {
  compatible_messages : all_kept message_kept (messages old) (messages new);
  compatible_enums : all_kept enum_kept (enums old) (enums new);
  compatible_services : all_kept service_kept (services old) (services new);
}.

(** The maps of a lock are [BTreeMap]s and its reserved ranges are not empty. *)
Definition proper (r : NumberRange) : Prop := start r < end_ r.

Record lock_wf (l : SchemaLock) : Prop := {
  wf_messages : bt_sorted (messages l) ∧
    Forall (λ p, bt_sorted (lm_fields p.2) ∧ Forall proper (lm_reserved_ranges p.2)) (messages l);
  wf_enums : bt_sorted (enums l) ∧
    Forall (λ p, bt_sorted (le_values p.2) ∧ Forall proper (le_reserved_ranges p.2)) (enums l);
  wf_services : bt_sorted (services l) ∧
    Forall (λ p, bt_sorted (ls_methods p.2)) (services l);
}.

(** No field or value uses a number its own declaration reserves, which the
    Protobuf compiler enforces. *)
Record reserves_unused (l : SchemaLock) : Prop := {
  unused_fields : ∀ name m n, bt_get name (messages l) = Some m →
    reserves (lm_reserved_ranges m) n → bt_get n (lm_fields m) = None;
  unused_values : ∀ name e n, bt_get name (enums l) = Some e →
    reserves (le_reserved_ranges e) n → bt_get n (le_values e) = None;
}.

(** * Lemmas *)

Lemma reserves_cons r ranges n :
  reserves (r :: ranges) n ↔ start r <= n < end_ r ∨ reserves ranges n.
Proof.
  unfold reserves. split.
  - intros (r' & [->|Hin]%elem_of_cons & Hn); eauto.
  - intros [Hn|(r' & ? & ?)]; [exists r|exists r']; set_solver.
Qed.

Lemma key_le_start r r' : key_le start r r' ↔ start r <= start r'.
Proof.
  unfold key_le, key_leb, cmp, Z_ord. destruct (Z.compare_spec (start r) (start r')); naive_solver lia.
Qed.

(** The scan decides coverage of the numbers from the cursor on. *)
Lemma covered_loop_correct cursor e ranges :
  cursor < e → StronglySorted (key_le start) ranges →
  covered_loop cursor e ranges = true ↔ ∀ n, cursor <= n < e → reserves ranges n.
Proof.
  intros Hc Hs. revert cursor Hc. induction Hs as [|r ranges Hs IH Hr]; intros cursor Hc; simpl.
  { rewrite Z.leb_le. split; [lia|]. intros H.
    destruct (H cursor ltac:(lia)) as (? & ?%elem_of_nil & _). done. }
  setoid_rewrite reserves_cons. destruct (Z.leb_spec (end_ r) cursor) as [He|He].
  { rewrite IH by done. split; intros H n Hn; [by right; apply H|].
    destruct (H n Hn); [lia|done]. }
  destruct (Z.ltb_spec cursor (start r)) as [Hst|Hst].
  { split; [done|]. intros H. destruct (H cursor ltac:(lia)) as [?|(r' & Hr' & ?)]; [lia|].
    rewrite Forall_forall in Hr. apply Hr, key_le_start in Hr'. lia. }
  rewrite Z.max_r by lia. destruct (Z.leb_spec e (end_ r)) as [Hee|Hee].
  { split; [|done]. intros _ n Hn. left. lia. }
  rewrite IH by done. split; intros H n Hn.
  - destruct (Z.lt_ge_cases n (end_ r)); [left; lia|right; apply H; lia].
  - destruct (H n ltac:(lia)); [lia|done].
Qed.

Lemma reserves_perm ranges ranges' n : ranges ≡ₚ ranges' → reserves ranges n ↔ reserves ranges' n.
Proof. intros Hp. unfold reserves. by setoid_rewrite Hp. Qed.

Lemma range_is_covered_correct r ranges :
  proper r →
  range_is_covered r ranges = true ↔ ∀ n, start r <= n < end_ r → reserves ranges n.
Proof.
  intros Hr. unfold range_is_covered.
  rewrite covered_loop_correct by (done || apply (sort_by_key_sorted start)).
  by setoid_rewrite (reserves_perm _ _ _ (sort_by_key_perm start ranges)).
Qed.

Lemma existsb_bool_decide (n : string) l : existsb (λ m, bool_decide (m = n)) l = true ↔ n ∈ l.
Proof.
  rewrite existsb_exists. setoid_rewrite <- list_elem_of_In. split.
  - intros (m & Hm & <-%bool_decide_eq_true). done.
  - intros Hn. exists n. split; [done|]. by apply bool_decide_eq_true.
Qed.

Lemma is_reserved_correct number name ranges names :
  is_reserved number name ranges names = true ↔ reserves ranges number ∧ name ∈ names.
Proof.
  unfold is_reserved. rewrite andb_true_iff, existsb_bool_decide, existsb_exists.
  unfold reserves. setoid_rewrite <- list_elem_of_In. setoid_rewrite andb_true_iff.
  setoid_rewrite Z.leb_le. setoid_rewrite Z.ltb_lt. done.
Qed.

Lemma omap_nil {A B} (f : A → option B) l : omap f l = [] ↔ ∀ x, x ∈ l → f x = None.
Proof.
  induction l as [|x l IH]; simpl; [set_solver|]. destruct (f x) eqn:E.
  - split; [done|]. intros H. rewrite H in E by set_solver. done.
  - rewrite IH. set_solver.
Qed.

Lemma bind_nil {A B} (f : A → list B) l : (l ≫= f) = [] ↔ ∀ x, x ∈ l → f x = [].
Proof.
  induction l as [|x l IH]; simpl; [set_solver|]. rewrite app_nil, IH. set_solver.
Qed.

Lemma check_preserved_correct kind name old_ranges old_names new_ranges new_names :
  Forall proper old_ranges →
  check_preserved_reservations kind name old_ranges old_names new_ranges new_names = [] ↔
  reservations_kept old_ranges old_names new_ranges new_names.
Proof.
  intros Hp. unfold check_preserved_reservations, reservations_kept.
  rewrite app_nil, !omap_nil. rewrite Forall_forall in Hp. f_equiv.
  - split.
    + intros H n (r & Hr & Hn). specialize (H r Hr). simpl in H.
      destruct (range_is_covered r new_ranges) eqn:E; [|done].
      by apply (proj1 (range_is_covered_correct r new_ranges (Hp r Hr)) E).
    + intros H r Hr. replace (range_is_covered r new_ranges) with true; [done|].
      symmetry. apply range_is_covered_correct; [auto|]. intros n Hn. apply H. by exists r.
  - split; intros H n Hn; specialize (H n Hn); simpl in *.
    + destruct (existsb _ new_names) eqn:E; [|done]. by apply existsb_bool_decide in E.
    + apply existsb_bool_decide in H. by rewrite H.
Qed.

(** A numbered table is checked entry by entry. *)
Lemma entries_check {V} `{!EqDecision V} (label : V → string) (err : Z * V → option breaking)
    (changed : Z → V → V → breaking) (removed : Z → V → breaking) old new ranges names :
  bt_sorted old →
  (∀ n v, err (n, v) =
     match bt_get n new with
     | Some v' => if bool_decide (v' ≠ v) then Some (changed n v v') else None
     | None => if negb (is_reserved n (label v) ranges names) then Some (removed n v) else None
     end) →
  omap err old = [] ↔ entries_kept label old new ranges names.
Proof.
  intros Hs He. rewrite omap_nil. unfold entries_kept. split.
  - intros H n v Hv. apply bt_get_elem in Hv; [|done]. specialize (H _ Hv). rewrite He in H.
    destruct (bt_get n new) as [v'|].
    + destruct (decide (v' = v)) as [->|Hne]; [by left|].
      by rewrite bool_decide_eq_true_2 in H.
    + destruct (is_reserved n (label v) ranges names) eqn:E; [|done].
      apply is_reserved_correct in E. auto.
  - intros H [n v] Hv. apply bt_get_elem in Hv; [|done]. rewrite He.
    destruct (H n v Hv) as [->|(-> & Hr)].
    + by rewrite bool_decide_eq_false_2 by (intros Hd; by apply Hd).
    + apply is_reserved_correct in Hr. by rewrite Hr.
Qed.

Lemma message_errors_correct new name old new_message :
  bt_get name (messages new) = Some new_message →
  bt_sorted (lm_fields old) → Forall proper (lm_reserved_ranges old) →
  message_errors new (name, old) = [] ↔ message_kept old new_message.
Proof.
  intros Hn Hs Hp. simpl. rewrite Hn, app_nil, check_preserved_correct by done.
  unfold message_kept. f_equiv.
  by apply (entries_check lf_name _ (FieldChanged name) (FieldRemoved name)).
Qed.

Lemma enum_errors_correct new name old new_enum :
  bt_get name (enums new) = Some new_enum →
  bt_sorted (le_values old) → Forall proper (le_reserved_ranges old) →
  enum_errors new (name, old) = [] ↔ enum_kept old new_enum.
Proof.
  intros Hn Hs Hp. simpl. rewrite Hn, app_nil, check_preserved_correct by done.
  unfold enum_kept. f_equiv.
  by apply (entries_check id _ (ValueChanged name) (ValueRemoved name)).
Qed.

Lemma method_error_None name new method old :
  method_error name new (method, old) = None ↔ bt_get method (ls_methods new) = Some old.
Proof.
  simpl. destruct (bt_get method (ls_methods new)) as [m|]; [|done].
  destruct m as [i o c s p], old as [i' o' c' s' p']; simpl. split.
  - repeat case_bool_decide; try done. intros _.
    repeat match goal with H : ¬ (_ ≠ _) |- _ => apply dec_stable in H end. by subst.
  - intros [= -> -> -> -> ->]. by rewrite !bool_decide_eq_false_2 by (intros Hd; by apply Hd).
Qed.

Lemma service_errors_correct new name old new_service :
  bt_get name (services new) = Some new_service → bt_sorted (ls_methods old) →
  service_errors new (name, old) = [] ↔ service_kept old new_service.
Proof.
  intros Hn Hs. simpl. rewrite Hn, omap_nil. unfold service_kept. split.
  - intros H method m Hm. apply bt_get_elem, H, method_error_None in Hm; done.
  - intros H [method m] Hm. apply method_error_None, H. by apply bt_get_elem.
Qed.

(** A whole table is compatible when each of its entries is. *)
Lemma table_check {V} (errors : string * V → list breaking) (kept : V → V → Prop)
    (wf : V → Prop) old new :
  bt_sorted old → Forall (λ p, wf p.2) old →
  (∀ name v, bt_get name new = None → errors (name, v) ≠ []) →
  (∀ name v v', bt_get name new = Some v' → wf v → errors (name, v) = [] ↔ kept v v') →
  (old ≫= errors) = [] ↔ all_kept kept old new.
Proof.
  intros Hs Hwf Hnone Hsome. rewrite bind_nil. unfold all_kept. rewrite Forall_forall in Hwf. split.
  - intros H name v Hv. apply bt_get_elem in Hv; [|done]. pose proof (H _ Hv) as He.
    destruct (bt_get name new) as [v'|] eqn:E; [|by apply Hnone in He].
    exists v'. split; [done|]. by apply (Hsome name v v' E (Hwf _ Hv)).
  - intros H [name v] Hv. pose proof (Hwf _ Hv) as Hw. apply bt_get_elem in Hv; [|done].
    destruct (H name v Hv) as (v' & E & Hk). by apply (Hsome name v v' E Hw).
Qed.

Lemma compatibility_errors_nil old new :
  lock_wf old → compatibility_errors old new = [] ↔ compatible old new.
Proof.
  intros [[Hm Hmf] [He Hef] [Hs Hsf]]. unfold compatibility_errors. rewrite !app_nil.
  rewrite (table_check _ message_kept
    (λ m, bt_sorted (lm_fields m) ∧ Forall proper (lm_reserved_ranges m)) _ (messages new)) by
    (done || (intros name v E; simpl; by rewrite E) ||
     (intros ? ? ? ? []; by apply message_errors_correct)).
  rewrite (table_check _ enum_kept
    (λ e, bt_sorted (le_values e) ∧ Forall proper (le_reserved_ranges e)) _ (enums new)) by
    (done || (intros name v E; simpl; by rewrite E) ||
     (intros ? ? ? ? []; by apply enum_errors_correct)).
  rewrite (table_check _ service_kept (λ s, bt_sorted (ls_methods s)) _ (services new)) by
    (done || (intros name v E; simpl; by rewrite E) ||
     (intros; by apply service_errors_correct)).
  split; [intros (? & ? & ?); by constructor|by intros [? ? ?]].
Qed.

(** ** Snapshots are well formed *)

Record lock_sorted (l : SchemaLock) : Prop := {
  sorted_format : format l = LOCK_FORMAT;
  sorted_messages : bt_sorted (messages l) ∧
    Forall (λ p, bt_sorted (lm_fields p.2)) (messages l);
  sorted_enums : bt_sorted (enums l) ∧ Forall (λ p, bt_sorted (le_values p.2)) (enums l);
  sorted_services : bt_sorted (services l) ∧
    Forall (λ p, bt_sorted (ls_methods p.2)) (services l);
}.

Definition ranges_proper (l : SchemaLock) : Prop :=
  Forall (λ p, Forall proper (lm_reserved_ranges p.2)) (messages l) ∧
  Forall (λ p, Forall proper (le_reserved_ranges p.2)) (enums l).

Lemma lock_wf_intro l : lock_sorted l → ranges_proper l → lock_wf l.
Proof.
  intros [_ [? ?] [? ?] [? ?]] [? ?]. constructor; split; try done; by apply Forall_and.
Qed.

Lemma DescriptorProto_nested_ind (P : DescriptorProto → Prop) :
  (∀ name field nested enums ranges names,
     Forall P nested → P (MkMessage name field nested enums ranges names)) →
  ∀ m, P m.
Proof.
  intros H. fix IH 1. intros [name field nested enums ranges names]. apply H.
  induction nested; constructor; [apply IH|done].
Qed.

Lemma snapshot_enum_sorted prefix e lock lock' :
  lock_sorted lock → snapshot_enum prefix e lock = Ok lock' → lock_sorted lock'.
Proof.
  intros [Hfm Hms [Hes Hef] Hss]. unfold snapshot_enum. intros (name & _ & H)%bind_Ok.
  apply bind_Ok in H as (values & Hv%collect_map_sorted & [= <-]).
  constructor; simpl; [done|done| |done]. split; [by apply bt_insert_sorted|].
  by apply bt_insert_Forall.
Qed.

Lemma snapshot_message_sorted m prefix lock lock' :
  lock_sorted lock → snapshot_message prefix m lock = Ok lock' → lock_sorted lock'.
Proof.
  revert prefix lock lock'.
  induction m as [name field nested enums ranges names IH] using DescriptorProto_nested_ind.
  intros prefix lock lock' [Hfm [Hms Hmf] Hes Hss]. cbn [snapshot_message].
  intros (name' & _ & H)%bind_Ok. apply bind_Ok in H as (fields & Hf%collect_map_sorted & H).
  apply bind_Ok in H as (lock1 & H1 & H).
  eapply (try_fold_inv lock_sorted); [|clear H|exact H].
  { intros e acc b. apply snapshot_enum_sorted. }
  revert H1. set (start := insert_message _ _ _).
  assert (Hstart : lock_sorted start).
  { constructor; simpl; try done. split; [by apply bt_insert_sorted|by apply bt_insert_Forall]. }
  revert Hstart. generalize start. clear -IH. induction IH as [|m l Hm Hl IH]; intros lock Hlock H.
  { by simplify_eq. }
  apply bind_Ok in H as (lock2 & H2 & H). eapply IH, H. by eapply Hm.
Qed.

Lemma snapshot_service_sorted policies package s lock lock' :
  lock_sorted lock → snapshot_service policies package s lock = Ok lock' → lock_sorted lock'.
Proof.
  intros [Hfm Hms Hes [Hss Hsf]]. unfold snapshot_service. intros (name & _ & H)%bind_Ok.
  apply bind_Ok in H as (methods & Hm%collect_map_sorted & [= <-]).
  constructor; simpl; [done..|]. split; [by apply bt_insert_sorted|].
  by apply bt_insert_Forall.
Qed.

Lemma snapshot_sorted files policies lock :
  snapshot files policies = Ok lock → lock_sorted lock.
Proof.
  apply (try_fold_inv lock_sorted); [|by repeat constructor].
  intros file acc b Hacc. destruct (is_runtime_file file); [by intros [= <-]|].
  unfold snapshot_file. intros (l1 & H1 & H)%bind_Ok. apply bind_Ok in H as (l2 & H2 & H).
  eapply (try_fold_inv lock_sorted); [|clear H|exact H].
  { intros s x y. apply snapshot_service_sorted. }
  eapply (try_fold_inv lock_sorted); [|clear H2|exact H2].
  { intros e x y. apply snapshot_enum_sorted. }
  eapply (try_fold_inv lock_sorted); [|exact Hacc|exact H1].
  intros m x y. apply snapshot_message_sorted.
Qed.

(** ** Compatibility is a preorder *)

Lemma all_kept_refl {V} (kept : V → V → Prop) table :
  (∀ v, kept v v) → all_kept kept table table.
Proof. intros H name v Hv. eauto. Qed.

Lemma compatible_refl l : compatible l l.
Proof.
  constructor; apply all_kept_refl.
  - intros m. split; [split; [done|set_solver]|]. intros n v Hv. by left.
  - intros e. split; [split; [done|set_solver]|]. intros n v Hv. by left.
  - by intros s name m.
Qed.

Lemma reservations_kept_trans r1 n1 r2 n2 r3 n3 :
  reservations_kept r1 n1 r2 n2 → reservations_kept r2 n2 r3 n3 →
  reservations_kept r1 n1 r3 n3.
Proof. unfold reservations_kept. intros [? ?] [? ?]. split; [naive_solver|set_solver]. Qed.

Lemma entries_kept_trans {V} (label : V → string) a b c r2 n2 r3 n3 :
  reservations_kept r2 n2 r3 n3 → (∀ n, reserves r3 n → bt_get n c = None) →
  entries_kept label a b r2 n2 → entries_kept label b c r3 n3 → entries_kept label a c r3 n3.
Proof.
  intros [Hr Hn] Hc Hab Hbc n v Hv. destruct (Hab n v Hv) as [Hb|(_ & Hres & Hl)]; [eauto|].
  right. split_and!; [auto|auto|set_solver].
Qed.

Lemma all_kept_trans {V} (kept1 kept2 kept3 : V → V → Prop) a b c :
  (∀ name u v w, bt_get name c = Some w → kept1 u v → kept2 v w → kept3 u w) →
  all_kept kept1 a b → all_kept kept2 b c → all_kept kept3 a c.
Proof.
  intros H Hab Hbc name u Hu. destruct (Hab name u Hu) as (v & Hv & H1).
  destruct (Hbc name v Hv) as (w & Hw & H2). eauto.
Qed.

Lemma compatible_trans a b c :
  reserves_unused c → compatible a b → compatible b c → compatible a c.
Proof.
  intros [Hcf Hcv] [? ? ?] [? ? ?]. constructor; (eapply all_kept_trans; [|done..]).
  - intros name u v w Hw [Hr1 He1] [Hr2 He2].
    split; [by eapply reservations_kept_trans|by eapply entries_kept_trans; eauto].
  - intros name u v w Hw [Hr1 He1] [Hr2 He2].
    split; [by eapply reservations_kept_trans|by eapply entries_kept_trans; eauto].
  - intros name u v w _ H1 H2 method m Hm. auto.
Qed.

Lemma check_lock_accepts current previous :
  lock_wf previous →
  check_lock (Ok current) (Parsed previous) = Ok tt ↔
  format previous = LOCK_FORMAT ∧ compatible previous current.
Proof.
  intros Hwf. unfold check_lock. simpl. rewrite <- compatibility_errors_nil by done.
  destruct (Z.eqb_spec (format previous) LOCK_FORMAT); simpl; [|naive_solver].
  case_bool_decide as Hl.
  - apply nil_length_inv in Hl. naive_solver.
  - split; [done|]. intros [_ Hn]. by rewrite Hn in Hl.
Qed.

(** A history of schema versions, each accepted against the one before. *)
Fixpoint accepted_history (old : SchemaLock) (versions : list SchemaLock) : Prop :=
  match versions with
  | [] => True
  | new :: versions =>
      check_lock (Ok new) (Parsed old) = Ok tt ∧ accepted_history new versions
  end.

Lemma history_compatible first versions :
  lock_wf first → Forall (λ l, lock_wf l ∧ reserves_unused l) versions →
  accepted_history first versions → Forall (compatible first) versions.
Proof.
  revert first. induction versions as [|new versions IH]; intros first Hf Hall H; [constructor|].
  inversion Hall as [|? ? [Hwf Hun] Hall']; subst. destruct H as [H1 H].
  apply check_lock_accepts in H1 as [_ H1]; [|done]. constructor; [done|].
  specialize (IH new Hwf Hall' H). clear H. induction IH as [|l ls Hl Hls IH]; constructor.
  - inversion Hall' as [|? ? [_ ?] ?]; subst. by eapply compatible_trans.
  - inversion Hall as [|? ? ? Hx]; subst. inversion Hx; subst. inversion Hall'; subst.
    apply IH; [by constructor|done].
Qed.

(** * Properties *)

(** C29 The lock check decides compatibility: a schema is accepted against a
    lock exactly when every locked message, enum, service and method is still
    there, every field, enum value and method is unchanged, a removed field or
    value has both its number and its name reserved, no number or name that was
    reserved has been released, whatever way the new ranges are split, and no
    method changed its signature or policy. *)
Theorem check_lock_correct current previous :
  lock_wf previous → format previous = LOCK_FORMAT →
  check_lock (Ok current) (Parsed previous) = Ok tt ↔ compatible previous current.
Proof. intros Hwf Hf. rewrite check_lock_accepts by done. naive_solver. Qed.

(** A fresh lock accepts its own schema: the snapshot that [write_lock]
    stores is a well-formed lock of the current format, and checking the same
    descriptor set against it succeeds. *)
Theorem check_lock_fresh files policies lock :
  snapshot files policies = Ok lock → ranges_proper lock →
  lock_wf lock ∧ check_lock (snapshot files policies) (Parsed lock) = Ok tt.
Proof.
  intros Hs Hp. pose proof (snapshot_sorted _ _ _ Hs) as Hsorted.
  assert (lock_wf lock) as Hwf by by apply lock_wf_intro.
  split; [done|]. rewrite Hs. apply check_lock_accepts; [done|].
  split; [by apply sorted_format|apply compatible_refl].
Qed.

(** C30 Updating the lock step by step loses nothing: in a history of versions
    where each is accepted against the one before, every version would have
    been accepted against the first one too. *)
Theorem check_lock_history first versions version :
  lock_wf first → format first = LOCK_FORMAT →
  Forall (λ l, lock_wf l ∧ reserves_unused l) versions →
  accepted_history first versions → version ∈ versions →
  check_lock (Ok version) (Parsed first) = Ok tt.
Proof.
  intros Hwf Hf Hall H Hin. apply check_lock_accepts; [done|]. split; [done|].
  apply (history_compatible first) in H; [|done..]. by rewrite Forall_forall in H; apply H.
Qed.

(** ** Deciding the hypotheses on concrete locks *)

Definition outside (ranges : list NumberRange) (n : Z) : bool :=
  forallb (λ r, negb ((start r <=? n) && (n <? end_ r))) ranges.

Definition reserves_unusedb (l : SchemaLock) : bool :=
  forallb (λ p, forallb (λ q, outside (lm_reserved_ranges p.2) q.1) (lm_fields p.2)) (messages l)
  && forallb (λ p, forallb (λ q, outside (le_reserved_ranges p.2) q.1) (le_values p.2)) (enums l).

Lemma outside_reserves ranges n : outside ranges n = true → ¬ reserves ranges n.
Proof.
  unfold outside. rewrite forallb_forall. intros H (r & Hr%list_elem_of_In & Hn).
  apply H in Hr. apply negb_true_iff, andb_false_iff in Hr.
  rewrite Z.leb_gt, Z.ltb_ge in Hr. lia.
Qed.

Lemma outside_unused {V} (ranges : list NumberRange) (t : list (Z * V)) n :
  bt_sorted t → forallb (λ q, outside ranges q.1) t = true → reserves ranges n →
  bt_get n t = None.
Proof.
  intros Hs Hall Hn. destruct (bt_get n t) as [v|] eqn:E; [|done].
  apply bt_get_elem in E; [|done]. rewrite forallb_forall in Hall.
  apply list_elem_of_In, Hall, outside_reserves in E. done.
Qed.

Lemma reserves_unusedb_sound l : lock_sorted l → reserves_unusedb l = true → reserves_unused l.
Proof.
  intros [_ [Hms Hmf] [Hes Hef] _] [Hm He]%andb_prop. rewrite forallb_forall in Hm.
  rewrite forallb_forall in He. rewrite Forall_forall in Hmf. rewrite Forall_forall in Hef.
  constructor; intros name v n Hv Hn;
    (apply bt_get_elem in Hv; [|done]).
  - apply (outside_unused (lm_reserved_ranges v)); [by apply (Hmf (name, v))| |done].
    by apply (Hm (name, v)), list_elem_of_In.
  - apply (outside_unused (le_reserved_ranges v)); [by apply (Hef (name, v))| |done].
    by apply (He (name, v)), list_elem_of_In.
Qed.

(** ** Witnesses: three versions of one message *)

Definition sample_field (name : string) (number : Z) : FieldDescriptorProto :=
  {| fd_name := Some name; fd_number := Some number; fd_label := Some 1; fd_type := Some 9;
     fd_type_name := None; fd_oneof_index := None; fd_proto3_optional := None |}.
Definition sample_range (a b : Z) : ReservedRange :=
  {| rr_start := Some a; rr_end := Some b |}.

Definition sample_file (fields : list FieldDescriptorProto) (ranges : list ReservedRange)
    (names : list string) : FileDescriptorProto :=
  {| fl_name := Some "shop.proto"; fl_package := Some "shop"; fl_java_package := None;
     fl_message_type := [MkMessage (Some "Order") fields [] [] ranges names];
     fl_enum_type := [{| ed_name := Some "Status";
                         ed_value := [{| evd_name := Some "OPEN"; evd_number := Some 0 |}];
                         ed_reserved_range := [sample_range 3 4]; ed_reserved_name := [] |}];
     fl_service := [{| sd_name := Some "Orders";
                       sd_method := [{| md_name := Some "Put"; md_input_type := Some ".shop.Order";
                                        md_output_type := Some ".shop.Order";
                                        md_client_streaming := None;
                                        md_server_streaming := None |}] |}] |}.

Definition locked_policies : list (string * RpcPolicy) :=
  [("shop.Orders/Put", RpcPolicy_defaults false)].

Definition sample_files (n : nat) : list FileDescriptorProto :=
  [match n with
   | O => sample_file [sample_field "id" 1; sample_field "note" 2] [] []
   | 1%nat => sample_file [sample_field "id" 1] [sample_range 2 5] ["note"]
   | _ => sample_file [sample_field "id" 1; sample_field "total" 7]
            [sample_range 3 5; sample_range 2 3] ["note"]
   end].

Definition empty_lock : SchemaLock :=
  {| format := LOCK_FORMAT; messages := []; enums := []; services := [] |}.
Definition sample_lock (n : nat) : SchemaLock :=
  default empty_lock (ok (snapshot (sample_files n) locked_policies)).

Lemma sample_lock_snapshot n : (n < 3)%nat → snapshot (sample_files n) locked_policies = Ok (sample_lock n).
Proof. intros Hn. do 3 (destruct n as [|n]; [vm_compute; reflexivity|]). lia. Qed.

Lemma sample_lock_proper n : (n < 3)%nat → ranges_proper (sample_lock n).
Proof.
  intros Hn. do 3 (destruct n as [|n]; [vm_compute; split; repeat constructor|]). lia.
Qed.

Lemma sample_lock_ok n : (n < 3)%nat → lock_wf (sample_lock n) ∧ reserves_unused (sample_lock n).
Proof.
  intros Hn. pose proof (snapshot_sorted _ _ _ (sample_lock_snapshot n Hn)) as Hs. split.
  - by apply lock_wf_intro, sample_lock_proper.
  - apply reserves_unusedb_sound; [done|].
    do 3 (destruct n as [|n]; [vm_compute; reflexivity|]). lia.
Qed.

Lemma check_lock_correct_witness : compatible (sample_lock 0) (sample_lock 1).
Proof.
  apply (check_lock_correct (sample_lock 1) (sample_lock 0)).
  - apply sample_lock_ok. lia.
  - vm_compute. reflexivity.
  - vm_compute. reflexivity.
Defined.

Lemma check_lock_fresh_witness :
  lock_wf (sample_lock 2) ∧
  check_lock (snapshot (sample_files 2) locked_policies) (Parsed (sample_lock 2)) = Ok tt.
Proof.
  apply (check_lock_fresh (sample_files 2) locked_policies (sample_lock 2)).
  - apply sample_lock_snapshot. lia.
  - apply sample_lock_proper. lia.
Defined.

Lemma check_lock_history_witness :
  check_lock (Ok (sample_lock 2)) (Parsed (sample_lock 0)) = Ok tt.
Proof.
  apply (check_lock_history (sample_lock 0) [sample_lock 1; sample_lock 2] (sample_lock 2)).
  - apply sample_lock_ok. lia.
  - vm_compute. reflexivity.
  - constructor; [apply sample_lock_ok; lia|]. constructor; [apply sample_lock_ok; lia|constructor].
  - split; [vm_compute; reflexivity|]. split; [vm_compute; reflexivity|exact I].
  - set_solver.
Defined.

(** Reusing a released number, or dropping a field without reserving it, is
    refused. *)
Example unreserved_removal_refused :
  compatibility_errors (sample_lock 0)
    (default empty_lock (ok (snapshot [sample_file [sample_field "id" 1] [] ["note"]]
                               locked_policies))) =
  [FieldRemoved "shop.Order" 2 {| lf_name := "note"; lf_number := 2; lf_label := 1; lf_kind := 9;
     lf_type_name := ""; lf_oneof_index := None; lf_proto3_optional := false |}].
Proof. vm_compute. reflexivity. Qed.
Example released_numbers_refused :
  compatibility_errors (sample_lock 1)
    (default empty_lock (ok (snapshot [sample_file [sample_field "id" 1]
       [sample_range 2 3; sample_range 4 5] ["note"]] locked_policies))) =
  [NumbersReleased "message" "shop.Order" 2 5].
Proof. vm_compute. reflexivity. Qed.

(** The largest enum number cannot be reserved: its inclusive range saturates to
    an empty one, so removing the value is reported as breaking although both
    its number and its name are reserved. *)
Example largest_enum_number_not_reservable name :
  is_reserved i32_max name [enum_range (sample_range i32_max i32_max)] [name] = false.
Proof. reflexivity. Qed.
