(* ===== verification/Bindings.v ===== *)
(** Wire identifiers and generated registrations, [codegen/src/lib.rs]: the
    FNV-1a identifier of a method or event, the collision check over a
    descriptor set, and the sequence of router-builder calls that the generated
    Rust code makes for the services of the set. *)
From S2P Require Import Prelude OrdMap Middleware Router Descriptor Policy.

(** * Identifiers *)

Definition FNV_OFFSET : Z := 0x811C9DC5.
Definition FNV_PRIME : Z := 0x01000193.

(** [hash ^= byte; hash = hash.wrapping_mul(prime)] *)
Definition fnv_turn (hash : Z) (b : byte) : Z := (Z.lxor hash (u8 b) * FNV_PRIME) mod 2 ^ 32.

Definition method_id (name : string) : Z := foldl fnv_turn FNV_OFFSET (as_bytes name).

Example method_ids_are_deterministic :
  method_id "moonlight.bridge.example.v1.EchoService/Echo" = 0x237DFACC.
Proof. vm_compute. reflexivity. Qed.

Definition canonical_method (file : FileDescriptorProto) (service method : string) : string :=
  let package := default "" (fl_package file) in
  if bool_decide (package = "") then service +:+ "/" +:+ method
  else package +:+ "." +:+ service +:+ "/" +:+ method.

Definition canonical_event (file : FileDescriptorProto) (message : string) : string :=
  "event:" +:+ default "" (fl_package file) +:+ "." +:+ message.

(** [name.ends_with(suffix)] *)
Definition ends_with (name suffix : string) : bool :=
  let n := as_bytes name in
  let s := as_bytes suffix in
  bool_decide (length s <= length n)%nat
  && bool_decide (drop (length n - length s) n = s).

(** * The collision check *)

(** [if !ids.insert(id) { return Err(..) }], with the zero test of events. *)
Definition claim_id (what canonical : string) (refuse_zero : bool) (ids : gset Z)
    : result CodegenError (gset Z) :=
  let id := method_id canonical in
  if (refuse_zero && (id =? 0)) || bool_decide (id ∈ ids)
  then Err (IdCollision what canonical id)
  else Ok ({[id]} ∪ ids).

Definition claim_method (file : FileDescriptorProto) (service_name : string)
    (m : MethodDescriptorProto) (ids : gset Z) : result CodegenError (gset Z) :=
  method_name ← required (md_name m) "method name";
  claim_id "method" (canonical_method file service_name method_name) false ids.

Definition claim_service (file : FileDescriptorProto) (s : ServiceDescriptorProto)
    (ids : gset Z) : result CodegenError (gset Z) :=
  service_name ← required (sd_name s) "service name";
  try_fold (claim_method file service_name) (sd_method s) ids.

Definition claim_event (file : FileDescriptorProto) (m : DescriptorProto) (ids : gset Z)
    : result CodegenError (gset Z) :=
  name ← required (message_name m) "message name";
  if ends_with name "Event" then claim_id "event" (canonical_event file name) true ids
  else Ok ids.

Definition claim_file (file : FileDescriptorProto) (ids : gset Z) : result CodegenError (gset Z) :=
  ids ← try_fold (claim_service file) (fl_service file) ids;
  try_fold (claim_event file) (fl_message_type file) ids.

Definition validate_method_ids (descriptor : list FileDescriptorProto)
    : result CodegenError unit :=
  _ ← try_fold claim_file descriptor ∅; Ok tt.

(** * What the generated registration functions do *)

Definition reject_unsupported_streaming (m : MethodDescriptorProto) : result CodegenError unit :=
  guard_err (default false (md_client_streaming m))
    (Invalid "client and bidirectional streaming are not supported yet").

Section generated.
Context (policies : list (string * RpcPolicy)).
(** The closure of each method around the application's implementation, which
    checks sizes against the constant of its policy ([Handlers]). *)
Context (unary : Z → RpcPolicy → handler_fn) (stream : Z → RpcPolicy → stream_handler_fn).

Definition generate_rust_method (file : FileDescriptorProto) (service : string)
    (m : MethodDescriptorProto) (policy : RpcPolicy) : result CodegenError (list builder_op) :=
  _ ← reject_unsupported_streaming m;
  method_name ← required (md_name m) "method name";
  _ ← ok_or (md_input_type m) (Invalid "missing message type");
  let id := method_id (canonical_method file service method_name) in
  let scopes := Policy.required_scopes policy in
  Ok [if default false (md_server_streaming m)
      then ORouteStreamScoped id scopes (stream id policy)
      else ORouteScoped id scopes (unary id policy);
      OMethodName id (service +:+ "/" +:+ method_name)].

Definition register_method (file : FileDescriptorProto) (service : string)
    (m : MethodDescriptorProto) (ops : list builder_op) : result CodegenError (list builder_op) :=
  method_name ← required (md_name m) "method name";
  let canonical := canonical_method file service method_name in
  policy ← ok_or (bt_get canonical policies) (Invalid ("missing policy for " +:+ canonical));
  more ← generate_rust_method file service m policy;
  Ok (ops ++ more).

Definition register_service (file : FileDescriptorProto) (s : ServiceDescriptorProto)
    (ops : list builder_op) : result CodegenError (list builder_op) :=
  service_name ← required (sd_name s) "service name";
  try_fold (register_method file service_name) (sd_method s) ops.

(** The builder calls of all [register_*] functions of a descriptor set. *)
Definition generated_ops (descriptor : list FileDescriptorProto)
    : result CodegenError (list builder_op) :=
  try_fold (λ file, try_fold (register_service file) (fl_service file)) descriptor [].
End generated.

(** * Specification: the identifiers of a descriptor set *)

Definition service_ids (file : FileDescriptorProto) (s : ServiceDescriptorProto) : list Z :=
  match sd_name s with
  | Some service =>
      omap (λ m, name ← md_name m; Some (method_id (canonical_method file service name)))
        (sd_method s)
  | None => []
  end.

(** [m] is the method [service/name] of a descriptor set. *)
Record described (files : list FileDescriptorProto) (file : FileDescriptorProto)
    (service name : string) (m : MethodDescriptorProto) : Prop := {
  de_file : file ∈ files;
  de_service : ∃ s, s ∈ fl_service file ∧ sd_name s = Some service ∧ m ∈ sd_method s;
  de_name : md_name m = Some name;
}.

Definition method_ids (files : list FileDescriptorProto) : list Z :=
  file ← files; s ← fl_service file; service_ids file s.

Definition event_id (file : FileDescriptorProto) (m : DescriptorProto) : option Z :=
  name ← message_name m;
  if ends_with name "Event" then Some (method_id (canonical_event file name)) else None.

Definition event_ids (files : list FileDescriptorProto) : list Z :=
  file ← files; omap (event_id file) (fl_message_type file).

(** What the check has claimed: methods and events, none twice, no zero event. *)
Record claimed (ms es : list Z) (ids : gset Z) : Prop := {
  cl_methods : NoDup ms;
  cl_events : NoDup es;
  cl_apart id : id ∈ ms → id ∉ es;
  cl_nonzero : 0 ∉ es;
  cl_ids id : id ∈ ids ↔ id ∈ ms ∨ id ∈ es;
}.

Lemma claim_method_id ms es ids ids' canonical :
  claimed ms es ids → claim_id "method" canonical false ids = Ok ids' →
  claimed (ms ++ [method_id canonical]) es ids'.
Proof.
  intros [Hm He Ha Hz Hi]. unfold claim_id. simpl. case_bool_decide as Hin; [done|].
  intros [= <-]. rewrite Hi in Hin. constructor; [|done|set_solver|done|set_solver].
  apply NoDup_app. split_and!; [done|set_solver|apply NoDup_singleton].
Qed.

Lemma claim_event_id ms es ids ids' canonical :
  claimed ms es ids → claim_id "event" canonical true ids = Ok ids' →
  claimed ms (es ++ [method_id canonical]) ids'.
Proof.
  intros [Hm He Ha Hz Hi]. unfold claim_id. simpl. destruct (Z.eqb_spec (method_id canonical) 0); [done|].
  simpl. case_bool_decide as Hin; [done|]. intros [= <-]. rewrite Hi in Hin.
  constructor; [done| |set_solver|set_solver|set_solver].
  apply NoDup_app. split_and!; [done|set_solver|apply NoDup_singleton].
Qed.

Lemma claim_service_ids file s ms es ids ids' :
  claimed ms es ids → claim_service file s ids = Ok ids' →
  claimed (ms ++ service_ids file s) es ids'.
Proof.
  intros Hc. unfold claim_service, service_ids. destruct (sd_name s) as [service|]; [|done]. simpl.
  apply (try_fold_prefix (λ l ids, claimed (ms ++ omap _ l) es ids)); [|by rewrite app_nil_r].
  intros pre m acc b Hacc. unfold claim_method. destruct (md_name m) as [name|] eqn:E; [|done].
  rewrite omap_app, (assoc_L (++)). simpl. rewrite E. simpl. by apply claim_method_id.
Qed.

Lemma claim_event_ids file l ms es ids ids' :
  claimed ms es ids → try_fold (claim_event file) l ids = Ok ids' →
  claimed ms (es ++ omap (event_id file) l) ids'.
Proof.
  intros Hc. apply (try_fold_prefix (λ l ids, claimed ms (es ++ omap (event_id file) l) ids));
    [|by rewrite app_nil_r].
  intros pre m acc b Hacc. unfold claim_event. rewrite omap_app. simpl. unfold event_id at 2.
  destruct (message_name m) as [name|]; [|done]. simpl.
  destruct (ends_with name "Event"); simpl; [|intros [= <-]; by rewrite app_nil_r].
  rewrite (assoc_L (++)). by apply claim_event_id.
Qed.

Lemma validate_method_ids_claimed files :
  validate_method_ids files = Ok tt → ∃ ids, claimed (method_ids files) (event_ids files) ids.
Proof.
  unfold validate_method_ids. intros (ids & H & _)%bind_Ok. exists ids. revert H.
  apply (try_fold_prefix (λ l ids, claimed (method_ids l) (event_ids l) ids));
    [|constructor; try apply NoDup_nil_2; set_solver].
  intros pre file acc b Hacc. unfold claim_file. intros (ids1 & H1 & H2)%bind_Ok.
  unfold method_ids, event_ids in *. rewrite !bind_app. simpl. rewrite !app_nil_r.
  eapply claim_event_ids, H2. revert H1.
  apply (try_fold_prefix (λ l ids, claimed (_ ++ (l ≫= service_ids file)) _ ids));
    [|by rewrite app_nil_r].
  intros pre' s acc' b' Hacc' Hs. rewrite bind_app, (assoc_L (++)). simpl. rewrite app_nil_r.
  by eapply claim_service_ids.
Qed.

(** ** The check decides *)

(** Services, methods and messages all have names. *)
Definition named_file (file : FileDescriptorProto) : Prop :=
  (∀ s, s ∈ fl_service file → is_Some (sd_name s) ∧ ∀ m, m ∈ sd_method s → is_Some (md_name m)) ∧
  (∀ message, message ∈ fl_message_type file → is_Some (message_name message)).

(** No two methods or events of the set have one identifier, and no event has
    zero. *)
Definition distinct_ids (files : list FileDescriptorProto) : Prop :=
  NoDup (method_ids files ++ event_ids files) ∧ 0 ∉ event_ids files.

Lemma validated_file files file :
  validate_method_ids files = Ok tt → file ∈ files →
  named_file file.
Proof.
  unfold validate_method_ids. intros (ids & H & _)%bind_Ok Hf.
  destruct (try_fold_split _ _ _ _ _ Hf H) as (_ & _ & a1 & a2 & _ & Hc & _).
  unfold claim_file in Hc. apply bind_Ok in Hc as (a3 & Hsv & Hev). split.
  - intros s Hs. destruct (try_fold_split _ _ _ _ _ Hs Hsv) as (_ & _ & b1 & b2 & _ & Hcs & _).
    unfold claim_service in Hcs. apply bind_Ok in Hcs as (service & Hn & Hms).
    apply ok_or_Ok in Hn. split; [by eexists|]. intros m Hm.
    destruct (try_fold_split _ _ _ _ _ Hm Hms) as (_ & _ & d1 & d2 & _ & Hcm & _).
    unfold claim_method in Hcm. apply bind_Ok in Hcm as (name & Hname & _).
    apply ok_or_Ok in Hname. by eexists.
  - intros message Hm. destruct (try_fold_split _ _ _ _ _ Hm Hev) as (_ & _ & b1 & b2 & _ & Hce & _).
    unfold claim_event in Hce. apply bind_Ok in Hce as (name & Hname & _).
    apply ok_or_Ok in Hname. by eexists.
Qed.

(** Claims that succeed: [ms] and [es] are claimed, [M] and [E] are all there
    are to claim. *)
Section claims.
Context (M E : list Z).
Hypothesis distinct : NoDup (M ++ E).
Hypothesis nonzero : 0 ∉ E.

Lemma claim_method_ok ms es ids canonical rest :
  claimed ms es ids → M = ms ++ method_id canonical :: rest → es ⊆ E →
  ∃ ids', claim_id "method" canonical false ids = Ok ids' ∧
    claimed (ms ++ [method_id canonical]) es ids'.
Proof using distinct.
  clear nonzero. intros Hc HM He. apply NoDup_app in distinct as (HndM & Hapart & _).
  assert (method_id canonical ∉ ids) as Hnew.
  { intros [Hin|Hin]%(cl_ids _ _ _ Hc).
    - rewrite HM in HndM. apply NoDup_app in HndM as (_ & Hd & _). apply (Hd _ Hin). by left.
    - apply (Hapart (method_id canonical)); [rewrite HM; set_solver|set_solver]. }
  eexists. split; [unfold claim_id; simpl; by rewrite bool_decide_eq_false_2|].
  apply (claim_method_id _ _ _ _ canonical Hc). unfold claim_id. simpl.
  by rewrite bool_decide_eq_false_2.
Qed.

Lemma claim_event_ok ms es ids canonical rest :
  claimed ms es ids → ms ⊆ M → E = es ++ method_id canonical :: rest →
  ∃ ids', claim_id "event" canonical true ids = Ok ids' ∧
    claimed ms (es ++ [method_id canonical]) ids'.
Proof using distinct nonzero.
  intros Hc Hm HE. apply NoDup_app in distinct as (_ & Hapart & HndE).
  assert (method_id canonical ∉ ids) as Hnew.
  { intros [Hin|Hin]%(cl_ids _ _ _ Hc).
    - apply (Hapart (method_id canonical)); [set_solver|rewrite HE; set_solver].
    - rewrite HE in HndE. apply NoDup_app in HndE as (_ & Hd & _). apply (Hd _ Hin). by left. }
  assert (method_id canonical ≠ 0) as Hz by (intros Hz; apply nonzero; rewrite HE, Hz; set_solver).
  assert (claim_id "event" canonical true ids = Ok ({[method_id canonical]} ∪ ids)) as Hok.
  { unfold claim_id. rewrite (proj2 (Z.eqb_neq _ _) Hz). simpl. by rewrite bool_decide_eq_false_2. }
  eexists. split; [exact Hok|]. by apply (claim_event_id _ _ _ _ _ Hc Hok).
Qed.

Lemma claim_service_ok file s ms es ids rest :
  is_Some (sd_name s) → (∀ m, m ∈ sd_method s → is_Some (md_name m)) →
  claimed ms es ids → M = ms ++ service_ids file s ++ rest → es ⊆ E →
  ∃ ids', claim_service file s ids = Ok ids' ∧ claimed (ms ++ service_ids file s) es ids'.
Proof using distinct.
  clear nonzero. intros [service Hs] Hnames Hc HM He. unfold claim_service, service_ids in *. rewrite Hs in *. simpl.
  apply (try_fold_prefix_ok (λ l ids, claimed (ms ++ omap _ l) es ids)); [|by rewrite app_nil_r].
  intros pre m suf acc Hl Hacc. destruct (Hnames m) as [name Hn]; [rewrite Hl; set_solver|].
  unfold claim_method. rewrite Hn. simpl. rewrite omap_app, (assoc_L (++)). simpl. rewrite Hn. simpl.
  eapply claim_method_ok; [done| |done]. rewrite HM, Hl, omap_app. simpl. rewrite Hn. simpl.
  by rewrite <- !(assoc_L (++)).
Qed.

Lemma claim_events_ok file l ms es ids rest :
  (∀ m, m ∈ l → is_Some (message_name m)) → claimed ms es ids → ms ⊆ M →
  E = es ++ omap (event_id file) l ++ rest →
  ∃ ids', try_fold (claim_event file) l ids = Ok ids' ∧ claimed ms (es ++ omap (event_id file) l) ids'.
Proof using distinct nonzero.
  intros Hnames Hc Hm HE.
  apply (try_fold_prefix_ok (λ l ids, claimed ms (es ++ omap (event_id file) l) ids));
    [|by rewrite app_nil_r].
  intros pre m suf acc Hl Hacc. destruct (Hnames m) as [name Hn]; [rewrite Hl; set_solver|].
  unfold claim_event. rewrite Hn, omap_app. simpl.
  assert (event_id file m = if ends_with name "Event"
    then Some (method_id (canonical_event file name)) else None) as Hid
    by (unfold event_id; by rewrite Hn).
  rewrite Hid. destruct (ends_with name "Event"); simpl; [|exists acc; by rewrite app_nil_r].
  rewrite (assoc_L (++)). eapply claim_event_ok; [done|done|].
  rewrite HE, Hl, omap_app. simpl. rewrite Hid. simpl. by rewrite <- !(assoc_L (++)).
Qed.
End claims.

(** The check accepts exactly the sets with names and distinct identifiers. *)
Lemma validate_method_ids_iff files :
  validate_method_ids files = Ok tt ↔
  (∀ file, file ∈ files → named_file file) ∧ distinct_ids files.
Proof.
  split.
  - intros Hv. split; [by intros file; apply validated_file|].
    apply validate_method_ids_claimed in Hv as (ids & [Hm He Ha Hz _]).
    split; [apply NoDup_app; naive_solver|done].
  - intros [Hnames [Hd Hz]]. unfold validate_method_ids.
    destruct (try_fold_prefix_ok (λ l ids, claimed (method_ids l) (event_ids l) ids) claim_file files ∅)
      as (ids & -> & _); [|constructor; try apply NoDup_nil_2; set_solver|done].
    intros pre file suf acc Hl Hacc. destruct (Hnames file) as [Hs Hm]; [rewrite Hl; set_solver|].
    assert (method_ids files = method_ids pre ++ (fl_service file ≫= service_ids file) ++ method_ids suf
      ∧ event_ids files = event_ids pre ++ omap (event_id file) (fl_message_type file) ++ event_ids suf)
      as [HM HE] by (rewrite Hl; unfold method_ids, event_ids; by rewrite !bind_app).
    unfold claim_file, method_ids, event_ids. rewrite !bind_app. simpl. rewrite !app_nil_r.
    destruct (try_fold_prefix_ok (λ l ids, claimed (method_ids pre ++ (l ≫= service_ids file))
      (event_ids pre) ids) (claim_service file) (fl_service file) acc) as (ids & -> & Hids);
      [|by rewrite app_nil_r|].
    + intros pre' s suf' acc' Hl' Hacc'. destruct (Hs s) as [Hsn Hsm]; [rewrite Hl'; set_solver|].
      rewrite bind_app, (assoc_L (++)). simpl. rewrite app_nil_r.
      eapply (claim_service_ok _ _ Hd); [done..| |rewrite HE; set_solver].
      rewrite HM, Hl', bind_app. simpl. by rewrite <- !(assoc_L (++)).
    + simpl. eapply (claim_events_ok _ _ Hd Hz); [done|done|rewrite HM; set_solver|done].
Qed.

(** ** Registration *)

(** The two builder calls of one generated method. *)
Definition registration (unary : Z → RpcPolicy → handler_fn) (stream : Z → RpcPolicy → stream_handler_fn)
    (id : Z) (ops : list builder_op) : Prop :=
  ∃ policy name, name ≠ "" ∧
    (ops = [ORouteScoped id (Policy.required_scopes policy) (unary id policy); OMethodName id name] ∨
     ops = [ORouteStreamScoped id (Policy.required_scopes policy) (stream id policy);
            OMethodName id name]).

Definition registers (unary : Z → RpcPolicy → handler_fn) (stream : Z → RpcPolicy → stream_handler_fn)
    (ids : list Z) (ops : list builder_op) : Prop :=
  ∃ blocks, ops = concat blocks ∧ Forall2 (registration unary stream) ids blocks.

Definition fresh (b : RouterBuilder) (id : Z) : Prop :=
  b_handlers b !! id = None ∧ b_stream_handlers b !! id = None ∧ b_method_names b !! id = None.

Section registration.
Context (policies : list (string * RpcPolicy)).
Context (unary : Z → RpcPolicy → handler_fn) (stream : Z → RpcPolicy → stream_handler_fn).

Lemma registers_snoc ids ops id more :
  registers unary stream ids ops → registration unary stream id more →
  registers unary stream (ids ++ [id]) (ops ++ more).
Proof.
  intros (blocks & -> & Hb) Hm. exists (blocks ++ [more]). split.
  - rewrite concat_app. simpl. by rewrite app_nil_r.
  - by apply Forall2_app; [|constructor].
Qed.

Lemma slash_nonempty (s t : string) : s +:+ "/" +:+ t ≠ "".
Proof. by destruct s. Qed.

Lemma register_method_block file service m name ids ops ops' :
  md_name m = Some name → registers unary stream ids ops →
  register_method policies unary stream file service m ops = Ok ops' →
  registers unary stream (ids ++ [method_id (canonical_method file service name)]) ops'.
Proof.
  intros E Hr. unfold register_method. rewrite E. simpl.
  intros (policy & _ & H)%bind_Ok. apply bind_Ok in H as (more & H & [= <-]).
  apply registers_snoc; [done|]. revert H. unfold generate_rust_method. rewrite E.
  intros (u & _ & H)%bind_Ok. apply bind_Ok in H as (input & [= <-] & H).
  apply bind_Ok in H as (v & _ & [= <-]).
  exists policy, (service +:+ "/" +:+ name).
  split; [apply slash_nonempty|]. destruct (default false (md_server_streaming m)); auto.
Qed.

Lemma register_service_block file s ids ops ops' :
  registers unary stream ids ops →
  register_service policies unary stream file s ops = Ok ops' →
  registers unary stream (ids ++ service_ids file s) ops'.
Proof.
  intros Hr. unfold register_service, service_ids. destruct (sd_name s) as [service|]; [|done]. simpl.
  apply (try_fold_prefix (λ l ops, registers unary stream (ids ++ omap _ l) ops));
    [|by rewrite app_nil_r].
  intros pre m acc b Hacc Hm. destruct (md_name m) as [name|] eqn:E.
  - rewrite omap_app, (assoc_L (++)). simpl. rewrite E. simpl. by eapply register_method_block.
  - unfold register_method in Hm. by rewrite E in Hm.
Qed.

Lemma generated_ops_blocks files ops :
  generated_ops policies unary stream files = Ok ops →
  registers unary stream (method_ids files) ops.
Proof.
  apply (try_fold_prefix (λ l ops, registers unary stream (method_ids l) ops));
    [|by exists []].
  intros pre file acc b Hacc. unfold method_ids in *. rewrite bind_app. simpl. rewrite app_nil_r.
  apply (try_fold_prefix (λ l ops, registers unary stream (_ ++ (l ≫= service_ids file)) ops));
    [|by rewrite app_nil_r].
  intros pre' s acc' b' Hacc' Hs. rewrite bind_app, (assoc_L (++)). simpl. rewrite app_nil_r.
  by eapply register_service_block.
Qed.

(** Registering a fresh identifier succeeds and touches no other. *)
Lemma registration_succeeds b id ops :
  fresh b id → registration unary stream id ops →
  ∃ b', apply_ops ops b = Some b' ∧ ∀ id', id' ≠ id → fresh b id' → fresh b' id'.
Proof.
  intros (H1 & H2 & H3) (scopes & name & Hn & [-> | ->]); simpl;
    unfold builder_route_scoped, builder_route_stream_scoped, builder_method_name, contains.
  all: rewrite ?H1, ?H2; simpl; rewrite !lookup_insert_eq, ?H1, ?H2, ?H3; simpl.
  all: rewrite (bool_decide_eq_false_2 (name = "")) by done; simpl.
  all: eexists; split; [reflexivity|]; intros id' Hne (F1 & F2 & F3); unfold fresh; simpl.
  all: by rewrite !lookup_insert_ne by done.
Qed.

Lemma registers_succeed b ids ops :
  registers unary stream ids ops → NoDup ids → Forall (fresh b) ids →
  is_Some (apply_ops ops b).
Proof.
  intros (blocks & -> & Hb). revert b. induction Hb as [|id block ids blocks Hid Hb IH];
    intros b Hnd Hf; simpl; [done|].
  inversion Hnd as [|? ? Hnin Hnd']; inversion Hf as [|? ? Hfid Hf']; subst.
  destruct (registration_succeeds b id block Hfid Hid) as (b' & Hb' & Hother).
  assert (∀ l1 l2 c, apply_ops (l1 ++ l2) c = apply_ops l1 c ≫= apply_ops l2) as Happ.
  { intros l1 l2. induction l1 as [|o l1 IHl]; intros c; simpl; [done|].
    destruct (apply_op o c); simpl; [apply IHl|done]. }
  rewrite Happ, Hb'. simpl. apply IH; [done|].
  rewrite Forall_forall in Hf' |- *. intros id' Hin. apply Hother; [set_solver|auto].
Qed.

(** The router of an authorised builder that made the generated calls. *)
Lemma generated_router_handlers authorization ops r :
  build_router (OAuthorization authorization :: ops) = Some r → omap op_layer ops = [] →
  middleware r = [authorization] ∧
  (∀ id h, (id, h) ∈ omap op_handler ops → handlers r !! id = Some h) ∧
  (∀ id h, (id, h) ∈ omap op_stream ops → stream_handlers r !! id = Some h).
Proof.
  unfold build_router. intros (b & Hb & Hr)%bind_Some Hl.
  pose proof (builder_after_ops [] _ _ _ builder_after_start Hb) as [Hh Hs _ _ Hm _ _ _ _ _].
  unfold builder_build in Hr. repeat case_match; simplify_option_eq; simpl in *.
  rewrite Hm, Hl. split_and!; [done|intros id h; apply Hh|intros id h; apply Hs].
Qed.

Lemma registers_layers ids ops : registers unary stream ids ops → omap op_layer ops = [].
Proof.
  intros (blocks & -> & Hb). induction Hb as [|id block ids blocks Hid Hb IH]; simpl; [done|].
  rewrite omap_app, IH. destruct Hid as (? & ? & _ & [-> | ->]); done.
Qed.

Lemma registers_plain ids ops :
  registers unary stream ids ops →
  existsb is_authorization ops = false ∧ existsb is_allow_unsecured ops = false.
Proof.
  intros (blocks & -> & Hb). induction Hb as [|id block ids blocks Hid Hb [IH1 IH2]]; simpl; [done|].
  rewrite !existsb_app, IH1, IH2. destruct Hid as (? & ? & _ & [-> | ->]); done.
Qed.

Lemma register_method_grows file service m ops ops' :
  register_method policies unary stream file service m ops = Ok ops' → ops `prefix_of` ops'.
Proof.
  unfold register_method. intros (name & _ & H)%bind_Ok. cbn zeta in H.
  apply bind_Ok in H as (policy & _ & H). apply bind_Ok in H as (more & _ & [= <-]).
  by apply prefix_app_r.
Qed.

Lemma register_service_grows file s ops ops' :
  register_service policies unary stream file s ops = Ok ops' → ops `prefix_of` ops'.
Proof.
  unfold register_service. intros (name & _ & H)%bind_Ok. revert H.
  apply (try_fold_inv (prefix ops)); [|done]. intros m acc b Ha Hm%register_method_grows. by etrans.
Qed.

(** The route of a method of the set is among the generated calls. *)
Lemma generated_route files ops file s service m name :
  generated_ops policies unary stream files = Ok ops →
  file ∈ files → s ∈ fl_service file → sd_name s = Some service →
  m ∈ sd_method s → md_name m = Some name →
  let id := method_id (canonical_method file service name) in
  ∃ policy, bt_get (canonical_method file service name) policies = Some policy ∧
    (id, Policy.required_scopes policy) ∈ omap op_scopes ops ∧
    if default false (md_server_streaming m)
    then (id, stream id policy) ∈ omap op_stream ops else (id, unary id policy) ∈ omap op_handler ops.
Proof.
  intros Hops Hf Hs Hsn Hm Hn id.
  eapply (try_fold_elem prefix) in Hops as (o1 & o2 & H1 & Hp1); [|clear; intros file acc b|exact Hf].
  2: { apply (try_fold_inv (prefix acc)); [|done]. intros s a b' Ha H%register_service_grows. by etrans. }
  eapply (try_fold_elem prefix) in H1 as (o3 & o4 & H2 & Hp2);
    [|intros; by eapply register_service_grows|exact Hs].
  unfold register_service in H2. rewrite Hsn in H2. simpl in H2.
  eapply (try_fold_elem prefix) in H2 as (o5 & o6 & H3 & Hp3);
    [|intros; by eapply register_method_grows|exact Hm].
  assert (o6 `prefix_of` ops) as [rest ->] by (etrans; [exact Hp3|by etrans]).
  unfold register_method, generate_rust_method in H3. rewrite Hn in H3. simpl in H3.
  apply bind_Ok in H3 as (policy & Hp%ok_or_Ok & H3). apply bind_Ok in H3 as (more & H3 & [= <-]).
  apply bind_Ok in H3 as (u & _ & H3). apply bind_Ok in H3 as (v & _ & [= <-]).
  exists policy. split; [done|]. rewrite !omap_app. destruct (default false (md_server_streaming m)); simpl; set_solver.
Qed.

(** Scopes are registered for methods of the set, from their policies. *)
Lemma generated_scopes files ops id scopes :
  generated_ops policies unary stream files = Ok ops → (id, scopes) ∈ omap op_scopes ops →
  ∃ file service name m policy, described files file service name m ∧
    bt_get (canonical_method file service name) policies = Some policy ∧
    scopes = Policy.required_scopes policy.
Proof.
  set (P := λ ops : list builder_op, ∀ id scopes, (id, scopes) ∈ omap op_scopes ops →
    ∃ file service name m policy, described files file service name m ∧
      bt_get (canonical_method file service name) policies = Some policy ∧
      scopes = Policy.required_scopes policy).
  intros Hops. revert id scopes. change (P ops). revert Hops.
  apply (try_fold_inv_elem P); [|by intros ? ? ?%not_elem_of_nil].
  intros file acc b Hf Hacc. apply (try_fold_inv_elem P); [|done].
  intros s acc' b' Hs Hacc'. unfold register_service. intros (service & Hsn%ok_or_Ok & H)%bind_Ok.
  revert H. apply (try_fold_inv_elem P); [|done]. clear acc acc' b b' Hacc Hacc'.
  intros m acc b Hm Hacc. unfold register_method, generate_rust_method.
  intros (name & Hn%ok_or_Ok & H)%bind_Ok. cbn zeta in H.
  apply bind_Ok in H as (policy & Hp%ok_or_Ok & H). apply bind_Ok in H as (more & H & [= <-]).
  apply bind_Ok in H as (u & _ & H). apply bind_Ok in H as (name' & Hn'%ok_or_Ok & H).
  apply bind_Ok in H as (v & _ & [= <-]). intros id scopes. rewrite omap_app, elem_of_app.
  intros [Hin|Hin]; [by eapply Hacc|]. exists file, service, name, m, policy.
  split; [by split; [|exists s|]|]. split; [done|].
  destruct (default false (md_server_streaming m)); simpl in Hin; set_solver.
Qed.

Lemma registers_methods ids ops : registers unary stream ids ops → omap op_method ops = ids.
Proof.
  intros (blocks & -> & Hb). induction Hb as [|id block ids blocks Hid Hb IH]; simpl; [done|].
  rewrite omap_app, IH. destruct Hid as (? & ? & _ & [-> | ->]); done.
Qed.
End registration.

Lemma generated_bindings_ok policies unary stream files ops authorization :
  validate_method_ids files = Ok tt →
  generated_ops policies unary stream files = Ok ops →
  (∃ r, build_router (OAuthorization authorization :: ops) = Some r ∧
        ∀ id, id ∈ method_ids files ↔ contains (handlers r) id || is_streaming r id = true) ∧
  NoDup (method_ids files ++ event_ids files) ∧ 0 ∉ event_ids files.
Proof.
  intros (ids & [Hm He Ha Hz _])%validate_method_ids_claimed Hops%generated_ops_blocks.
  split; [|split; [apply NoDup_app; naive_solver|done]].
  set (b0 := builder_authorization_layer Router_builder authorization).
  destruct (registers_succeed unary stream b0 (method_ids files) ops Hops Hm) as [b Hb].
  { apply Forall_forall. intros id _. by vm_compute. }
  assert (apply_ops (OAuthorization authorization :: ops) Router_builder = Some b) as Hall by done.
  pose proof (builder_after_ops [] _ _ _ builder_after_start Hall) as [Hh Hs _ _ _ Hau _ _ _ _].
  unfold build_router. rewrite Hall. simpl. unfold builder_build. rewrite Hau. simpl.
  rewrite orb_true_r. simpl. eexists. split; [reflexivity|]. intros id. simpl.
  unfold is_streaming, contains. simpl. rewrite orb_true_iff, !bool_decide_eq_true.
  rewrite <- (registers_methods unary stream _ _ Hops), op_method_cases. simpl in Hh, Hs.
  unfold is_Some. setoid_rewrite Hh. setoid_rewrite Hs. done.
Qed.

(** Without a layer, a set with scoped methods does not build. *)
Lemma generated_unlayered policies unary stream files ops :
  validate_method_ids files = Ok tt → generated_ops policies unary stream files = Ok ops →
  build_router ops = None ↔
  ∃ file service name m policy, described files file service name m ∧
    bt_get (canonical_method file service name) policies = Some policy ∧
    Policy.required_scopes policy ≠ [].
Proof.
  intros (ids & [Hm _ _ _ _])%validate_method_ids_claimed Hops.
  pose proof (generated_ops_blocks _ _ _ _ _ Hops) as Hreg.
  destruct (registers_succeed unary stream Router_builder (method_ids files) ops Hreg Hm) as [b Hb].
  { apply Forall_forall. intros id _. by vm_compute. }
  pose proof (builder_after_ops [] _ _ _ builder_after_start Hb) as [_ _ Hsc _ _ Hau Hun _ _ _].
  destruct (registers_plain _ _ _ _ Hreg) as [Ha Hu]. simpl in Hsc, Hau, Hun. rewrite Ha in Hau. rewrite Hu in Hun.
  unfold build_router, builder_build. rewrite Hb. simpl. rewrite Hau, Hun, !orb_false_r.
  assert (has_scoped_routes b = true ↔ ∃ id s, (id, s) ∈ omap op_scopes ops ∧ s ≠ []) as Hscoped
    by (rewrite has_scoped_routes_iff; by setoid_rewrite Hsc).
  transitivity (has_scoped_routes b = true); [by destruct (has_scoped_routes b)|].
  rewrite Hscoped. split.
  - intros (id & s & Hin & Hne).
    destruct (generated_scopes _ _ _ _ _ _ _ Hops Hin) as (file & service & name & m & policy & Hd & Hp & ->).
    by exists file, service, name, m, policy.
  - intros (file & service & name & m & policy & [Hf (s & Hs & Hsn & Hm') Hn] & Hp & Hne).
    destruct (generated_route _ _ _ _ _ _ _ _ _ _ Hops Hf Hs Hsn Hm' Hn) as (policy' & Hp' & Hin & _).
    rewrite Hp in Hp'. injection Hp' as <-. eauto.
Qed.

(** * Properties *)

(** Generated bindings fit the runtime: if the identifier check accepts a
    descriptor set and registrations are generated for it, then installing an
    authorization layer and making the generated builder calls never panics and
    builds a router that routes every method of the set; and every event
    identifier is non-zero, which [EventHub::publish] requires, and differs
    from every method and other event identifier. *)
Theorem generated_bindings_build policies unary stream files ops authorization :
  validate_method_ids files = Ok tt →
  generated_ops policies unary stream files = Ok ops →
  (∃ r, build_router (OAuthorization authorization :: ops) = Some r ∧
        ∀ id, id ∈ method_ids files ↔ contains (handlers r) id || is_streaming r id = true) ∧
  NoDup (method_ids files ++ event_ids files) ∧ 0 ∉ event_ids files.
Proof. apply generated_bindings_ok. Qed.

(** ** Witness *)

Definition sample_method (name : string) (streaming : bool) : MethodDescriptorProto :=
  {| md_name := Some name; md_input_type := Some ".shop.Order";
     md_output_type := Some ".shop.Order"; md_client_streaming := None;
     md_server_streaming := Some streaming |}.

Definition sample_descriptor : list FileDescriptorProto :=
  [{| fl_name := Some "shop.proto"; fl_package := Some "shop"; fl_java_package := None;
      fl_message_type := [MkMessage (Some "Order") [] [] [] [] [];
                          MkMessage (Some "OrderEvent") [] [] [] [] []];
      fl_enum_type := [];
      fl_service := [{| sd_name := Some "Orders";
                        sd_method := [sample_method "Put" false; sample_method "Watch" true] |}] |}].

Definition sample_policies : list (string * RpcPolicy) :=
  [("shop.Orders/Put", RpcPolicy_defaults false);
   ("shop.Orders/Watch", RpcPolicy_defaults true)].

Definition sample_unary (_ : Z) (_ : RpcPolicy) : handler_fn := λ body, Returned (Ok body).
Definition sample_stream (_ : Z) (_ : RpcPolicy) : stream_handler_fn := λ _, OpenHung.

Definition sample_generated : list builder_op :=
  default [] (ok (generated_ops sample_policies sample_unary sample_stream sample_descriptor)).

Lemma generated_bindings_build_witness :
  length (method_ids sample_descriptor) = 2%nat ∧ length (event_ids sample_descriptor) = 1%nat ∧
  NoDup (method_ids sample_descriptor ++ event_ids sample_descriptor).
Proof.
  split; [vm_compute; reflexivity|]. split; [vm_compute; reflexivity|].
  refine (proj1 (proj2 (generated_bindings_build sample_policies sample_unary sample_stream
    sample_descriptor sample_generated (λ c b, RunNext c b (λ r, Finish (Returned r))) _ _)));
    vm_compute; reflexivity.
Defined.

(** Two methods with one canonical name are refused. *)
Example duplicate_method_id_refused :
  is_err (validate_method_ids (sample_descriptor ++ sample_descriptor)) = true.
Proof. vm_compute. reflexivity. Qed.
