(* ===== verification/Handlers.v ===== *)
(** What generated service bindings do at run time: the body of the closures
    that [generate_rust_method] of [codegen/src/lib.rs] emits, around the
    application's typed service, and the stream adapters of the server that
    they use.  The Protobuf messages with their decoder and encoder are an
    interface; stage timings are those of [Telemetry]. *)
From S2P Require Import Prelude Protocol Metadata Compression Transport Outbound.
From S2P Require Import Middleware Router Dispatch OrdMap Descriptor Policy Bindings.

(** * Typed streams *)

(** [ServerStream<T>]: the items that come, then how the stream ends. *)
Record ServerStream (T : Type) := MkTypedStream {
  ts_items : list (result HandlerError T);
  ts_last : stream_tail;
}.
Arguments MkTypedStream {T} ts_items ts_last.
Arguments ts_items {T}.
Arguments ts_last {T}.

Definition map_server_stream {T U} (s : ServerStream T) (mapper : T → U) : ServerStream U :=
  MkTypedStream (map (λ item, v ← item; Ok (mapper v)) (ts_items s)) (ts_last s).

Definition try_map_server_stream {T U} (s : ServerStream T) (mapper : T → result HandlerError U)
    : ServerStream U :=
  MkTypedStream (map (λ item, v ← item; mapper v) (ts_items s)) (ts_last s).

Definition iter_server_stream {T} (items : list (result HandlerError T)) : ServerStream T :=
  MkTypedStream items TailEnds.

Definition raw_stream (s : ServerStream bytes) : server_stream :=
  {| stream_items := ts_items s; stream_last := ts_last s |}.

(** * Messages *)

(** [M::decode] and [encode_to_vec] of a generated message type. *)
Class MessageOps (M : Type) := {
  message_decode : bytes → result string M;
  message_encode : M → bytes;
}.
Class MessageLaws (M : Type) `{!MessageOps M} : Prop :=
  message_decode_encode : ∀ m : M, message_decode (message_encode m) = Ok m.

(** How the future of a service method ends. *)
Inductive service_outcome (T : Type) :=
  | ServiceReturned (r : result HandlerError T)
  | ServicePanicked
  | ServiceHung.
Arguments ServiceReturned {T} r.
Arguments ServicePanicked {T}.
Arguments ServiceHung {T}.

(** * The generated closures *)

Definition exhausted (text : string) : HandlerError :=
  {| code := ErrorCode.ResourceExhausted; message := as_bytes text |}.

Section generated.
Context {Request Response : Type} `{!MessageOps Request, !MessageOps Response}.
Implicit Types (policy : RpcPolicy).

(** The size check and the decoding that both kinds of method start with. *)
Definition generated_decode policy (body : bytes) : result HandlerError Request :=
  if zlen body >? max_request_bytes policy
  then Err (exhausted "request exceeds generated RPC policy")
  else map_err (λ error, {| code := ErrorCode.InvalidRequest; message := as_bytes error |})
         (message_decode body).

Definition generated_encode policy (text : string) (response : Response)
    : result HandlerError bytes :=
  let encoded := message_encode response in
  if zlen encoded >? max_response_bytes policy then Err (exhausted text) else Ok encoded.

Definition generated_unary policy (service : Request → service_outcome Response) : handler_fn :=
  λ body,
    match generated_decode policy body with
    | Err e => Returned (Err e)
    | Ok request =>
        match service request with
        | ServicePanicked => Panicked
        | ServiceHung => Hung
        | ServiceReturned (Err e) => Returned (Err e)
        | ServiceReturned (Ok response) =>
            Returned (generated_encode policy "response exceeds generated RPC policy" response)
        end
    end.

Definition generated_stream policy (service : Request → service_outcome (ServerStream Response))
    : stream_handler_fn :=
  λ body,
    match generated_decode policy body with
    | Err e => OpenFailed e
    | Ok request =>
        match service request with
        | ServicePanicked => OpenPanicked
        | ServiceHung => OpenHung
        | ServiceReturned (Err e) => OpenFailed e
        | ServiceReturned (Ok response) =>
            Opened (raw_stream (try_map_server_stream response
              (generated_encode policy "stream item exceeds generated RPC policy")))
        end
    end.
End generated.

(** * Calls to a generated service *)

Section calls.
Context `{Z0 : ZstdOps} {Request Response : Type}.
Context `{!MessageOps Request, !MessageLaws Request, !MessageOps Response, !MessageLaws Response}.

Lemma generated_decode_encode policy (q : Request) :
  zlen (message_encode q) ≤ max_request_bytes policy →
  generated_decode policy (message_encode q) = Ok q.
Proof.
  intros H. unfold generated_decode. rewrite Z.gtb_ltb, (proj2 (Z.ltb_ge _ _)) by lia.
  by rewrite message_decode_encode.
Qed.

Lemma generated_encode_cases policy text (a : Response) :
  generated_encode policy text a =
  if zlen (message_encode a) <=? max_response_bytes policy
  then Ok (message_encode a) else Err (exhausted text).
Proof. unfold generated_encode. rewrite Z.gtb_ltb, Z.ltb_antisym. by destruct (_ <=? _). Qed.

Lemma forwarded_once layer h context b :
  forwards layer →
  Next_root_run [layer] h context b =
  ([Entered 0; Handled b], contain (h b) "handler panicked").
Proof.
  intros Hf. unfold Next_root_run. simpl. rewrite Hf. simpl.
  by destruct (h b) as [r| |]; simpl.
Qed.

(** An authorised request is answered with what its handler says, unless its
    deadline passes. *)
Lemma authorised_dispatch spurious r frame max_response max_metadata c peer now late budget b' parsed
    (h : handler_fn) layer :
  let d := dispatch_observed spurious r frame max_response max_metadata c peer now late budget in
  request_payload spurious frame max_metadata c true budget = (b', Ok parsed) →
  middleware r = [layer] → forwards layer → handlers r !! Protocol.method_id frame = Some h →
  d_end d =
    if bool_decide (is_Some (pr_deadline parsed)) && late then Responded (deadline_error frame)
    else
      match h (pr_payload parsed) with
      | Returned (Ok response) =>
          if zlen response <=? max_response
          then Responded (Frame_new FrameKind.Response (Protocol.method_id frame) (request_id frame)
                            response)
          else Responded (error_frame frame ErrorCode.ResourceExhausted
                            (as_bytes "response exceeds negotiated body limit"))
      | Returned (Err e) => Responded (error_frame frame (code e) (message e))
      | Panicked => Responded (error_frame frame ErrorCode.Internal (as_bytes "handler panicked"))
      | Hung => if bool_decide (is_Some (pr_deadline parsed)) then Responded (deadline_error frame)
                else Stuck
      end.
Proof.
  intros d Hp Hm Hf Hh. unfold d, dispatch_observed, dispatch_parsed, answer_frame, keeps_metadata.
  assert (is_Some (pr_metadata parsed)) as [metadata Hmeta] by (by eapply request_payload_retain).
  rewrite Hm, bool_decide_eq_false_2 by done. cbn [negb]. rewrite Hp, Hh. unfold invoke.
  rewrite Hmeta, Hm, forwarded_once by done.
  destruct (h (pr_payload parsed)) as [[response|e]| |]; cbn [contain].
  all: destruct (bool_decide _), late; simpl; try done.
  all: rewrite Z.gtb_ltb, Z.ltb_antisym; by destruct (zlen response <=? max_response).
Qed.

Lemma authorised_stream spurious r frame max_response max_metadata c peer now late writer turns
    budget b' parsed (h : bytes → stream_outcome) layer :
  request_payload spurious frame max_metadata c true budget = (b', Ok parsed) →
  middleware r = [layer] → forwards layer →
  stream_handlers r !! Protocol.method_id frame = Some h →
  s_frames (dispatch_stream spurious r frame max_response max_metadata c peer now late writer turns
              budget)
  = (deliver frame max_response parsed
       (opening_of frame (bool_decide (is_Some (pr_deadline parsed))) late (h (pr_payload parsed)))
       writer turns).1.
Proof.
  intros Hp Hm Hf Hh. unfold dispatch_stream, open_stream, keeps_metadata.
  assert (is_Some (pr_metadata parsed)) as [metadata Hmeta] by (by eapply request_payload_retain).
  rewrite Hm, bool_decide_eq_false_2 by done. cbn [negb]. rewrite Hp, Hh. unfold invoke.
  rewrite Hmeta, Hm, forwarded_once by done. cbn [contain]. by destruct (deliver _ _ _ _ _ _).
Qed.

(** With a turn and a credit for each item and room for all, all are sent. *)
Lemma stream_run_all frame max_response (l : list bytes) dl turns credits n :
  Forall (λ b, zlen b ≤ max_response) l → (length l < length turns)%nat → 0 ≤ credits →
  Forall (λ t, 1 ≤ tn_credits t ∧ tn_late t = false ∧ tn_queue t = Some true) turns →
  (stream_run frame max_response turns credits (MkDelivery (map Ok l) TailEnds dl n)).1 =
  map (stream_item frame) l ++ [stream_end frame].
Proof.
  intros Hl. revert turns credits n. induction Hl as [|b l Hb Hl IH]; intros [|t turns] credits n Hlen Hc;
    simpl in Hlen; try lia; intros [(Hcr & Hlate & Hq) Ht]%Forall_cons; cbn [stream_run];
    unfold stream_turn; cbn [dv_deadline dv_items dv_tail dv_bytes map]; rewrite Hlate, andb_false_r.
  - by rewrite Hq.
  - rewrite (proj2 (Z.leb_le _ _) Hb), (proj2 (Z.ltb_lt _ _)) by lia. rewrite Hq. simpl.
    specialize (IH turns (credits + tn_credits t - 1) (n + zlen b) ltac:(lia) ltac:(lia) Ht).
    destruct (stream_run _ _ _ _ _). simpl in *. by rewrite IH.
Qed.

(** The closures of a generated service that is installed behind a layer: each
    has the policy of its method. *)
Lemma generated_handler policies unary stream files ops authorization r file service name m :
  generated_ops policies unary stream files = Ok ops →
  build_router (OAuthorization authorization :: ops) = Some r →
  described files file service name m →
  let id := Bindings.method_id (canonical_method file service name) in
  middleware r = [authorization] ∧
  ∃ policy, bt_get (canonical_method file service name) policies = Some policy ∧
    if default false (md_server_streaming m)
    then stream_handlers r !! id = Some (stream id policy)
    else handlers r !! id = Some (unary id policy).
Proof.
  intros Hops Hr [Hf (s & Hs & Hsn & Hm) Hn] id.
  pose proof (generated_ops_blocks _ _ _ _ _ Hops) as Hl%registers_layers.
  destruct (generated_router_handlers _ _ _ Hr Hl) as (Hmw & Hh & Hst). split; [done|].
  destruct (generated_route _ _ _ _ _ _ _ _ _ _ Hops Hf Hs Hsn Hm Hn) as (policy & Hp & _ & Hin).
  exists policy. split; [done|]. destruct (default false (md_server_streaming m)); auto.
Qed.
End calls.

(** * Properties *)

Section properties.
Context `{Z0 : ZstdOps} {Request Response : Type}.
Context `{!MessageOps Request, !MessageLaws Request, !MessageOps Response, !MessageLaws Response}.

(** C27 A call through generated bindings, end to end.  Take any descriptor set,
    the router that its generated registrations build behind an authorization
    layer that forwards requests and answers unchanged, a unary method of the
    set and any request for it that parses, with metadata, deadline and
    compression or without.  The policy of the method is the one that the
    policies have for its canonical name.  If the deadline passes, the client
    gets a deadline error.  Otherwise, a payload that is larger than this policy
    allows or does not decode is answered with an error, whatever the service
    would do; else the service runs on the decoded message, and the client gets
    a response that decodes to the service's answer if this is within the policy
    and the negotiated limit, the service's own error, an internal error if it
    panicked, and resource-exhausted for an answer that is too large. *)
Theorem generated_call_end_to_end policies unary stream files ops authorization r file service name m
    (svc : Request → service_outcome Response) spurious frame max_response max_metadata c peer
    now late budget b' parsed :
  generated_ops policies unary stream files = Ok ops →
  build_router (OAuthorization authorization :: ops) = Some r →
  forwards authorization →
  described files file service name m → default false (md_server_streaming m) = false →
  Protocol.method_id frame = Bindings.method_id (canonical_method file service name) →
  (∀ policy, unary (Protocol.method_id frame) policy = generated_unary policy svc) →
  request_payload spurious frame max_metadata c true budget = (b', Ok parsed) →
  let b := pr_payload parsed in
  let answer :=
    d_end (dispatch_observed spurious r frame max_response max_metadata c peer now late budget) in
  ∃ policy,
    bt_get (canonical_method file service name) policies = Some policy ∧
    (∀ q : Request, b = message_encode q → zlen b ≤ max_request_bytes policy →
       generated_decode policy b = Ok q) ∧
    if bool_decide (is_Some (pr_deadline parsed)) && late then answer = Responded (deadline_error frame)
    else
      match generated_decode policy b with
      | Err e =>
          code e = (if zlen b >? max_request_bytes policy
                    then ErrorCode.ResourceExhausted else ErrorCode.InvalidRequest) ∧
          answer = Responded (error_frame frame (code e) (message e))
      | Ok request =>
          match svc request with
          | ServiceReturned (Ok a) =>
              if zlen (message_encode a) <=? Z.min (max_response_bytes policy) max_response
              then ∃ f, answer = Responded f ∧ kind f = FrameKind.Response ∧
                        Protocol.method_id f = Protocol.method_id frame ∧
                        request_id f = request_id frame ∧ message_decode (body f) = Ok a
              else ∃ text, answer = Responded (error_frame frame ErrorCode.ResourceExhausted text)
          | ServiceReturned (Err e) => answer = Responded (error_frame frame (code e) (message e))
          | ServicePanicked => ∃ text, answer = Responded (error_frame frame ErrorCode.Internal text)
          | ServiceHung =>
              answer = if bool_decide (is_Some (pr_deadline parsed))
                       then Responded (deadline_error frame) else Stuck
          end
      end.
Proof.
  intros Hops Hr Hf Hd Hns Hid Hu Hparse b answer.
  destruct (generated_handler _ _ _ _ _ _ _ _ _ _ _ Hops Hr Hd) as [Hm (policy & Hp & Hh)].
  rewrite Hns, <- Hid, Hu in Hh. exists policy. split; [done|].
  split; [intros q -> Hq; by apply generated_decode_encode|].
  pose proof (authorised_dispatch spurious r frame max_response max_metadata c peer now late budget
    _ _ _ _ Hparse Hm Hf Hh) as He. cbv zeta in He. fold answer b in He. rewrite He.
  destruct (bool_decide _ && late); [done|]. clear He answer. unfold generated_unary.
  destruct (generated_decode policy b) as [request|e] eqn:Hdec.
  - destruct (svc request) as [[a|e]| |]; [|done|by eexists|done]. rewrite generated_encode_cases.
    destruct (zlen (message_encode a) <=? max_response_bytes policy) eqn:H1,
      (zlen (message_encode a) <=? max_response) eqn:H2; rewrite ?H2; bool_to_prop.
    + rewrite (proj2 (Z.leb_le _ _)) by lia. eexists. split_and!; try done.
      apply message_decode_encode.
    + rewrite (proj2 (Z.leb_gt _ _)) by lia. by eexists.
    + rewrite (proj2 (Z.leb_gt _ _)) by lia. by eexists.
    + rewrite (proj2 (Z.leb_gt _ _)) by lia. by eexists.
  - split; [|done]. revert Hdec. unfold generated_decode. destruct (_ >? _); [by intros [= <-]|].
    by destruct (message_decode b); intros [= <-].
Qed.

(** C14 A stream through generated bindings, end to end.  In the same setting, take
    a streaming method and a request for it that parses and whose payload is an
    encoded message within the method's policy.  If the service answers with a
    stream of messages that ends, each within the policy and the negotiated
    limit, and its handler is ready and its turns come in time, each turn brings
    a credit, there is a turn for each message and one more, and the response
    queue has room, then what is queued for the client is a stream item for each
    message, in order, that decodes to it, and the end of the stream. *)
Theorem generated_stream_end_to_end policies unary stream files ops authorization r file service name m
    (svc : Request → service_outcome (ServerStream Response)) (q : Request)
    (answers : list Response) spurious frame max_response max_metadata c peer now late writer turns
    budget b' parsed policy :
  generated_ops policies unary stream files = Ok ops →
  build_router (OAuthorization authorization :: ops) = Some r →
  forwards authorization →
  described files file service name m → default false (md_server_streaming m) = true →
  Protocol.method_id frame = Bindings.method_id (canonical_method file service name) →
  (∀ policy, stream (Protocol.method_id frame) policy = generated_stream policy svc) →
  bt_get (canonical_method file service name) policies = Some policy →
  request_payload spurious frame max_metadata c true budget = (b', Ok parsed) →
  pr_payload parsed = message_encode q → zlen (message_encode q) ≤ max_request_bytes policy →
  svc q = ServiceReturned (Ok (iter_server_stream (map Ok answers))) →
  Forall (λ a, zlen (message_encode a) ≤ Z.min (max_response_bytes policy) max_response) answers →
  bool_decide (is_Some (pr_deadline parsed)) && late = false →
  (length answers < length turns)%nat →
  Forall (λ t, 1 ≤ tn_credits t ∧ tn_late t = false ∧ tn_queue t = Some true) turns →
  ∃ items,
    s_frames (dispatch_stream spurious r frame max_response max_metadata c peer now late writer turns
                budget) = map (stream_item frame) items ++ [stream_end frame] ∧
    map message_decode items = map Ok answers.
Proof.
  intros Hops Hr Hf Hd Hs Hid Hu Hp Hparse Hq Hqm Hsvc Hall Hlate Hlen Ht.
  exists (map message_encode answers).
  destruct (generated_handler _ _ _ _ _ _ _ _ _ _ _ Hops Hr Hd) as [Hm (policy' & Hp' & Hh)].
  rewrite Hp in Hp'. injection Hp' as <-. rewrite Hs, <- Hid, Hu in Hh. split.
  - rewrite (authorised_stream _ _ _ _ _ _ _ _ _ _ _ _ _ _ _ _ Hparse Hm Hf Hh), Hq.
    unfold opening_of. rewrite Hlate. unfold generated_stream.
    rewrite generated_decode_encode, Hsvc by done. cbn [deliver].
    rewrite <- (stream_run_all frame max_response (map message_encode answers)
      (bool_decide (is_Some (pr_deadline parsed))) turns 0 0).
    + unfold delivery_of. simpl. rewrite !map_map. do 3 f_equal. apply map_ext_Forall.
      eapply Forall_impl; [exact Hall|]. intros a Ha. simpl in Ha |- *.
      by rewrite generated_encode_cases, (proj2 (Z.leb_le _ _)) by lia.
    + rewrite Forall_map. eapply Forall_impl; [exact Hall|]. intros a Ha. simpl in *. lia.
    + by rewrite length_map.
    + done.
    + done.
  - rewrite map_map. apply map_ext. apply message_decode_encode.
Qed.
End properties.

(** * Witnesses *)

Section witnesses.

(** A message with one field: its tag, then the bytes of the field. *)
Record Note := MkNote { note_text : bytes }.

#[local] Instance note_ops : MessageOps Note := {|
  message_decode b := match b with
                      | x0a :: text => Ok (MkNote text)
                      | _ => Err "invalid tag"%string
                      end;
  message_encode n := x0a :: note_text n;
|}.
#[local] Instance note_laws : MessageLaws Note.
Proof. by intros []. Qed.

(** A service that turns a note around, and one that repeats it. *)
Definition note_service (n : Note) : service_outcome Note :=
  ServiceReturned (Ok (MkNote (rev (note_text n)))).
Definition note_stream (n : Note) : service_outcome (ServerStream Note) :=
  ServiceReturned (Ok (iter_server_stream (map Ok [n; n]))).

Definition note_unary (_ : Z) (policy : RpcPolicy) : handler_fn := generated_unary policy note_service.
Definition note_streams (_ : Z) (policy : RpcPolicy) : stream_handler_fn :=
  generated_stream policy note_stream.

(** The registrations of the sample services, for any implementation. *)
Definition sample_calls (unary : Z → RpcPolicy → handler_fn) (stream : Z → RpcPolicy → stream_handler_fn)
    : list builder_op :=
  default [] (ok (generated_ops sample_policies unary stream sample_descriptor)).
Definition pass_through : middleware_fn := λ c b, RunNext c b (λ r, Finish (Returned r)).
Definition note_file : FileDescriptorProto := default (MkFile None None None [] [] []) (head sample_descriptor).
Definition sample_router (unary : Z → RpcPolicy → handler_fn) (stream : Z → RpcPolicy → stream_handler_fn) : Router :=
  default (MkRouter ∅ ∅ ∅ ∅ [] None)
    (build_router (OAuthorization pass_through :: sample_calls unary stream)).

Lemma sample_calls_generated unary stream :
  generated_ops sample_policies unary stream sample_descriptor = Ok (sample_calls unary stream).
Proof. vm_compute. reflexivity. Qed.

Lemma sample_router_built unary stream :
  build_router (OAuthorization pass_through :: sample_calls unary stream) =
  Some (sample_router unary stream).
Proof. vm_compute. reflexivity. Qed.

Definition note_router : Router := sample_router note_unary note_streams.

Lemma note_described name streaming :
  sample_method name streaming ∈ [sample_method "Put" false; sample_method "Watch" true] →
  described sample_descriptor note_file "Orders" name (sample_method name streaming).
Proof.
  intros H. split; [by left| |done]. eexists. split; [by left|]. by split.
Qed.

(** A request frame for a method of the sample service. *)
Definition note_request (name : string) (b : bytes) : Frame :=
  Frame_new FrameKind.Request (Bindings.method_id ("shop.Orders/" +:+ name)) 9 b.

Definition note_parsed (b : bytes) : ParsedRequest :=
  {| pr_deadline := None; pr_trace_context := None; pr_metadata := Some Metadata_new;
     pr_payload := b; pr_decoded_permit := None |}.

Lemma generated_call_end_to_end_witness :
  ∃ f, d_end (dispatch_observed [] note_router (note_request "Put" [x0a; x01; x02])
         16 64 wire_compression None 0 false witness_budget) = Responded f ∧
       message_decode (body f) = Ok (MkNote [x02; x01]).
Proof.
  destruct (generated_call_end_to_end sample_policies note_unary note_streams sample_descriptor
    (sample_calls note_unary note_streams) pass_through note_router note_file "Orders" "Put" (sample_method "Put" false)
    note_service [] (note_request "Put" [x0a; x01; x02]) 16 64 wire_compression None 0 false
    witness_budget witness_budget (note_parsed [x0a; x01; x02])) as (policy & Hp & _ & H).
  - apply sample_calls_generated.
  - apply sample_router_built.
  - intros c b. reflexivity.
  - apply note_described. by left.
  - reflexivity.
  - vm_compute. reflexivity.
  - reflexivity.
  - reflexivity.
  - vm_compute in Hp. injection Hp as <-. destruct H as (f & Hf & _ & _ & _ & Hd).
    exists f. split; [exact Hf|exact Hd].
Defined.

Lemma generated_stream_end_to_end_witness :
  ∃ items,
    s_frames (dispatch_stream [] note_router (note_request "Watch" [x0a; x07])
      16 64 wire_compression None 0 false true (paced (replicate 3 (Some true))) witness_budget) =
    map (stream_item (note_request "Watch" [x0a; x07])) items
    ++ [stream_end (note_request "Watch" [x0a; x07])] ∧
    map message_decode items = map Ok [MkNote [x07]; MkNote [x07]].
Proof.
  pose proof (generated_stream_end_to_end sample_policies note_unary note_streams sample_descriptor
    (sample_calls note_unary note_streams) pass_through note_router note_file "Orders" "Watch" (sample_method "Watch" true)
    note_stream (MkNote [x07]) [MkNote [x07]; MkNote [x07]] [] (note_request "Watch" [x0a; x07]) 16 64
    wire_compression None 0 false true (paced (replicate 3 (Some true))) witness_budget witness_budget
    (note_parsed [x0a; x07]) (RpcPolicy_defaults true)) as H.
  apply H.
  - apply sample_calls_generated.
  - apply sample_router_built.
  - intros c b. reflexivity.
  - apply note_described. right. by left.
  - reflexivity.
  - vm_compute. reflexivity.
  - reflexivity.
  - vm_compute. reflexivity.
  - reflexivity.
  - reflexivity.
  - vm_compute. discriminate.
  - reflexivity.
  - repeat constructor; vm_compute; discriminate.
  - reflexivity.
  - simpl. lia.
  - repeat constructor; simpl; lia.
Defined.
End witnesses.
