(* ===== verification/Backend.v ===== *)
(** The example backends of [examples/]: the monitoring service and the metrics
    endpoint of [observability-backend/src/main.rs], and the streaming method of
    [test-plugin-backend/src/main.rs]. *)
From Stdlib Require Import Ascii DecimalString DecimalZ.
From S2P Require Import Prelude Text Protocol Middleware Router Dispatch Telemetry Adapters.
From S2P Require Import Handlers.

(** * The services *)

Record PingRequest := MkPingRequest { pq_message : string }.
Record PingResponse := MkPingResponse { pa_message : string; handled_at_unix_ms : Z }.

(** [now]: nanoseconds since the epoch, negative before it. *)
Definition ping (now : Z) (request : PingRequest) : result HandlerError PingResponse :=
  Ok {| pa_message := "rust-backend:" +:+ pq_message request;
        handled_at_unix_ms := Z.min (Z.max 0 now / 10 ^ 6) i64_max |}.

(** The time of an answer is an [i64], and it follows the clock. *)
Lemma ping_time now request response :
  ping now request = Ok response →
  0 ≤ handled_at_unix_ms response ≤ i64_max ∧
  (0 ≤ now → now / 10 ^ 6 ≤ i64_max → handled_at_unix_ms response = now / 10 ^ 6).
Proof.
  intros [= <-]. simpl. assert (0 ≤ Z.max 0 now / 10 ^ 6) by (apply Z.div_pos; lia).
  assert (0 ≤ i64_max) by done. split; [lia|]. intros Hn Hm. rewrite Z.max_r by lia. lia.
Qed.

Record EchoRequest := MkEchoRequest { eq_message : string }.
Record EchoResponse := MkEchoResponse { ea_message : string }.

Definition stream_echo (request : EchoRequest) : result HandlerError (ServerStream EchoResponse) :=
  Ok (iter_server_stream
        (map (λ index, Ok {| ea_message := eq_message request +:+ "-" +:+ to_decimal index |}) [0; 1; 2])).

(** * The metrics endpoint *)

Definition crlf : string := String (ascii_of_nat 13) (String (ascii_of_nat 10) "").

Definition metrics_response (body : string) : string :=
  "HTTP/1.1 200 OK" +:+ crlf
  +:+ "Content-Type: text/plain; version=0.0.4" +:+ crlf
  +:+ ("Content-Length: " +:+ to_decimal (Z.of_nat (String.length body))) +:+ crlf
  +:+ "Connection: close" +:+ crlf
  +:+ crlf
  +:+ body.

(** One scrape: the snapshot is offered to the exporter, which may be busy, and
    the text is rendered; a rendering that fails is the empty text. *)
Definition serve_scrape (render : PrometheusSnapshotExporter → result string string) (busy : bool)
    (snapshot : MetricsSnapshot) (exporter : PrometheusSnapshotExporter)
    : PrometheusSnapshotExporter * string :=
  let '(_, exporter) := try_update busy snapshot exporter in
  let body := match render exporter with Ok text => text | Err _ => "" end in
  (exporter, metrics_response body).

(** ** A client of the endpoint *)

(** A line without its end, and the rest. *)
Fixpoint read_line (s : string) : option (string * string) :=
  match s with
  | String a (String b rest as tail) =>
      if bool_decide (a = ascii_of_nat 13 ∧ b = ascii_of_nat 10) then Some ("", rest)
      else '(line, rest) ← read_line tail; Some (String a line, rest)
  | _ => None
  end.

(** Header fields up to the empty line, by name and value. *)
Definition field_of (line : string) : option (string * string) :=
  i ← String.index 0 ": " line;
  Some (String.substring 0 i line, String.substring (i + 2) (String.length line) line).

Fixpoint read_fields (fuel : nat) (s : string) : option (list (string * string) * string) :=
  match fuel with
  | O => None
  | S fuel =>
      '(line, rest) ← read_line s;
      if bool_decide (line = "") then Some ([], rest)
      else
        field ← field_of line;
        '(fields, rest) ← read_fields fuel rest;
        Some (field :: fields, rest)
  end.

(** The status line and the body of a response, by its announced length. *)
Definition read_response (s : string) : option (string * string) :=
  '(status, rest) ← read_line s;
  '(fields, rest) ← read_fields (String.length s) rest;
  '(_, value) ← List.find (λ f, bool_decide (f.1 = "Content-Length")) fields;
  n ← Z.of_int <$> NilZero.int_of_string value;
  Some (status, String.substring 0 (Z.to_nat n) rest).

(** ** What it reads *)

Fixpoint no_cr (s : string) : bool :=
  match s with
  | EmptyString => true
  | String a s => negb (bool_decide (a = ascii_of_nat 13)) && no_cr s
  end.

Lemma read_line_app l rest : no_cr l = true → read_line (l +:+ crlf +:+ rest) = Some (l, rest).
Proof.
  induction l as [|a l IH]; intros Hl; [done|]. simpl in Hl. apply andb_prop in Hl as [Ha Hl].
  bool_to_prop. specialize (IH Hl).
  change (String a l +:+ crlf +:+ rest) with (String a (l +:+ crlf +:+ rest)).
  destruct (l +:+ crlf +:+ rest) as [|b s] eqn:E; [by destruct l|].
  cbn [read_line]. rewrite bool_decide_eq_false_2 by (by intros [-> _]).
  change (match read_line (String b s) with Some p => (let '(line, r) := p in Some (String a line, r)) | None => None end = Some (String a l, rest)).
  by rewrite IH.
Qed.

Lemma no_cr_app s t : no_cr (s +:+ t) = no_cr s && no_cr t.
Proof. induction s as [|a s IH]; [done|]. simpl. by rewrite <- andb_assoc, <- IH. Qed.

Lemma no_cr_uint d : no_cr (NilEmpty.string_of_uint d) = true.
Proof. by induction d. Qed.

Lemma no_cr_decimal n : no_cr (to_decimal n) = true.
Proof.
  unfold to_decimal, NilZero.string_of_int, NilZero.string_of_uint.
  destruct (Z.to_int n) as [[]|[]]; simpl; try done; apply no_cr_uint.
Qed.

Lemma decimal_read n : Z.of_int <$> NilZero.int_of_string (to_decimal n) = Some n.
Proof.
  unfold to_decimal. rewrite NilZero.isi; simpl.
  - by rewrite DecimalZ.of_to.
  - intros H. pose proof (DecimalZ.of_to n) as Hn. destruct n as [|p|p]; try done.
    rewrite H in Hn. done.
  - intros H. pose proof (DecimalZ.of_to n) as Hn. rewrite H in Hn. simpl in Hn. by subst n.
Qed.

Lemma substring_all s n : (String.length s ≤ n)%nat → String.substring 0 n s = s.
Proof.
  revert n. induction s as [|a s IH]; intros [|n] Hn; simpl in *; try done; [lia|].
  rewrite IH by lia. done.
Qed.

Lemma content_length_field value :
  field_of ("Content-Length: " +:+ value) = Some ("Content-Length", value).
Proof.
  unfold field_of.
  assert (String.index 0 ": " ("Content-Length: " +:+ value) = Some 14%nat) as -> by by destruct value.
  cbn [mbind option_bind]. set (n := String.length _).
  change (Some ("Content-Length"%string, String.substring 0 n value) = Some ("Content-Length"%string, value)).
  rewrite substring_all; [done|]. change (String.length value ≤ 16 + String.length value)%nat. lia.
Qed.

Lemma read_fields_field fuel line field rest fields body :
  no_cr line = true → line ≠ "" → field_of line = Some field →
  read_fields fuel rest = Some (fields, body) →
  read_fields (S fuel) (line +:+ crlf +:+ rest) = Some (field :: fields, body).
Proof.
  intros Hl Hne Hf Hr. cbn [read_fields]. rewrite read_line_app by done.
  cbn. rewrite bool_decide_eq_false_2 by done. rewrite Hf. cbn. by rewrite Hr.
Qed.

(** A scrape is answered with a response whose announced length is its body's: a
    client that reads the header to its empty line and then that many bytes gets
    the rendered text, whatever it contains. *)
Theorem metrics_response_read body :
  read_response (metrics_response body) = Some ("HTTP/1.1 200 OK", body).
Proof.
  assert (∃ fuel, String.length (metrics_response body) = S (S (S (S fuel)))) as [fuel Hfuel]
    by (eexists; reflexivity).
  unfold read_response. rewrite Hfuel. unfold metrics_response.
  rewrite (read_line_app "HTTP/1.1 200 OK") by done. cbn [mbind option_bind].
  erewrite read_fields_field; [|done|done|reflexivity|].
  2: { apply read_fields_field; [by rewrite no_cr_app, no_cr_decimal|done|apply content_length_field|].
       apply read_fields_field; [done|done|reflexivity|]. reflexivity. }
  cbn [mbind option_bind]. cbn -[to_decimal String.substring Z.of_int NilZero.int_of_string Z.to_nat].
  rewrite bool_decide_eq_false_2, bool_decide_eq_true_2 by (done || (vm_compute; discriminate)).
  cbn -[to_decimal String.substring Z.of_int NilZero.int_of_string Z.to_nat].
  rewrite decimal_read. cbn -[String.substring Z.to_nat]. rewrite Nat2Z.id, substring_all by lia. done.
Qed.
