(* ===== verification/Json.v ===== *)
(** The JSON of the schema lock: [serde_json]'s value type with the accessors
    that [codegen/src/source.rs] uses, the decimal texts of [i32], and the value
    that the derived serialiser of [codegen/src/schema.rs] writes for a lock.
    Text and value are related by [serde_json], outside of the model. *)
From Stdlib Require Import Ascii DecimalString DecimalZ DecimalFacts.
From S2P Require Import Prelude OrdMap Text Policy Schema.

(** * [serde_json::Value] *)

(** Numbers that are not integers of type [i64] have no value for [as_i64]. An
    object is a [BTreeMap] of its keys. *)
Inductive Value :=
  | Null
  | Bool (b : bool)
  | Number (n : option Z)
  | String_ (s : string)
  | Array (l : list Value)
  | Object (m : list (string * Value)).

(** [value.as_object()], [value.as_array()], [value.as_str()],
    [value.as_i64()], [value.get(key)] *)
Definition as_object (v : Value) : option (list (string * Value)) :=
  match v with Object m => Some m | _ => None end.
Definition as_array (v : Value) : option (list Value) :=
  match v with Array l => Some l | _ => None end.
Definition as_str (v : Value) : option string :=
  match v with String_ s => Some s | _ => None end.
Definition as_i64 (v : Value) : option Z :=
  match v with Number n => n | _ => None end.
Definition json_get (key : string) (v : Value) : option Value := as_object v ≫= bt_get key.

(** The object of a list of members, in the order of the text. *)
Definition object (members : list (string * Value)) : Value :=
  Object (foldl (λ m p, bt_insert p.1 p.2 m) [] members).

(** * Decimal texts of [i32] *)

Definition i32_min : Z := - 2 ^ 31.

Definition is_i32 (n : Z) : bool := (i32_min <=? n) && (n <=? i32_max).

(** [n.to_string()] *)
Definition i32_to_string (n : Z) : string := to_decimal n.

(** At least one digit, and only digits. *)
Definition parse_digits (s : string) : option Z := Z.of_uint <$> NilZero.uint_of_string s.

(** [s.parse::<i32>().ok()]: a sign of either kind and digits, in range. *)
Definition parse_i32 (s : string) : option Z :=
  n ← match s with
      | String c t =>
          if bool_decide (c = "-"%char) then Z.opp <$> parse_digits t
          else if bool_decide (c = "+"%char) then parse_digits t
          else parse_digits s
      | EmptyString => None
      end;
  if is_i32 n then Some n else None.

(** [n as i32] of an [i64]. *)
Definition as_i32 (n : Z) : Z := (n + 2 ^ 31) mod 2 ^ 32 - 2 ^ 31.

(** * The derived [Serialize] of the lock *)

Definition int_value (n : Z) : Value := Number (Some n).

Definition range_value (r : NumberRange) : Value :=
  object [("start", int_value (start r)); ("end", int_value (end_ r))].

Definition field_value (f : LockedField) : Value :=
  object [("name", String_ (lf_name f)); ("number", int_value (lf_number f));
          ("label", int_value (lf_label f)); ("kind", int_value (lf_kind f));
          ("type_name", String_ (lf_type_name f));
          ("oneof_index", from_option int_value Null (lf_oneof_index f));
          ("proto3_optional", Bool (lf_proto3_optional f))].

Definition message_value (m : LockedMessage) : Value :=
  object [("fields", object (map (λ p, (i32_to_string p.1, field_value p.2)) (lm_fields m)));
          ("reserved_ranges", Array (map range_value (lm_reserved_ranges m)));
          ("reserved_names", Array (map String_ (lm_reserved_names m)))].

Definition enum_value (e : LockedEnum) : Value :=
  object [("values", object (map (λ p, (i32_to_string p.1, String_ p.2)) (le_values e)));
          ("reserved_ranges", Array (map range_value (le_reserved_ranges e)));
          ("reserved_names", Array (map String_ (le_reserved_names e)))].

Section lock_value.
(** What [RpcPolicy] serialises to; the front end does not look at it. *)
Context (policy_value : RpcPolicy → Value).

Definition method_value (m : LockedMethod) : Value :=
  object [("input", String_ (lk_input m)); ("output", String_ (lk_output m));
          ("client_streaming", Bool (lk_client_streaming m));
          ("server_streaming", Bool (lk_server_streaming m));
          ("policy", policy_value (lk_policy m))].

Definition service_value (s : LockedService) : Value :=
  object [("methods", object (map (λ p, (p.1, method_value p.2)) (ls_methods s)))].

Definition lock_value (l : SchemaLock) : Value :=
  object [("format", int_value (format l));
          ("messages", object (map (λ p, (p.1, message_value p.2)) (messages l)));
          ("enums", object (map (λ p, (p.1, enum_value p.2)) (enums l)));
          ("services", object (map (λ p, (p.1, service_value p.2)) (services l)))].
End lock_value.

(** * Lemmas *)

Lemma as_i32_small n : is_i32 n = true → as_i32 n = n.
Proof. unfold is_i32, as_i32, i32_min, i32_max. intros. bool_to_prop. rewrite Z.mod_small; lia. Qed.

Lemma as_i32_range n : is_i32 (as_i32 n) = true.
Proof.
  unfold is_i32, as_i32, i32_min, i32_max.
  pose proof (Z.mod_pos_bound (n + 2 ^ 31) (2 ^ 32) ltac:(lia)).
  apply andb_true_iff. rewrite !Z.leb_le. lia.
Qed.

Lemma parse_string_of_uint d : d ≠ Decimal.Nil → parse_digits (NilZero.string_of_uint d) = Some (Z.of_uint d).
Proof. intros Hd. unfold parse_digits. by rewrite NilZero.usu. Qed.

Lemma to_uint_nonnil p : Pos.to_uint p ≠ Decimal.Nil.
Proof. apply DecimalPos.Unsigned.to_uint_nonnil. Qed.

(** Digits are neither of the signs. *)
Lemma string_of_uint_head d c t :
  NilZero.string_of_uint d = String c t → c ≠ "-"%char ∧ c ≠ "+"%char.
Proof. destruct d; simpl; intros [= <- _]; done. Qed.

Lemma parse_i32_digits s :
  (∀ c t, s = String c t → c ≠ "-"%char ∧ c ≠ "+"%char) →
  parse_i32 s = (n ← parse_digits s; if is_i32 n then Some n else None).
Proof.
  intros H. unfold parse_i32. destruct s as [|c t]; [done|].
  destruct (H c t eq_refl) as [H1 H2]. by rewrite !bool_decide_false by done.
Qed.

Lemma parse_i32_uint n d :
  d ≠ Decimal.Nil → Z.of_uint d = n → is_i32 n = true → parse_i32 (NilZero.string_of_uint d) = Some n.
Proof.
  intros Hd <- Hn. rewrite parse_i32_digits by apply string_of_uint_head.
  rewrite parse_string_of_uint by done. simpl. by rewrite Hn.
Qed.

Lemma parse_i32_to_string n : is_i32 n = true → parse_i32 (i32_to_string n) = Some n.
Proof.
  intros Hn. pose proof (DecimalZ.of_to n) as Hof. unfold i32_to_string, to_decimal.
  destruct n as [|p|p]; simpl in *.
  - done.
  - by apply (parse_i32_uint (Z.pos p) (Pos.to_uint p) (to_uint_nonnil p)).
  - unfold parse_i32. simpl. unfold parse_digits. rewrite NilZero.usu by apply to_uint_nonnil.
    simpl. unfold Z.of_int in Hof. by rewrite Hof, Hn.
Qed.

Lemma i32_to_string_inj n m : i32_to_string n = i32_to_string m → is_i32 n = true → is_i32 m = true → n = m.
Proof.
  intros H Hn Hm. apply parse_i32_to_string in Hn, Hm. rewrite H in Hn. by simplify_eq.
Qed.

(** ** Objects *)

Lemma object_elem (l : list (string * Value)) :
  NoDup l.*1 → ∃ m, object l = Object m ∧ bt_sorted m ∧ (∀ p, p ∈ m ↔ p ∈ l).
Proof.
  intros Hnd. eexists. split; [done|]. split; [apply bt_collect_sorted; constructor|].
  intros p. by apply bt_collect_distinct.
Qed.
