(* ===== verification/RustSource.v ===== *)
(** The Rust-source front end of the code generator, [codegen/src/source.rs]:
    from the annotated declarations of a contract module and the previous schema
    lock to the lines of a Protobuf schema.  [syn]'s syntax trees are data, with
    the parts the generator looks at; parsing Rust, reading and writing files
    and the JSON parser are outside.  Identifiers are ASCII, as Protobuf
    requires. *)
From Stdlib Require Import Ascii.
From S2P Require Import Prelude OrdMap Text Descriptor Policy Schema Json.

(** * The syntax trees of [syn] *)

(** [Type::Path] with its segments, or any other type. *)
Inductive Type_ :=
  | TypePath (segments : list PathSegment)
  | TypeOther
with PathSegment :=
  | Segment (ident : string) (arguments : PathArguments)
with PathArguments :=
  | NoArguments
  | AngleBracketed (args : list GenericArgument)
  | Parenthesized
with GenericArgument :=
  | GenericType (ty : Type_)
  | GenericOther.

(** What follows the path of a nested meta item: nothing, [= value] or a
    parenthesised group. *)
Inductive MetaValue :=
  | LitStr (value : string)
  | LitInt (base10_digits : string)
  | LitOther
  | NotLiteral.

Inductive MetaRest :=
  | MetaEnd
  | MetaEquals (value : MetaValue)
  | MetaParen.

Record Meta := MkMeta { meta_path : list string; meta_rest : MetaRest }.

(** The identifiers of an attribute's path, and its parenthesised list. *)
Record Attribute := MkAttribute { attr_path : list string; attr_args : option (list Meta) }.

Inductive Fields :=
  | FieldsNamed (named : list (string * Type_))
  | FieldsUnnamed
  | FieldsUnit.

Inductive FnArg :=
  | Receiver
  | Typed (ty : Type_).

Inductive ReturnType :=
  | ReturnDefault
  | ReturnTy (ty : Type_).

Inductive TraitItem :=
  | TraitFn (attrs : list Attribute) (ident : string) (inputs : list FnArg) (output : ReturnType)
  | TraitOther.

Inductive Item :=
  | ItemMod (attrs : list Attribute) (content : option (list Item))
  | ItemStruct (attrs : list Attribute) (ident : string) (fields : Fields)
  | ItemEnum (attrs : list Attribute) (ident : string) (variants : list (string * Fields))
  | ItemTrait (attrs : list Attribute) (ident : string) (items : list TraitItem)
  | ItemOther.

(** * Errors *)

(** [SynError] is an error that [syn] words itself. *)
Inductive syn_error :=
  | ExpectedParentheses
  | ExpectedEquals
  | ExpectedStringLiteral
  | ExpectedLiteral
  | ExpectedComma.

Inductive SourceError :=
  | InvalidSource (text : string)
  | SynError (e : syn_error)
  | LockNumber (text : string)
  | LockFile.

(** * The emitted lines *)

Inductive line :=
  | SyntaxLine
  | PackageLine (package : string)
  | ImportOptions
  | JavaPackage (java_package : string)
  | JavaMultipleFiles
  | MessageOpen (name : string)
  | EnumOpen (name : string)
  | ServiceOpen (name : string)
  | BlockClose
  | ReservedNumber (number : Z)
  | ReservedName (name : string)
  | FieldLine (label field_type name : string) (number : Z)
  | ValueLine (name : string) (number : Z)
  | RpcLine (name input stream output : string)
  | RpcOpen (name input stream output : string)
  | PolicyOpen
  | PolicyEntry (key value : string)
  | RetryOpen
  | RetryEntry (key value : string)
  | RetryClose
  | ScopeEntry (scope : string)
  | PolicyClose.

#[export] Instance line_eq_dec : EqDecision line.
Proof. solve_decision. Defined.

(** The text of a line, as the [write!]s of the generator format it. *)
Definition render (l : line) : string :=
  match l with
  | SyntaxLine => "syntax = " +:+ quoted "proto3" +:+ ";" +:+ nl +:+ nl
  | PackageLine p => "package " +:+ p +:+ ";" +:+ nl +:+ nl
  | ImportOptions =>
      "import " +:+ quoted "moonlight/bridge/options/v1/options.proto" +:+ ";" +:+ nl +:+ nl
  | JavaPackage p => "option java_package = " +:+ quoted p +:+ ";" +:+ nl
  | JavaMultipleFiles => "option java_multiple_files = true;" +:+ nl +:+ nl
  | MessageOpen name => "message " +:+ name +:+ " {" +:+ nl
  | EnumOpen name => "enum " +:+ name +:+ " {" +:+ nl
  | ServiceOpen name => "service " +:+ name +:+ " {" +:+ nl
  | BlockClose => "}" +:+ nl +:+ nl
  | ReservedNumber n => "  reserved " +:+ i32_to_string n +:+ ";" +:+ nl
  | ReservedName s => "  reserved " +:+ quoted s +:+ ";" +:+ nl
  | FieldLine label ty name n =>
      "  " +:+ label +:+ ty +:+ " " +:+ name +:+ " = " +:+ i32_to_string n +:+ ";" +:+ nl
  | ValueLine name n => "  " +:+ name +:+ " = " +:+ i32_to_string n +:+ ";" +:+ nl
  | RpcLine name i s o =>
      "  rpc " +:+ name +:+ "(" +:+ i +:+ ") returns (" +:+ s +:+ o +:+ ");" +:+ nl
  | RpcOpen name i s o =>
      "  rpc " +:+ name +:+ "(" +:+ i +:+ ") returns (" +:+ s +:+ o +:+ ") {" +:+ nl
  | PolicyOpen => "    option (.moonlight.bridge.options.v1.rpc_policy) = {" +:+ nl
  | PolicyEntry k v => "      " +:+ k +:+ ": " +:+ v +:+ nl
  | RetryOpen => "      retry: {" +:+ nl
  | RetryEntry k v => "        " +:+ k +:+ ": " +:+ v +:+ nl
  | RetryClose => "      }" +:+ nl
  | ScopeEntry s => "      required_scopes: " +:+ quoted s +:+ nl
  | PolicyClose => "    };" +:+ nl +:+ "  }" +:+ nl
  end.

Definition proto_text (proto : list line) : string := String.concat "" (map render proto).

(** * Names *)

(** [value.split('_')] *)
Definition split_underscore (value : string) : list string :=
  split_by (λ c, bool_decide (c = "_"%char)) "" value.

Definition upper_camel (value : string) : string :=
  String.concat ""
    (map (λ part, match part with
                  | String first rest => String (to_ascii_uppercase first) rest
                  | EmptyString => ""
                  end)
       (List.filter (λ part, negb (bool_decide (part = "")))
          (split_underscore value))).

Fixpoint upper_snake_from (index : nat) (value : string) : string :=
  match value with
  | EmptyString => ""
  | String character value =>
      (if is_ascii_uppercase character && (0 <? Z.of_nat index) then "_" else "")
      +:+ String (to_ascii_uppercase character) (upper_snake_from (S index) value)
  end.
Definition upper_snake (value : string) : string := upper_snake_from 0 value.

(** * Attributes and types *)

(** [iter.find_map(f)] *)
Definition find_map {A B} (f : A → option B) (l : list A) : option B := head (omap f l).

Definition attribute (attributes : list Attribute) (name : string) : option Attribute :=
  List.find (λ a, bool_decide (last (attr_path a) = Some name)) attributes.

Definition has_attribute (attributes : list Attribute) (name : string) : bool :=
  match attribute attributes name with Some _ => true | None => false end.

(** One round of [attr.parse_nested_meta(logic)]: [logic] says with its result
    whether it consumed what follows the path; what it leaves must be a comma. *)
Definition nested_step {S} (logic : Meta → S → result SourceError (S * bool)) (meta : Meta)
    (s : S) : result SourceError S :=
  '(s, consumed) ← logic meta s;
  match meta_rest meta with
  | MetaEnd => Ok s
  | _ => if consumed : bool then Ok s else Err (SynError ExpectedComma)
  end.

Definition parse_nested_meta {S} (logic : Meta → S → result SourceError (S * bool))
    (attr : Attribute) (s : S) : result SourceError S :=
  args ← ok_or (attr_args attr) (SynError ExpectedParentheses);
  try_fold (nested_step logic) args s.

(** [meta.value()?] *)
Definition meta_value (meta : Meta) : result SourceError MetaValue :=
  match meta_rest meta with
  | MetaEquals v => Ok v
  | _ => Err (SynError ExpectedEquals)
  end.

Definition simple_type_name (ty : Type_) : option string :=
  match ty with
  | TypePath [Segment ident _] => Some ident
  | _ => None
  end.

(** The scalar names; [qualified] when the path has more than one segment. *)
Definition scalar_type (name : string) (qualified : bool) : result string string :=
  if bool_decide (name = "String") || bool_decide (name = "str") then Ok "string"
  else if bool_decide (name = "bool") then Ok "bool"
  else if bool_decide (name = "i32") then Ok "int32"
  else if bool_decide (name = "i64") then Ok "int64"
  else if bool_decide (name = "u32") then Ok "uint32"
  else if bool_decide (name = "u64") then Ok "uint64"
  else if bool_decide (name = "f32") then Ok "float"
  else if bool_decide (name = "f64") then Ok "double"
  else if negb qualified then Ok name
  else Err ("qualified type " +:+ name).

(** The error is the text of the [io::Error]. *)
Fixpoint proto_type (ty : Type_) : result string (string * string) :=
  match ty with
  | TypeOther => Err "expected a path type"
  | TypePath segments =>
      (fix last_segment (qualified : bool) (l : list PathSegment) {struct l} :=
        match l with
        | [] => Err "empty type path"
        | [Segment name arguments] =>
            if bool_decide (name = "Vec") || bool_decide (name = "Option") then
              match arguments with
              | AngleBracketed args =>
                  (fix first_type (l : list GenericArgument) {struct l} :=
                    match l with
                    | [] => Err (name +:+ " needs one type argument")
                    | GenericOther :: l => first_type l
                    | GenericType inner :: _ =>
                        if bool_decide (name = "Vec")
                           && bool_decide (simple_type_name inner = Some "u8")
                        then Ok ("", "bytes")
                        else
                          '(_, inner) ← proto_type inner;
                          Ok (if bool_decide (name = "Vec") then "repeated " else "optional ",
                              inner)
                    end) args
              | _ => Err (name +:+ " needs one type argument")
              end
            else
              mapped ← scalar_type name qualified;
              Ok ("", mapped)
        | _ :: l => last_segment true l
        end) false segments
  end.

(** * The lock, as the front end reads it *)

Record SourceLockedMessage := MkSourceLockedMessage {
  sm_fields : list (Z * string);
  sm_reserved_numbers : btset Z;
  sm_reserved_names : btset string;
}.

Record SourceLockedEnum := MkSourceLockedEnum {
  se_values : list (Z * string);
  se_reserved_numbers : btset Z;
  se_reserved_names : btset string;
}.

Record LockedSchema := MkLockedSchema {
  src_messages : list (string * SourceLockedMessage);
  src_enums : list (string * SourceLockedEnum);
}.

Definition LockedSchema_default : LockedSchema := {| src_messages := []; src_enums := [] |}.

(** [start..end] of [i32]s *)
Definition i32_range (start end_ : Z) : list Z := seqZ start (end_ - start).

Definition load_reservations (value : Value) (numbers : btset Z) (names : btset string)
    : btset Z * btset string :=
  let numbers :=
    match json_get "reserved_ranges" value ≫= as_array with
    | Some ranges =>
        foldl (λ numbers range,
          let start := as_i32 (default 0 (json_get "start" range ≫= as_i64)) in
          let end_ := as_i32 (default 0 (json_get "end" range ≫= as_i64)) in
          bs_extend (i32_range start end_) numbers) numbers ranges
    | None => numbers
    end in
  let names :=
    match json_get "reserved_names" value ≫= as_array with
    | Some locked_names => bs_extend (omap as_str locked_names) names
    | None => names
    end in
  (numbers, names).

(** The entries of a numbered table, [label] reading the name of one. *)
Definition load_entries (label : Value → option string) (entries : list (string * Value))
    : result SourceError (list (Z * string)) :=
  try_fold (λ '(number, entry) acc,
    number ← ok_or (parse_i32 number) (LockNumber number);
    Ok match label entry with
       | Some name => bt_insert number name acc
       | None => acc
       end) entries [].

Definition field_label (field : Value) : option string := json_get "name" field ≫= as_str.

(** The table under [key], empty when there is none. *)
Definition load_table (key : string) (label : Value → option string) (value : Value)
    : result SourceError (list (Z * string)) :=
  match json_get key value ≫= as_object with
  | Some entries => load_entries label entries
  | None => Ok []
  end.

Definition load_message (message : Value) : result SourceError SourceLockedMessage :=
  fields ← load_table "fields" field_label message;
  let '(numbers, names) := load_reservations message [] [] in
  Ok {| sm_fields := fields; sm_reserved_numbers := numbers; sm_reserved_names := names |}.

Definition load_enum (enumeration : Value) : result SourceError SourceLockedEnum :=
  values ← load_table "values" as_str enumeration;
  let '(numbers, names) := load_reservations enumeration [] [] in
  Ok {| se_values := values; se_reserved_numbers := numbers; se_reserved_names := names |}.

(** The loop over the named declarations of one kind. *)
Definition load_declarations {V} (load : Value → result SourceError V) (key : string)
    (value : Value) : result SourceError (list (string * V)) :=
  match json_get key value ≫= as_object with
  | Some members =>
      try_fold (λ '(full_name, member) acc,
        locked ← load member; Ok (bt_insert full_name locked acc)) members []
  | None => Ok []
  end.

Definition load_lock (value : Value) : result SourceError LockedSchema :=
  messages ← load_declarations load_message "messages" value;
  enums ← load_declarations load_enum "enums" value;
  Ok {| src_messages := messages; src_enums := enums |}.

(** * Numbering *)

Definition implementation_reserved (candidate : Z) : bool :=
  (19000 <=? candidate) && (candidate <=? 19999).

(** The [while] loop of [next_number]; [None] when the fuel is used up. *)
Fixpoint next_free (fuel : nat) (used : btset Z) (candidate : Z) : option Z :=
  match fuel with
  | O => None
  | S fuel =>
      if bs_contains candidate used || implementation_reserved candidate
      then next_free fuel used (candidate + 1)
      else Some candidate
  end.

(** Every number that the loop passes is in [used] or in the reserved thousand. *)
Definition number_fuel (used : btset Z) : nat := length used + 1001.

Definition next_number (used : btset Z) : Z := default 0 (next_free (number_fuel used) used 1).
Definition next_enum_number (used : btset Z) : Z :=
  default 0 (next_free (number_fuel used) used 0).

(** The number a name has in a locked table. *)
Definition locked_number (table : list (Z * string)) (name : string) : option Z :=
  find_map (λ '(number, old_name), if bool_decide (old_name = name) then Some number else None)
    table.

(** The [reserved] lines of a previous version. *)
Definition reserved_lines (table : list (Z * string)) (numbers : btset Z) (names : btset string)
    (current_names : btset string) : list line :=
  (table ≫= λ '(number, old_name),
     if negb (bs_contains old_name current_names)
     then [ReservedNumber number; ReservedName old_name] else [])
  ++ map ReservedNumber (bs_iter numbers) ++ map ReservedName (bs_iter names).

Definition number_text (name field_name error : string) : string :=
  "unsupported Rust type for " +:+ name +:+ "." +:+ field_name +:+ ": " +:+ error.

(** The body of the loop over the fields. *)
Definition generate_field (name : string) (previous : option SourceLockedMessage)
    (field : string * Type_) (st : btset Z * list line)
    : result SourceError (btset Z * list line) :=
  let '(used, proto) := st in
  let '(field_name, ty) := field in
  let number := default (next_number used)
    (previous ≫= λ m, locked_number (sm_fields m) field_name) in
  let used := bs_insert number used in
  '(label, field_type) ← map_err (λ e, InvalidSource (number_text name field_name e))
    (proto_type ty);
  Ok (used, proto ++ [FieldLine label field_type field_name number]).

Definition generate_message (package name : string) (fields : Fields) (locked : LockedSchema)
    : result SourceError (list line) :=
  let previous := bt_get (package +:+ "." +:+ name) (src_messages locked) in
  match fields with
  | FieldsNamed named =>
      let current_names := bs_extend named.*1 [] in
      let used := match previous with
                  | Some m => bs_extend (bs_iter (sm_reserved_numbers m))
                                (bs_extend (sm_fields m).*1 [])
                  | None => []
                  end in
      let proto := MessageOpen name ::
        match previous with
        | Some m => reserved_lines (sm_fields m) (sm_reserved_numbers m) (sm_reserved_names m)
                      current_names
        | None => []
        end in
      '(_, proto) ← try_fold (generate_field name previous) named (used, proto);
      Ok (proto ++ [BlockClose])
  | _ => Err (InvalidSource ("message " +:+ name +:+ " must use named fields"))
  end.

(** The body of the loop over the variants. *)
Definition number_variant (name : string) (previous : option SourceLockedEnum)
    (variant : string * Fields) (st : btset Z * list (Z * string))
    : result SourceError (btset Z * list (Z * string)) :=
  let '(used, values) := st in
  match variant with
  | (ident, FieldsUnit) =>
      let variant_name := upper_snake ident in
      let number := default (next_enum_number used)
        (previous ≫= λ e, locked_number (se_values e) variant_name) in
      Ok (bs_insert number used, values ++ [(number, variant_name)])
  | _ => Err (InvalidSource ("enum " +:+ name +:+ " variants must not contain fields"))
  end.

Definition generate_enum (package name : string) (variants : list (string * Fields))
    (locked : LockedSchema) : result SourceError (list line) :=
  let previous := bt_get (package +:+ "." +:+ name) (src_enums locked) in
  let current_names := bs_extend (map (λ v, upper_snake v.1) variants) [] in
  let used := match previous with
              | Some e => bs_extend (bs_iter (se_reserved_numbers e))
                            (bs_extend (se_values e).*1 [])
              | None => []
              end in
  '(_, values) ← try_fold (number_variant name previous) variants (used, []);
  let values := sort_by_key fst values in
  _ ← guard_err match head values with
                | Some (number, _) => negb (number =? 0)
                | None => false
                end
        (InvalidSource
           ("enum " +:+ name +:+ " must retain or declare an active zero-valued variant"));
  Ok (EnumOpen name ::
      match previous with
      | Some e => reserved_lines (se_values e) (se_reserved_numbers e) (se_reserved_names e)
                    current_names
      | None => []
      end
      ++ map (λ '(number, variant_name), ValueLine variant_name number) values
      ++ [BlockClose]).

(** * Services *)

Record RpcOptions := MkRpcOptions {
  ro_server_streaming : bool;
  ro_values : list (string * string);
  ro_scopes : list string;
}.
Definition RpcOptions_default : RpcOptions :=
  {| ro_server_streaming := false; ro_values := []; ro_scopes := [] |}.

Definition rpc_option (meta : Meta) (options : RpcOptions)
    : result SourceError (RpcOptions * bool) :=
  key ← match meta_path meta with
        | [key] => Ok key
        | _ => Err (InvalidSource "expected option name")
        end;
  if bool_decide (key = "server_streaming") then
    Ok ({| ro_server_streaming := true; ro_values := ro_values options;
           ro_scopes := ro_scopes options |}, false)
  else
    literal ← meta_value meta;
    value ← match literal with
            | LitStr value => Ok value
            | LitInt digits => Ok digits
            | LitOther => Err (InvalidSource "expected string or integer value")
            | NotLiteral => Err (SynError ExpectedLiteral)
            end;
    Ok (if bool_decide (key = "required_scope")
        then {| ro_server_streaming := ro_server_streaming options;
                ro_values := ro_values options; ro_scopes := ro_scopes options ++ [value] |}
        else {| ro_server_streaming := ro_server_streaming options;
                ro_values := bt_insert key value (ro_values options);
                ro_scopes := ro_scopes options |}, true).

Definition rpc_options (attributes : list Attribute) : result SourceError RpcOptions :=
  match attribute attributes "rpc" with
  | None => Ok RpcOptions_default
  | Some attr => parse_nested_meta rpc_option attr RpcOptions_default
  end.

Definition plain_policy_keys : list string :=
  ["timeout_ms"; "idle_timeout_ms"; "max_request_bytes"; "max_response_bytes";
   "trace_sample_per_million"].

Definition render_policy_value (key value : string) : result SourceError string :=
  if bool_decide (key = "idempotency") then Ok ("IDEMPOTENCY_" +:+ upper_snake value)
  else if bool_decide (key = "compression") then Ok ("COMPRESSION_MODE_" +:+ upper_snake value)
  else if bool_decide (key ∈ plain_policy_keys) then Ok value
  else Err (InvalidSource ("unknown RPC policy option " +:+ key)).

Definition retry_keys : list string :=
  ["max_attempts"; "initial_backoff_ms"; "max_backoff_ms"; "multiplier_milli"].
Definition is_retry_key (key : string) : bool := bool_decide (key ∈ retry_keys).

(** The lines of the policy option. *)
Definition policy_lines (options : RpcOptions) : result SourceError (list line) :=
  entries ← try_fold (λ '(key, value) acc,
    if is_retry_key key then Ok acc
    else rendered ← render_policy_value key value; Ok (acc ++ [PolicyEntry key rendered]))
    (ro_values options) [];
  let retry := List.filter (λ p, is_retry_key p.1) (ro_values options) in
  Ok (PolicyOpen :: entries
      ++ (if bool_decide (retry = []) then []
          else RetryOpen :: map (λ p, RetryEntry p.1 p.2) retry ++ [RetryClose])
      ++ map ScopeEntry (ro_scopes options) ++ [PolicyClose]).

Definition fn_input (inputs : list FnArg) : option string :=
  find_map (λ argument, match argument with
                        | Typed ty => simple_type_name ty
                        | Receiver => None
                        end) inputs.

Definition generate_rpc (name : string) (attrs : list Attribute) (ident : string)
    (inputs : list FnArg) (output : ReturnType) : result SourceError (list line) :=
  let method_name := upper_camel ident in
  let rpc := "RPC " +:+ name +:+ "." +:+ method_name in
  input ← ok_or (fn_input inputs) (InvalidSource (rpc +:+ " needs one request type"));
  output ← ok_or match output with
                 | ReturnTy ty => simple_type_name ty
                 | ReturnDefault => None
                 end (InvalidSource (rpc +:+ " needs one response type"));
  options ← rpc_options attrs;
  let stream := if ro_server_streaming options then "stream " else "" in
  if bool_decide (ro_values options = []) && bool_decide (ro_scopes options = [])
  then Ok [RpcLine method_name input stream output]
  else policy ← policy_lines options; Ok (RpcOpen method_name input stream output :: policy).

Definition generate_service (name : string) (items : list TraitItem)
    : result SourceError (list line) :=
  proto ← try_fold (λ item proto,
    match item with
    | TraitFn attrs ident inputs output =>
        rpc ← generate_rpc name attrs ident inputs output; Ok (proto ++ rpc)
    | TraitOther => Ok proto
    end) items [ServiceOpen name];
  Ok (proto ++ [BlockClose]).

(** * The contract *)

Definition contract_key (meta : Meta) (names : option string * option string)
    : result SourceError ((option string * option string) * bool) :=
  literal ← meta_value meta;
  value ← match literal with
          | LitStr value => Ok value
          | _ => Err (SynError ExpectedStringLiteral)
          end;
  if bool_decide (meta_path meta = ["package"]) then Ok ((Some value, names.2), true)
  else if bool_decide (meta_path meta = ["java_package"]) then Ok ((names.1, Some value), true)
  else Err (InvalidSource "supported keys are package and java_package").

Definition contract_names (attr : Attribute) : result SourceError (string * string) :=
  '(package, java_package) ← parse_nested_meta contract_key attr (None, None);
  package ← ok_or package (InvalidSource "contract package is required");
  Ok (package, default package java_package).

(** The first module with the [contract] attribute. *)
Definition find_contract (items : list Item) : option (Attribute * option (list Item)) :=
  find_map (λ item, match item with
                    | ItemMod attrs content =>
                        attr ← attribute attrs "contract"; Some (attr, content)
                    | _ => None
                    end) items.

Definition is_rpc (item : TraitItem) : bool :=
  match item with TraitFn attrs _ _ _ => has_attribute attrs "rpc" | TraitOther => false end.

Definition has_rpc (item : Item) : bool :=
  match item with
  | ItemTrait attrs _ items => has_attribute attrs "service" && existsb is_rpc items
  | _ => false
  end.

(** The declaration that an item of the contract generates. *)
Definition generate_item (package : string) (locked : LockedSchema) (item : Item)
    : result SourceError (list line) :=
  match item with
  | ItemStruct attrs ident fields =>
      if has_attribute attrs "message" then generate_message package ident fields locked
      else Ok []
  | ItemEnum attrs ident variants =>
      if has_attribute attrs "enumeration" then generate_enum package ident variants locked
      else Ok []
  | ItemTrait attrs ident items =>
      if has_attribute attrs "service" then generate_service ident items else Ok []
  | _ => Ok []
  end.

(** [lock] is the parsed lock file, when a path was given and is a file. *)
Definition generate_proto_from_rust_source (syntax : list Item)
    (lock : option (result SourceError Value)) : result SourceError (list line) :=
  '(attr, content) ← ok_or (find_contract syntax)
    (InvalidSource "expected one #[moonlight::contract(...)] inline module");
  '(package, java_package) ← contract_names attr;
  locked ← match lock with
           | Some value => value ← value; load_lock value
           | None => Ok LockedSchema_default
           end;
  items ← ok_or content (InvalidSource "the contract module must be declared inline");
  let has_policy := existsb has_rpc items in
  try_fold (λ item proto, decl ← generate_item package locked item; Ok (proto ++ decl)) items
    ([SyntaxLine; PackageLine package] ++ (if has_policy then [ImportOptions] else [])
     ++ [JavaPackage java_package; JavaMultipleFiles]).
