(* ===== verification/Naming.v ===== *)
(** The names of generated code, [codegen/src/lib.rs]: snake case, constants,
    lower camel case and class names.  Protobuf identifiers are ASCII, so the
    case mappings are the ASCII ones.  Together with [upper_camel] of the
    Rust-source front end they are inverse to each other on conventional names,
    so generated names are distinct and those of the contract come back. *)
From Stdlib Require Import Ascii.
From S2P Require Import Prelude Text.
From S2P Require Import RustSource.

(** * The functions *)

Fixpoint snake_case_from (index : nat) (value : string) : string :=
  match value with
  | EmptyString => ""
  | String ch value =>
      (if is_ascii_uppercase ch && bool_decide (0 < index)%nat then "_" else "")
      +:+ String (to_ascii_lowercase ch) (snake_case_from (S index) value)
  end.
Definition snake_case (value : string) : string := snake_case_from 0 value.

Fixpoint to_uppercase (value : string) : string :=
  match value with
  | EmptyString => ""
  | String c value => String (to_ascii_uppercase c) (to_uppercase value)
  end.

Definition upper_snake (value : string) : string := to_uppercase (snake_case value).

Definition lower_camel (value : string) : string :=
  match value with
  | EmptyString => ""
  | String first chars => String (to_ascii_lowercase first) chars
  end.

Definition is_ascii_alphanumeric (c : ascii) : bool :=
  is_ascii_uppercase c || is_ascii_lowercase c || is_ascii_digit c.

Definition upper_camel_words (value : string) : string :=
  String.concat ""
    (map (λ part, match part with
                  | String first chars => String (to_ascii_uppercase first) chars
                  | EmptyString => ""
                  end)
       (List.filter (λ part, negb (bool_decide (part = "")))
          (split_by (λ c, negb (is_ascii_alphanumeric c)) "" value))).

Definition rust_policy_name (service method : string) : string :=
  upper_snake service +:+ "_" +:+ upper_snake method +:+ "_POLICY".

Example generated_names_follow_language_conventions :
  snake_case "GetPlayerData" = "get_player_data" ∧
  lower_camel "GetPlayerData" = "getPlayerData" ∧
  upper_snake "GetPlayerData" = "GET_PLAYER_DATA" ∧
  upper_camel_words "echo-service.v1" = "EchoServiceV1".
Proof. vm_compute. auto. Qed.

(** * Conventional names *)

Fixpoint all_chars (p : ascii → bool) (s : string) : bool :=
  match s with EmptyString => true | String c s => p c && all_chars p s end.

Definition not_underscore (c : ascii) : bool := negb (bool_decide (c = "_"%char)).

(** [UpperCamel]: an upper-case letter, then no underscore. *)
Definition camel_name (s : string) : bool :=
  match s with
  | EmptyString => false
  | String c s => is_ascii_uppercase c && all_chars not_underscore s
  end.

(** [lower_snake]: parts that start with a lower-case letter and have no
    upper-case one, between single underscores; [start] is the begin of a part. *)
Fixpoint snake_parts (start : bool) (s : string) : bool :=
  match s with
  | EmptyString => negb start
  | String c s =>
      if bool_decide (c = "_"%char) then negb start && snake_parts true s
      else (if start then is_ascii_lowercase c else negb (is_ascii_uppercase c))
           && snake_parts false s
  end.
Definition snake_name (s : string) : bool := snake_parts true s.

(** * [upper_camel], character by character *)

Fixpoint camel_from (start : bool) (value : string) : string :=
  match value with
  | EmptyString => ""
  | String c value =>
      if bool_decide (c = "_"%char) then camel_from true value
      else String (if start then to_ascii_uppercase c else c) (camel_from false value)
  end.

Lemma concat_cons (x : string) l : String.concat "" (x :: l) = x +:+ String.concat "" l.
Proof. destruct l; simpl; [by rewrite append_nil_r|done]. Qed.

Definition capital (part : string) : string :=
  match part with
  | String first rest => String (to_ascii_uppercase first) rest
  | EmptyString => ""
  end.

Lemma capital_snoc p q : p ≠ "" → capital p +:+ q = capital (p +:+ q).
Proof. by destruct p. Qed.

Lemma camel_split part value :
  String.concat "" (map capital (List.filter (λ part, negb (bool_decide (part = "")))
    (split_by (λ c, bool_decide (c = "_"%char)) part value))) =
  capital part +:+ camel_from (bool_decide (part = "")) value.
Proof.
  revert part. induction value as [|c value IH]; intros part; cbn [split_by camel_from].
  - destruct part as [|a part]; [done|]. by rewrite append_nil_r.
  - case_bool_decide as Hc.
    + cbn [List.filter]. destruct (bool_decide (part = "")) eqn:Hp; cbn [negb map].
      * rewrite IH. apply bool_decide_eq_true in Hp as ->. done.
      * rewrite concat_cons, IH. done.
    + rewrite IH. destruct part as [|a part]; [done|].
      rewrite bool_decide_eq_false_2, (bool_decide_eq_false_2 (String a part = "")) by done.
      rewrite <- capital_snoc, <- append_assoc by done. done.
Qed.

Lemma upper_camel_chars value : RustSource.upper_camel value = camel_from true value.
Proof. apply (camel_split ""). Qed.

(** * Round trips *)

Ltac by_char c :=
  destruct c as [[] [] [] [] [] [] [] []]; vm_compute; intros;
  first [discriminate | repeat split; first [reflexivity | discriminate]].

Lemma lower_of_upper c : is_ascii_lowercase c = true →
  to_ascii_lowercase (to_ascii_uppercase c) = c ∧ is_ascii_uppercase (to_ascii_uppercase c) = true.
Proof. by_char c. Qed.

Lemma upper_of_lower c : is_ascii_uppercase c = true →
  to_ascii_uppercase (to_ascii_lowercase c) = c ∧ to_ascii_lowercase c ≠ "_"%char.
Proof. by_char c. Qed.

Lemma lower_other c : is_ascii_uppercase c = false → to_ascii_lowercase c = c.
Proof. unfold to_ascii_lowercase. by intros ->. Qed.

Lemma snake_tail n value : snake_case_from (S n) value = snake_case_from 1 value.
Proof.
  revert n. induction value as [|c value IH]; intros n; [done|]. cbn [snake_case_from].
  rewrite (IH (S n)), (IH 1%nat). by rewrite !bool_decide_eq_true_2 by lia.
Qed.

Lemma snake_of_camel s :
  (snake_parts false s = true → snake_case_from 1 (camel_from false s) = s) ∧
  (snake_parts true s = true →
     snake_case_from 1 (camel_from true s) = "_" +:+ s ∧ snake_case (camel_from true s) = s).
Proof.
  unfold snake_case. induction s as [|c s [IHf IHt]]; [by split|].
  cbn [snake_parts camel_from]. case_bool_decide as Hc.
  - subst c. split; [|done]. intros [_ H]%andb_prop. by apply IHt.
  - split; intros [H Hs]%andb_prop; cbn [snake_case_from]; rewrite snake_tail, (IHf Hs).
    + apply negb_true_iff in H. rewrite H, (lower_other _ H). done.
    + destruct (lower_of_upper _ H) as [-> ->]. done.
Qed.

Lemma camel_of_snake s :
  all_chars not_underscore s = true → camel_from false (snake_case_from 1 s) = s.
Proof.
  induction s as [|c s IH]; [done|]. cbn [all_chars]. intros [Hc Hs]%andb_prop.
  cbn [snake_case_from]. rewrite snake_tail. destruct (is_ascii_uppercase c) eqn:Hu; simpl.
  - destruct (upper_of_lower _ Hu) as [He Hn]. rewrite bool_decide_eq_false_2 by done.
    by rewrite He, IH.
  - rewrite (lower_other _ Hu). unfold not_underscore in Hc. apply negb_true_iff in Hc.
    by rewrite Hc, IH.
Qed.

Lemma upper_camel_snake_case v : camel_name v = true → RustSource.upper_camel (snake_case v) = v.
Proof.
  rewrite upper_camel_chars. destruct v as [|c v]; [done|]. cbn [camel_name].
  intros [Hu Hs]%andb_prop. unfold snake_case. cbn [snake_case_from]. rewrite Hu. simpl.
  destruct (upper_of_lower _ Hu) as [He Hn]. rewrite bool_decide_eq_false_2 by done.
  by rewrite He, camel_of_snake.
Qed.

(** ** Constants *)

Fixpoint to_lowercase (value : string) : string :=
  match value with
  | EmptyString => ""
  | String c value => String (to_ascii_lowercase c) (to_lowercase value)
  end.

Lemma lower_upper_lower c :
  to_ascii_lowercase (to_ascii_uppercase (to_ascii_lowercase c)) = to_ascii_lowercase c.
Proof. by_char c. Qed.

Lemma snake_case_lower n v : to_lowercase (to_uppercase (snake_case_from n v)) = snake_case_from n v.
Proof.
  revert n. induction v as [|c v IH]; intros n; [done|]. cbn [snake_case_from].
  destruct (_ && _); simpl; by rewrite lower_upper_lower, IH.
Qed.

Lemma snake_case_inj v w :
  camel_name v = true → camel_name w = true → snake_case v = snake_case w → v = w.
Proof.
  intros Hv Hw H. rewrite <- (upper_camel_snake_case v), <- (upper_camel_snake_case w) by done.
  by rewrite H.
Qed.

Lemma upper_snake_inj v w :
  camel_name v = true → camel_name w = true → upper_snake v = upper_snake w → v = w.
Proof.
  intros Hv Hw H. apply snake_case_inj; [done|done|]. unfold snake_case.
  rewrite <- (snake_case_lower 0 v), <- (snake_case_lower 0 w). unfold upper_snake in H.
  unfold snake_case in H. by rewrite H.
Qed.

Lemma lower_camel_inj v w :
  camel_name v = true → camel_name w = true → lower_camel v = lower_camel w → v = w.
Proof.
  destruct v as [|c v], w as [|d w]; try done. cbn [camel_name lower_camel].
  intros [Hc _]%andb_prop [Hd _]%andb_prop [= H ->]. f_equal.
  rewrite <- (proj1 (upper_of_lower c Hc)), <- (proj1 (upper_of_lower d Hd)). by rewrite H.
Qed.

(** * Properties *)

(** Names survive code-first generation: a function of a contract whose name
    is in Rust's convention gets an RPC in Protobuf's convention, and from it the
    generated service trait gets the function's own name back; and conversely
    every RPC name in convention is the name of its trait method.  So the names
    that are generated for the methods of a service in the convention, the trait
    methods, the constants and the client methods, are as distinct as the
    methods. *)
Theorem method_names_roundtrip :
  (∀ ident, snake_name ident = true → snake_case (RustSource.upper_camel ident) = ident) ∧
  (∀ name, camel_name name = true → RustSource.upper_camel (snake_case name) = name) ∧
  (∀ names, Forall (λ name, camel_name name = true) names → NoDup names →
     NoDup (map snake_case names) ∧ NoDup (map upper_snake names) ∧ NoDup (map lower_camel names)).
Proof.
  split_and!.
  - intros ident H. rewrite upper_camel_chars. by apply snake_of_camel.
  - apply upper_camel_snake_case.
  - intros names Hn Hd. rewrite Forall_forall in Hn.
    split_and!; apply NoDup_fmap_2_strong; try done; intros ?? Hx Hy;
      eauto using snake_case_inj, upper_snake_inj, lower_camel_inj.
Qed.

(** The two parts of a policy's name can be split in two ways. *)
Example policy_names_collide :
  rust_policy_name "A" "BC" = rust_policy_name "AB" "C".
Proof. reflexivity. Qed.

(** A part that starts with a digit is not separated again. *)
Example digit_parts_merge :
  snake_case (RustSource.upper_camel "get_v_2") = "get_v2".
Proof. reflexivity. Qed.
