(* ===== verification/Generator.v ===== *)
(** The code generators of [codegen/src/lib.rs]: the Rust service bindings and
    the Java clients that are printed for a descriptor set, line by line as the
    generator writes them, and the files the Java generator writes.  The
    Protobuf reader and the policies it yields are inputs. *)
From Stdlib Require Import Ascii.
From S2P Require Import Prelude OrdMap Text RustSource Naming Descriptor Policy Bindings.

(** * Texts *)

Definition q : string := String (ascii_of_nat 34) "".
Definition cat (parts : list string) : string := String.concat "" parts.

(** [{id:08X}] *)
Definition HEX_DIGITS : string := "0123456789ABCDEF".
Definition hex_char (n : Z) : string :=
  String (default "0"%char (String.get (Z.to_nat n) HEX_DIGITS)) "".
Fixpoint hex_digits (digits : nat) (n : Z) : string :=
  match digits with
  | O => ""
  | S digits => hex_digits digits (n / 16) +:+ hex_char (n mod 16)
  end.
Definition hex8 (id : Z) : string := hex_digits 8 id.

(** The text of a file from its lines. *)
Definition code_text (code : list string) : string := cat (map (λ line, line +:+ nl) code).

(** A loop that appends to the code or leaves with an error. *)
Fixpoint try_concat {E A B} (f : A → result E (list B)) (l : list A) : result E (list B) :=
  match l with
  | [] => Ok []
  | x :: l => code ← f x; rest ← try_concat f l; Ok (code ++ rest)
  end.

(** [value.rsplit('.').next()] *)
Definition rust_message_type (value : option string) : result CodegenError string :=
  value ← ok_or value (Invalid "missing message type");
  ok_or (last (split_by (λ c, bool_decide (c = "."%char)) "" value)) (Invalid "invalid message type").

Definition scope_list (scopes : list string) : string :=
  String.concat ", " (map quoted scopes).

(** * The Rust generator *)

Module Rust.

Definition idempotency_debug (i : Idempotency) : string :=
  match i with
  | Idempotency.Unspecified => "Unspecified"
  | Idempotency.ReadOnly => "ReadOnly"
  | Idempotency.Idempotent => "Idempotent"
  | Idempotency.KeyRequired => "KeyRequired"
  end.

Definition compression_debug (c : CompressionMode) : string :=
  match c with
  | CompressionMode.Default => "Default"
  | CompressionMode.Disabled => "Disabled"
  | CompressionMode.Prefer => "Prefer"
  | CompressionMode.Required => "Required"
  end.

Definition rust_imports : list string :=
  ["// Generated by moonlight-bridge-codegen. Do not edit.";
   "#[doc(hidden)]";
   "#[allow(unused_imports)]";
   "mod __moonlight_bridge_imports {";
   "    pub use moonlight_bridge_protocol::ErrorCode;";
   "    pub use moonlight_bridge_server::{HandlerError, RouterBuilder, trace_async_function, trace_function};";
   "    pub use prost::Message;";
   "    pub use std::{future::Future, sync::Arc};"].

Definition policy_types : list string :=
  ["}";
   "#[allow(unused_imports)]";
   "use self::__moonlight_bridge_imports::*;";
   ""]
  ++
  ["/// Retry safety compiled from a Protobuf RPC policy.";
   "#[derive(Clone, Copy, Debug, Eq, PartialEq)]";
   "pub enum RpcIdempotency {";
   "    /// No retry-safety declaration.";
   "    Unspecified,";
   "    /// Read-only operation.";
   "    ReadOnly,";
   "    /// Repetition has the same effect.";
   "    Idempotent,";
   "    /// Every attempt requires one stable key.";
   "    KeyRequired,";
   "}";
   "";
   "/// Compression behavior compiled from a Protobuf RPC policy.";
   "#[derive(Clone, Copy, Debug, Eq, PartialEq)]";
   "pub enum RpcCompression {";
   "    /// Use the runtime default.";
   "    Default,";
   "    /// Disable payload compression.";
   "    Disabled,";
   "    /// Compress when useful.";
   "    Prefer,";
   "    /// Require negotiated compression.";
   "    Required,";
   "}";
   "";
   "/// Immutable generated policy for one RPC method.";
   "#[derive(Clone, Copy, Debug, Eq, PartialEq)]";
   "pub struct RpcPolicy {";
   "    /// Overall logical-call timeout.";
   "    pub timeout_ms: u32,";
   "    /// Stream idle timeout, or zero for unary methods.";
   "    pub idle_timeout_ms: u32,";
   "    /// Total attempts including the initial call.";
   "    pub max_attempts: u32,";
   "    /// Delay before the first retry.";
   "    pub initial_backoff_ms: u32,";
   "    /// Maximum retry delay.";
   "    pub max_backoff_ms: u32,";
   "    /// Backoff multiplier in thousandths.";
   "    pub backoff_multiplier_milli: u32,";
   "    /// Retry-safety classification.";
   "    pub idempotency: RpcIdempotency,";
   "    /// Maximum decoded request bytes.";
   "    pub max_request_bytes: u32,";
   "    /// Maximum decoded response bytes.";
   "    pub max_response_bytes: u32,";
   "    /// Authorization scopes required by middleware.";
   "    pub required_scopes: &'static [&'static str],";
   "    /// Per-method compression behavior.";
   "    pub compression: RpcCompression,";
   "    /// Trace sampling probability in millionths.";
   "    pub trace_sample_per_million: u32,";
   "}";
   ""].

Definition rust_header (has_events has_server_streaming : bool) : list string :=
  rust_imports
  ++ (if has_events then ["    pub use moonlight_bridge_server::EventHub;"] else [])
  ++ (if has_server_streaming
      then ["    pub use moonlight_bridge_server::{ServerStream, try_map_server_stream};"] else [])
  ++ policy_types.

Definition generate_rust_policy_constant (service method : string) (policy : RpcPolicy) : list string :=
  let name := rust_policy_name service method in
  let scopes := scope_list (required_scopes policy) in
  [cat ["/// Generated policy for the `"; service; "/"; method; "` RPC."];
   cat ["pub const "; name; ": RpcPolicy = RpcPolicy {"];
   cat ["    timeout_ms: "; to_decimal (timeout_ms policy); ","];
   cat ["    idle_timeout_ms: "; to_decimal (idle_timeout_ms policy); ","];
   cat ["    max_attempts: "; to_decimal (max_attempts (retry policy)); ","];
   cat ["    initial_backoff_ms: "; to_decimal (initial_backoff_ms (retry policy)); ","];
   cat ["    max_backoff_ms: "; to_decimal (max_backoff_ms (retry policy)); ","];
   cat ["    backoff_multiplier_milli: "; to_decimal (multiplier_milli (retry policy)); ","];
   cat ["    idempotency: RpcIdempotency::"; idempotency_debug (idempotency policy); ","];
   cat ["    max_request_bytes: "; to_decimal (max_request_bytes policy); ","];
   cat ["    max_response_bytes: "; to_decimal (max_response_bytes policy); ","];
   cat ["    required_scopes: &["; scopes; "],"];
   cat ["    compression: RpcCompression::"; compression_debug (compression policy); ","];
   cat ["    trace_sample_per_million: "; to_decimal (trace_sample_per_million policy); ","];
   "};";
   ""].

Section generator.
Context (policies : list (string * RpcPolicy)).

(** [policies.get(&canonical).ok_or_else(..)?] *)
Definition lookup_policy (file : FileDescriptorProto) (service method : string)
    : result CodegenError RpcPolicy :=
  let canonical := canonical_method file service method in
  ok_or (bt_get canonical policies) (Invalid ("missing policy for " +:+ canonical)).

Definition constant_of (file : FileDescriptorProto) (service_name : string)
    (method : MethodDescriptorProto) : result CodegenError (list string) :=
  method_name ← required (md_name method) "method name";
  policy ← lookup_policy file service_name method_name;
  Ok (generate_rust_policy_constant service_name method_name policy).

(** A method of the service trait. *)
Definition trait_method (method : MethodDescriptorProto) : result CodegenError (list string) :=
  method_name ← required (md_name method) "method name";
  let rust_method := snake_case method_name in
  input ← rust_message_type (md_input_type method);
  output ← rust_message_type (md_output_type method);
  _ ← guard_err (default false (md_client_streaming method))
        (Invalid "client and bidirectional streaming are not supported yet");
  Ok ([cat ["    /// Handles the `"; method_name; "` RPC."]]
      ++ if default false (md_server_streaming method)
         then [cat ["    fn "; rust_method; "(&self, request: crate::model::"; input;
                    ") -> impl Future<Output = Result<ServerStream<crate::model::"; output;
                    ">, HandlerError>> + Send;"]]
         else [cat ["    fn "; rust_method; "(&self, request: crate::model::"; input;
                    ") -> impl Future<Output = Result<crate::model::"; output;
                    ", HandlerError>> + Send;"]]).

(** The route line with the method's wire identifier and policy. *)
Definition route_line (streaming : bool) (id : Z) (policy_name : string) : string :=
  let route := if streaming then "route_stream_scoped" else "route_scoped" in
  cat ["    builder = builder."; route; "(0x"; hex8 id; ", "; policy_name;
       ".required_scopes, move |body| {"].

(** [generate_rust_method]: the registration of a method in its function. *)
Definition registration_text (file : FileDescriptorProto) (service : string)
    (method : MethodDescriptorProto) : result CodegenError (list string) :=
  _ ← reject_unsupported_streaming method;
  method_name ← required (md_name method) "method name";
  let rust_method := snake_case method_name in
  input ← rust_message_type (md_input_type method);
  let id := method_id (canonical_method file service method_name) in
  let policy_name := rust_policy_name service method_name in
  let streaming := default false (md_server_streaming method) in
  Ok ([cat ["    let "; rust_method; "_service = service.clone();"];
       route_line streaming id policy_name;
       cat ["        let service = "; rust_method; "_service.clone();"];
       "        async move {";
       cat ["            if body.len() > "; policy_name;
            ".max_request_bytes as usize { return Err(HandlerError::new(ErrorCode::ResourceExhausted, ";
            q; "request exceeds generated RPC policy"; q; ")); }"];
       cat ["            let request = trace_function("; q; "protobuf.decode."; service;
            "."; method_name; q; ", || crate::model::"; input;
            "::decode(body.as_slice())).map_err(|error| HandlerError::new(ErrorCode::InvalidRequest, error.to_string()))?;"];
       cat ["            let response = trace_async_function("; q; "handler."; service;
            "."; method_name; q; ", service."; rust_method; "(request)).await?;"]]
      ++ (if streaming
          then [cat ["            Ok(try_map_server_stream(response, |response| { let encoded = trace_function(";
                     q; "protobuf.encode."; service; "."; method_name; q;
                     ", || response.encode_to_vec()); if encoded.len() > "; policy_name;
                     ".max_response_bytes as usize { return Err(HandlerError::new(ErrorCode::ResourceExhausted, ";
                     q; "stream item exceeds generated RPC policy"; q;
                     ")); } Ok(encoded) }))"]]
          else [cat ["            let encoded = trace_function("; q; "protobuf.encode.";
                     service; "."; method_name; q; ", || response.encode_to_vec());"];
                cat ["            if encoded.len() > "; policy_name;
                     ".max_response_bytes as usize { return Err(HandlerError::new(ErrorCode::ResourceExhausted, ";
                     q; "response exceeds generated RPC policy"; q; ")); }"];
                "            Ok(encoded)"])
      ++ ["        }";
          "    });";
          cat ["    builder = builder.method_name(0x"; hex8 id; ", "; q; service; "/";
               method_name; q; ");"]]).

Definition register_text (file : FileDescriptorProto) (service_name : string)
    (method : MethodDescriptorProto) : result CodegenError (list string) :=
  method_name ← required (md_name method) "method name";
  _ ← lookup_policy file service_name method_name;
  registration_text file service_name method.

Definition service_text (file : FileDescriptorProto) (service : ServiceDescriptorProto)
    : result CodegenError (list string) :=
  service_name ← required (sd_name service) "service name";
  constants ← try_concat (constant_of file service_name) (sd_method service);
  methods ← try_concat trait_method (sd_method service);
  let register_name := "register_" +:+ snake_case service_name in
  registrations ← try_concat (register_text file service_name) (sd_method service);
  Ok (constants
      ++ [cat ["/// Typed implementation of the `"; service_name; "` Protobuf service."];
          cat ["pub trait "; service_name; ": Send + Sync + 'static {"]]
      ++ methods
      ++ ["}";
          "";
          cat ["/// Registers every `"; service_name; "` RPC handler on a router builder."];
          cat ["pub fn "; register_name;
               "<S>(mut builder: RouterBuilder, service: Arc<S>) -> RouterBuilder where S: ";
               service_name; " {"]]
      ++ registrations
      ++ ["    builder";
          "}";
          ""]).

(** The constant of an event's wire identifier. *)
Definition rust_event_id_line (name : string) (id : Z) : string :=
  cat ["pub const "; upper_snake name; "_ID: u32 = 0x"; hex8 id; ";"].

Definition event_publisher (file : FileDescriptorProto) (message : DescriptorProto)
    : result CodegenError (list string) :=
  name ← required (message_name message) "message name";
  if ends_with name "Event"
  then
    let id := method_id (canonical_event file name) in
    Ok ([cat ["/// Stable wire ID of the `"; name; "` event."]; rust_event_id_line name id;
         cat ["/// Publishes a `"; name;
              "` event and returns the number of active receivers."];
         cat ["pub fn publish_"; snake_case name;
              "(events: &EventHub, event: crate::model::"; name; ") -> usize {"];
         cat ["    events.publish("; upper_snake name; "_ID, event.encode_to_vec())"];
         "}";
         ""])
  else Ok [].

Definition file_text (file : FileDescriptorProto) : result CodegenError (list string) :=
  services ← try_concat (service_text file) (fl_service file);
  events ← try_concat (event_publisher file) (fl_message_type file);
  Ok (services ++ events).

Definition any_server_streaming (descriptor : list FileDescriptorProto) : bool :=
  existsb (λ file, existsb (λ service,
    existsb (λ method, default false (md_server_streaming method)) (sd_method service))
    (fl_service file)) descriptor.

Definition any_events (descriptor : list FileDescriptorProto) : bool :=
  existsb (λ file, existsb (λ message,
    match message_name message with Some name => ends_with name "Event" | None => false end)
    (fl_message_type file)) descriptor.

(** [generate_rust], from the decoded descriptors to the code it writes. *)
Definition generate_rust (descriptor : list FileDescriptorProto)
    : result CodegenError (list string) :=
  _ ← validate_method_ids descriptor;
  files ← try_concat file_text descriptor;
  Ok (rust_header (any_events descriptor) (any_server_streaming descriptor) ++ files).
End generator.
End Rust.

(** * The Java generator *)

Module Java.

Definition java_package (file : FileDescriptorProto) : result CodegenError string :=
  match fl_java_package file with
  | Some package => Ok package
  | None => required (fl_package file) "proto package"
  end.

Definition type_entry (file : FileDescriptorProto) (package : string) (message : DescriptorProto)
    (types : gmap string string) : result CodegenError (gmap string string) :=
  name ← required (message_name message) "message name";
  Ok (<[cat ["."; default "" (fl_package file); "."; name] := cat [package; "."; name]]> types).

Definition java_type_map (descriptor : list FileDescriptorProto)
    : result CodegenError (gmap string string) :=
  try_fold (λ file types,
    package ← java_package file;
    try_fold (type_entry file package) (fl_message_type file) types) descriptor ∅.

Definition idempotency_text (i : Idempotency) : string :=
  match i with
  | Idempotency.Unspecified => "UNSPECIFIED"
  | Idempotency.ReadOnly => "READ_ONLY"
  | Idempotency.Idempotent => "IDEMPOTENT"
  | Idempotency.KeyRequired => "KEY_REQUIRED"
  end.

Definition compression_text (c : CompressionMode) : string :=
  match c with
  | CompressionMode.Default => "DEFAULT"
  | CompressionMode.Disabled => "DISABLED"
  | CompressionMode.Prefer => "PREFER"
  | CompressionMode.Required => "REQUIRED"
  end.

Definition generate_java_policy_constant (service method : string) (policy : RpcPolicy) : list string :=
  let name := upper_snake method +:+ "_POLICY" in
  let scopes := scope_list (required_scopes policy) in
  let idempotency := idempotency_text (idempotency policy) in
  let compression := compression_text (compression policy) in
  [cat ["/** Generated policy for the {@code "; method; "} RPC. */"];
   cat ["public static final RpcPolicy "; name; " = new RpcPolicy("];
   cat ["    Duration.ofMillis("; to_decimal (timeout_ms policy); "),"];
   cat ["    Duration.ofMillis("; to_decimal (idle_timeout_ms policy); "),"];
   cat ["    new RpcPolicy.Retry("; to_decimal (max_attempts (retry policy));
        ", Duration.ofMillis("; to_decimal (initial_backoff_ms (retry policy));
        "), Duration.ofMillis("; to_decimal (max_backoff_ms (retry policy)); "), ";
        to_decimal (multiplier_milli (retry policy)); "),"];
   cat ["    RpcPolicy.Idempotency."; idempotency; ","];
   cat ["    "; to_decimal (max_request_bytes policy); ", ";
        to_decimal (max_response_bytes policy); ","];
   cat ["    Set.of("; scopes; "),"];
   cat ["    RpcPolicy.Compression."; compression; ","];
   cat ["    "; to_decimal (trace_sample_per_million policy); ","];
   cat ["    "; q; service; "/"; method; q];
   ");";
   ""].

(** The constant of a method's wire identifier. *)
Definition method_id_line (name : string) (id : Z) : string :=
  cat ["public static final int "; upper_snake name; "_METHOD_ID = 0x"; hex8 id; ";"].

Definition stream_method (service name input output policy_name java_method : string)
    : list string :=
  [cat ["/** Opens the credit-controlled {@code "; name; "} server stream. */"];
   cat ["public Flow.Publisher<"; output; "> "; java_method; "("; input; " request) {"];
   cat ["    byte[] payload = MoonLightTelemetry.traceFunction("; q; "protobuf.encode.";
        service; "."; name; q; ", request::toByteArray);"];
   cat ["    if (payload.length > "; policy_name;
        ".maxRequestBytes()) throw new IllegalArgumentException("; q;
        "request exceeds generated RPC policy"; q; ");"];
   cat ["    Duration callDeadline = deadlineLimit == null ? "; policy_name;
        ".timeout() : "; policy_name; ".effectiveDeadline(deadlineLimit);"];
   cat ["    return MoonLightStreams.map(channel.serverStream("; upper_snake name;
        "_METHOD_ID, payload, callDeadline, "; policy_name; "), body -> {"];
   cat ["        if (body.length > "; policy_name;
        ".maxResponseBytes()) throw new CompletionException(new IllegalArgumentException(";
        q; "response exceeds generated RPC policy"; q; "));"];
   cat ["        try { return MoonLightTelemetry.traceFunction("; q; "protobuf.decode.";
        service; "."; name; q; ", () -> "; output; ".parseFrom(body)); }"];
   "        catch (com.google.protobuf.InvalidProtocolBufferException error) { throw new CompletionException(error); }";
   "    });";
   "}";
   ""].

Definition unary_method (service name input output policy_name java_method : string)
    : list string :=
  let codec_name := upper_snake name +:+ "_CODEC" in
  [cat ["private static final MoonLightCodec<"; input; ", "; output; "> "; codec_name;
        " = MoonLightCodec.protobuf("; q; service; "."; name; q; ", "; input;
        "::toByteArray, "; output; "::parseFrom);"];
   cat ["/** Calls {@code "; name; "} asynchronously using this client's deadline. */"];
   cat ["public CompletableFuture<"; output; "> "; java_method; "("; input; " request) {"];
   cat ["    Duration callDeadline = deadlineLimit == null ? "; policy_name;
        ".timeout() : "; policy_name; ".effectiveDeadline(deadlineLimit);"];
   cat ["    return channel.call("; upper_snake name; "_METHOD_ID, request, ";
        codec_name; ", callDeadline, "; policy_name; ");"];
   "}";
   ""].

Definition batch_method (name input output policy_name java_method : string) : list string :=
  [cat ["/** Calls {@code "; name; "} for every request and preserves input order. */"];
   cat ["public CompletableFuture<List<"; output; ">> "; java_method; "Batch(List<"; input;
        "> requests) {"];
   cat ["    Duration callDeadline = deadlineLimit == null ? "; policy_name;
        ".timeout() : "; policy_name; ".effectiveDeadline(deadlineLimit);"];
   cat ["    List<MoonLightRequest> calls = requests.stream().map(request -> { byte[] payload = request.toByteArray(); if (payload.length > ";
        policy_name; ".maxRequestBytes()) throw new IllegalArgumentException("; q;
        "request exceeds generated RPC policy"; q; "); return new MoonLightRequest(";
        upper_snake name; "_METHOD_ID, payload, callDeadline, "; policy_name;
        "); }).toList();"];
   "    return MoonLightChannel.mapFuture(channel.requestBatch(calls), payloads -> {";
   cat ["        List<"; output; "> responses = new ArrayList<>(payloads.size());"];
   "        for (byte[] body : payloads) {";
   cat ["            if (body.length > "; policy_name;
        ".maxResponseBytes()) throw new CompletionException(new IllegalArgumentException(";
        q; "response exceeds generated RPC policy"; q; "));"];
   cat ["            try { responses.add("; output; ".parseFrom(body)); }"];
   "            catch (com.google.protobuf.InvalidProtocolBufferException error) { throw new CompletionException(error); }";
   "        }";
   "        return List.copyOf(responses);";
   "    });";
   "}";
   ""].

Definition generate_java_method (file : FileDescriptorProto) (service : string)
    (types : gmap string string) (policy : RpcPolicy) (method : MethodDescriptorProto)
    : result CodegenError (list string) :=
  _ ← reject_unsupported_streaming method;
  name ← required (md_name method) "method name";
  input_key ← required (md_input_type method) "input type";
  output_key ← required (md_output_type method) "output type";
  input ← ok_or (types !! input_key) (Invalid ("unknown input type " +:+ input_key));
  output ← ok_or (types !! output_key) (Invalid ("unknown output type " +:+ output_key));
  let id := method_id (canonical_method file service name) in
  let java_method := lower_camel name in
  let policy_name := upper_snake name +:+ "_POLICY" in
  Ok ([cat ["/** Stable wire ID of the {@code "; name; "} RPC. */"]; method_id_line name id]
      ++ generate_java_policy_constant service name policy
      ++ if default false (md_server_streaming method)
         then stream_method service name input output policy_name java_method
         else unary_method service name input output policy_name java_method
              ++ batch_method name input output policy_name java_method).

Definition client_header (package service_name class_name : string) : list string :=
  ["// Generated by moonlight-bridge-codegen. Do not edit.";
   cat ["package "; package; ";"];
   "";
   "import ru.moonlightproject.bridge.client.MoonLightChannel;";
   "import ru.moonlightproject.bridge.client.MoonLightCodec;";
   "import ru.moonlightproject.bridge.client.MoonLightRequest;";
   "import ru.moonlightproject.bridge.client.MoonLightTelemetry;";
   "import ru.moonlightproject.bridge.client.MoonLightStreams;";
   "import ru.moonlightproject.bridge.client.RpcPolicy;";
   "import java.time.Duration;";
   "import java.util.ArrayList;";
   "import java.util.List;";
   "import java.util.Objects;";
   "import java.util.Set;";
   "import java.util.concurrent.CompletableFuture;";
   "import java.util.concurrent.CompletionException;";
   "import java.util.concurrent.Flow;";
   "";
   cat ["/** Asynchronous typed client for the {@code "; service_name; "} Protobuf service. */"];
   cat ["public final class "; class_name; " {"];
   "private final MoonLightChannel channel;";
   "private final Duration deadlineLimit;";
   "";
   "/** Creates a client using each method's generated deadline. */";
   cat ["public "; class_name; "(MoonLightChannel channel) { this(channel, null); }"];
   cat ["private "; class_name; "(MoonLightChannel channel, Duration deadlineLimit) {"];
   "this.channel = Objects.requireNonNull(channel);";
   "this.deadlineLimit = deadlineLimit;";
   "}";
   "/** Returns a view that may tighten but never extend generated method deadlines. */";
   cat ["public "; class_name; " withDeadline(Duration deadline) {"];
   "Objects.requireNonNull(deadline);";
   cat ["if (deadline.isZero() || deadline.isNegative()) throw new IllegalArgumentException(";
        q; "deadline must be positive"; q; ");"];
   cat ["return new "; class_name; "(channel, deadline);"];
   "}";
   ""].

Definition events_header (package file_name class_name : string) : list string :=
  ["// Generated by moonlight-bridge-codegen. Do not edit.";
   cat ["package "; package; ";"];
   "";
   "import ru.moonlightproject.bridge.client.MoonLightChannel;";
   "import java.util.concurrent.CompletionException;";
   "import java.util.concurrent.Flow;";
   "import java.util.function.Consumer;";
   "";
   cat ["/** Typed subscriptions for events declared in {@code "; file_name; "}. */"];
   cat ["public final class "; class_name; " {"];
   cat ["private "; class_name; "() { }"];
   ""].

Definition java_event_id_line (name : string) (id : Z) : string :=
  cat ["public static final int "; upper_snake name; "_ID = 0x"; hex8 id; ";"].

Definition event_subscription (file : FileDescriptorProto) (message : DescriptorProto)
    : result CodegenError (list string) :=
  name ← required (message_name message) "message name";
  let id := method_id (canonical_event file name) in
  Ok ([cat ["/** Stable wire ID of the {@code "; name; "} event. */"]; java_event_id_line name id;
       cat ["/** Subscribes to {@code "; name;
            "} events; close the result to unsubscribe. */"];
       cat ["public static AutoCloseable on"; name;
            "(MoonLightChannel channel, Consumer<"; name; "> listener) {"];
       cat ["    return channel.subscribe("; upper_snake name; "_ID, body -> {"];
       cat ["        try { listener.accept("; name; ".parseFrom(body)); }"];
       "        catch (com.google.protobuf.InvalidProtocolBufferException error) { throw new CompletionException(error); }";
       "    });";
       "}";
       ""]).

(** [Path::file_stem]: of the last component, what is before its last dot. *)
Definition file_stem (path : string) : option string :=
  let components :=
    List.filter (λ c, negb (bool_decide (c = "")) && negb (bool_decide (c = ".")))
      (split_by (λ c, bool_decide (c = "/"%char)) "" path) in
  name ← last components;
  if bool_decide (name = "..") then None
  else
    let parts := split_by (λ c, bool_decide (c = "."%char)) "" name in
    let before := String.concat "." (removelast parts) in
    Some (if bool_decide (before = "") then name else before).

(** ** Files *)

(** What was written, in order, and how the generator ended. *)
Definition output : Type := list (string * list string) * result CodegenError unit.

Definition and_then (o next : output) : output :=
  match o with
  | (writes, Ok _) => (writes ++ next.1, next.2)
  | (writes, Err e) => (writes, Err e)
  end.

Fixpoint for_each {A} (f : A → output) (l : list A) : output :=
  match l with
  | [] => ([], Ok tt)
  | x :: l => and_then (f x) (for_each f l)
  end.

(** [fs::write(path, code)] when there is code. *)
Definition write_file (path : string) (code : result CodegenError (list string)) : output :=
  match code with
  | Ok code => ([(path, code)], Ok tt)
  | Err e => ([], Err e)
  end.

(** [package.replace('.', "/")] and the class, under the output root. *)
Definition class_path (package class_name : string) : string :=
  cat [String.concat "/" (split_by (λ c, bool_decide (c = "."%char)) "" package); "/"; class_name;
       ".java"].

Section generator.
Context (policies : list (string * RpcPolicy)) (types : gmap string string).

Definition method_text (file : FileDescriptorProto) (service_name : string)
    (method : MethodDescriptorProto) : result CodegenError (list string) :=
  method_name ← required (md_name method) "method name";
  policy ← Rust.lookup_policy policies file service_name method_name;
  generate_java_method file service_name types policy method.

Definition service_file (file : FileDescriptorProto) (package : string)
    (service : ServiceDescriptorProto) : output :=
  match required (sd_name service) "service name" with
  | Err e => ([], Err e)
  | Ok service_name =>
      let class_name := service_name +:+ "Client" in
      write_file (class_path package class_name)
        (methods ← try_concat (method_text file service_name) (sd_method service);
         Ok (client_header package service_name class_name ++ methods ++ ["}"]))
  end.

Definition is_event (message : DescriptorProto) : bool :=
  match message_name message with Some name => ends_with name "Event" | None => false end.

Definition events_file (file : FileDescriptorProto) (package : string) : output :=
  let event_messages := List.filter is_event (fl_message_type file) in
  match event_messages with
  | [] => ([], Ok tt)
  | _ =>
      match
        file_name ← required (fl_name file) "proto file name";
        stem ← ok_or (file_stem file_name) (Invalid "invalid proto file name");
        Ok (file_name, stem)
      with
      | Err e => ([], Err e)
      | Ok (file_name, stem) =>
          let class_name := upper_camel_words stem +:+ "Events" in
          write_file (class_path package class_name)
            (events ← try_concat (event_subscription file) event_messages;
             Ok (events_header package file_name class_name ++ events ++ ["}"]))
      end
  end.

Definition file_output (file : FileDescriptorProto) : output :=
  match java_package file with
  | Err e => ([], Err e)
  | Ok package =>
      and_then (for_each (service_file file package) (fl_service file)) (events_file file package)
  end.
End generator.

(** [generate_java], from the decoded descriptors. *)
Definition generate_java (policies : list (string * RpcPolicy))
    (descriptor : list FileDescriptorProto) : output :=
  match
    _ ← validate_method_ids descriptor; java_type_map descriptor
  with
  | Err e => ([], Err e)
  | Ok types => for_each (file_output policies types) descriptor
  end.

(** The files under the output root afterwards. *)
Definition written (o : output) : gmap string (list string) :=
  foldl (λ files w, <[w.1 := w.2]> files) ∅ o.1.
End Java.
