(* ===== verification/Agreement.v ===== *)
(** What the two code generators of [codegen/src/lib.rs] promise together: when
    they succeed, that the Java client and the Rust server of a descriptor set
    carry the same wire identifiers and the same policies, and that the printed
    constants lose nothing. *)
From Stdlib Require Import Ascii DecimalString DecimalZ.
From S2P Require Import Prelude OrdMap Text RustSource Naming Descriptor Policy Bindings.
From S2P Require Import Generator.

(** * Blocks of code *)

(** Injection that does not compute the code. *)
Lemma Ok_inj {E A} (a b : A) : Ok (E := E) a = Ok b → a = b.
Proof. congruence. Qed.

Definition block_in {A} (block code : list A) : Prop := ∃ pre post, code = pre ++ block ++ post.

#[export] Instance block_in_preorder {A} : PreOrder (@block_in A).
Proof.
  split; [intros l; exists [], []; by rewrite app_nil_r|].
  intros a b c (p1 & s1 & ->) (p2 & s2 & ->). exists (p2 ++ p1), (s1 ++ s2). by rewrite !(assoc_L (++)).
Qed.

Lemma block_in_l {A} (a b c : list A) : block_in a b → block_in a (b ++ c).
Proof. intros (p & s & ->). exists p, (s ++ c). by rewrite <- !(assoc_L (++)). Qed.

Lemma block_in_r {A} (a b c : list A) : block_in a c → block_in a (b ++ c).
Proof. intros (p & s & ->). exists (b ++ p), s. by rewrite <- !(assoc_L (++)). Qed.

Lemma block_in_cons {A} (x : A) a c : block_in a c → block_in a (x :: c).
Proof. apply (block_in_r a [x]). Qed.

Lemma block_in_elem {A} (x : A) a b : block_in a b → x ∈ a → x ∈ b.
Proof. intros (p & s & ->). set_solver. Qed.

Create HintDb blocks.
#[export] Hint Resolve block_in_l block_in_r block_in_cons : blocks.
#[export] Hint Extern 1 (block_in ?a ?a) => reflexivity : blocks.

Lemma try_concat_elem {E A B} (f : A → result E (list B)) l code x :
  try_concat f l = Ok code → x ∈ l → ∃ block, f x = Ok block ∧ block_in block code.
Proof.
  revert code. induction l as [|y l IH]; intros code; cbn [try_concat].
  { intros _ H. by apply elem_of_nil in H. }
  intros (b & Hy & H)%bind_Ok. apply bind_Ok in H as (rest & Hl & <-%Ok_inj).
  intros [->|Hx]%elem_of_cons; [exists b; eauto with blocks|].
  destruct (IH rest Hl Hx) as (block & Hb & Hin). eauto with blocks.
Qed.

Lemma try_concat_ok {E A B} (f : A → result E (list B)) l :
  is_ok (try_concat f l) = true ↔ ∀ x, x ∈ l → is_ok (f x) = true.
Proof.
  induction l as [|y l IH]; cbn [try_concat]; [split; [intros _ x H; by apply elem_of_nil in H|done]|].
  destruct (f y) as [b|e] eqn:Hy; simpl.
  - destruct (try_concat f l) as [rest|e]; simpl in *.
    + split; [|done]. intros _ x [->|Hx]%elem_of_cons; [by rewrite Hy|by apply IH].
    + split; [done|]. intros H. apply IH. intros x Hx. apply H. by right.
  - split; [done|]. intros H. specialize (H y ltac:(by left)). by rewrite Hy in H.
Qed.

Lemma for_each_ok {A} (f : A → Java.output) l x :
  (Java.for_each f l).2 = Ok tt → x ∈ l →
  (f x).2 = Ok tt ∧ ∀ w, w ∈ (f x).1 → w ∈ (Java.for_each f l).1.
Proof.
  induction l as [|y l IH]; cbn [Java.for_each]; intros H Hx; [by apply elem_of_nil in Hx|].
  destruct (f y) as [writes [[]|e]] eqn:Hy; simpl in *; [|done].
  apply elem_of_cons in Hx as [->|Hx].
  - rewrite Hy. set_solver.
  - destruct (IH H Hx) as [? Hw]. split; [done|]. set_solver.
Qed.

(** The texts stay folded. *)
#[local] Opaque Rust.rust_header Rust.generate_rust_policy_constant cat.
#[local] Opaque Java.generate_java_policy_constant Java.client_header Java.events_header.
#[local] Opaque Java.stream_method Java.unary_method.

(** * The Rust side *)

Section rust.
Context (policies : list (string * RpcPolicy)).

Lemma generate_rust_file files rust file :
  Rust.generate_rust policies files = Ok rust → file ∈ files →
  ∃ code, Rust.file_text policies file = Ok code ∧ block_in code rust.
Proof.
  unfold Rust.generate_rust. intros (u & _ & H)%bind_Ok Hf. apply bind_Ok in H as (code & Hc & <-%Ok_inj).
  destruct (try_concat_elem _ _ _ _ Hc Hf) as (block & Hb & Hin).
  exists block. split; [done|]. by apply block_in_r.
Qed.

Lemma file_service file code s service :
  Rust.file_text policies file = Ok code → s ∈ fl_service file → sd_name s = Some service →
  ∃ constants registrations,
    try_concat (Rust.constant_of policies file service) (sd_method s) = Ok constants ∧
    try_concat (Rust.register_text policies file service) (sd_method s) = Ok registrations ∧
    block_in constants code ∧ block_in registrations code.
Proof.
  unfold Rust.file_text. intros (services & Hs & H)%bind_Ok Hin Hn.
  apply bind_Ok in H as (events & _ & <-%Ok_inj).
  destruct (try_concat_elem _ _ _ _ Hs Hin) as (block & Hb & Hblock).
  unfold Rust.service_text in Hb. rewrite Hn in Hb. simpl in Hb.
  apply bind_Ok in Hb as (constants & Hc & Hb). apply bind_Ok in Hb as (methods & _ & Hb).
  apply bind_Ok in Hb as (registrations & Hr & <-%Ok_inj). exists constants, registrations.
  split_and!; [done|done| |]; apply block_in_l; (etrans; [|exact Hblock]); auto 12 with blocks.
Qed.

(** What the generated Rust code says of a method. *)
Lemma rust_method_text files rust file service name m :
  Rust.generate_rust policies files = Ok rust → described files file service name m →
  ∃ policy,
    bt_get (canonical_method file service name) policies = Some policy ∧
    block_in (Rust.generate_rust_policy_constant service name policy) rust ∧
    Rust.route_line (default false (md_server_streaming m))
      (method_id (canonical_method file service name)) (rust_policy_name service name) ∈ rust.
Proof.
  intros Hr [Hf (s & Hs & Hsn & Hm) Hn].
  destruct (generate_rust_file _ _ _ Hr Hf) as (code & Hc & Hcode).
  destruct (file_service _ _ _ _ Hc Hs Hsn) as (cs & rs & Hcs & Hrs & Hci & Hri).
  destruct (try_concat_elem _ _ _ _ Hcs Hm) as (b1 & H1 & Hb1).
  destruct (try_concat_elem _ _ _ _ Hrs Hm) as (b2 & H2 & Hb2).
  unfold Rust.constant_of in H1. rewrite Hn in H1. simpl in H1.
  apply bind_Ok in H1 as (policy & Hp & <-%Ok_inj). apply ok_or_Ok in Hp. exists policy.
  split_and!; [done|by do 2 (etrans; [eassumption|])|].
  eapply block_in_elem; [by do 2 (etrans; [eassumption|])|].
  unfold Rust.register_text in H2. rewrite Hn in H2. simpl in H2.
  apply bind_Ok in H2 as (p' & _ & H2). unfold Rust.registration_text in H2.
  apply bind_Ok in H2 as (u & _ & H2). rewrite Hn in H2. simpl in H2.
  apply bind_Ok in H2 as (input & _ & <-%Ok_inj). right. by left.
Qed.

Lemma rust_event_text files rust file message name :
  Rust.generate_rust policies files = Ok rust → file ∈ files →
  message ∈ fl_message_type file → message_name message = Some name → ends_with name "Event" = true →
  Rust.rust_event_id_line name (method_id (canonical_event file name)) ∈ rust.
Proof.
  intros Hr Hf Hm Hn He. destruct (generate_rust_file _ _ _ Hr Hf) as (code & Hc & Hcode).
  eapply block_in_elem; [exact Hcode|]. revert Hc. unfold Rust.file_text.
  intros (services & _ & H)%bind_Ok. apply bind_Ok in H as (events & H & <-%Ok_inj).
  destruct (try_concat_elem _ _ _ _ H Hm) as (block & Hb & Hin). apply elem_of_app. right.
  eapply block_in_elem; [exact Hin|]. unfold Rust.event_publisher in Hb. rewrite Hn in Hb. simpl in Hb.
  rewrite He in Hb. injection Hb as <-. right. by left.
Qed.
End rust.

(** * The Java side *)

Section java.
Context (policies : list (string * RpcPolicy)).

Lemma generate_java_file files writes file :
  Java.generate_java policies files = (writes, Ok tt) → file ∈ files →
  ∃ types package,
    Java.java_package file = Ok package ∧
    (Java.for_each (Java.service_file policies types file package) (fl_service file)).2 = Ok tt ∧
    (Java.events_file file package).2 = Ok tt ∧
    (∀ w, w ∈ (Java.for_each (Java.service_file policies types file package) (fl_service file)).1 ∨
          w ∈ (Java.events_file file package).1 → w ∈ writes).
Proof.
  unfold Java.generate_java. intros H Hf. case_match eqn:Ht; [|done]. rename a into types.
  assert ((Java.for_each (Java.file_output policies types) files).2 = Ok tt) as Hok by by rewrite H.
  destruct (for_each_ok _ _ _ Hok Hf) as [Hfile Hw]. rewrite H in Hw. simpl in Hw.
  unfold Java.file_output in *. destruct (Java.java_package file) as [package|e]; [|done].
  exists types, package. unfold Java.and_then in *.
  destruct (Java.for_each _ (fl_service file)) as [w1 [[]|e]]; [|done]. simpl in *.
  split_and!; [done|done|done|]. intros w Hin. apply Hw. set_solver.
Qed.

(** What the generated client of a service says of a method. *)
Lemma java_method_text files writes file service name m :
  Java.generate_java policies files = (writes, Ok tt) → described files file service name m →
  ∃ policy package code,
    bt_get (canonical_method file service name) policies = Some policy ∧
    Java.java_package file = Ok package ∧
    (Java.class_path package (service +:+ "Client"), code) ∈ writes ∧
    block_in (Java.generate_java_policy_constant service name policy) code ∧
    Java.method_id_line name (method_id (canonical_method file service name)) ∈ code.
Proof.
  intros Hj [Hf (s & Hs & Hsn & Hm) Hn].
  destruct (generate_java_file _ _ _ Hj Hf) as (types & package & Hp & Hok & _ & Hw).
  destruct (for_each_ok _ _ _ Hok Hs) as [Hso Hsw]. unfold Java.service_file in *.
  rewrite Hsn in *. simpl in *.
  destruct (try_concat _ (sd_method s)) as [methods|e] eqn:Hms; [|done]. simpl in *.
  destruct (try_concat_elem _ _ _ _ Hms Hm) as (block & Hb & Hin).
  unfold Java.method_text in Hb. rewrite Hn in Hb. simpl in Hb.
  apply bind_Ok in Hb as (policy & Hpol & Hb). apply ok_or_Ok in Hpol.
  unfold Java.generate_java_method in Hb. apply bind_Ok in Hb as (u & _ & Hb). rewrite Hn in Hb.
  simpl in Hb. do 4 (apply bind_Ok in Hb as (? & _ & Hb)). apply Ok_inj in Hb.
  eexists policy, package, _. split_and!; [done|done|apply Hw; left; apply Hsw; by left| |].
  - apply block_in_r, block_in_l. etrans; [|exact Hin]. rewrite <- Hb. auto with blocks.
  - apply (block_in_elem _ block); [by apply block_in_r, block_in_l|]. rewrite <- Hb. right. by left.
Qed.

Lemma java_event_text files writes file message name :
  Java.generate_java policies files = (writes, Ok tt) → file ∈ files →
  message ∈ fl_message_type file → message_name message = Some name → ends_with name "Event" = true →
  ∃ path code, (path, code) ∈ writes ∧
    Java.java_event_id_line name (method_id (canonical_event file name)) ∈ code.
Proof.
  intros Hj Hf Hm Hn He.
  destruct (generate_java_file _ _ _ Hj Hf) as (types & package & _ & _ & Hok & Hw).
  assert (message ∈ List.filter Java.is_event (fl_message_type file)) as Hin.
  { apply list_elem_of_In, filter_In. split; [by apply list_elem_of_In|].
    unfold Java.is_event. by rewrite Hn. }
  unfold Java.events_file in *.
  destruct (List.filter Java.is_event (fl_message_type file)) as [|e0 es] eqn:Hes;
    [by apply elem_of_nil in Hin|].
  destruct (_ ← required _ _; _) as [[file_name stem]|e]; [|done].
  destruct (try_concat (Java.event_subscription file) (e0 :: es)) as [events|e] eqn:Hev; [|done].
  destruct (try_concat_elem _ _ _ _ Hev Hin) as (block & Hb & Hblock). simpl in Hw.
  eexists _, _. split; [apply Hw; right; by left|].
  eapply block_in_elem; [apply block_in_r, block_in_l; exact Hblock|].
  unfold Java.event_subscription in Hb. rewrite Hn in Hb. simpl in Hb. apply Ok_inj in Hb as <-.
  right. by left.
Qed.
End java.

(** * When the Rust generator succeeds *)

(** What the generator needs of a method. *)
Definition method_ready (policies : list (string * RpcPolicy)) (file : FileDescriptorProto)
    (service name : string) (m : MethodDescriptorProto) : Prop :=
  is_Some (bt_get (canonical_method file service name) policies) ∧
  is_Some (md_input_type m) ∧ is_Some (md_output_type m) ∧
  default false (md_client_streaming m) = false.

Lemma is_ok_bind {E A B} (r : result E A) (f : A → result E B) :
  is_ok (r ≫= f) = true ↔ ∃ a, r = Ok a ∧ is_ok (f a) = true.
Proof. destruct r; simpl; naive_solver. Qed.

Lemma split_by_nonnil p part value : split_by p part value ≠ [].
Proof. revert part. induction value as [|c value IH]; intros part; simpl; [done|]. by case_match. Qed.

Lemma rust_message_type_ok value :
  is_ok (rust_message_type value) = true ↔ is_Some value.
Proof.
  unfold rust_message_type. destruct value as [v|]; simpl; [|by split; [|intros []]].
  split; [done|]. intros _.
  destruct (last (split_by _ "" v)) eqn:Hl; [done|].
  apply last_None in Hl. by apply split_by_nonnil in Hl.
Qed.

Section ready.
Context (policies : list (string * RpcPolicy)).

Lemma is_ok_Ok {E A} (r : result E A) : is_ok r = true ↔ ∃ a, r = Ok a.
Proof. destruct r; naive_solver. Qed.

Lemma constant_of_ok file service name m :
  md_name m = Some name →
  is_ok (Rust.constant_of policies file service m) = true ↔
  is_Some (bt_get (canonical_method file service name) policies).
Proof.
  intros Hn. unfold Rust.constant_of, Rust.lookup_policy. rewrite Hn. simpl.
  destruct (bt_get _ policies); simpl; split; done || by intros [].
Qed.

Lemma trait_method_ok name m :
  md_name m = Some name →
  is_ok (Rust.trait_method m) = true ↔
  is_Some (md_input_type m) ∧ is_Some (md_output_type m) ∧ default false (md_client_streaming m) = false.
Proof.
  intros Hn. rewrite <- !rust_message_type_ok. unfold Rust.trait_method. rewrite Hn. simpl.
  destruct (rust_message_type (md_input_type m)); [|by split; [|intros (? & _)]].
  destruct (rust_message_type (md_output_type m)); [|by split; [|intros (_ & ? & _)]].
  by destruct (default false (md_client_streaming m)); split; [|intros (_ & _ & ?)| |].
Qed.

Lemma register_text_ok file service name m :
  md_name m = Some name → method_ready policies file service name m →
  is_ok (Rust.register_text policies file service m) = true.
Proof.
  intros Hn ([p Hp] & Hi & _ & Hc). unfold Rust.register_text, Rust.lookup_policy. rewrite Hn. simpl.
  rewrite Hp. simpl. unfold Rust.registration_text, reject_unsupported_streaming. rewrite Hc, Hn. simpl.
  apply rust_message_type_ok, is_ok_Ok in Hi as [input ->]. done.
Qed.

Lemma service_text_ok file s service :
  sd_name s = Some service → (∀ m, m ∈ sd_method s → is_Some (md_name m)) →
  is_ok (Rust.service_text policies file s) = true ↔
  ∀ m name, m ∈ sd_method s → md_name m = Some name → method_ready policies file service name m.
Proof.
  intros Hs Hnames. unfold Rust.service_text. rewrite Hs. simpl. split.
  - intros (cs & Hcs & H)%is_ok_bind m name Hm Hn. apply is_ok_bind in H as (ms & Hms & _).
    assert (is_ok (try_concat (Rust.constant_of policies file service) (sd_method s)) = true) as H1
      by by rewrite Hcs.
    assert (is_ok (try_concat Rust.trait_method (sd_method s)) = true) as H2 by by rewrite Hms.
    pose proof (proj1 (try_concat_ok _ _) H1 m Hm) as Hc%(constant_of_ok _ _ _ _ Hn).
    pose proof (proj1 (try_concat_ok _ _) H2 m Hm) as Ht%(trait_method_ok _ _ Hn).
    by split.
  - intros Hready. assert (∀ f : MethodDescriptorProto → result CodegenError (list string),
      (∀ m name, m ∈ sd_method s → md_name m = Some name → is_ok (f m) = true) →
      ∃ code, try_concat f (sd_method s) = Ok code) as Hall.
    { intros f Hf. apply is_ok_Ok, try_concat_ok. intros m Hm. destruct (Hnames m Hm). eauto. }
    destruct (Hall (Rust.constant_of policies file service)) as [cs ->].
    { intros m name Hm Hn. apply (constant_of_ok _ _ _ _ Hn). by apply (Hready m name). }
    destruct (Hall Rust.trait_method) as [ms Hms].
    { intros m name Hm Hn. apply (trait_method_ok _ _ Hn). by apply (Hready m name). }
    destruct (Hall (Rust.register_text policies file service)) as [rs Hrs].
    { intros m name Hm Hn. eapply register_text_ok; eauto. }
    simpl. rewrite Hms. simpl. by rewrite Hrs.
Qed.

Lemma file_text_ok file :
  (∀ s, s ∈ fl_service file → is_Some (sd_name s) ∧ ∀ m, m ∈ sd_method s → is_Some (md_name m)) →
  (∀ message, message ∈ fl_message_type file → is_Some (message_name message)) →
  is_ok (Rust.file_text policies file) = true ↔
  ∀ s service m name, s ∈ fl_service file → sd_name s = Some service →
    m ∈ sd_method s → md_name m = Some name → method_ready policies file service name m.
Proof.
  intros Hs Hmsg. unfold Rust.file_text.
  assert (∃ events, try_concat (Rust.event_publisher file) (fl_message_type file) = Ok events) as [ev Hev].
  { apply is_ok_Ok, try_concat_ok. intros message Hm. destruct (Hmsg message Hm) as [name Hn].
    unfold Rust.event_publisher. rewrite Hn. simpl. by destruct (ends_with name "Event"). }
  rewrite is_ok_bind. split.
  - intros (code & Hc & _) s service m name Hin Hsn Hm Hn. destruct (Hs s Hin) as [_ Hnames].
    assert (is_ok (try_concat (Rust.service_text policies file) (fl_service file)) = true) as H1
      by by rewrite Hc.
    pose proof (proj1 (try_concat_ok _ _) H1 s Hin) as H2.
    by apply (proj1 (service_text_ok file s service Hsn Hnames) H2).
  - intros Hready.
    assert (∃ code, try_concat (Rust.service_text policies file) (fl_service file) = Ok code)
      as [code Hc].
    { apply is_ok_Ok, try_concat_ok. intros s Hin. destruct (Hs s Hin) as [[service Hsn] Hnames].
      apply (service_text_ok file s service Hsn Hnames). eauto. }
    exists code. split; [done|]. by rewrite Hev.
Qed.
End ready.

(** * Faithful constants *)

#[local] Transparent cat Rust.generate_rust_policy_constant Java.generate_java_policy_constant.

Section constants.

Lemma append_cancel_l (a b c : string) : a +:+ b = a +:+ c → b = c.
Proof. intros H. by apply append_inj_length in H as [_ ->]. Qed.

Lemma append_length (a b : string) : String.length (a +:+ b) = (String.length a + String.length b)%nat.
Proof. induction a as [|c a IH]; simpl; [done|]. by f_equal. Qed.

Lemma append_cancel_r (a b c : string) : a +:+ c = b +:+ c → a = b.
Proof.
  intros H. assert (String.length a = String.length b) as Hl.
  { apply (f_equal String.length) in H. rewrite !append_length in H. lia. }
  by apply append_inj_length in H as [-> _].
Qed.

Lemma to_decimal_inj n m : to_decimal n = to_decimal m → n = m.
Proof.
  assert (∀ k, NilZero.int_of_string (to_decimal k) = Some (Z.to_int k)) as Hof.
  { intros k. apply NilZero.isi; destruct k; simpl; try done;
      intros [= H]; apply DecimalPos.Unsigned.to_uint_nonnil in H; done. }
  intros H. pose proof (Hof n) as Hn. rewrite H, Hof in Hn. injection Hn as Hn.
  rewrite <- (DecimalZ.of_to n), <- (DecimalZ.of_to m). by rewrite Hn.
Qed.

Lemma cat3_inj a b x y : cat [a; x; b] = cat [a; y; b] → x = y.
Proof. unfold cat. rewrite !concat_cons. intros H%append_cancel_l. by apply append_cancel_r in H. Qed.

(** A separator that the parts do not contain is found again. *)
Definition lacks (c : ascii) (s : string) : bool := all_chars (λ x, negb (bool_decide (x = c))) s.

Lemma separator_inj c (x y s t : string) :
  lacks c x = true → lacks c y = true → x +:+ String c s = y +:+ String c t → x = y ∧ s = t.
Proof.
  unfold lacks. revert y. induction x as [|a x IH]; intros [|b y] Hx Hy H; simpl in *.
  - by injection H.
  - apply andb_prop in Hy as [Hb _]. injection H as -> _. by rewrite bool_decide_eq_true_2 in Hb.
  - apply andb_prop in Hx as [Ha _]. injection H as -> _. by rewrite bool_decide_eq_true_2 in Ha.
  - apply andb_prop in Hx as [_ Hx]. apply andb_prop in Hy as [_ Hy]. injection H as -> H.
    by destruct (IH y Hx Hy H) as [-> ->].
Qed.

Lemma decimal_lacks c n : c = ","%char ∨ c = ")"%char → lacks c (to_decimal n) = true.
Proof.
  intros Hc. assert (∀ d, lacks c (NilEmpty.string_of_uint d) = true) as Hd.
  { unfold lacks. intros d. induction d; simpl; [done|..]; by destruct Hc as [-> | ->]. }
  assert (∀ d, lacks c (NilZero.string_of_uint d) = true) as Hz.
  { intros d. specialize (Hd d). destruct d; try done. by destruct Hc as [-> | ->]. }
  unfold to_decimal. destruct n; simpl; [by destruct Hc as [-> | ->]|apply Hz|].
  unfold lacks in *. simpl. rewrite Hz. by destruct Hc as [-> | ->].
Qed.

Lemma quoted_list_inj (l l' : list string) :
  Forall (λ s, lacks (ascii_of_nat 34) s = true) l →
  Forall (λ s, lacks (ascii_of_nat 34) s = true) l' →
  scope_list l = scope_list l' → l = l'.
Proof.
  assert (∀ (a : string) k, scope_list (a :: k) =
    q +:+ a +:+ String (ascii_of_nat 34) (match k with [] => "" | _ => ", " +:+ scope_list k end))
    as Hcons.
  { intros a k. unfold scope_list, quoted. destruct k; simpl; [done|].
    by rewrite <- !append_assoc. }
  intros H. revert l'. induction H as [|a l Ha Hl IH]; intros [|b l'] H'; [done|..].
  - by rewrite Hcons.
  - by rewrite Hcons.
  - rewrite !Hcons. inversion H' as [|? ? Hb Hl']; subst. intros Heq%append_cancel_l.
    apply separator_inj in Heq as [-> Heq]; [|done|done]. f_equal.
    destruct l as [|x l], l' as [|y l']; try done. apply append_cancel_l in Heq. by apply IH.
Qed.

Lemma scope_lacks_quote s : scope_invalid s = false → lacks (ascii_of_nat 34) s = true.
Proof.
  intros Hs%scope_invalid_false. destruct Hs as [_ Hs]. revert Hs. unfold as_bytes.
  induction s as [|c s IH]; simpl; [done|]. intros Hc. inversion Hc as [|? ? Hb Hr]; subst.
  unfold lacks. simpl. apply andb_true_intro. split; [|by apply IH].
  destruct (decide (c = ascii_of_nat 34)) as [->|Hne]; [vm_compute in Hb; discriminate|].
  by rewrite bool_decide_eq_false_2.
Qed.

Lemma scopes_inj p p' :
  Forall (λ s, scope_invalid s = false) (required_scopes p) →
  Forall (λ s, scope_invalid s = false) (required_scopes p') →
  scope_list (required_scopes p) = scope_list (required_scopes p') →
  required_scopes p = required_scopes p'.
Proof.
  intros H H'. apply quoted_list_inj; (eapply Forall_impl; [eassumption|]); apply scope_lacks_quote.
Qed.

Lemma hex_char_inj a b : 0 <= a < 16 → 0 <= b < 16 → hex_char a = hex_char b → a = b.
Proof.
  intros Ha Hb. assert (∃ i j, (i < 16)%nat ∧ (j < 16)%nat ∧ a = Z.of_nat i ∧ b = Z.of_nat j)
    as (i & j & Hi & Hj & -> & ->) by (exists (Z.to_nat a), (Z.to_nat b); lia).
  unfold hex_char. rewrite !Nat2Z.id. clear Ha Hb. intros H.
  do 16 (destruct i as [|i]; [do 16 (destruct j as [|j]; [done || discriminate H|]); lia|]). lia.
Qed.

Lemma hex_digits_length d n : String.length (hex_digits d n) = d.
Proof.
  revert n. induction d as [|d IH]; intros n; cbn [hex_digits]; [done|].
  rewrite append_length, IH. simpl. lia.
Qed.

Lemma hex_digits_inj d n m :
  0 <= n < 16 ^ Z.of_nat d → 0 <= m < 16 ^ Z.of_nat d → hex_digits d n = hex_digits d m → n = m.
Proof.
  revert n m. induction d as [|d IH]; intros n m Hn Hm; cbn [hex_digits].
  { change (16 ^ Z.of_nat 0) with 1 in *. lia. }
  rewrite Nat2Z.inj_succ, Z.pow_succ_r in Hn, Hm by lia. intros H.
  apply append_inj_length in H as [H1 H2]; [|by rewrite !hex_digits_length].
  apply IH in H1; [|split; [apply Z.div_pos|apply Z.div_lt_upper_bound]; lia..].
  apply hex_char_inj in H2; [|apply Z.mod_pos_bound; lia..].
  rewrite (Z_div_mod_eq_full n 16), (Z_div_mod_eq_full m 16). lia.
Qed.

Lemma policy_ext p p' :
  timeout_ms p = timeout_ms p' → idle_timeout_ms p = idle_timeout_ms p' →
  max_attempts (retry p) = max_attempts (retry p') →
  initial_backoff_ms (retry p) = initial_backoff_ms (retry p') →
  max_backoff_ms (retry p) = max_backoff_ms (retry p') →
  multiplier_milli (retry p) = multiplier_milli (retry p') →
  idempotency p = idempotency p' → max_request_bytes p = max_request_bytes p' →
  max_response_bytes p = max_response_bytes p' → required_scopes p = required_scopes p' →
  compression p = compression p' → trace_sample_per_million p = trace_sample_per_million p' → p = p'.
Proof. destruct p as [? ? []], p' as [? ? []]. simpl. congruence. Qed.

(** The numbers of the two Java lines that hold several. *)
Lemma retry_line_inj a1 a2 a3 a4 b1 b2 b3 b4 :
  let line n1 n2 n3 n4 :=
    cat ["    new RpcPolicy.Retry("; to_decimal n1; ", Duration.ofMillis("; to_decimal n2;
         "), Duration.ofMillis("; to_decimal n3; "), "; to_decimal n4; "),"] in
  line a1 a2 a3 a4 = line b1 b2 b3 b4 → a1 = b1 ∧ a2 = b2 ∧ a3 = b3 ∧ a4 = b4.
Proof.
  intros line. unfold line, cat. rewrite !concat_cons. intros H%append_cancel_l.
  apply (separator_inj ",") in H as [H1%to_decimal_inj H]; [|apply decimal_lacks; auto..].
  apply (append_cancel_l " Duration.ofMillis(") in H.
  apply (separator_inj ")") in H as [H2%to_decimal_inj H]; [|apply decimal_lacks; auto..].
  apply (append_cancel_l ", Duration.ofMillis(") in H.
  apply (separator_inj ")") in H as [H3%to_decimal_inj H]; [|apply decimal_lacks; auto..].
  apply (append_cancel_l ", ") in H.
  apply (separator_inj ")") in H as [H4%to_decimal_inj _]; [done|apply decimal_lacks; auto..].
Qed.

Lemma bytes_line_inj a1 a2 b1 b2 :
  let line n1 n2 := cat ["    "; to_decimal n1; ", "; to_decimal n2; ","] in
  line a1 a2 = line b1 b2 → a1 = b1 ∧ a2 = b2.
Proof.
  intros line. unfold line, cat. rewrite !concat_cons. intros H%append_cancel_l.
  apply (separator_inj ",") in H as [H1%to_decimal_inj H]; [|apply decimal_lacks; auto..].
  apply (append_cancel_l " ") in H.
  apply (separator_inj ",") in H as [H2%to_decimal_inj _]; [done|apply decimal_lacks; auto..].
Qed.

Lemma idempotency_debug_inj i j : Rust.idempotency_debug i = Rust.idempotency_debug j → i = j.
Proof. by destruct i, j. Qed.
Lemma compression_debug_inj i j : Rust.compression_debug i = Rust.compression_debug j → i = j.
Proof. by destruct i, j. Qed.
Lemma idempotency_text_inj i j : Java.idempotency_text i = Java.idempotency_text j → i = j.
Proof. by destruct i, j. Qed.
Lemma compression_text_inj i j : Java.compression_text i = Java.compression_text j → i = j.
Proof. by destruct i, j. Qed.

(** The lines of two equal constants, one by one. *)
Lemma cons_inj {A} (x y : A) l k : x :: l = y :: k → x = y ∧ l = k.
Proof. by intros [= -> ->]. Qed.

End constants.

Ltac split_lines H :=
  repeat (apply cons_inj in H; let H1 := fresh "Hl" in destruct H as [H1 H]).

Lemma generate_rust_ok policies files :
  is_ok (Rust.generate_rust policies files) = true ↔
  validate_method_ids files = Ok tt ∧
  ∀ file service name m, described files file service name m →
    method_ready policies file service name m.
Proof.
  unfold Rust.generate_rust. rewrite is_ok_bind. split.
  - intros ([] & Hv & H). split; [done|]. intros file service name m [Hf (s & Hs & Hsn & Hm) Hn].
    apply is_ok_bind in H as (code & Hc & _).
    assert (is_ok (try_concat (Rust.file_text policies) files) = true) as H1 by by rewrite Hc.
    pose proof (proj1 (try_concat_ok _ _) H1 file Hf) as H2.
    destruct (validated_file _ _ Hv Hf) as [Hn1 Hn2]. by eapply (file_text_ok policies file Hn1 Hn2).
  - intros [Hv Hready]. exists tt. split; [done|]. apply is_ok_bind.
    assert (∃ code, try_concat (Rust.file_text policies) files = Ok code) as [code Hc].
    { apply is_ok_Ok, try_concat_ok. intros file Hf.
      destruct (validated_file _ _ Hv Hf) as [Hn1 Hn2]. apply (file_text_ok policies file Hn1 Hn2).
      intros s service m name Hs Hsn Hm Hn. apply Hready. split; [done|by exists s|done]. }
    by exists code.
Qed.

(** What is left of files that do not overwrite each other. *)
Lemma written_lookup (writes : list (string * list string)) path code :
  NoDup writes.*1 → (path, code) ∈ writes → Java.written (writes, Ok tt) !! path = Some code.
Proof.
  unfold Java.written. simpl. induction writes as [|[p c] writes IH] using rev_ind;
    [by intros _ ?%not_elem_of_nil|].
  rewrite fmap_app, foldl_app, elem_of_app, list_elem_of_singleton. simpl.
  intros (Hnd & Hd & _)%NoDup_app [Hin|[= -> ->]]; [|apply lookup_insert_eq].
  rewrite lookup_insert_ne; [by apply IH|]. intros ->. apply (Hd path); [|by left].
  apply list_elem_of_fmap. by exists (path, code).
Qed.

(** * Properties *)

(** Nothing is lost in print: the identifier and the policy constants that the
    generators write, in Rust and in Java, determine the 32-bit identifier and
    every field of the policy. *)
Theorem constants_faithful service method (p p' : RpcPolicy) (id id' : Z) :
  Forall (λ s, scope_invalid s = false) (required_scopes p) →
  Forall (λ s, scope_invalid s = false) (required_scopes p') →
  0 <= id <= u32_max → 0 <= id' <= u32_max →
  (Rust.generate_rust_policy_constant service method p = Rust.generate_rust_policy_constant service method p' ↔ p = p') ∧
  (Java.generate_java_policy_constant service method p = Java.generate_java_policy_constant service method p' ↔ p = p') ∧
  (Java.method_id_line method id = Java.method_id_line method id' ↔ id = id') ∧
  (Rust.rust_event_id_line method id = Rust.rust_event_id_line method id' ↔ id = id').
Proof.
  intros Hs Hs' Hi Hi'. unfold u32_max in *.
  assert (hex8 id = hex8 id' → id = id') as Hhex by (intros H; eapply (hex_digits_inj 8); [..|exact H]; lia).
  split_and!; (split; [|by intros ->]).
  - intros H. unfold Rust.generate_rust_policy_constant in H. cbv zeta in H. split_lines H.
    apply policy_ext;
      first [eapply to_decimal_inj, cat3_inj; eassumption
            |eapply idempotency_debug_inj, cat3_inj; eassumption
            |eapply compression_debug_inj, cat3_inj; eassumption
            |eapply scopes_inj; [done|done|eapply cat3_inj; eassumption]].
  - intros H. unfold Java.generate_java_policy_constant in H. cbv zeta in H. split_lines H.
    apply retry_line_inj in Hl3 as (? & ? & ? & ?). apply bytes_line_inj in Hl5 as [? ?].
    apply policy_ext;
      first [eassumption|eapply to_decimal_inj, cat3_inj; eassumption
            |eapply idempotency_text_inj, cat3_inj; eassumption
            |eapply compression_text_inj, cat3_inj; eassumption
            |eapply scopes_inj; [done|done|eapply cat3_inj; eassumption]].
  - unfold Java.method_id_line, cat. rewrite !concat_cons. intros H.
    do 3 apply append_cancel_l in H. by apply append_cancel_r, Hhex in H.
  - unfold Rust.rust_event_id_line, cat. rewrite !concat_cons. intros H.
    do 3 apply append_cancel_l in H. by apply append_cancel_r, Hhex in H.
Qed.

(** C40 The Rust generator succeeds exactly when it should: on the descriptor sets
    in which every service, method and message has a name, no two methods or
    events have the same 32-bit identifier and no event has the identifier zero,
    and every method has a policy, an input and an output type and does not
    stream from the client. *)
Theorem generate_rust_complete policies files :
  is_ok (Rust.generate_rust policies files) = true ↔
  (∀ file, file ∈ files →
     (∀ s, s ∈ fl_service file → is_Some (sd_name s) ∧ ∀ m, m ∈ sd_method s → is_Some (md_name m)) ∧
     (∀ message, message ∈ fl_message_type file → is_Some (message_name message))) ∧
  (NoDup (method_ids files ++ event_ids files) ∧ 0 ∉ event_ids files) ∧
  ∀ file service name m, described files file service name m →
    method_ready policies file service name m.
Proof. rewrite generate_rust_ok, validate_method_ids_iff, <- (assoc (∧)). done. Qed.

(** C28 Client and server agree.  When both generators succeed for a descriptor
    set and no two of the Java files have the same path, then for every method
    of every service the file that is left for the Java client of the service
    declares the wire identifier that the Rust bindings route, and both embed
    the constant of the one policy of the method; and for every event the Rust
    publisher and a Java file that is left have the same identifier.  (Files
    with one path overwrite each other: [client_overwritten].) *)
Theorem client_server_agree policies files rust writes :
  Rust.generate_rust policies files = Ok rust →
  Java.generate_java policies files = (writes, Ok tt) → NoDup writes.*1 →
  let left := Java.written (writes, Ok tt) in
  (∀ file service name m, described files file service name m →
     let id := method_id (canonical_method file service name) in
     ∃ policy package code,
       bt_get (canonical_method file service name) policies = Some policy ∧
       Java.java_package file = Ok package ∧
       left !! Java.class_path package (service +:+ "Client") = Some code ∧
       Rust.route_line (default false (md_server_streaming m)) id (rust_policy_name service name) ∈ rust ∧
       block_in (Rust.generate_rust_policy_constant service name policy) rust ∧
       Java.method_id_line name id ∈ code ∧
       block_in (Java.generate_java_policy_constant service name policy) code) ∧
  (∀ file message name,
     file ∈ files → message ∈ fl_message_type file → message_name message = Some name →
     ends_with name "Event" = true →
     let id := method_id (canonical_event file name) in
     Rust.rust_event_id_line name id ∈ rust ∧
     ∃ path code, left !! path = Some code ∧ Java.java_event_id_line name id ∈ code).
Proof.
  intros Hr Hj Hnd left.
  assert (∀ path code, (path, code) ∈ writes → left !! path = Some code) as Hleft
    by (intros path code; by apply written_lookup).
  split.
  - intros file service name m Hd id.
    destruct (rust_method_text _ _ _ _ _ _ _ Hr Hd) as (policy & Hp & Hc & Hl).
    destruct (java_method_text _ _ _ _ _ _ _ Hj Hd) as (policy' & package & code & Hp' & Hpk & Hw & Hb & Hi).
    rewrite Hp in Hp'. injection Hp' as <-. apply Hleft in Hw. by exists policy, package, code.
  - intros file message name Hf Hm Hn He id.
    split; [by eapply rust_event_text|].
    destruct (java_event_text _ _ _ _ _ _ Hj Hf Hm Hn He) as (path & code & Hw%Hleft & Hi). eauto.
Qed.

(** * Witnesses *)

Definition sample_rust : list string :=
  default [] (ok (Rust.generate_rust sample_policies sample_descriptor)).
Definition sample_writes : list (string * list string) :=
  (Java.generate_java sample_policies sample_descriptor).1.

Lemma client_server_agree_witness :
  Java.method_id_line "Put" (method_id "shop.Orders/Put") =
    "public static final int PUT_METHOD_ID = 0x85F8B88A;" ∧
  ∃ code, Java.written (sample_writes, Ok tt) !! "shop/OrdersClient.java" = Some code ∧
          Java.method_id_line "Put" (method_id "shop.Orders/Put") ∈ code ∧
          Rust.route_line false (method_id "shop.Orders/Put") "ORDERS_PUT_POLICY" ∈ sample_rust.
Proof.
  split; [vm_compute; reflexivity|].
  destruct (client_server_agree sample_policies sample_descriptor sample_rust sample_writes)
    as [Hm _].
  - vm_compute. reflexivity.
  - vm_compute. reflexivity.
  - vm_compute. repeat constructor; set_solver.
  - destruct (Hm (default (MkFile None None None [] [] []) (head sample_descriptor)) "Orders" "Put"
      (sample_method "Put" false)) as (policy & package & code & _ & Hp & Hw & Hr & _ & Hj & _).
    + split; [by left| |done]. eexists. split; [by left|]. split; [done|by left].
    + injection Hp as <-. exists code. split_and!; [exact Hw|exact Hj|exact Hr].
Defined.

Lemma constants_faithful_witness :
  Rust.generate_rust_policy_constant "Orders" "Put" (RpcPolicy_defaults false) ≠
  Rust.generate_rust_policy_constant "Orders" "Put" (RpcPolicy_defaults true).
Proof.
  intros H. apply (constants_faithful "Orders" "Put" (RpcPolicy_defaults false)
    (RpcPolicy_defaults true) 1 2) in H; [vm_compute in H; discriminate H| | | |].
  - constructor.
  - constructor.
  - vm_compute. split; discriminate.
  - vm_compute. split; discriminate.
Defined.

(** Two services of one name in files of one Java package share a client file:
    only the last one is left. *)
Definition twin_file (proto package : string) : FileDescriptorProto :=
  {| fl_name := Some proto; fl_package := Some package; fl_java_package := Some "app";
     fl_message_type := [MkMessage (Some "Order") [] [] [] [] []]; fl_enum_type := [];
     fl_service := [{| sd_name := Some "Orders";
                       sd_method := [{| md_name := Some "Put";
                                        md_input_type := Some (cat ["."; package; ".Order"]);
                                        md_output_type := Some (cat ["."; package; ".Order"]);
                                        md_client_streaming := None; md_server_streaming := None |}] |}] |}.

Example client_overwritten :
  let o := Java.generate_java
    [("a.Orders/Put", RpcPolicy_defaults false); ("b.Orders/Put", RpcPolicy_defaults false)]
    [twin_file "a.proto" "a"; twin_file "b.proto" "b"] in
  o.2 = Ok tt ∧ length o.1 = 2%nat ∧ size (Java.written o) = 1%nat.
Proof. vm_compute. auto. Qed.

(** A message of a file without a package is entered under a name that its
    references do not use. *)
Example packageless_type_unknown :
  (Java.generate_java [("Orders/Put", RpcPolicy_defaults false)]
    [{| fl_name := Some "o.proto"; fl_package := None; fl_java_package := Some "app";
        fl_message_type := [MkMessage (Some "Order") [] [] [] [] []]; fl_enum_type := [];
        fl_service := [{| sd_name := Some "Orders";
                          sd_method := [{| md_name := Some "Put"; md_input_type := Some ".Order";
                                           md_output_type := Some ".Order";
                                           md_client_streaming := None;
                                           md_server_streaming := None |}] |}] |}]).2 =
  Err (Invalid "unknown input type .Order").
Proof. vm_compute. reflexivity. Qed.
