(* ===== verification/Pipeline.v ===== *)
(** The build pipeline of [codegen/src/lib.rs] and the command line of
    [codegen/src/main.rs]: generate the schema from Rust sources, compile it,
    check it against the lock, generate the bindings.  The Protobuf compiler is
    a parameter: from the schema's text it gives the descriptor set and the
    reflection pool, or fails. *)
From S2P Require Import Prelude OrdMap Json RustSource Middleware Router Descriptor Policy Schema.
From S2P Require Import Bindings Generator Agreement.

(** * The command line *)

Inductive command :=
  | SourceRust (source output : string) (schema_lock : option string)
  | JavaClients (descriptor java_output : string)
  | LockUpdate (descriptor lock : string)
  | LockCheck (descriptor lock : string).

(** The [match] on the arguments, in the order of its arms; [None] is the usage
    error. *)
Definition parse_command (arguments : list string) : option command :=
  match arguments with
  | [command; language; source; output] =>
      if bool_decide (command = "source") && bool_decide (language = "rust")
      then Some (SourceRust source output None)
      else if bool_decide (command = "lock") && bool_decide (output = "--update")
      then Some (LockUpdate language source)
      else if bool_decide (command = "lock") && bool_decide (output = "--check")
      then Some (LockCheck language source)
      else None
  | [command; language; source; output; lock] =>
      if bool_decide (command = "source") && bool_decide (language = "rust")
      then Some (SourceRust source output (Some lock)) else None
  | [descriptor; java_output] => Some (JavaClients descriptor java_output)
  | _ => None
  end.

(** The arguments of a command, as the usage text shows them. *)
Definition command_line (c : command) : list string :=
  match c with
  | SourceRust source output lock => ["source"; "rust"; source; output] ++ option_list lock
  | JavaClients descriptor java_output => [descriptor; java_output]
  | LockUpdate descriptor lock => ["lock"; descriptor; lock; "--update"]
  | LockCheck descriptor lock => ["lock"; descriptor; lock; "--check"]
  end.

(** Every command of the usage text is understood, and nothing else is. *)
Lemma parse_command_iff arguments c :
  parse_command arguments = Some c ↔ arguments = command_line c.
Proof.
  split.
  - unfold parse_command. intros H. repeat case_match; simplify_eq; bool_to_prop;
      repeat match goal with
      | H : bool_decide _ = true |- _ => apply bool_decide_eq_true in H
      end; by subst.
  - intros ->. by destruct c as [? ? []| | |].
Qed.

(** * Building *)

Section pipeline.
Context `{R0 : ReflectOps}.

(** The errors of the steps, as the boxed error of the pipeline. *)
Inductive build_error :=
  | SourceFailed (e : SourceError)
  | ProtocFailed (text : string)
  | LockFailed (e : lock_error)
  | GenerationFailed (e : CodegenError).

(** [compile_rust_api] after the Protobuf compiler wrote the descriptor file. *)
Definition compile_rust_api (compiled : result string (list FileDescriptorProto * Pool))
    (lock : lock_file) : result build_error (list string) :=
  '(files, pool) ← map_err ProtocFailed compiled;
  _ ← map_err LockFailed
        (check_lock (policies ← policies_from_pool pool; snapshot files policies) lock);
  policies ← map_err GenerationFailed (policies_from_pool pool);
  map_err GenerationFailed (Rust.generate_rust policies files).

(** [compile_rust_source_api]: the generated schema is compiled with the
    handwritten ones; [json] is the lock as the generator reads it. *)
Definition compile_rust_source_api
    (compile_protos : string → result string (list FileDescriptorProto * Pool))
    (syntax : list Item) (json : result SourceError Json.Value) (lock : lock_file)
    : result build_error (list string) :=
  proto ← map_err SourceFailed (generate_proto_from_rust_source syntax (Some json));
  compile_rust_api (compile_protos (proto_text proto)) lock.

(** Registrations are generated whenever the code is. *)
Lemma generated_ops_complete policies unary stream files :
  validate_method_ids files = Ok tt →
  (∀ file service name m, described files file service name m →
     method_ready policies file service name m) →
  ∃ ops, generated_ops policies unary stream files = Ok ops.
Proof.
  intros Hv Hready. apply is_ok_Ok, try_fold_ok. intros file acc Hf. apply try_fold_ok.
  intros s acc' Hs. destruct (validated_file _ _ Hv Hf) as [Hnames _].
  destruct (Hnames s Hs) as [[service Hsn] Hms]. unfold register_service. rewrite Hsn. simpl.
  apply try_fold_ok. intros m acc'' Hm. destruct (Hms m Hm) as [name Hn].
  destruct (Hready file service name m) as ([p Hp] & [i Hi] & _ & Hc);
    [by split; [|exists s|]|].
  unfold register_method, generate_rust_method, reject_unsupported_streaming.
  rewrite Hn. simpl. rewrite Hp. simpl. by rewrite Hc, Hi.
Qed.

Lemma check_lock_snapshot current lock :
  check_lock current (Parsed lock) = Ok tt → lock_wf lock →
  ∃ c, current = Ok c ∧ compatible lock c.
Proof.
  intros H Hwf. destruct current as [c|e]; [|done]. exists c. split; [done|].
  by apply check_lock_accepts in H as [_ ?].
Qed.

(** * Properties *)

(** C26 A build that succeeds gives a server that starts.  The lock file was
    parsed and, if it is well formed, the schema is compatible with it.
    Whatever the closures of the methods do, the generated registrations are
    complete; made on a builder behind an authorization layer they never panic
    and build a router that serves exactly the methods of the schema; and made
    on a builder without any layer they build unless some method of the schema
    requires a scope, in which case building panics. *)
Theorem build_gives_server compiled lock code :
  compile_rust_api compiled lock = Ok code →
  ∃ files pool policies,
    compiled = Ok (files, pool) ∧ policies_from_pool pool = Ok policies ∧
    Rust.generate_rust policies files = Ok code ∧
    (∃ locked, lock = Parsed locked ∧
       (lock_wf locked → ∃ current, snapshot files policies = Ok current ∧ compatible locked current)) ∧
    ∀ unary stream, ∃ ops,
      generated_ops policies unary stream files = Ok ops ∧
      (∀ authorization, ∃ r,
         build_router (OAuthorization authorization :: ops) = Some r ∧
         ∀ id, id ∈ method_ids files ↔ contains (handlers r) id || is_streaming r id = true) ∧
      (build_router ops = None ↔
       ∃ file service name m policy, described files file service name m ∧
         bt_get (canonical_method file service name) policies = Some policy ∧
         Policy.required_scopes policy ≠ []).
Proof.
  unfold compile_rust_api. intros ([files pool] & Hc%map_err_Ok & H)%bind_Ok.
  apply bind_Ok in H as ([] & Hl%map_err_Ok & H).
  apply bind_Ok in H as (policies & Hp%map_err_Ok & Hg%map_err_Ok).
  rewrite Hp in Hl. simpl in Hl. exists files, pool, policies. split_and!; [done|done|done| |].
  - destruct lock as [| | |locked]; try (by destruct (snapshot files policies)).
    exists locked. split; [done|]. by apply check_lock_snapshot.
  - intros unary stream.
    assert (is_ok (Rust.generate_rust policies files) = true) as [Hv Hready]%generate_rust_ok
      by by rewrite Hg.
    destruct (generated_ops_complete policies unary stream files Hv Hready) as [ops Hops].
    exists ops. split; [done|]. split; [|by eapply generated_unlayered].
    intros authorization.
    destruct (generated_bindings_ok _ _ _ _ _ authorization Hv Hops) as [(r & Hr & Hids) _].
    by exists r.
Qed.
End pipeline.

(** * Witness *)

(** The reflection pool of the sample services, without policy options. *)
Definition sample_pool_method (name : string) (streaming : bool) : PoolMethod :=
  {| pm_name := name; pm_client_streaming := false; pm_server_streaming := streaming;
     pm_option := None |}.
Definition sample_pool : Pool :=
  {| pool_has_extension := false;
     pool_services := [("shop.Orders", [sample_pool_method "Put" false;
                                        sample_pool_method "Watch" true])] |}.
Definition sample_compiled : result string (list FileDescriptorProto * Pool) :=
  Ok (sample_descriptor, sample_pool).
Definition sample_lock : lock_file :=
  match snapshot sample_descriptor sample_policies with Ok l => Parsed l | Err _ => NotFound end.
Definition sample_code : list string :=
  default [] (ok (compile_rust_api sample_compiled sample_lock)).

Lemma build_gives_server_witness :
  length sample_code = 145%nat ∧
  ∃ ops r, generated_ops sample_policies sample_unary sample_stream sample_descriptor = Ok ops ∧
    build_router (OAuthorization (λ c b, RunNext c b (λ r, Finish (Returned r))) :: ops) = Some r ∧
    ∀ id, id ∈ method_ids sample_descriptor ↔ contains (handlers r) id || is_streaming r id = true.
Proof.
  split; [vm_compute; reflexivity|].
  destruct (build_gives_server sample_compiled sample_lock sample_code)
    as (files & pool & policies & Hc & Hp & _ & _ & Hs); [vm_compute; reflexivity|].
  injection Hc as <- <-. vm_compute in Hp. injection Hp as <-.
  destruct (Hs sample_unary sample_stream) as (ops & Hops & Hall & _).
  destruct (Hall (λ c b, RunNext c b (λ r, Finish (Returned r)))) as (r & Hr & Hids).
  exists ops, r. split; [exact Hops|]. split; [exact Hr|exact Hids].
Defined.
