(* ===== verification/Regeneration.v ===== *)
(** What regenerating a schema from Rust declarations keeps: the theorems about
    the front end of [RustSource], against the previous lock of a schema and
    against the compatibility relation of [Schema].  Numbering is total, minimal
    and fresh; declarations continue their locked versions; the lock is read
    back as it was written; annotations reach the schema. *)
From Stdlib Require Import Ascii.
From S2P Require Import Prelude OrdMap Descriptor Policy Schema Json RustSource.

(** * Specification *)

(** What a declaration says: its numbered entries and its reservations. *)
Definition line_entry (l : line) : option (Z * string) :=
  match l with
  | FieldLine _ _ name n | ValueLine name n => Some (n, name)
  | _ => None
  end.
Definition line_number (l : line) : option Z :=
  match l with ReservedNumber n => Some n | _ => None end.
Definition line_name (l : line) : option string :=
  match l with ReservedName s => Some s | _ => None end.

Definition entries_of (proto : list line) : list (Z * string) := omap line_entry proto.
Definition numbers_reserved (proto : list line) : list Z := omap line_number proto.
Definition names_reserved (proto : list line) : list string := omap line_name proto.

(** A locked declaration: its maps and sets are ordered, its names are distinct
    and no number is both used and reserved. *)
Record declared_ok (table : list (Z * string)) (numbers : btset Z) (names : btset string)
    : Prop := {
  ok_table : bt_sorted table;
  ok_numbers : bt_sorted numbers;
  ok_names : NoDup table.*2;
  ok_disjoint : ∀ n, n ∈ bs_iter numbers → n ∉ table.*1;
}.

(** [proto] continues a locked declaration with the entries named [current], new
    numbers being at least [lowest]. *)
Record continues (lowest : Z) (table : list (Z * string)) (numbers : btset Z)
    (names : btset string) (current : list string) (proto : list line) : Prop := {
  (** every current name is declared once, every number at most once *)
  cont_names : (entries_of proto).*2 ≡ₚ current;
  cont_numbers : NoDup (entries_of proto).*1;
  (** a locked entry keeps its number, or its number and name are reserved *)
  cont_locked : ∀ n name, (n, name) ∈ table →
    ((n, name) ∈ entries_of proto ∧ n ∉ numbers_reserved proto) ∨
    (name ∉ current ∧ n ∈ numbers_reserved proto ∧ name ∈ names_reserved proto);
  (** reservations stay *)
  cont_reserved : bs_iter numbers ⊆ numbers_reserved proto ∧
                  bs_iter names ⊆ names_reserved proto;
  (** a new entry gets a number that was never used *)
  cont_fresh : ∀ n name, (n, name) ∈ entries_of proto → (n, name) ∉ table →
    lowest <= n ∧ implementation_reserved n = false ∧ n ∉ table.*1 ∧
    n ∉ numbers_reserved proto;
}.

(** * Numbering is total, minimal and fresh *)

Definition free (used : btset Z) (n : Z) : Prop :=
  n ∉ bs_iter used ∧ implementation_reserved n = false.

Lemma blocked_spec used n :
  bt_sorted used →
  bs_contains n used || implementation_reserved n = false ↔ free used n.
Proof.
  intros Hs. unfold free. rewrite orb_false_iff, <- bs_contains_iter by done.
  by rewrite not_true_iff_false.
Qed.

Lemma next_free_Some fuel used c n :
  bt_sorted used → next_free fuel used c = Some n →
  c <= n ∧ free used n ∧ ∀ m, c <= m < n → ¬ free used m.
Proof.
  intros Hs. revert c. induction fuel as [|fuel IH]; simpl; intros c H; [done|].
  destruct (bs_contains c used || implementation_reserved c) eqn:E.
  - apply IH in H as (Hc & Hf & Hm). split; [lia|]. split; [done|]. intros m Hm'.
    destruct (decide (m = c)) as [->|]; [|apply Hm; lia].
    rewrite <- blocked_spec by done. by rewrite E.
  - simplify_eq. apply blocked_spec in E; [|done]. split; [lia|]. split; [done|]. lia.
Qed.

Lemma next_free_None fuel used c :
  bt_sorted used → next_free fuel used c = None →
  ∀ m, c <= m < c + Z.of_nat fuel → ¬ free used m.
Proof.
  intros Hs. revert c. induction fuel as [|fuel IH]; intros c H m Hm; [lia|]. simpl in H.
  destruct (bs_contains c used || implementation_reserved c) eqn:E; [|done].
  destruct (decide (m = c)) as [->|]; [|by apply (IH (c + 1)); [done|lia]].
  rewrite <- blocked_spec by done. by rewrite E.
Qed.

(** There are only so many blocked numbers in a row. *)
Lemma blocked_length used c k :
  0 <= k → (∀ m, c <= m < c + k → ¬ free used m) → k <= zlen used + 1000.
Proof.
  intros Hk Hb.
  assert (seqZ c k ⊆+ bs_iter used ++ seqZ 19000 1000) as Hsub.
  { apply NoDup_submseteq; [apply NoDup_seqZ|]. intros m [Hm1 Hm2]%elem_of_seqZ.
    specialize (Hb m ltac:(lia)). unfold free, implementation_reserved in Hb.
    rewrite elem_of_app, elem_of_seqZ. destruct (decide (m ∈ bs_iter used)); [by left|right].
    destruct ((19000 <=? m) && (m <=? 19999)) eqn:Er; [bool_to_prop; lia|naive_solver]. }
  apply submseteq_length in Hsub. rewrite length_app, !length_seqZ in Hsub.
  unfold bs_iter in Hsub. rewrite length_fmap in Hsub. unfold zlen. lia.
Qed.

Lemma next_free_enough used c :
  bt_sorted used → is_Some (next_free (number_fuel used) used c).
Proof.
  intros Hs. destruct (next_free (number_fuel used) used c) eqn:E; [by eexists|exfalso].
  pose proof (blocked_length used c (Z.of_nat (number_fuel used)) ltac:(lia) (next_free_None _ _ _ Hs E)) as H.
  unfold number_fuel, zlen in H. lia.
Qed.

(** The least free number from [lowest] on, which is below a bound that the
    set determines, so that [candidate += 1] does not overflow. *)
Definition least_free (lowest : Z) (used : btset Z) (n : Z) : Prop :=
  lowest <= n <= lowest + zlen used + 1000 ∧ free used n ∧
  ∀ m, lowest <= m < n → ¬ free used m.

Lemma next_free_least used c :
  bt_sorted used → least_free c used (default 0 (next_free (number_fuel used) used c)).
Proof.
  intros Hs. destruct (next_free_enough used c Hs) as [n Hn]. rewrite Hn. simpl.
  destruct (next_free_Some _ _ _ _ Hs Hn) as (Hc & Hf & Hm).
  split; [|done]. split; [done|].
  pose proof (blocked_length used c (n - c) ltac:(lia)) as H.
  assert (n - c <= zlen used + 1000); [|lia]. apply H. intros m Hm'. apply Hm. lia.
Qed.

(** * One numbering loop for fields and variants *)

Fixpoint assign (next : btset Z → Z) (table : list (Z * string)) (used : btset Z)
    (names : list string) : list (Z * string) :=
  match names with
  | [] => []
  | name :: names =>
      let number := default (next used) (locked_number table name) in
      (number, name) :: assign next table (bs_insert number used) names
  end.

Lemma locked_number_Some table name n :
  NoDup table.*2 → locked_number table name = Some n ↔ (n, name) ∈ table.
Proof.
  unfold locked_number, find_map. induction table as [|[m old] table IH]; simpl; intros Hnd.
  { split; [done|]. by intros ?%elem_of_nil. }
  apply NoDup_cons in Hnd as [Hm Hnd]. rewrite elem_of_cons. case_bool_decide; simpl.
  - subst. split; [intros [= ->]; by left|]. intros [[= ->]|Hin]; [done|].
    destruct Hm. apply list_elem_of_fmap. by exists (n, name).
  - rewrite IH by done. naive_solver.
Qed.

Lemma locked_number_None table name :
  locked_number table name = None → name ∉ table.*2.
Proof.
  unfold locked_number, find_map. induction table as [|[m old] table IH]; simpl; [set_solver|].
  case_bool_decide; simpl; [done|]. intros Hn%IH. set_solver.
Qed.

Lemma assign_names next table used names : (assign next table used names).*2 = names.
Proof. revert used. induction names; simpl; intros; f_equal; auto. Qed.

Section assign.
Context (next : btset Z → Z) (lowest : Z) (table : list (Z * string)).
Hypothesis Hnext : ∀ used, bt_sorted used → least_free lowest used (next used).
Hypothesis Htable : bt_sorted table.
Hypothesis Hnames : NoDup table.*2.

(** Each entry keeps its locked number or gets a free one. *)
Lemma assign_elem used names n name :
  bt_sorted used → (n, name) ∈ assign next table used names →
  (n, name) ∈ table ∨
  (name ∉ table.*2 ∧ lowest <= n ∧ n ∉ bs_iter used ∧ implementation_reserved n = false).
Proof.
  revert used. induction names as [|x names IH]; intros used Hs; simpl.
  { by intros ?%elem_of_nil. }
  intros [[= -> ->]|Hin]%elem_of_cons.
  - destruct (locked_number table x) as [m|] eqn:E; simpl.
    + left. by apply locked_number_Some in E.
    + right. destruct (Hnext used Hs) as (? & [? ?] & _).
      split_and!; [by apply locked_number_None|lia|done|done].
  - apply IH in Hin as [?|(? & ? & Hu & ?)]; [by left| |by apply bs_insert_sorted].
    right. rewrite bs_insert_iter in Hu by done. naive_solver.
Qed.

Lemma assign_retained used names n name :
  (n, name) ∈ table → name ∈ names → (n, name) ∈ assign next table used names.
Proof using Hnames.
  clear Hnext Htable. intros Ht. revert used. induction names as [|x names IH]; intros used; simpl; [set_solver|].
  intros [->|Hin]%elem_of_cons; [|set_solver].
  apply locked_number_Some in Ht as ->; [|done]. set_solver.
Qed.

Lemma table_number n name name' : (n, name) ∈ table → (n, name') ∈ table → name = name'.
Proof using Htable. rewrite <- !bt_get_elem by done. congruence. Qed.

Lemma assign_nodup used names :
  bt_sorted used → table.*1 ⊆ bs_iter used → NoDup names →
  NoDup (assign next table used names).*1.
Proof.
  revert used. induction names as [|x names IH]; intros used Hs Hsub Hnd; simpl; [constructor|].
  apply NoDup_cons in Hnd as [Hx Hnd]. set (number := default _ _).
  assert (bt_sorted (bs_insert number used)) as Hs' by by apply bs_insert_sorted.
  constructor.
  2: { apply IH; [done| |done]. intros n Hn. apply bs_insert_iter; [done|]. right. by apply Hsub. }
  intros ([n name] & Hn & Hin)%list_elem_of_fmap. simpl in Hn. subst n.
  assert (name ∈ names) as Hname.
  { rewrite <- (assign_names next table (bs_insert number used) names).
    apply list_elem_of_fmap. by exists (number, name). }
  apply assign_elem in Hin as [Hin|(_ & _ & Hu & _)]; [|by rewrite bs_insert_iter in Hu by done; naive_solver|done].
  unfold number in *. clear number. destruct (locked_number table x) as [m|] eqn:E; simpl in *.
  - apply locked_number_Some in E; [|done]. assert (name = x) as -> by by eapply table_number.
    done.
  - destruct (Hnext used Hs) as (_ & [Hfree _] & _). apply Hfree, Hsub.
    apply list_elem_of_fmap. by exists (next used, name).
Qed.
End assign.

(** * What the lines of a declaration say *)

Definition locked_used (table : list (Z * string)) (numbers : btset Z) : btset Z :=
  bs_extend (bs_iter numbers) (bs_extend table.*1 []).

Lemma locked_used_sorted table numbers : bt_sorted (locked_used table numbers).
Proof. unfold locked_used. do 2 apply bs_extend_sorted. constructor. Qed.

Lemma locked_used_iter table numbers n :
  n ∈ bs_iter (locked_used table numbers) ↔ n ∈ bs_iter numbers ∨ n ∈ table.*1.
Proof.
  unfold locked_used. rewrite bs_extend_iter by (apply bs_extend_sorted; constructor).
  rewrite bs_extend_iter by constructor. set_solver.
Qed.

Lemma entries_app l k : entries_of (l ++ k) = entries_of l ++ entries_of k.
Proof. apply omap_app. Qed.
Lemma numbers_app l k : numbers_reserved (l ++ k) = numbers_reserved l ++ numbers_reserved k.
Proof. apply omap_app. Qed.
Lemma names_app l k : names_reserved (l ++ k) = names_reserved l ++ names_reserved k.
Proof. apply omap_app. Qed.

Lemma omap_none {A B} (f : A → option B) l : (∀ x, x ∈ l → f x = None) → omap f l = [].
Proof.
  induction l as [|x l IH]; intros H; [done|]. simpl. rewrite (H x) by set_solver.
  apply IH. set_solver.
Qed.

Lemma reserved_lines_elem table numbers names current l :
  l ∈ reserved_lines table numbers names (bs_extend current []) ↔
  (∃ n name, (n, name) ∈ table ∧ name ∉ current ∧ (l = ReservedNumber n ∨ l = ReservedName name))
  ∨ (∃ n, n ∈ bs_iter numbers ∧ l = ReservedNumber n)
  ∨ (∃ name, name ∈ bs_iter names ∧ l = ReservedName name).
Proof.
  assert (∀ name, bs_contains name (bs_extend current []) = true ↔ name ∈ current) as Hc.
  { intros name. rewrite bs_contains_iter by (apply bs_extend_sorted; constructor).
    rewrite bs_extend_iter by constructor. set_solver. }
  unfold reserved_lines. rewrite !elem_of_app, list_elem_of_bind, !list_elem_of_fmap.
  split.
  - intros [([n name] & Hl & Hin)|[(n & -> & Hn)|(name & -> & Hn)]].
    + left. exists n, name. specialize (Hc name).
      destruct (bs_contains name (bs_extend current [])); simpl in Hl; [set_solver|].
      split; [done|]. split; [naive_solver|set_solver].
    + right; left. by exists n.
    + right; right. by exists name.
  - intros [(n & name & Hin & Hne & Hl)|[(n & Hn & ->)|(name & Hn & ->)]].
    + left. exists (n, name). split; [|done]. rewrite <- Hc in Hne.
      destruct (bs_contains name (bs_extend current [])); simpl; [done|set_solver].
    + right; left. by exists n.
    + right; right. by exists name.
Qed.

Section reserved_lines.
Context (table : list (Z * string)) (numbers : btset Z) (names : btset string).
Context (current : list string).

Definition reserved_block : list line :=
  reserved_lines table numbers names (bs_extend current []).

Lemma reserved_lines_entries : entries_of reserved_block = [].
Proof.
  apply omap_none. intros l Hl%reserved_lines_elem.
  destruct Hl as [(? & ? & _ & _ & [->| ->])|[(? & _ & ->)|(? & _ & ->)]]; done.
Qed.

Lemma reserved_lines_numbers n :
  n ∈ numbers_reserved reserved_block ↔
  n ∈ bs_iter numbers ∨ ∃ name, (n, name) ∈ table ∧ name ∉ current.
Proof.
  unfold numbers_reserved, reserved_block. rewrite list_elem_of_omap. setoid_rewrite reserved_lines_elem. split.
  - intros (l & [(? & ? & ? & ? & [->| ->])|[(? & ? & ->)|(? & _ & ->)]] & Hl); simplify_eq/=; eauto.
  - intros [Hn|(name & Ht & Hne)]; exists (ReservedNumber n); naive_solver.
Qed.

Lemma reserved_lines_names name :
  name ∈ names_reserved reserved_block ↔
  name ∈ bs_iter names ∨ ∃ n, (n, name) ∈ table ∧ name ∉ current.
Proof.
  unfold names_reserved, reserved_block. rewrite list_elem_of_omap. setoid_rewrite reserved_lines_elem. split.
  - intros (l & [(? & ? & ? & ? & [->| ->])|[(? & _ & ->)|(? & ? & ->)]] & Hl); simplify_eq/=; eauto.
  - intros [Hn|(n & Ht & Hne)]; exists (ReservedName name); naive_solver.
Qed.

(** A declaration of these reservations and of entries numbered by the loop. *)
Lemma assign_continues next lowest proto :
  (∀ used, bt_sorted used → least_free lowest used (next used)) →
  declared_ok table numbers names → NoDup current →
  entries_of proto ≡ₚ assign next table (locked_used table numbers) current →
  numbers_reserved proto = numbers_reserved reserved_block →
  names_reserved proto = names_reserved reserved_block →
  continues lowest table numbers names current proto.
Proof.
  intros Hnext [Ht Hn Hnd Hdis] Hcur He Hnum Hnam.
  pose proof (locked_used_sorted table numbers) as Hus.
  assert (∀ n name, (n, name) ∈ table → n ∈ table.*1) as Hfst.
  { intros n name H. apply list_elem_of_fmap. by exists (n, name). }
  split.
  - by rewrite He, assign_names.
  - rewrite He. apply (assign_nodup next lowest); [done..| |done].
    intros n H. apply locked_used_iter. by right.
  - intros n name Hin. destruct (decide (name ∈ current)) as [Hc|Hc].
    + left. rewrite He, Hnum, reserved_lines_numbers. split; [by apply assign_retained|].
      intros [H|(name' & H & H')]; [by eapply Hdis, Hfst|].
      by rewrite (table_number table Ht n name name') in Hc.
    + right. rewrite Hnum, Hnam, reserved_lines_numbers, reserved_lines_names.
      split_and!; eauto.
  - split; intros x Hx; rewrite ?Hnum, ?Hnam, ?reserved_lines_numbers, ?reserved_lines_names; by left.
  - intros n name Hin Hnew. rewrite He in Hin.
    apply (assign_elem next lowest table) in Hin as [?|(_ & ? & Hu & ?)]; [done| |done..].
    rewrite locked_used_iter in Hu. split_and!; [done..|naive_solver|].
    rewrite Hnum, reserved_lines_numbers. intros [?|(? & ?%Hfst & _)]; naive_solver.
Qed.

(** The block of a declaration: what opens it, the reservations, the entries. *)
Lemma declaration_continues next lowest open lines :
  line_entry open = None → line_number open = None → line_name open = None →
  (∀ used, bt_sorted used → least_free lowest used (next used)) →
  declared_ok table numbers names → NoDup current →
  entries_of lines ≡ₚ assign next table (locked_used table numbers) current →
  numbers_reserved lines = [] → names_reserved lines = [] →
  let proto := open :: reserved_block ++ lines ++ [BlockClose] in
  entries_of proto = entries_of lines ∧ continues lowest table numbers names current proto.
Proof.
  intros Ho1 Ho2 Ho3 Hnext Hok Hcur He Hn Hs proto.
  assert (entries_of proto = entries_of lines) as Hp.
  { unfold proto, entries_of. simpl. rewrite Ho1. fold (entries_of (reserved_block ++ lines ++ [BlockClose])).
    rewrite entries_app, entries_app, reserved_lines_entries. simpl. by rewrite app_nil_r. }
  split; [done|]. apply (assign_continues next); [done..|by rewrite Hp| |].
  - unfold proto, numbers_reserved. simpl. rewrite Ho2.
    fold (numbers_reserved (reserved_block ++ lines ++ [BlockClose])).
    rewrite numbers_app, numbers_app, Hn. simpl. by rewrite app_nil_r.
  - unfold proto, names_reserved. simpl. rewrite Ho3.
    fold (names_reserved (reserved_block ++ lines ++ [BlockClose])).
    rewrite names_app, names_app, Hs. simpl. by rewrite app_nil_r.
Qed.
End reserved_lines.

(** * Messages and enums *)

Lemma next_number_least used : bt_sorted used → least_free 1 used (next_number used).
Proof. apply next_free_least. Qed.
Lemma next_enum_number_least used : bt_sorted used → least_free 0 used (next_enum_number used).
Proof. apply next_free_least. Qed.

(** The previous version of a declaration, empty when the lock has none. *)
Definition locked_message (locked : LockedSchema) (full_name : string) : SourceLockedMessage :=
  default {| sm_fields := []; sm_reserved_numbers := []; sm_reserved_names := [] |}
    (bt_get full_name (src_messages locked)).
Definition locked_enum (locked : LockedSchema) (full_name : string) : SourceLockedEnum :=
  default {| se_values := []; se_reserved_numbers := []; se_reserved_names := [] |}
    (bt_get full_name (src_enums locked)).

Lemma generate_fields_assign name previous named used proto st :
  try_fold (generate_field name previous) named (used, proto) = Ok st →
  ∃ lines, st.2 = proto ++ lines ∧
    entries_of lines = assign next_number (from_option sm_fields [] previous) used named.*1 ∧
    numbers_reserved lines = [] ∧ names_reserved lines = [].
Proof.
  revert used proto. induction named as [|[field_name ty] named IH]; intros used proto H.
  { simpl in H. simplify_eq. exists []. by rewrite app_nil_r. }
  cbn [try_fold] in H. apply bind_Ok in H as ([used' proto'] & Hf & H). unfold generate_field in Hf.
  apply bind_Ok in Hf as ([label ty'] & _ & Hf). simplify_eq.
  apply IH in H as (lines & Hst & He & Hn & Hs). eexists (FieldLine _ _ _ _ :: lines).
  rewrite Hst, <- (assoc_L (++)). split; [done|].
  split; [|split; [by rewrite <- Hn|by rewrite <- Hs]].
  simpl. unfold entries_of in *. simpl. rewrite He. by destruct previous.
Qed.

Lemma generate_message_lines package name named locked proto :
  generate_message package name (FieldsNamed named) locked = Ok proto →
  let m := locked_message locked (package +:+ "." +:+ name) in
  ∃ lines, proto = MessageOpen name ::
      reserved_block (sm_fields m) (sm_reserved_numbers m) (sm_reserved_names m) named.*1
      ++ lines ++ [BlockClose] ∧
    entries_of lines = assign next_number (sm_fields m)
      (locked_used (sm_fields m) (sm_reserved_numbers m)) named.*1 ∧
    numbers_reserved lines = [] ∧ names_reserved lines = [].
Proof.
  unfold generate_message, locked_message. intros H.
  apply bind_Ok in H as ([used' proto'] & Hf & [= <-]).
  apply generate_fields_assign in Hf as (lines & Hp & He & Hn). simpl in Hp. subst proto'.
  exists lines. rewrite <- app_comm_cons, <- (assoc_L (++)).
  destruct (bt_get _ (src_messages locked)); simpl in *; [by split|].
  split; [|by split]. unfold reserved_block. by destruct named.
Qed.

Lemma message_continues package name named locked proto :
  let m := locked_message locked (package +:+ "." +:+ name) in
  declared_ok (sm_fields m) (sm_reserved_numbers m) (sm_reserved_names m) →
  NoDup named.*1 →
  generate_message package name (FieldsNamed named) locked = Ok proto →
  continues 1 (sm_fields m) (sm_reserved_numbers m) (sm_reserved_names m) named.*1 proto ∧
  (entries_of proto).*2 = named.*1.
Proof.
  intros m Hm Hnd H. apply generate_message_lines in H as (lines & -> & He & Hn & Hs).
  fold m in He |- *. destruct (declaration_continues (sm_fields m) (sm_reserved_numbers m) (sm_reserved_names m)
    named.*1 next_number 1 (MessageOpen name) lines) as [Hp Hc];
    try done; [apply next_number_least|by rewrite He|].
  split; [done|]. by rewrite Hp, He, assign_names.
Qed.

Lemma number_variants_assign name previous variants used values st :
  try_fold (number_variant name previous) variants (used, values) = Ok st →
  st.2 = values ++ assign next_enum_number (from_option se_values [] previous) used
    (map (λ v, upper_snake v.1) variants).
Proof.
  revert used values. induction variants as [|[ident fields] variants IH]; intros used values H.
  { simpl in H. simplify_eq. by rewrite app_nil_r. }
  cbn [try_fold] in H. apply bind_Ok in H as ([used' values'] & Hv & H).
  unfold number_variant in Hv. destruct fields; simplify_eq.
  apply IH in H as ->. rewrite <- (assoc_L (++)). simpl. by destruct previous.
Qed.

Lemma generate_enum_lines package name variants locked proto :
  generate_enum package name variants locked = Ok proto →
  let e := locked_enum locked (package +:+ "." +:+ name) in
  let current := map (λ v, upper_snake v.1) variants in
  let values := sort_by_key fst (assign next_enum_number (se_values e)
    (locked_used (se_values e) (se_reserved_numbers e)) current) in
  proto = EnumOpen name ::
    reserved_block (se_values e) (se_reserved_numbers e) (se_reserved_names e) current
    ++ map (λ '(number, variant_name), ValueLine variant_name number) values ++ [BlockClose] ∧
  (values = [] ∨ fst <$> head values = Some 0).
Proof.
  unfold generate_enum, locked_enum. intros H. apply bind_Ok in H as ([used' values] & Hv & H).
  apply number_variants_assign in Hv. simpl in Hv.
  apply bind_Ok in H as ([] & Hg & [= <-]). apply guard_err_Ok in Hg. subst values.
  destruct (bt_get _ (src_enums locked)) as [e|]; simpl in *.
  - split; [done|]. unfold locked_used in *.
    destruct (sort_by_key fst _) as [|[n ?] ?]; [by left|right]. simpl in *.
    bool_to_prop. by subst.
  - split; [unfold reserved_block; by destruct variants|]. unfold locked_used in *. simpl in *.
    destruct (sort_by_key fst _) as [|[n ?] ?]; [by left|right]. simpl in *.
    bool_to_prop. by subst.
Qed.

Lemma value_lines values :
  let lines := map (λ '(number, variant_name), ValueLine variant_name number) values in
  entries_of lines = values ∧ numbers_reserved lines = [] ∧ names_reserved lines = [].
Proof.
  induction values as [|[n name] values (IH1 & IH2 & IH3)]; [done|].
  split_and!; [|exact IH2|exact IH3]. apply (f_equal (cons (n, name))), IH1.
Qed.

Lemma enum_continues package name variants locked proto :
  let e := locked_enum locked (package +:+ "." +:+ name) in
  let current := map (λ v, upper_snake v.1) variants in
  declared_ok (se_values e) (se_reserved_numbers e) (se_reserved_names e) →
  NoDup current →
  generate_enum package name variants locked = Ok proto →
  continues 0 (se_values e) (se_reserved_numbers e) (se_reserved_names e) current proto ∧
  StronglySorted (key_le fst) (entries_of proto) ∧
  (variants = [] ∨ fst <$> head (entries_of proto) = Some 0).
Proof.
  intros e current He Hnd H. apply generate_enum_lines in H as [-> Hz]. fold e current in Hz |- *.
  set (values := sort_by_key fst _) in *.
  destruct (value_lines values) as (Hl1 & Hl2 & Hl3).
  destruct (declaration_continues (se_values e) (se_reserved_numbers e) (se_reserved_names e)
    current next_enum_number 0 (EnumOpen name)
    (map (λ '(number, variant_name), ValueLine variant_name number) values)) as [Hp Hc];
    try done; [apply next_enum_number_least|rewrite Hl1; apply sort_by_key_perm|].
  split; [done|]. rewrite Hp, Hl1. split; [apply (sort_by_key_sorted fst)|].
  destruct Hz as [Hz|Hz]; [left|by right].
  destruct variants as [|v variants]; [done|exfalso].
  pose proof (sort_by_key_perm fst (assign next_enum_number (se_values e)
    (locked_used (se_values e) (se_reserved_numbers e)) current)) as Hp'.
  fold values in Hp'. rewrite Hz in Hp'. apply Permutation_nil in Hp'. done.
Qed.

(** * The lock as it was written *)

(** What the front end keeps of a lock. *)
Definition message_view (m : LockedMessage) : SourceLockedMessage :=
  {| sm_fields := map (λ p, (p.1, lf_name p.2)) (lm_fields m);
     sm_reserved_numbers := bs_extend (lm_reserved_ranges m ≫= λ r, i32_range (start r) (end_ r)) [];
     sm_reserved_names := bs_extend (lm_reserved_names m) [] |}.
Definition enum_view (e : LockedEnum) : SourceLockedEnum :=
  {| se_values := le_values e;
     se_reserved_numbers := bs_extend (le_reserved_ranges e ≫= λ r, i32_range (start r) (end_ r)) [];
     se_reserved_names := bs_extend (le_reserved_names e) [] |}.
Definition lock_view (l : SchemaLock) : LockedSchema :=
  {| src_messages := map (λ p, (p.1, message_view p.2)) (messages l);
     src_enums := map (λ p, (p.1, enum_view p.2)) (enums l) |}.

(** The numbers of a lock are of type [i32]. *)
Definition range_i32 (r : NumberRange) : Prop := is_i32 (start r) = true ∧ is_i32 (end_ r) = true.
Record lock_i32 (l : SchemaLock) : Prop := {
  i32_messages : Forall (λ p, Forall (λ q, is_i32 q.1 = true) (lm_fields p.2) ∧
                              Forall range_i32 (lm_reserved_ranges p.2)) (messages l);
  i32_enums : Forall (λ p, Forall (λ q, is_i32 q.1 = true) (le_values p.2) ∧
                           Forall range_i32 (le_reserved_ranges p.2)) (enums l);
}.

Lemma object_sorted {V} (f : V → Value) (m : list (string * V)) :
  bt_sorted m →
  object (map (λ p, (p.1, f p.2)) m) = Object (map (λ p, (p.1, f p.2)) m).
Proof. intros Hm. unfold object. rewrite bt_rebuild; [done|by apply bt_sorted_map]. Qed.

Lemma bs_extend_app {K} `{!Ord K} (l k : list K) s :
  bs_extend (l ++ k) s = bs_extend k (bs_extend l s).
Proof. unfold bs_extend. apply foldl_app. Qed.

Lemma omap_as_str names : omap as_str (map String_ names) = names.
Proof. induction names; simpl; by f_equal. Qed.

Lemma load_ranges ranges s :
  Forall range_i32 ranges →
  foldl (λ numbers range,
    bs_extend (i32_range (as_i32 (default 0 (json_get "start" range ≫= as_i64)))
                 (as_i32 (default 0 (json_get "end" range ≫= as_i64)))) numbers)
    s (map range_value ranges)
  = bs_extend (ranges ≫= λ r, i32_range (start r) (end_ r)) s.
Proof.
  intros Hr. revert s. induction Hr as [|r ranges [H1 H2] Hr IH]; intros s; [done|].
  cbn [map foldl]. change (json_get "start" (range_value r)) with (Some (int_value (start r))).
  change (json_get "end" (range_value r)) with (Some (int_value (end_ r))).
  simpl. rewrite !as_i32_small by done. rewrite IH. by rewrite bs_extend_app.
Qed.

Lemma load_reservations_view value ranges names :
  json_get "reserved_ranges" value = Some (Array (map range_value ranges)) →
  json_get "reserved_names" value = Some (Array (map String_ names)) →
  Forall range_i32 ranges →
  load_reservations value [] [] =
  (bs_extend (ranges ≫= λ r, i32_range (start r) (end_ r)) [], bs_extend names []).
Proof.
  intros H1 H2 Hr. unfold load_reservations. rewrite H1, H2. cbn [as_array mbind option_bind].
  by rewrite load_ranges, omap_as_str.
Qed.

Lemma foldl_omap {A B C} (f : A → option B) (g : C → B → C) l acc :
  foldl (λ acc x, from_option (g acc) acc (f x)) acc l = foldl g acc (omap f l).
Proof. revert acc. induction l as [|x l IH]; intros acc; simpl; [done|]. destruct (f x); apply IH. Qed.

(** The number and the name that a member of a table stands for. *)
Definition member_entry (label : Value → option string) (e : string * Value) : option (Z * string) :=
  n ← parse_i32 e.1; name ← label e.2; Some (n, name).

Lemma load_entries_collect label entries :
  (∀ e, e ∈ entries → is_Some (member_entry label e)) →
  load_entries label entries =
  Ok (foldl (λ m q, bt_insert q.1 q.2 m) [] (omap (member_entry label) entries)).
Proof.
  intros H. unfold load_entries. rewrite <- foldl_omap. apply try_fold_pure.
  intros [s v] acc Hin. destruct (H _ Hin) as [[n name] He]. rewrite He.
  unfold member_entry in He. simpl in *. destruct (parse_i32 s); [|done]. simpl in *.
  destruct (label v); [by simplify_eq/=|done].
Qed.

(** Reading back a numbered table, whatever the order of the decimal keys. *)
Section load_table.
Context {X : Type} (label : Value → option string) (g : X → Value) (name_of : X → string).
Context (table : list (Z * X)).
Hypothesis Htable : bt_sorted table.
Hypothesis Hi32 : Forall (λ q, is_i32 q.1 = true) table.
Hypothesis Hlabel : ∀ x, label (g x) = Some (name_of x).

Lemma table_keys_nodup : NoDup (map (λ p, (i32_to_string p.1, g p.2)) table).*1.
Proof using Htable Hi32.
  rewrite Forall_forall in Hi32. rewrite <- list_fmap_compose.
  apply NoDup_fmap_2_strong; [|by eapply NoDup_fmap_1, bt_sorted_nodup].
  intros [n x] [m y] Hn Hm Heq. simpl in Heq.
  apply i32_to_string_inj in Heq as <-; [|by apply (Hi32 (n, x))|by apply (Hi32 (m, y))].
  rewrite <- bt_get_elem in Hn by done. rewrite <- bt_get_elem in Hm by done. congruence.
Qed.

Lemma member_entry_table n x :
  (n, x) ∈ table → member_entry label (i32_to_string n, g x) = Some (n, name_of x).
Proof using Hi32 Hlabel.
  intros Hin. rewrite Forall_forall in Hi32. unfold member_entry. simpl.
  rewrite parse_i32_to_string by by apply (Hi32 (n, x)). simpl. by rewrite Hlabel.
Qed.

Lemma load_table_view key value :
  json_get key value = Some (object (map (λ p, (i32_to_string p.1, g p.2)) table)) →
  load_table key label value = Ok (map (λ p, (p.1, name_of p.2)) table).
Proof using Htable Hi32 Hlabel.
  intros Hv. unfold load_table. rewrite Hv.
  destruct (object_elem _ table_keys_nodup) as (entries & -> & _ & He). simpl.
  rewrite load_entries_collect.
  2: { intros e ([n x] & -> & Hin)%He%list_elem_of_fmap. rewrite member_entry_table by done. eauto. }
  f_equal.
  assert (∀ q, q ∈ omap (member_entry label) entries ↔
               q ∈ map (λ p, (p.1, name_of p.2)) table) as Hq.
  { intros q. rewrite list_elem_of_omap, list_elem_of_fmap. split.
    - intros (e & ([n x] & -> & Hin)%He%list_elem_of_fmap & Hq).
      rewrite member_entry_table in Hq by done. simplify_eq. by exists (n, x).
    - intros ([n x] & -> & Hin). exists (i32_to_string n, g x).
      split; [|by apply member_entry_table]. apply He, list_elem_of_fmap. by exists (n, x). }
  assert (bt_sorted (map (λ p, (p.1, name_of p.2)) table)) as Hs by by apply bt_sorted_map.
  apply bt_elem_ext; [apply bt_collect_sorted; constructor|done|]. intros q.
  rewrite (bt_collect_elem _ _ _ _ Hs); [|by intros; apply Hq|set_solver|constructor].
  rewrite Hq. set_solver.
Qed.
End load_table.

Lemma load_message_view m :
  bt_sorted (lm_fields m) → Forall (λ q, is_i32 q.1 = true) (lm_fields m) →
  Forall range_i32 (lm_reserved_ranges m) →
  load_message (message_value m) = Ok (message_view m).
Proof.
  intros Hs Hi Hr. unfold load_message.
  rewrite (load_table_view _ field_value lf_name (lm_fields m)); [|done..|done].
  by rewrite (load_reservations_view _ (lm_reserved_ranges m) (lm_reserved_names m)).
Qed.

Lemma load_enum_view e :
  bt_sorted (le_values e) → Forall (λ q, is_i32 q.1 = true) (le_values e) →
  Forall range_i32 (le_reserved_ranges e) →
  load_enum (enum_value e) = Ok (enum_view e).
Proof.
  intros Hs Hi Hr. unfold load_enum.
  rewrite (load_table_view _ String_ id (le_values e)); [|done..|done].
  rewrite (load_reservations_view _ (le_reserved_ranges e) (le_reserved_names e)); [|done..].
  unfold enum_view. simpl. do 2 f_equal. rewrite <- (map_id (le_values e)) at 2.
  apply map_ext. by intros [].
Qed.

Lemma load_declarations_view {V W} (load : Value → result SourceError W) (f : V → Value)
    (view : V → W) key value (ms : list (string * V)) :
  bt_sorted ms → json_get key value = Some (object (map (λ p, (p.1, f p.2)) ms)) →
  (∀ p, p ∈ ms → load (f p.2) = Ok (view p.2)) →
  load_declarations load key value = Ok (map (λ p, (p.1, view p.2)) ms).
Proof.
  intros Hs Hv Hl. unfold load_declarations. rewrite Hv, object_sorted by done. simpl.
  rewrite <- (bt_rebuild (map (λ p, (p.1, view p.2)) ms)) by by apply bt_sorted_map.
  assert (∀ acc, try_fold (λ '(full_name, member) acc,
    locked ← load member; Ok (bt_insert full_name locked acc)) (map (λ p, (p.1, f p.2)) ms) acc
    = Ok (foldl (λ m p, bt_insert p.1 p.2 m) acc (map (λ p, (p.1, view p.2)) ms))) as H; [|done].
  clear Hs Hv. induction ms as [|[k v] ms IH]; intros acc; [done|]. simpl.
  pose proof (Hl (k, v) ltac:(set_solver)) as Hk. simpl in Hk. rewrite Hk. simpl.
  apply IH. set_solver.
Qed.

Lemma load_lock_view policy_value l :
  lock_wf l → lock_i32 l → load_lock (lock_value policy_value l) = Ok (lock_view l).
Proof.
  intros [[Hms Hmf] [Hes Hef] _] [Hmi Hei]. rewrite Forall_forall in Hmf.
  rewrite Forall_forall in Hmi. rewrite Forall_forall in Hef. rewrite Forall_forall in Hei.
  unfold load_lock.
  rewrite (load_declarations_view load_message message_value message_view _ _ (messages l)); [|done..|].
  2: { intros p Hp. apply load_message_view; [by apply (Hmf p)|by apply (Hmi p)..]. }
  simpl. rewrite (load_declarations_view load_enum enum_value enum_view _ _ (enums l)); [done|done..|].
  intros p Hp. apply load_enum_view; [by apply (Hef p)|by apply (Hei p)..].
Qed.


(** * Regeneration against the compatibility relation of the lock check *)

(** The numbered table and the reserved ranges that a declaration compiles to. *)
Definition table_of (proto : list line) : list (Z * string) :=
  foldl (λ m p, bt_insert p.1 p.2 m) [] (entries_of proto).
Definition ranges_of (proto : list line) : list NumberRange :=
  map (λ n, {| start := n; end_ := n + 1 |}) (numbers_reserved proto).

(** What [check_lock] requires of a declaration's numbers, names and
    reservations, apart from the types of its fields. *)
Definition declaration_kept (table : list (Z * string)) (ranges : list NumberRange)
    (names : list string) (proto : list line) : Prop :=
  reservations_kept ranges names (ranges_of proto) (names_reserved proto) ∧
  entries_kept id table (table_of proto) (ranges_of proto) (names_reserved proto).

Lemma reserves_ranges_of proto n : reserves (ranges_of proto) n ↔ n ∈ numbers_reserved proto.
Proof.
  unfold reserves, ranges_of. setoid_rewrite list_elem_of_fmap. split.
  - intros (r & (m & -> & Hm) & Hn). simpl in Hn. by replace n with m by lia.
  - intros Hn. exists {| start := n; end_ := n + 1 |}. split; [by exists n|simpl; lia].
Qed.

Lemma bt_collect_get (l : list (Z * string)) n name :
  NoDup l.*1 → bt_get n (foldl (λ m p, bt_insert p.1 p.2 m) [] l) = Some name ↔ (n, name) ∈ l.
Proof.
  rewrite bt_get_elem by (apply bt_collect_sorted; constructor).
  apply bt_collect_distinct.
Qed.

Lemma elem_of_range_list ranges n :
  n ∈ (ranges ≫= λ r, i32_range (start r) (end_ r)) ↔ reserves ranges n.
Proof.
  unfold reserves, i32_range. rewrite list_elem_of_bind.
  split; intros (r & H1 & H2); exists r; rewrite elem_of_seqZ in *; split; auto; lia.
Qed.

Lemma range_set_iter ranges n :
  n ∈ bs_iter (bs_extend (ranges ≫= λ r, i32_range (start r) (end_ r)) []) ↔ reserves ranges n.
Proof.
  rewrite bs_extend_iter, elem_of_range_list by constructor. set_solver.
Qed.

Lemma continues_kept lowest table ranges names current proto :
  bt_sorted table →
  continues lowest table (bs_extend (ranges ≫= λ r, i32_range (start r) (end_ r)) [])
    (bs_extend names []) current proto →
  declaration_kept table ranges names proto.
Proof.
  intros Ht [Hnames Hnum Hlocked [Hr1 Hr2] Hfresh]. split; [split|].
  - intros n Hn. apply reserves_ranges_of, Hr1, range_set_iter, Hn.
  - intros name Hn. apply Hr2. rewrite bs_extend_iter by constructor. by left.
  - intros n name Hget%bt_get_elem; [|done]. unfold table_of. simpl.
    destruct (Hlocked n name Hget) as [[Hin _]|(Hc & Hn & Hs)].
    + left. by apply bt_collect_get.
    + right. rewrite reserves_ranges_of. split; [|done].
      destruct (bt_get n _) as [x|] eqn:E; [exfalso|done]. apply bt_collect_get in E; [|done].
      destruct (decide ((n, x) ∈ table)) as [Hx|Hx].
      * assert (x = name) as -> by (eapply table_number; eauto). apply Hc. rewrite <- Hnames.
        apply list_elem_of_fmap. by exists (n, name).
      * apply Hfresh in Hx as (_ & _ & Hx & _); [|done]. apply Hx, list_elem_of_fmap.
        by exists (n, name).
Qed.

Lemma view_ok table ranges names :
  bt_sorted table → NoDup table.*2 →
  (∀ n, reserves ranges n → bt_get n table = None) →
  declared_ok table (bs_extend (ranges ≫= λ r, i32_range (start r) (end_ r)) [])
    (bs_extend names []).
Proof.
  intros Ht Hnd Hr. split; [done|apply bs_extend_sorted; constructor|done|].
  intros n Hn%range_set_iter%Hr ([m x] & -> & Hin)%list_elem_of_fmap.
  apply bt_get_elem in Hin; [|done]. simpl in Hn. congruence.
Qed.

Lemma bt_get_map {K V W} `{!Ord K} (f : V → W) (m : list (K * V)) k :
  bt_get k (map (λ p, (p.1, f p.2)) m) = f <$> bt_get k m.
Proof. induction m as [|[k' v] m IH]; simpl; [done|]. by destruct (cmp k k'). Qed.

(** The names of a message's fields and of an enum's values are distinct, which
    the Protobuf compiler enforces. *)
Record names_distinct (l : SchemaLock) : Prop := {
  distinct_fields : ∀ name m, bt_get name (messages l) = Some m →
    NoDup (map (λ p, lf_name p.2) (lm_fields m));
  distinct_values : ∀ name e, bt_get name (enums l) = Some e → NoDup (le_values e).*2;
}.

Lemma message_view_ok l name m :
  lock_wf l → reserves_unused l → names_distinct l → bt_get name (messages l) = Some m →
  declared_ok (sm_fields (message_view m)) (sm_reserved_numbers (message_view m))
    (sm_reserved_names (message_view m)).
Proof.
  intros [[Hs Hf] _ _] [Hu _] [Hd _] Hm. apply view_ok.
  - apply bt_sorted_map. apply bt_get_elem in Hm; [|done]. rewrite Forall_forall in Hf.
    by apply (Hf (name, m)).
  - simpl. rewrite <- list_fmap_compose. by eapply Hd.
  - intros n Hn. simpl. by rewrite bt_get_map, (Hu name m n).
Qed.

Lemma enum_view_ok l name e :
  lock_wf l → reserves_unused l → names_distinct l → bt_get name (enums l) = Some e →
  declared_ok (se_values (enum_view e)) (se_reserved_numbers (enum_view e))
    (se_reserved_names (enum_view e)).
Proof.
  intros [_ [Hs Hf] _] [_ Hu] [_ Hd] He. apply view_ok.
  - apply bt_get_elem in He; [|done]. rewrite Forall_forall in Hf. by apply (Hf (name, e)).
  - by eapply Hd.
  - intros n Hn. by apply (Hu name e n).
Qed.

(** One declaration of the lock against its regeneration. *)
Lemma message_regenerated l package name m named proto :
  let full_name := package +:+ "." +:+ name in
  lock_wf l → reserves_unused l → names_distinct l →
  bt_get full_name (messages l) = Some m → NoDup named.*1 →
  generate_message package name (FieldsNamed named) (lock_view l) = Ok proto →
  declaration_kept (map (λ p, (p.1, lf_name p.2)) (lm_fields m))
    (lm_reserved_ranges m) (lm_reserved_names m) proto.
Proof.
  intros full_name Hwf Hu Hd Hm Hnd Hg. pose proof (message_view_ok l _ m Hwf Hu Hd Hm) as Hok.
  subst full_name.
  apply message_continues in Hg as [Hg _];
    [|unfold locked_message; simpl; by rewrite bt_get_map, Hm|done].
  unfold locked_message in Hg. simpl in Hg. rewrite bt_get_map, Hm in Hg. simpl in Hg.
  eapply continues_kept; [exact (ok_table _ _ _ Hok)|exact Hg].
Qed.

Lemma enum_regenerated l package name e variants proto :
  let full_name := package +:+ "." +:+ name in
  lock_wf l → reserves_unused l → names_distinct l →
  bt_get full_name (enums l) = Some e →
  NoDup (map (λ v : string * Fields, upper_snake v.1) variants) →
  generate_enum package name variants (lock_view l) = Ok proto →
  declaration_kept (le_values e) (le_reserved_ranges e) (le_reserved_names e) proto.
Proof.
  intros full_name Hwf Hu Hd He Hnd Hg. pose proof (enum_view_ok l _ e Hwf Hu Hd He) as Hok.
  subst full_name.
  apply enum_continues in Hg as [Hg _];
    [|unfold locked_enum; simpl; by rewrite bt_get_map, He|done].
  unfold locked_enum in Hg. simpl in Hg. rewrite bt_get_map, He in Hg. simpl in Hg.
  eapply continues_kept; [exact (ok_table _ _ _ Hok)|exact Hg].
Qed.

(** Every item of the contract is generated, in a block of its own. *)
Lemma generate_items_blocks package locked items acc proto :
  try_fold (λ item proto, decl ← generate_item package locked item; Ok (proto ++ decl)) items acc
    = Ok proto →
  ∀ item, item ∈ items →
    ∃ pre block post, proto = pre ++ block ++ post ∧ generate_item package locked item = Ok block.
Proof.
  apply (try_fold_prefix (λ done_ proto, ∀ item, item ∈ done_ → ∃ pre block post,
    proto = pre ++ block ++ post ∧ generate_item package locked item = Ok block)); [|set_solver].
  intros items' x acc' b IH Hb item Hin. apply bind_Ok in Hb as (decl & Hd & [= <-]).
  apply elem_of_app in Hin as [Hin| ->%list_elem_of_singleton].
  - destruct (IH item Hin) as (pre & block & post & -> & Hg). exists pre, block, (post ++ decl).
    by rewrite <- !(assoc_L (++)).
  - exists acc', decl, []. by rewrite app_nil_r.
Qed.

(** ** Whole declarations *)

(** The lines inside a message or an enum. *)
Definition inner_line (x : line) : bool :=
  match x with
  | ReservedNumber _ | ReservedName _ | FieldLine _ _ _ _ | ValueLine _ _ => true
  | _ => false
  end.

(** [block] is one whole declaration, from the line that names it to the brace
    that closes it. *)
Definition declaration (opening : line) (block : list line) : Prop :=
  ∃ inner, block = opening :: inner ++ [BlockClose] ∧ Forall (λ x, inner_line x = true) inner.

Lemma reserved_lines_inner table numbers names current :
  Forall (λ x, inner_line x = true) (reserved_lines table numbers names current).
Proof.
  unfold reserved_lines. rewrite !Forall_app, !Forall_map. split_and!; [|by apply Forall_true..].
  induction table as [|[n x] table IH]; [constructor|]. simpl. apply Forall_app. split; [|done].
  destruct (negb _); by repeat constructor.
Qed.

Lemma generate_fields_inner name previous named used used' opening inner proto :
  Forall (λ x, inner_line x = true) inner →
  try_fold (generate_field name previous) named (used, opening :: inner) = Ok (used', proto) →
  ∃ inner', proto = opening :: inner' ∧ Forall (λ x, inner_line x = true) inner'.
Proof.
  intros Hi. apply (try_fold_inv (λ st : btset Z * list line,
    ∃ inner', st.2 = opening :: inner' ∧ Forall (λ x, inner_line x = true) inner')); [|by exists inner].
  intros [field ty] [u p] b (inner' & Hp & Hi'). simpl in Hp. subst p. unfold generate_field.
  intros ([label ft] & _ & [= <-])%bind_Ok. exists (inner' ++ [FieldLine label ft field
    (default (next_number u) (previous ≫= λ m, locked_number (sm_fields m) field))]).
  split; [done|]. apply Forall_app. by repeat constructor.
Qed.

Lemma message_declaration package name named locked block :
  generate_message package name (FieldsNamed named) locked = Ok block →
  declaration (MessageOpen name) block.
Proof.
  unfold generate_message. intros ([used proto] & Hf & [= <-])%bind_Ok.
  apply generate_fields_inner in Hf as (inner & -> & Hi); [by exists inner|].
  destruct (bt_get _ _); [apply reserved_lines_inner|constructor].
Qed.

Lemma enum_declaration package name variants locked block :
  generate_enum package name variants locked = Ok block → declaration (EnumOpen name) block.
Proof.
  unfold generate_enum. intros ([used values] & _ & H)%bind_Ok.
  apply bind_Ok in H as (u & _ & [= <-]). eexists. split; [by rewrite (assoc_L (++))|].
  apply Forall_app. split.
  - destruct (bt_get _ _); [apply reserved_lines_inner|constructor].
  - apply Forall_map, Forall_forall. by intros [].
Qed.

Lemma generate_items_prefix package locked items acc proto :
  try_fold (λ item proto, decl ← generate_item package locked item; Ok (proto ++ decl)) items acc
    = Ok proto → acc `prefix_of` proto.
Proof.
  apply (try_fold_inv (prefix acc)); [|done]. intros item p b Hp (decl & _ & [= <-])%bind_Ok.
  by apply prefix_app_r.
Qed.

(** * Annotations of a method *)

Lemma try_fold_app {E A B} (f : A → B → result E B) l k acc :
  try_fold f (l ++ k) acc = (acc' ← try_fold f l acc; try_fold f k acc').
Proof.
  revert acc. induction l as [|x l IH]; intros acc; [done|]. simpl.
  destruct (f x acc); [apply IH|done].
Qed.

(** The text of a string or integer literal after [=]. *)
Definition meta_literal (meta : Meta) : option string :=
  match meta_rest meta with
  | MetaEquals (LitStr v) | MetaEquals (LitInt v) => Some v
  | _ => None
  end.

(** What an annotation sets. *)
Inductive rpc_sets (meta : Meta) (s : RpcOptions) : RpcOptions → Prop :=
  | sets_streaming :
      meta_path meta = ["server_streaming"] → meta_rest meta = MetaEnd →
      rpc_sets meta s {| ro_server_streaming := true; ro_values := ro_values s;
                         ro_scopes := ro_scopes s |}
  | sets_scope v :
      meta_path meta = ["required_scope"] → meta_literal meta = Some v →
      rpc_sets meta s {| ro_server_streaming := ro_server_streaming s;
                         ro_values := ro_values s; ro_scopes := ro_scopes s ++ [v] |}
  | sets_value key v :
      meta_path meta = [key] → key ≠ "server_streaming" → key ≠ "required_scope" →
      meta_literal meta = Some v →
      rpc_sets meta s {| ro_server_streaming := ro_server_streaming s;
                         ro_values := bt_insert key v (ro_values s);
                         ro_scopes := ro_scopes s |}.

Lemma rpc_option_sets meta s s' : nested_step rpc_option meta s = Ok s' → rpc_sets meta s s'.
Proof.
  unfold nested_step, rpc_option. intros H. apply bind_Ok in H as ([s1 consumed] & H & Hrest).
  apply bind_Ok in H as (key & Hkey & H).
  destruct (meta_path meta) as [|k [|]] eqn:Hp; simplify_eq.
  case_bool_decide as Hs; simplify_eq.
  { destruct (meta_rest meta) eqn:Hr; simplify_eq. by apply sets_streaming. }
  apply bind_Ok in H as (lit & Hlit & H). apply bind_Ok in H as (v & Hv & [= <- <-]).
  assert (meta_literal meta = Some v) as Hm.
  { unfold meta_value in Hlit. unfold meta_literal.
    destruct (meta_rest meta) as [|[]|]; simplify_eq/=; done. }
  assert (s' = if bool_decide (key = "required_scope")
    then {| ro_server_streaming := ro_server_streaming s; ro_values := ro_values s;
            ro_scopes := ro_scopes s ++ [v] |}
    else {| ro_server_streaming := ro_server_streaming s;
            ro_values := bt_insert key v (ro_values s); ro_scopes := ro_scopes s |}) as ->
    by (destruct (meta_rest meta); by simplify_eq).
  case_bool_decide; subst; [by apply sets_scope|by apply sets_value].
Qed.

(** What later annotations leave alone. *)
Lemma rpc_options_later metas s s' :
  try_fold (nested_step rpc_option) metas s = Ok s' → bt_sorted (ro_values s) →
  bt_sorted (ro_values s') ∧
  (ro_server_streaming s = true → ro_server_streaming s' = true) ∧
  ro_scopes s ⊆ ro_scopes s' ∧
  ∀ key, [key] ∉ map meta_path metas → bt_get key (ro_values s') = bt_get key (ro_values s).
Proof.
  revert s. induction metas as [|meta metas IH]; intros s H Hs; [by simplify_eq/=|].
  cbn [try_fold] in H. apply bind_Ok in H as (s1 & H1 & H). apply rpc_option_sets in H1.
  assert (bt_sorted (ro_values s1)) as Hs1 by (destruct H1; simpl; [done..|by apply bt_insert_sorted]).
  destruct (IH s1 H Hs1) as (Hs' & Hstream & Hscopes & Hvals). split; [done|].
  destruct H1; simpl in *.
  - split_and!; [auto|done|]. intros k Hk. apply Hvals. set_solver.
  - split_and!; [auto|set_solver|]. intros k Hk. apply Hvals. set_solver.
  - split_and!; [auto|done|]. intros k Hk. rewrite Hvals by set_solver.
    apply bt_get_insert_ne; [done|]. intros ->. apply Hk. set_solver.
Qed.

Lemma policy_lines_entries options proto :
  policy_lines options = Ok proto → bt_sorted (ro_values options) →
  (∀ key v, bt_get key (ro_values options) = Some v →
     if is_retry_key key then RetryEntry key v ∈ proto
     else ∃ rendered, render_policy_value key v = Ok rendered ∧ PolicyEntry key rendered ∈ proto) ∧
  ∀ scope, scope ∈ ro_scopes options → ScopeEntry scope ∈ proto.
Proof.
  intros H Hs. unfold policy_lines in H. apply bind_Ok in H as (entries & He & [= <-]).
  assert (∀ key v, (key, v) ∈ ro_values options → is_retry_key key = false →
    ∃ rendered, render_policy_value key v = Ok rendered ∧ PolicyEntry key rendered ∈ entries) as Hent.
  { revert He. apply (try_fold_prefix (λ pre acc, ∀ key v, (key, v) ∈ pre → is_retry_key key = false →
      ∃ rendered, render_policy_value key v = Ok rendered ∧ PolicyEntry key rendered ∈ acc)); [|set_solver].
    intros pre [key v] acc b Hpre Hb key' v' [Hin|[= -> ->]%list_elem_of_singleton]%elem_of_app Hr.
    - destruct (Hpre key' v' Hin Hr) as (r & Hr1 & Hr2). exists r. split; [done|].
      destruct (is_retry_key key); simplify_eq; [done|].
      apply bind_Ok in Hb as (r' & _ & [= <-]). set_solver.
    - rewrite Hr in Hb. apply bind_Ok in Hb as (r' & Hr' & [= <-]). exists r'. set_solver. }
  split.
  - intros key v Hk%bt_get_elem; [|done]. destruct (is_retry_key key) eqn:Hr.
    + assert ((key, v) ∈ List.filter (λ p, is_retry_key p.1) (ro_values options)) as Hf
        by (apply list_elem_of_In, filter_In; rewrite <- list_elem_of_In; done).
      rewrite bool_decide_false by (intros E; rewrite E in Hf; by apply elem_of_nil in Hf).
      apply elem_of_cons. right. apply elem_of_app. right. apply elem_of_app. left.
      apply elem_of_cons. right. apply elem_of_app. left. apply list_elem_of_fmap.
      by exists (key, v).
    + destruct (Hent key v Hk Hr) as (r & ? & ?). exists r. set_solver.
  - intros scope Hin. apply elem_of_cons. right. rewrite !elem_of_app, list_elem_of_fmap.
    right. right. left. by exists scope.
Qed.

(** * Theorems *)

(** Regenerating a message from its Rust declaration keeps the promises of
    the schema lock: the fields are those of the struct, in order, with distinct
    numbers; a field that the lock knows keeps its number; a field that is gone
    leaves its number and its name reserved; what was reserved stays reserved;
    and a new field gets a positive number that no version of the message has
    used or reserved, outside of the range that Protobuf keeps for itself. *)
Theorem generate_message_continues package name named locked proto :
  let m := locked_message locked (package +:+ "." +:+ name) in
  declared_ok (sm_fields m) (sm_reserved_numbers m) (sm_reserved_names m) →
  NoDup named.*1 →
  generate_message package name (FieldsNamed named) locked = Ok proto →
  continues 1 (sm_fields m) (sm_reserved_numbers m) (sm_reserved_names m) named.*1 proto ∧
  (entries_of proto).*2 = named.*1.
Proof. apply message_continues. Qed.

(** Regenerating an enum keeps the promises of the lock in the same way, and
    its values are declared by increasing number from an active zero, as
    Protobuf requires of the first value. *)
Theorem generate_enum_continues package name variants locked proto :
  let e := locked_enum locked (package +:+ "." +:+ name) in
  let current := map (λ v, upper_snake v.1) variants in
  declared_ok (se_values e) (se_reserved_numbers e) (se_reserved_names e) →
  NoDup current →
  generate_enum package name variants locked = Ok proto →
  continues 0 (se_values e) (se_reserved_numbers e) (se_reserved_names e) current proto ∧
  StronglySorted (key_le fst) (entries_of proto) ∧
  (variants = [] ∨ fst <$> head (entries_of proto) = Some 0).
Proof. apply enum_continues. Qed.

(** A lock file is read back as it was written: from the JSON value that the
    serialiser of the lock produces, the front end recovers every declaration
    with the numbers and names of its entries and with all of its reserved
    numbers and names, although the JSON object orders the decimal keys as
    texts. *)
Theorem load_lock_roundtrip policy_value l :
  lock_wf l → lock_i32 l → load_lock (lock_value policy_value l) = Ok (lock_view l).
Proof. apply load_lock_view. Qed.

(** C22 The generator and the lock check agree: when the schema is regenerated
    from a contract and the lock that [write_lock] stored for its previous
    version, then under the contract's package every annotated struct and enum
    that is still in the contract and that the lock knows is declared in the
    output, in a message or enum of its own name, with numbers, names and
    reservations that the check accepts: each locked entry is still there with
    its number or is reserved by number and by name, and no reserved number or
    name is released.  (A struct or enum that was taken out of the contract is
    not generated; the lock check then refuses the schema.) *)
Theorem regenerated_schema_kept policy_value l syntax attr items package java_package proto :
  lock_wf l → lock_i32 l → reserves_unused l → names_distinct l →
  find_contract syntax = Some (attr, Some items) →
  contract_names attr = Ok (package, java_package) →
  generate_proto_from_rust_source syntax (Some (Ok (lock_value policy_value l))) = Ok proto →
  [SyntaxLine; PackageLine package] `prefix_of` proto ∧
  ∀ item, item ∈ items → ∃ pre block post, proto = pre ++ block ++ post ∧
  match item with
  | ItemStruct attrs name (FieldsNamed named) => ∀ m,
      has_attribute attrs "message" = true → NoDup named.*1 →
      bt_get (package +:+ "." +:+ name) (messages l) = Some m →
      declaration (MessageOpen name) block ∧
      declaration_kept (map (λ p, (p.1, lf_name p.2)) (lm_fields m))
        (lm_reserved_ranges m) (lm_reserved_names m) block
  | ItemEnum attrs name variants => ∀ e,
      has_attribute attrs "enumeration" = true →
      NoDup (map (λ v : string * Fields, upper_snake v.1) variants) →
      bt_get (package +:+ "." +:+ name) (enums l) = Some e →
      declaration (EnumOpen name) block ∧
      declaration_kept (le_values e) (le_reserved_ranges e) (le_reserved_names e) block
  | _ => True
  end.
Proof.
  intros Hwf Hi Hu Hd Hc Hn Hg. unfold generate_proto_from_rust_source in Hg.
  rewrite Hc, ok_or_bind, Hn, ok_bind, ok_bind, load_lock_view, ok_bind, ok_or_bind in Hg by done.
  split; [etrans; [|exact (generate_items_prefix _ _ _ _ _ Hg)]; by apply prefix_app_r|].
  intros item Hin.
  destruct (generate_items_blocks _ _ _ _ _ Hg item Hin) as (pre & block & post & -> & Hb).
  exists pre, block, post. split; [done|].
  destruct item as [|attrs name []|attrs name variants| |]; try done.
  - intros m Ha Hnd Hm. cbn [generate_item] in Hb. rewrite Ha in Hb.
    split; [by eapply message_declaration|by eapply message_regenerated].
  - intros e Ha Hnd He. cbn [generate_item] in Hb. rewrite Ha in Hb.
    split; [by eapply enum_declaration|by eapply enum_regenerated].
Qed.

(** The lines of a method: its signature, with or without a policy block. *)
Lemma generate_rpc_lines name attrs ident inputs output options proto :
  rpc_options attrs = Ok options → generate_rpc name attrs ident inputs output = Ok proto →
  ∃ input out policy,
    let stream := if ro_server_streaming options then "stream " else "" in
    fn_input inputs = Some input ∧
    (proto = RpcLine (upper_camel ident) input stream out :: policy ∨
     proto = RpcOpen (upper_camel ident) input stream out :: policy) ∧
    (policy_lines options = Ok policy ∨ (ro_values options = [] ∧ ro_scopes options = [])).
Proof.
  intros Ho H. unfold generate_rpc in H. inv_ok. rewrite Ho in *. simplify_eq.
  repeat match goal with H : Ok _ = Ok _ |- _ => injection H as H; subst end.
  destruct (_ && _) eqn:E.
  - apply andb_prop in E as [E1%bool_decide_eq_true E2%bool_decide_eq_true].
    inv_ok. eexists _, _, []. cbv zeta. split_and!; eauto.
  - inv_ok. eexists _, _, _. cbv zeta. split_and!; eauto.
Qed.

(** No annotation of a method is lost or misread on the way to the schema:
    when a method is generated, each item of its [rpc] attribute is the
    streaming flag, and the method streams; or a required scope, and it is among
    the scopes of the policy; or a known option, and the policy has it with the
    value of its last occurrence, in the retry block when it belongs there. *)
Theorem rpc_annotations_kept name attrs attr pre meta post ident inputs output proto :
  attribute attrs "rpc" = Some attr → attr_args attr = Some (pre ++ meta :: post) →
  generate_rpc name attrs ident inputs output = Ok proto →
  (meta_path meta = ["server_streaming"] ∧
   ∃ input out policy, proto = RpcLine (upper_camel ident) input "stream " out :: policy ∨
                       proto = RpcOpen (upper_camel ident) input "stream " out :: policy) ∨
  (meta_path meta = ["required_scope"] ∧
   ∃ scope, meta_literal meta = Some scope ∧ ScopeEntry scope ∈ proto) ∨
  (∃ key v, meta_path meta = [key] ∧ meta_literal meta = Some v ∧
     ([key] ∉ map meta_path post →
      if is_retry_key key then RetryEntry key v ∈ proto
      else ∃ rendered, render_policy_value key v = Ok rendered ∧ PolicyEntry key rendered ∈ proto)).
Proof.
  intros Ha Hargs Hg.
  assert (∃ options, rpc_options attrs = Ok options) as [options Ho].
  { unfold generate_rpc in Hg. apply bind_Ok in Hg as (? & _ & Hg).
    apply bind_Ok in Hg as (? & _ & Hg). apply bind_Ok in Hg as (o & Ho & _). by exists o. }
  pose proof (generate_rpc_lines _ _ _ _ _ _ _ Ho Hg) as (input & out & policy & _ & Hproto & Hpol).
  unfold rpc_options, parse_nested_meta in Ho. rewrite Ha, Hargs in Ho. simpl in Ho.
  rewrite try_fold_app in Ho. apply bind_Ok in Ho as (s1 & H1 & Ho).
  cbn [try_fold] in Ho. apply bind_Ok in Ho as (s2 & H2 & H3). apply rpc_option_sets in H2.
  apply rpc_options_later in H1 as (Hs1 & _); [|constructor].
  assert (bt_sorted (ro_values s2)) as Hs2 by (destruct H2; simpl; [done..|by apply bt_insert_sorted]).
  apply rpc_options_later in H3 as (Hs3 & Hstream & Hscopes & Hvals); [|done].
  assert (policy ⊆ proto) as Hsub by (destruct Hproto as [-> | ->]; set_solver).
  destruct H2 as [Hp Hr|v Hp Hl|key v Hp Hn1 Hn2 Hl]; simpl in *.
  - left. split; [done|]. rewrite Hstream in Hproto by done. by exists input, out, policy.
  - right; left. split; [done|]. exists v. split; [done|]. apply Hsub.
    assert (v ∈ ro_scopes options) as Hin by set_solver.
    destruct Hpol as [Hpol|[_ E]]; [|rewrite E in Hin; set_solver].
    by apply policy_lines_entries in Hpol as [_ Hpol]; [apply Hpol|].
  - right; right. exists key, v. split_and!; [done..|]. intros Hlast.
    specialize (Hvals key Hlast). rewrite bt_get_insert_eq in Hvals.
    destruct Hpol as [Hpol|[E _]]; [|by rewrite E in Hvals].
    apply policy_lines_entries in Hpol as [Hpol _]; [|done].
    apply Hpol in Hvals. destruct (is_retry_key key); [by apply Hsub|].
    destruct Hvals as (r & ? & ?). exists r. auto.
Qed.

(** ** Witnesses: a contract, with the lock of its previous version *)

Definition named_type (name : string) : Type_ := TypePath [Segment name NoArguments].
Definition type_of (outer inner : string) : Type_ :=
  TypePath [Segment outer (AngleBracketed [GenericType (named_type inner)])].
Definition marked (name : string) : list Attribute :=
  [{| attr_path := ["moonlight"; name]; attr_args := None |}].
Definition set_to (key : string) (value : MetaValue) : Meta :=
  {| meta_path := [key]; meta_rest := MetaEquals value |}.

Definition echo_fields : list (string * Type_) :=
  [("message", named_type "String"); ("attempts", type_of "Option" "i32");
   ("tags", type_of "Vec" "String")].

Definition echo_variants : list (string * Fields) :=
  [("Unknown", FieldsUnit); ("Ready", FieldsUnit); ("InFlight", FieldsUnit)].

Definition echo_options : Attribute :=
  {| attr_path := ["moonlight"; "rpc"];
     attr_args := Some
       [set_to "timeout_ms" (LitInt "1500"); set_to "max_attempts" (LitInt "3");
        {| meta_path := ["server_streaming"]; meta_rest := MetaEnd |};
        set_to "idempotency" (LitStr "notIdempotent");
        set_to "required_scope" (LitStr "echo.invoke")] |}.

Definition echo_items : list Item :=
  [ItemStruct (marked "message") "EchoRequest" (FieldsNamed echo_fields);
   ItemEnum (marked "enumeration") "DeliveryState" echo_variants;
   ItemTrait (marked "service") "EchoService"
     [TraitFn [echo_options] "echo_all" [Receiver; Typed (named_type "EchoRequest")]
        (ReturnTy (named_type "EchoRequest"))]].

Definition echo_contract : list Item :=
  [ItemOther;
   ItemMod [{| attr_path := ["moonlight"; "contract"];
               attr_args := Some [set_to "package" (LitStr "example.v1")] |}]
     (Some echo_items)].

Definition echo_field (name : string) (number : Z) : LockedField :=
  {| lf_name := name; lf_number := number; lf_label := 1; lf_kind := 9; lf_type_name := "";
     lf_oneof_index := None; lf_proto3_optional := false |}.
Definition echo_message : LockedMessage :=
  {| lm_fields := [(2, echo_field "legacy" 2); (7, echo_field "message" 7)];
     lm_reserved_ranges := [{| start := 1; end_ := 2 |}]; lm_reserved_names := ["old"] |}.

Definition echo_lock : SchemaLock :=
  {| format := LOCK_FORMAT;
     messages := [("example.v1.EchoRequest", echo_message)];
     enums := [("example.v1.DeliveryState",
       {| le_values := [(0, "UNKNOWN"); (1, "READY"); (7, "LEGACY")];
          le_reserved_ranges := [{| start := 2; end_ := 4 |}];
          le_reserved_names := ["DEPRECATED"] |})];
     services := [] |}.

Definition sample_policy_value (p : RpcPolicy) : Value := Null.
Definition echo_lock_value : Value := lock_value sample_policy_value echo_lock.

Definition echo_locked : LockedSchema :=
  default LockedSchema_default (ok (load_lock echo_lock_value)).

Lemma echo_lock_wf : lock_wf echo_lock.
Proof.
  split; (split; [repeat constructor|]); repeat constructor.
Qed.
Lemma echo_lock_i32 : lock_i32 echo_lock.
Proof. split; repeat constructor. Qed.
Lemma echo_lock_unused : reserves_unused echo_lock.
Proof.
  apply reserves_unusedb_sound; [|reflexivity].
  split; [done|..]; (split; [repeat constructor|]); repeat constructor.
Qed.

Lemma bt_get_singleton {V} (k k' : string) (v v' : V) :
  bt_get k [(k', v)] = Some v' → v' = v.
Proof. simpl. by destruct (cmp k k'); intros; simplify_eq. Qed.

Lemma echo_lock_distinct : names_distinct echo_lock.
Proof.
  split; intros name v Hv; apply bt_get_singleton in Hv as ->; by_decide.
Qed.

Lemma load_lock_roundtrip_witness : load_lock echo_lock_value = Ok (lock_view echo_lock).
Proof.
  apply (load_lock_roundtrip sample_policy_value echo_lock).
  - apply echo_lock_wf.
  - apply echo_lock_i32.
Defined.

Lemma generate_message_continues_witness :
  ∃ proto, continues 1 [(2, "legacy"); (7, "message")] [(1, tt)] [("old", tt)]
    ["message"; "attempts"; "tags"] proto ∧ (entries_of proto).*2 = ["message"; "attempts"; "tags"].
Proof.
  eexists. refine (generate_message_continues "example.v1" "EchoRequest" echo_fields echo_locked _ _ _ _).
  - split; [repeat constructor..| |]; [by_decide|].
    intros n Hn. vm_compute in Hn. apply list_elem_of_singleton in Hn as ->. by_decide.
  - by_decide.
  - vm_compute. reflexivity.
Defined.

Lemma generate_enum_continues_witness :
  ∃ proto,
    continues 0 [(0, "UNKNOWN"); (1, "READY"); (7, "LEGACY")] [(2, tt); (3, tt)]
      [("DEPRECATED", tt)] ["UNKNOWN"; "READY"; "IN_FLIGHT"] proto ∧
    StronglySorted (key_le fst) (entries_of proto) ∧
    (echo_variants = [] ∨ fst <$> head (entries_of proto) = Some 0).
Proof.
  eexists.
  refine (generate_enum_continues "example.v1" "DeliveryState" echo_variants echo_locked _ _ _ _).
  - split; [repeat constructor..| |]; [by_decide|].
    intros n Hn. vm_compute in Hn.
    apply elem_of_cons in Hn as [->|Hn]; [by_decide|].
    apply list_elem_of_singleton in Hn as ->. by_decide.
  - by_decide.
  - vm_compute. reflexivity.
Defined.

Lemma regenerated_schema_kept_witness :
  ∃ pre block post,
    generate_proto_from_rust_source echo_contract (Some (Ok echo_lock_value))
      = Ok (pre ++ block ++ post) ∧
    declaration (MessageOpen "EchoRequest") block ∧
    declaration_kept [(2, "legacy"); (7, "message")] [{| start := 1; end_ := 2 |}] ["old"] block.
Proof.
  edestruct (regenerated_schema_kept sample_policy_value echo_lock echo_contract
    {| attr_path := ["moonlight"; "contract"];
       attr_args := Some [set_to "package" (LitStr "example.v1")] |}
    echo_items "example.v1" "example.v1"
    (default [] (ok (generate_proto_from_rust_source echo_contract (Some (Ok echo_lock_value)))))
    echo_lock_wf echo_lock_i32 echo_lock_unused echo_lock_distinct) as [_ Hall].
  - reflexivity.
  - reflexivity.
  - vm_compute. reflexivity.
  - destruct (Hall (ItemStruct (marked "message") "EchoRequest" (FieldsNamed echo_fields)))
      as (pre & block & post & Hp & Hk); [left|].
    exists pre, block, post. rewrite <- Hp. split; [vm_compute; reflexivity|].
    apply (Hk echo_message); [reflexivity|by_decide|vm_compute; reflexivity].
Defined.

Definition echo_proto : list line :=
  default [] (ok (generate_rpc "EchoService" [echo_options] "echo_all"
    [Receiver; Typed (named_type "EchoRequest")] (ReturnTy (named_type "EchoRequest")))).

Lemma rpc_annotations_kept_witness : RetryEntry "max_attempts" "3" ∈ echo_proto.
Proof.
  destruct (rpc_annotations_kept "EchoService" [echo_options] echo_options
    [set_to "timeout_ms" (LitInt "1500")] (set_to "max_attempts" (LitInt "3"))
    [{| meta_path := ["server_streaming"]; meta_rest := MetaEnd |};
     set_to "idempotency" (LitStr "notIdempotent");
     set_to "required_scope" (LitStr "echo.invoke")] "echo_all"
    [Receiver; Typed (named_type "EchoRequest")] (ReturnTy (named_type "EchoRequest")) echo_proto)
    as [[H _]|[[H _]|(key & v & H1 & H2 & H3)]].
  - reflexivity.
  - reflexivity.
  - vm_compute. reflexivity.
  - discriminate H.
  - discriminate H.
  - injection H1 as <-. injection H2 as <-. apply H3. by_decide.
Defined.

(** * Behaviour at the edges *)

(** Only the outermost container of a type reaches the schema. *)
Example nested_containers_flattened :
  proto_type (TypePath [Segment "Option" (AngleBracketed [GenericType (type_of "Vec" "String")])])
    = Ok ("optional ", "string") ∧
  proto_type (TypePath [Segment "Vec" (AngleBracketed [GenericType (type_of "Option" "i64")])])
    = Ok ("repeated ", "int64") ∧
  proto_type (TypePath [Segment "Option" (AngleBracketed [GenericType (type_of "Vec" "u8")])])
    = Ok ("optional ", "bytes").
Proof. repeat split. Qed.

(** A field that comes back after its removal is declared and reserved by name
    in one message, which the Protobuf compiler refuses. *)
Example readded_field_still_reserved :
  let proto := default [] (ok (generate_message "example.v1" "EchoRequest"
    (FieldsNamed [("old", named_type "String")]) echo_locked)) in
  ReservedName "old" ∈ proto ∧ FieldLine "" "string" "old" 3 ∈ proto.
Proof. split; by_decide. Qed.

(** An enum whose lock has a negative value cannot be generated at all, although
    its zero value is active: the negative one sorts first. *)
Definition signed_locked : LockedSchema :=
  {| src_messages := [];
     src_enums := [("p.Level", {| se_values := [(-1, "BELOW"); (0, "ZERO")];
                                  se_reserved_numbers := []; se_reserved_names := [] |})] |}.
Example negative_value_rejected :
  generate_enum "p" "Level" [("Zero", FieldsUnit); ("Below", FieldsUnit)] signed_locked =
  Err (InvalidSource "enum Level must retain or declare an active zero-valued variant").
Proof. reflexivity. Qed.
