(* ===== verification/Conformance.v ===== *)
(** The unit tests of the crates, run on the model: the tests of the wire
    protocol, the idempotency cache, the schema lock and the generated names.
    Each definition is the assertions of the test it is named after, and holds
    by evaluation; a concurrent test is the interleaving it sets up. *)
From S2P Require Import Prelude OrdMap Text Protocol Metadata Compression Idempotency.
From S2P Require Import Descriptor Policy Schema Bindings Naming.

(** [.unwrap()] of a test. *)
Definition unwrapped {E A} (r : result E A) (P : A → Prop) : Prop :=
  match r with Ok a => P a | Err _ => False end.
Notation "'unwrap' x := e 'in' P" := (unwrapped e (λ x, P))
  (at level 200, x pattern, e at level 200, P at level 200, only parsing).

Ltac run_test := vm_compute; repeat split; reflexivity.

(** * [moonlight-bridge-protocol/src/lib.rs] *)

Definition frame_round_trip_header : Prop :=
  unwrap encoded := Frame_encode (with_flags (Frame_new FrameKind.Request 42 99 (as_bytes "hello"))
                                    FLAG_HAS_METADATA) in
  unwrap decoded := decode_header (sub 0 24 encoded) DEFAULT_MAX_BODY_LEN in
  dh_kind decoded = FrameKind.Request ∧ dh_flags decoded = FLAG_HAS_METADATA ∧
  dh_method_id decoded = 42 ∧ dh_request_id decoded = 99 ∧ dh_body_len decoded = 5.

Example frame_round_trip_header_passes : frame_round_trip_header.
Proof. run_test. Qed.

Definition peer_settings_round_trip : Prop :=
  let expected :=
    {| max_body_len := 1024;
       Protocol.max_decoded_body_len := Protocol.max_decoded_body_len PeerSettingsV2_default;
       max_metadata_len := max_metadata_len PeerSettingsV2_default; max_in_flight := 32;
       max_concurrent_streams := max_concurrent_streams PeerSettingsV2_default;
       initial_stream_credit := initial_stream_credit PeerSettingsV2_default;
       compression_codecs := compression_codecs PeerSettingsV2_default;
       features := SERVER_FEATURES;
       diagnostic_features := diagnostic_features PeerSettingsV2_default |} in
  PeerSettingsV2_decode (PeerSettingsV2_encode expected) = Ok expected.

Example peer_settings_round_trip_passes : peer_settings_round_trip.
Proof. run_test. Qed.

Definition trace_context_round_trip : Prop :=
  let expected :=
    {| trace_id := replicate 16 x07; parent_span_id := replicate 8 x09; sampled := true |} in
  TraceContext_decode (TraceContext_encode_into expected []) = Ok expected.

Example trace_context_round_trip_passes : trace_context_round_trip.
Proof. run_test. Qed.

Definition oversized_body_is_rejected_from_header : Prop :=
  unwrap encoded := Frame_encode (Frame_new FrameKind.Request 1 1 (replicate 16 x00)) in
  decode_header (sub 0 24 encoded) 8 = Err (BodyTooLarge 16).

Example oversized_body_is_rejected_from_header_passes : oversized_body_is_rejected_from_header.
Proof. run_test. Qed.

(** * [moonlight-bridge-protocol/tests/protocol_v2.rs] *)

Definition frame_header_uses_wire_version_two : Prop :=
  unwrap encoded := Frame_encode (Frame_new FrameKind.Request 0x10203040 7 (as_bytes "body")) in
  zlen encoded = HEADER_LEN + 4 ∧ u8 (byte_at 4 encoded) = 2 ∧
  sub 12 16 encoded = be_bytes 4 0x10203040 ∧ sub 16 24 encoded = be_bytes 8 7.

Example frame_header_uses_wire_version_two_passes : frame_header_uses_wire_version_two.
Proof. run_test. Qed.

(** [testdata/protocol-v2/metadata-deadline-region.hex] *)
Definition SHARED_METADATA_VECTOR : string :=
  "0000001c80010000000004000000647fff0800000002782d726567696f6e6575".

Definition metadata_encodes_reserved_keys_before_user_keys : Prop :=
  unwrap metadata := insert_user Metadata_new (as_bytes "x-region") (as_bytes "eu") in
  unwrap metadata := insert_reserved metadata ReservedMetadataKey.DeadlineMillis (be_bytes 4 100) in
  let '(encoded, written) := encode_prefix metadata [] in
  written = Ok tt ∧ hex encoded = SHARED_METADATA_VECTOR ∧
  let payload := as_bytes "payload" in
  let encoded := encoded ++ payload in
  unwrap (validated, validated_remainder) := Metadata_validate encoded MetadataLimits_default in
  validated_remainder = payload ∧
  get_reserved validated ReservedMetadataKey.DeadlineMillis = Some (be_bytes 4 100) ∧
  length (reserved_entries validated) = 1%nat ∧
  into_metadata validated = Ok metadata ∧
  unwrap (decoded, remainder) := Metadata_decode encoded MetadataLimits_default in
  remainder = payload ∧
  Metadata_get decoded (Reserved ReservedMetadataKey.DeadlineMillis) = Some (be_bytes 4 100) ∧
  Metadata_get decoded (User (as_bytes "x-region")) = Some (as_bytes "eu").

Example metadata_encodes_reserved_keys_before_user_keys_passes :
  metadata_encodes_reserved_keys_before_user_keys.
Proof. run_test. Qed.

Definition metadata_rejects_duplicate_singleton_keys : Prop :=
  Metadata_decode
    (map b8 [0; 0; 0; 18;
             0x80; 1; 0; 0; 0; 0; 2; 0; 1;
             0x80; 1; 0; 0; 0; 0; 2; 0; 2]) MetadataLimits_default
  = Err DuplicateMetadataKey.

Example metadata_rejects_duplicate_singleton_keys_passes :
  metadata_rejects_duplicate_singleton_keys.
Proof. run_test. Qed.

Definition metadata_rejects_unknown_critical_reserved_key : Prop :=
  Metadata_decode (map b8 [0; 0; 0; 7; 0x80; 0x40; 0; 0; 0; 0; 0]) MetadataLimits_default
  = Err (UnknownCriticalMetadataKey 64).

Example metadata_rejects_unknown_critical_reserved_key_passes :
  metadata_rejects_unknown_critical_reserved_key.
Proof. run_test. Qed.

Definition metadata_checks_canonical_order_across_ignored_optional_keys : Prop :=
  Metadata_decode
    (map b8 [0; 0; 0; 14;
             0; 64; 0; 0; 0; 0; 0;
             0x80; 1; 0; 0; 0; 0; 0]) MetadataLimits_default
  = Err NonCanonicalMetadataOrder.

Example metadata_checks_canonical_order_across_ignored_optional_keys_passes :
  metadata_checks_canonical_order_across_ignored_optional_keys.
Proof. run_test. Qed.

Definition metadata_enforces_count_and_encoded_byte_limits : Prop :=
  let two_empty_entries :=
    map b8 [0; 0; 0; 14; 0x80; 1; 0; 0; 0; 0; 0; 0x80; 2; 0; 0; 0; 0; 0] in
  Metadata_decode two_empty_entries {| max_bytes := 64; max_entries := 1; max_value_bytes := 32 |}
  = Err (TooManyMetadataEntries 2) ∧
  Metadata_decode two_empty_entries {| max_bytes := 8; max_entries := 8; max_value_bytes := 32 |}
  = Err (MetadataTooLarge 14).

Example metadata_enforces_count_and_encoded_byte_limits_passes :
  metadata_enforces_count_and_encoded_byte_limits.
Proof. run_test. Qed.

Definition metadata_rejects_overflowing_announced_lengths_before_slicing : Prop :=
  Metadata_decode (map b8 [0xff; 0xff; 0xff; 0xff]) MetadataLimits_default
  = Err (InvalidMetadataLength u32_max 0) ∧
  Metadata_decode (map b8 [0; 0; 0; 7; 0x80; 1; 0; 0xff; 0xff; 0xff; 0xff]) MetadataLimits_default
  = Err InvalidMetadataEntryLength.

Example metadata_rejects_overflowing_announced_lengths_before_slicing_passes :
  metadata_rejects_overflowing_announced_lengths_before_slicing.
Proof. run_test. Qed.

Definition peer_settings_v2_round_trip_all_negotiated_limits : Prop :=
  let settings :=
    {| max_body_len := 8 * 1024 * 1024; Protocol.max_decoded_body_len := 16 * 1024 * 1024;
       max_metadata_len := 16 * 1024; max_in_flight := 256; max_concurrent_streams := 64;
       initial_stream_credit := 32; compression_codecs := 3; features := 0x1234;
       diagnostic_features := 0x20 |} in
  PeerSettingsV2_decode (PeerSettingsV2_encode settings) = Ok settings.

Example peer_settings_v2_round_trip_all_negotiated_limits_passes :
  peer_settings_v2_round_trip_all_negotiated_limits.
Proof. run_test. Qed.

Definition every_v2_error_code_has_a_stable_wire_value : Prop :=
  Forall (λ '(code, wire), ErrorCode_as_u16 code = wire ∧ ErrorCode_try_from wire = Ok code)
    [(ErrorCode.UnknownMethod, 1); (ErrorCode.InvalidRequest, 2); (ErrorCode.DeadlineExceeded, 3);
     (ErrorCode.Cancelled, 4); (ErrorCode.ResourceExhausted, 5); (ErrorCode.Internal, 6);
     (ErrorCode.Unauthenticated, 7); (ErrorCode.PermissionDenied, 8); (ErrorCode.Unavailable, 9);
     (ErrorCode.CompressionFailure, 10); (ErrorCode.ReplayGap, 11);
     (ErrorCode.FailedPrecondition, 12); (ErrorCode.UnsupportedProtocol, 13)] ∧
  ErrorCode_try_from 14 = Err (UnknownErrorCode 14).

Example every_v2_error_code_has_a_stable_wire_value_passes :
  every_v2_error_code_has_a_stable_wire_value.
Proof. split; [repeat constructor|reflexivity]. Qed.

Definition goaway_has_a_stable_wire_kind : Prop :=
  FrameKind_as_u8 FrameKind.GoAway = 28 ∧ FrameKind_try_from (b8 28) = Ok FrameKind.GoAway.

Example goaway_has_a_stable_wire_kind_passes : goaway_has_a_stable_wire_kind.
Proof. run_test. Qed.

(** * [moonlight-bridge-server/src/idempotency.rs] *)

(** A call of [execute] whose operation ends with [o] after [d], when it runs at
    all, and which waits for the result; time in milliseconds. *)
Definition execute {K V E : Type} `{Countable K} (now d : Z) (key : K) (o : operation_outcome)
    (c : IdempotencyCache K V E)
    : IdempotencyCache K V E * option (result (IdempotencyError E) (Idempotent V)) :=
  match execute_admit now key c with
  | (c, Err e) => (c, Some (Err e))
  | (c, Ok (id, replayed)) =>
      let c := if replayed then c else worker_finish (now + d) id key o c in
      (c, wait_turn c id replayed)
  end.

Definition pending_capacity_is_strict : Prop :=
  match IdempotencyCache_new 1 1000 : option (IdempotencyCache Z unit unit) with
  | Some cache =>
      let first := (execute_admit 0 1 cache).1 in
      (execute 0 0 2 (Returned (Ok tt)) first).2 = Some (Err IdempotencyError.Overloaded)
  | None => False
  end.

Example pending_capacity_is_strict_passes : pending_capacity_is_strict.
Proof. run_test. Qed.

Definition retention_starts_at_completion : Prop :=
  match IdempotencyCache_new 1 30 : option (IdempotencyCache Z Z unit) with
  | Some cache =>
      let cache := (execute 0 60 1 (Returned (Ok 42)) cache).1 in
      match (execute 60 0 1 (Returned (Ok 99)) cache).2 with
      | Some (Ok replay) => value replay = 42
      | _ => False
      end
  | None => False
  end.

Example retention_starts_at_completion_passes : retention_starts_at_completion.
Proof. run_test. Qed.

Definition panic_is_terminal_and_never_reexecuted : Prop :=
  match IdempotencyCache_new 1 10 : option (IdempotencyCache Z unit unit) with
  | Some cache =>
      let '(cache, outcome) := execute 0 0 1 Panicked cache in
      outcome = Some (Err IdempotencyError.Indeterminate) ∧
      (execute 20 0 1 (Returned (Ok tt)) cache).2 = Some (Err IdempotencyError.Indeterminate)
  | None => False
  end.

Example panic_is_terminal_and_never_reexecuted_passes : panic_is_terminal_and_never_reexecuted.
Proof. run_test. Qed.

(** The number of operations that were started is the number of cells. *)
Definition replays_an_operation_only_once : Prop :=
  match IdempotencyCache_new 8 60000 : option (IdempotencyCache string Z unit) with
  | Some cache =>
      let '(cache, first) := execute 0 0 "operation" (Returned (Ok 42)) cache in
      let '(cache, replay) := execute 0 0 "operation" (Returned (Ok 99)) cache in
      first = Some (Ok (MkIdempotent 42 false)) ∧ replay = Some (Ok (MkIdempotent 42 true)) ∧
      length (cells cache) = 1%nat
  | None => False
  end.

Example replays_an_operation_only_once_passes : replays_an_operation_only_once.
Proof. run_test. Qed.

Definition operation_survives_cancellation_of_its_first_waiter : Prop :=
  match IdempotencyCache_new 8 60000 : option (IdempotencyCache string Z unit) with
  | Some cache =>
      unwrap (id, _) := (execute_admit 0 "operation" cache).2 in
      let cache := (execute_admit 0 "operation" cache).1 in
      unwrap (waited, replayed) := (execute_admit 0 "operation" cache).2 in
      let cache := (execute_admit 0 "operation" cache).1 in
      let cache := worker_finish 0 id "operation" (Returned (Ok 42)) cache in
      match wait_turn cache waited replayed with
      | Some (Ok replay) => value replay = 42 ∧ length (cells cache) = 1%nat
      | _ => False
      end
  | None => False
  end.

Example operation_survives_cancellation_of_its_first_waiter_passes :
  operation_survives_cancellation_of_its_first_waiter.
Proof. run_test. Qed.

Definition revision_conflicts_do_not_mutate : Prop :=
  let v := Revisioned_new 10 in
  let '(v, first) := Revisioned_update 0 (λ x, (x + 1, tt)) v in
  let '(v, second) := Revisioned_update 0 (λ x, (x + 10, tt)) v in
  first = Some (Ok (1, tt)) ∧ second = Some (Err {| expected := 0; actual := 1 |}) ∧
  Revisioned_read v = (1, 11).

Example revision_conflicts_do_not_mutate_passes : revision_conflicts_do_not_mutate.
Proof. run_test. Qed.

(** * [moonlight-bridge-codegen/src/schema.rs] *)

(** [map.get_mut(key).unwrap()], changed in place. *)
Definition get_mut {K V} `{HK : Ord K} (key : K) (update : V → V) (m : list (K * V)) : list (K * V) :=
  match bt_get key m with
  | Some v => bt_insert key (update v) m
  | None => m
  end.

Definition map_remove {V} (key : Z) (m : list (Z * V)) : list (Z * V) :=
  filter (λ p, p.1 ≠ key) m.

Definition example_lock : SchemaLock :=
  {| format := LOCK_FORMAT;
     messages := [("test.Player",
       {| lm_fields := [(1, {| lf_name := "name"; lf_number := 1; lf_label := 1; lf_kind := 9;
                              lf_type_name := ""; lf_oneof_index := None;
                              lf_proto3_optional := false |})];
          lm_reserved_ranges := []; lm_reserved_names := [] |})];
     enums := []; services := [] |}.

Definition change_player (update : LockedMessage → LockedMessage) (l : SchemaLock) : SchemaLock :=
  {| format := format l; messages := get_mut "test.Player" update (messages l);
     enums := enums l; services := services l |}.

Definition set_fields (fields : list (Z * LockedField)) (m : LockedMessage) : LockedMessage :=
  {| lm_fields := fields; lm_reserved_ranges := lm_reserved_ranges m;
     lm_reserved_names := lm_reserved_names m |}.

Definition set_reserved (ranges : list NumberRange) (names : list string) (m : LockedMessage)
    : LockedMessage :=
  {| lm_fields := lm_fields m; lm_reserved_ranges := ranges; lm_reserved_names := names |}.

Definition plain_field (name : string) (number kind : Z) : LockedField :=
  {| lf_name := name; lf_number := number; lf_label := 1; lf_kind := kind; lf_type_name := "";
     lf_oneof_index := None; lf_proto3_optional := false |}.

Definition additive_field_is_compatible : Prop :=
  let new := change_player (λ m, set_fields (bt_insert 2 (plain_field "level" 2 5) (lm_fields m)) m)
               example_lock in
  compatibility_errors example_lock new = [].

Example additive_field_is_compatible_passes : additive_field_is_compatible.
Proof. run_test. Qed.

Definition changed_field_type_is_breaking : Prop :=
  let new := change_player
    (λ m, set_fields (get_mut 1 (λ f, plain_field (lf_name f) (lf_number f) 3) (lm_fields m)) m)
    example_lock in
  match compatibility_errors example_lock new with
  | FieldChanged _ _ _ _ :: _ => True
  | _ => False
  end.

Example changed_field_type_is_breaking_passes : changed_field_type_is_breaking.
Proof. vm_compute. exact I. Qed.

Definition removed_field_requires_reserved_name_and_number : Prop :=
  let invalid := change_player (λ m, set_fields (map_remove 1 (lm_fields m)) m) example_lock in
  length (compatibility_errors example_lock invalid) = 1%nat ∧
  let reserved := change_player (set_reserved [{| start := 1; end_ := 2 |}] ["name"]) invalid in
  compatibility_errors example_lock reserved = [].

Example removed_field_requires_reserved_name_and_number_passes :
  removed_field_requires_reserved_name_and_number.
Proof. run_test. Qed.

Definition existing_message_reservations_cannot_be_reused : Prop :=
  let old := change_player (set_reserved [{| start := 2; end_ := 3 |}] ["legacy"]) example_lock in
  let new := change_player
    (λ m, set_reserved [] []
            (set_fields (bt_insert 2 (plain_field "replacement" 2 9) (lm_fields m)) m)) old in
  let errors := compatibility_errors old new in
  NumbersReleased "message" "test.Player" 2 3 ∈ errors ∧
  NameReleased "message" "test.Player" "legacy" ∈ errors.

Example existing_message_reservations_cannot_be_reused_passes :
  existing_message_reservations_cannot_be_reused.
Proof. vm_compute. split; repeat (left + right). Qed.

Definition existing_enum_reservations_cannot_be_reused : Prop :=
  let with_state e := {| format := LOCK_FORMAT; messages := messages example_lock;
                         enums := [("test.State", e)]; services := [] |} in
  let old := with_state {| le_values := [(0, "UNKNOWN")];
                           le_reserved_ranges := [{| start := 1; end_ := 2 |}];
                           le_reserved_names := ["LEGACY"] |} in
  let new := with_state {| le_values := bt_insert 1 "REUSED" [(0, "UNKNOWN")];
                           le_reserved_ranges := []; le_reserved_names := [] |} in
  let errors := compatibility_errors old new in
  NumbersReleased "enum" "test.State" 1 2 ∈ errors ∧
  NameReleased "enum" "test.State" "LEGACY" ∈ errors.

Example existing_enum_reservations_cannot_be_reused_passes :
  existing_enum_reservations_cannot_be_reused.
Proof. vm_compute. split; repeat (left + right). Qed.

Definition method_policy_changes_are_locked : Prop :=
  let with_timeout timeout :=
    let d := RpcPolicy_defaults false in
    {| timeout_ms := timeout; idle_timeout_ms := idle_timeout_ms d; retry := retry d;
       idempotency := idempotency d; max_request_bytes := max_request_bytes d;
       max_response_bytes := max_response_bytes d; Policy.required_scopes := Policy.required_scopes d;
       compression := compression d; trace_sample_per_million := trace_sample_per_million d |} in
  let with_policy p :=
    {| format := LOCK_FORMAT; messages := messages example_lock; enums := [];
       services := [("test.Service", {| ls_methods := [("Read",
         {| lk_input := ".test.Player"; lk_output := ".test.Player"; lk_client_streaming := false;
            lk_server_streaming := false; lk_policy := p |})] |})] |} in
  compatibility_errors (with_policy (RpcPolicy_defaults false)) (with_policy (with_timeout 1000))
  = [PolicyChanged "test.Service" "Read"].

Example method_policy_changes_are_locked_passes : method_policy_changes_are_locked.
Proof. run_test. Qed.

(** * [moonlight-bridge-codegen/src/lib.rs] *)

Definition method_ids_are_stable : Prop :=
  Bindings.method_id "moonlight.bridge.example.v1.EchoService/Echo" = 0x237DFACC.

Example method_ids_are_stable_passes : method_ids_are_stable.
Proof. run_test. Qed.

Definition generated_names_follow_language_conventions : Prop :=
  snake_case "GetPlayerData" = "get_player_data" ∧
  lower_camel "GetPlayerData" = "getPlayerData" ∧
  upper_snake "GetPlayerData" = "GET_PLAYER_DATA".

Example generated_names_follow_language_conventions_passes :
  generated_names_follow_language_conventions.
Proof. run_test. Qed.
