(* ===== verification/ConformanceServer.v ===== *)
(** The unit tests of [moonlight-bridge-server/src/lib.rs], run on the model.
    Each definition is the assertions of the test it is named after, at the
    interleaving that the test sets up with its channels, and holds by
    evaluation.  Compression is a codec that stores the first
    128 bytes of a payload that repeats them, and the payload itself otherwise. *)
From S2P Require Import Prelude OrdMap Text Compression Protocol Metadata Transport Outbound.
From S2P Require Import Middleware Router Dispatch Telemetry Connection System Wire Server Conformance.

(** [n] bytes of a block that is repeated. *)
Definition cycle (n : nat) (block : bytes) : bytes :=
  take n (concat (replicate (S (n / 128)) block)).

Definition block_compress (p : bytes) : bytes :=
  let block := take 128 p in
  if bool_decide (p = cycle (length p) block) then x01 :: be_bytes 4 (zlen p) ++ block else x00 :: p.

Definition block_decompress (c : bytes) : bytes :=
  match c with
  | x01 :: c => cycle (Z.to_nat (be_val (take 4 c))) (drop 4 c)
  | _ :: p => p
  | [] => []
  end.

#[local] Instance block_ops : ZstdOps :=
  {| zstd_compress p _ := Some (block_compress p);
     zstd_decompress c capacity :=
       let p := block_decompress c in if zlen p <=? capacity then Some p else None |}.

(** A router that builds. *)
Definition built (b : option RouterBuilder) (P : Router → Prop) : Prop :=
  match b with
  | Some b => match builder_build b with Some r => P r | None => False end
  | None => False
  end.

Definition test_compression : BudgetInner := {| bi_capacity := 1024 * 1024; bi_used := 0 |}.

Definition both_codecs : Z := Z.lor COMPRESSION_CODEC_NONE COMPRESSION_CODEC_ZSTD.

Definition dispatch_with_peer (r : Router) (frame : Frame) (codecs : Z) (peer : option PeerIdentity)
    (now : Z) : dispatch_result :=
  dispatch_observed [] r frame DEFAULT_MAX_BODY_LEN (max_bytes MetadataLimits_default)
    {| rc_codecs := codecs; rc_policy := CompressionPolicy_default |} peer now false test_compression.

Definition dispatch_test (r : Router) (frame : Frame) : dispatch_result :=
  dispatch_with_peer r frame both_codecs None 0.

(** The frame of a response, and the code of an error frame. *)
Definition response_is (d : dispatch_result) (P : Frame → Prop) : Prop :=
  match d_end d with Responded f => P f | _ => False end.

Definition error_code (f : Frame) : result ProtocolError ErrorCode :=
  ErrorCode_try_from (be_val (sub 0 2 (body f))).

Definition handled (d : dispatch_result) : nat :=
  length (omap (λ e, match e with Handled b => Some b | Entered _ => None end) (d_chain d)).

(** * Middleware *)

(** [TestMiddleware]; the trace of the model shows what happens on the way in. *)
Definition TestMiddleware : middleware_fn := λ context body, RunNext context body (λ r, Finish (Returned r)).

Definition middleware_runs_in_registration_order_around_handler : Prop :=
  built (builder_route (builder_layer (builder_layer Router_builder TestMiddleware) TestMiddleware) 1
           (λ body, Returned (Ok body))) (λ router,
    let d := dispatch_test router (Frame_new FrameKind.Request 1 7 (as_bytes "body")) in
    response_is d (λ response, kind response = FrameKind.Response ∧ body response = as_bytes "body") ∧
    d_chain d = [Entered 0; Entered 1; Handled (as_bytes "body")]).

Example middleware_runs_in_registration_order_around_handler_passes :
  middleware_runs_in_registration_order_around_handler.
Proof. run_test. Qed.

Definition RejectMiddleware : middleware_fn := λ _ _,
  Finish (Returned (Err {| code := ErrorCode.PermissionDenied; message := as_bytes "scope denied" |})).

Definition middleware_short_circuit_does_not_invoke_handler : Prop :=
  built (builder_route (builder_layer Router_builder RejectMiddleware) 1 (λ _, Returned (Ok [])))
    (λ router,
    let d := dispatch_test router (Frame_new FrameKind.Request 1 8 []) in
    response_is d (λ response, kind response = FrameKind.Error ∧
      error_code response = Ok ErrorCode.PermissionDenied) ∧
    handled d = 0%nat).

Example middleware_short_circuit_does_not_invoke_handler_passes :
  middleware_short_circuit_does_not_invoke_handler.
Proof. run_test. Qed.

Definition DoubleNextMiddleware : middleware_fn := λ context body,
  RunNext context body (λ first,
    match first with
    | Ok _ => RunNext context body (λ r, Finish (Returned r))
    | Err _ => Finish Panicked
    end).

Definition next_rejects_a_second_invocation_without_repeating_handler : Prop :=
  built (builder_route (builder_layer Router_builder DoubleNextMiddleware) 1 (λ _, Returned (Ok [])))
    (λ router,
    let d := dispatch_test router (Frame_new FrameKind.Request 1 9 []) in
    response_is d (λ response, kind response = FrameKind.Error ∧
      error_code response = Ok ErrorCode.Internal) ∧
    handled d = 1%nat).

Example next_rejects_a_second_invocation_without_repeating_handler_passes :
  next_rejects_a_second_invocation_without_repeating_handler.
Proof. run_test. Qed.

(** [ContextCapture]: the captured context is the one that [expected] decides. *)
Definition ContextCapture (expected : RequestContext → bool) : middleware_fn := λ context body,
  if expected context then RunNext context body (λ r, Finish (Returned r)) else Finish Panicked.

Definition middleware_context_exposes_deadline_reserved_metadata_scopes_and_tls_peer : Prop :=
  let now := 50 in
  let peer := {| tls_leaf_certificate := map b8 [1; 2; 3] |} in
  let expected c :=
    (rc_method_id c =? 1) && (rc_request_id c =? 10)
    && match rc_deadline c with Some at_ => now <? at_ | None => false end
    && bool_decide (rc_required_scopes c = ["echo.invoke"])
    && bool_decide (tls_leaf_certificate <$> rc_peer_identity c = Some (tls_leaf_certificate peer))
    && bool_decide (Metadata_get (rc_metadata c) (Reserved ReservedMetadataKey.Authorization)
                    = Some (as_bytes "opaque")) in
  built (builder_route_scoped
           (builder_allow_unsecured_scopes (builder_layer Router_builder (ContextCapture expected)))
           1 ["echo.invoke"] (λ body, Returned (Ok body))) (λ router,
    unwrap metadata := insert_reserved Metadata_new ReservedMetadataKey.DeadlineMillis (be_bytes 4 1000) in
    unwrap metadata := insert_reserved metadata ReservedMetadataKey.Authorization (as_bytes "opaque") in
    let '(prefix, written) := encode_prefix metadata [] in
    let frame := with_flags (Frame_new FrameKind.Request 1 10 (prefix ++ as_bytes "payload"))
                   FLAG_HAS_METADATA in
    written = Ok tt ∧
    response_is (dispatch_with_peer router frame COMPRESSION_CODEC_NONE (Some peer) now)
      (λ response, body response = as_bytes "payload")).

Example middleware_context_exposes_deadline_reserved_metadata_scopes_and_tls_peer_passes :
  middleware_context_exposes_deadline_reserved_metadata_scopes_and_tls_peer.
Proof. run_test. Qed.

Definition PanicMiddleware : middleware_fn := λ _ _, Finish Panicked.

Definition middleware_panic_becomes_one_internal_error : Prop :=
  built (builder_route (builder_layer Router_builder PanicMiddleware) 1 (λ _, Returned (Ok [])))
    (λ router,
    response_is (dispatch_test router (Frame_new FrameKind.Request 1 11 [])) (λ response,
      kind response = FrameKind.Error ∧ error_code response = Ok ErrorCode.Internal)).

Example middleware_panic_becomes_one_internal_error_passes :
  middleware_panic_becomes_one_internal_error.
Proof. run_test. Qed.

(** * Registration *)

Definition scoped_routes_require_explicit_authorization_configuration : Prop :=
  (b ← builder_route_scoped Router_builder 1 ["profile.read"] (λ _, Returned (Ok []));
   builder_build b) = None.

Example scoped_routes_require_explicit_authorization_configuration_passes :
  scoped_routes_require_explicit_authorization_configuration.
Proof. run_test. Qed.

Definition duplicate_routes_are_rejected_during_registration : Prop :=
  (b ← builder_route Router_builder 7 (λ _, Returned (Ok []));
   builder_route b 7 (λ _, Returned (Ok []))) = None.

Example duplicate_routes_are_rejected_during_registration_passes :
  duplicate_routes_are_rejected_during_registration.
Proof. run_test. Qed.

(** * Requests *)

Definition request_payload_decompresses_zstd_after_bounded_metadata_validation : Prop :=
  let policy := {| min_payload_bytes := 1; min_savings_bytes := 0;
                   Compression.max_decoded_body_len := 1024 * 1024; max_expansion_ratio := 256;
                   compression_level := 1 |} in
  let original := replicate 4096 x78 in
  unwrap compressed := CompressionPolicy_encode policy original CompressionCodec.Zstd in
  cp_codec compressed = CompressionCodec.Zstd ∧
  unwrap metadata := insert_reserved Metadata_new ReservedMetadataKey.CompressionCodec
                       [b8 (CompressionCodec_as_u8 (cp_codec compressed))] in
  unwrap metadata := insert_reserved metadata ReservedMetadataKey.OriginalLength
                       (be_bytes 4 (cp_original_len compressed)) in
  let '(prefix, written) := encode_prefix metadata [] in
  written = Ok tt ∧
  let frame := with_flags (Frame_new FrameKind.Request 1 1 (prefix ++ cp_bytes compressed))
                 FLAG_HAS_METADATA in
  unwrap budget := DecodedByteBudget_new 8192 in
  unwrap parsed := (request_payload [] frame (max_bytes MetadataLimits_default)
                      {| rc_codecs := both_codecs; rc_policy := policy |} false budget).2 in
  pr_metadata parsed = None ∧ pr_payload parsed = original.

Example request_payload_decompresses_zstd_after_bounded_metadata_validation_passes :
  request_payload_decompresses_zstd_after_bounded_metadata_validation.
Proof. run_test. Qed.

Definition no_observation_does_not_collect_function_stages : Prop :=
  built (builder_route Router_builder 1
           (λ _, Returned (Ok (trace_function "test" 0 0 (λ s, ([], s)) None).1))) (λ router,
    (trace_function "test" 0 0 (λ s, (@nil byte, s)) None).2 = None ∧
    response_is (dispatch_test router (Frame_new FrameKind.Request 1 1 []))
      (λ response, kind response = FrameKind.Response)).

Example no_observation_does_not_collect_function_stages_passes :
  no_observation_does_not_collect_function_stages.
Proof. run_test. Qed.

(** * Queue and buffer *)

(** The second send waits with the error frame that replaces its response, and
    goes on with it once there is room. *)
Definition response_queue_holds_byte_budget_until_writer_releases_frame : Prop :=
  let responses := fresh_queue 4 (MkCounting 64 false) (MkCounting 64 false) in
  let response id := Frame_new FrameKind.Response 1 id (replicate 40 x00) in
  let send q id := queue_send q (response id) in
  let resume q id :=
    await (q, item) := queue_reserve q (rejected_frame (response id));; channel_send q item in
  match send responses 1 with
  | Ready (Ok responses) =>
      available_permits (rq_global_bytes responses) = 0 ∧
      send responses 2 = Pending ∧
      match queue_pop responses with
      | Some (first, responses) =>
          request_id first = 1 ∧
          match resume responses 2 with
          | Ready (Ok responses) =>
              match queue_pop responses with
              | Some (rejected, _) => kind rejected = FrameKind.Error ∧ request_id rejected = 2
              | None => False
              end
          | _ => False
          end
      | None => False
      end
  | _ => False
  end.

Example response_queue_holds_byte_budget_until_writer_releases_frame_passes :
  response_queue_holds_byte_budget_until_writer_releases_frame.
Proof. run_test. Qed.

Definition writer_buffer_discards_oversized_allocation : Prop :=
  let encoded := recycle_writer_buffer
    {| bf_bytes := replicate 16 x00; bf_capacity := 2 * 1024 * 1024 |} in
  bf_bytes encoded = [] ∧ (bf_capacity encoded <=? 512 * 1024) = true.

Example writer_buffer_discards_oversized_allocation_passes :
  writer_buffer_discards_oversized_allocation.
Proof. run_test. Qed.

(** * Metrics *)

Definition metrics_after (ops : list metric_op) : MetricsInner :=
  foldl (λ m op, apply_op op m) MetricsInner_default ops.

Definition dropped_observation_records_cancellation : Prop :=
  let info := {| ri_method_id := 1; ri_method_name := None; ri_request_id := 2;
                 ri_request_bytes := 3; ri_trace_context := None |} in
  let '(ops, observation) := MoonLightMetrics_start_request info 0 0 in
  match observation with
  | Some observation =>
      let metrics := metrics_after (ops ++ MetricsObservation_drop 0 observation) in
      Telemetry.started metrics = 1 ∧ failed metrics = 1
  | None => False
  end.

Example dropped_observation_records_cancellation_passes : dropped_observation_records_cancellation.
Proof. run_test. Qed.

Definition metrics_of_events (events : list observation_event) : list metric_op :=
  match events with
  | [Started info; Finished outcome] =>
      let '(ops, observation) := MoonLightMetrics_start_request info 0 0 in
      ops ++ match observation with
             | Some observation => finish 0 outcome observation
             | None => []
             end
  | _ => []
  end.

Definition dispatch_strips_trace_metadata_and_records_metrics : Prop :=
  let expected_trace :=
    {| trace_id := replicate 16 x03; parent_span_id := replicate 8 x04; sampled := true |} in
  built (b ← builder_route (builder_telemetry Router_builder (λ _, Some false)) 7
               (λ body, Returned (Ok body));
         builder_method_name b 7 "MonitoringService/Ping") (λ router,
    unwrap metadata := insert_reserved Metadata_new ReservedMetadataKey.DeadlineMillis (be_bytes 4 1000) in
    unwrap metadata := insert_reserved metadata ReservedMetadataKey.TraceContext
                         (TraceContext_encode_into expected_trace []) in
    let '(prefix, written) := encode_prefix metadata [] in
    let d := dispatch_test router
      (with_flags (Frame_new FrameKind.Request 7 9 (prefix ++ as_bytes "payload")) FLAG_HAS_METADATA) in
    let metrics := metrics_after (metrics_of_events (d_observed d)) in
    written = Ok tt ∧
    response_is d (λ response, body response = as_bytes "payload") ∧
    match d_observed d with
    | Started info :: _ =>
        ri_trace_context info = Some expected_trace ∧
        ri_method_name info = Some "MonitoringService/Ping"
    | _ => False
    end ∧
    Telemetry.started metrics = 1 ∧ succeeded metrics = 1 ∧
    request_bytes metrics = 7 ∧ response_bytes metrics = 7).

Example dispatch_strips_trace_metadata_and_records_metrics_passes :
  dispatch_strips_trace_metadata_and_records_metrics.
Proof. run_test. Qed.

(** * Connections *)

(** [Server::runtime] *)
Definition runtime_of (settings : PeerSettingsV2) : RuntimeState :=
  {| rt_ready := false; rt_active_connections := 0; rt_active_requests := 0;
     rt_max_in_flight := max_in_flight settings; rt_draining := false; rt_drain_value := false;
     rt_force_value := false |}.

(** [serve_test_connection] up to its loop, for a client that sends HELLO. *)
Definition serve_test_connection (client server : PeerSettingsV2)
    (P : PeerSettingsV2 → Connection → Prop) : Prop :=
  unwrap hello := Frame_encode (Frame_new FrameKind.Hello 0 0 (PeerSettingsV2_encode client)) in
  unwrap (negotiated, written, _) := handshake (MkStream hello false) server in
  match read_frame (MkStream written false) SETTINGS_BODY_LEN with
  | Ready (Ok (welcome, _)) =>
      kind welcome = FrameKind.Welcome ∧
      P negotiated
        (connection_start negotiated (count_connection (runtime_of server) 1)
           (max_buffered_request_bytes ServerLimits_default)
           {| bi_capacity := 64 * 1024 * 1024; bi_used := 0 |})
  | _ => False
  end.

Definition silent_client_is_rejected_by_hello_timeout : Prop :=
  match handshake (MkStream [] false) PeerSettingsV2_default with
  | Err error => ekind error = ErrorKind.TimedOut
  | Ok _ => False
  end.

Example silent_client_is_rejected_by_hello_timeout_passes : silent_client_is_rejected_by_hello_timeout.
Proof. run_test. Qed.

(** The client writes a frame, and the loop takes it. *)
Definition client_writes (router : Router) (negotiated : PeerSettingsV2) (c : Connection) (f : Frame)
    : Connection :=
  on_frame router negotiated (push_received c f)
    {| bf_frame := f; bf_permit := if zlen (body f) =? 0 then None else Some (zlen (body f));
       bf_received_at := None |} 0.

(** One poll of a started task that does not wait; its first poll. *)
Definition poll_task (router : Router) (negotiated : PeerSettingsV2) (c : Connection) (tid : nat)
    : option Connection :=
  t ← cn_tasks c !! tid;
  task_run router None negotiated (connection_policy negotiated (runtime_policy PeerSettingsV2_default))
    c tid t {| te_spurious := []; te_now := 0; te_late := false; te_room := true |}.

Definition first_poll (c : Connection) (tid : nat) : Connection :=
  match cn_tasks c !! tid with Some t => task_start c tid t | None => c end.

(** The aborted task is dropped. *)
Definition aborted (c : Connection) (tid : nat) : Connection :=
  match cn_tasks c !! tid with
  | Some t => if tk_aborted t then task_dropped c tid t else c
  | None => c
  end.

(** The handler waits until it is released, after the drain has begun. *)
Definition server_drain_completes_existing_call_and_rejects_new_calls : Prop :=
  let settings :=
    {| max_body_len := max_body_len PeerSettingsV2_default;
       Protocol.max_decoded_body_len := Protocol.max_decoded_body_len PeerSettingsV2_default;
       max_metadata_len := max_metadata_len PeerSettingsV2_default; max_in_flight := 2;
       max_concurrent_streams := max_concurrent_streams PeerSettingsV2_default;
       initial_stream_credit := initial_stream_credit PeerSettingsV2_default;
       compression_codecs := compression_codecs PeerSettingsV2_default;
       features := features PeerSettingsV2_default;
       diagnostic_features := diagnostic_features PeerSettingsV2_default |} in
  built (builder_route Router_builder 1 (λ body, Returned (Ok body))) (λ router,
    serve_test_connection settings settings (λ negotiated c,
      let write := client_writes router negotiated in
      let c := first_poll (write c (Frame_new FrameKind.Request 1 41 (as_bytes "existing"))) 0 in
      match poll_task router negotiated c 0 with
      | Some c =>
          let c := write (on_drain c) (Frame_new FrameKind.Request 1 42 (as_bytes "new")) in
          match poll_task router negotiated c 0 with
          | Some c =>
              let c := on_active_changed c in
              match cn_sent c with
              | [goaway; rejected; response; goodbye] =>
                  kind goaway = FrameKind.GoAway ∧
                  kind rejected = FrameKind.Error ∧ error_code rejected = Ok ErrorCode.Unavailable ∧
                  kind response = FrameKind.Response ∧ request_id response = 41 ∧
                  kind goodbye = FrameKind.Goodbye ∧ cn_status c = Closed (Ok tt)
              | _ => False
              end
          | None => False
          end
      | None => False
      end)).

Example server_drain_completes_existing_call_and_rejects_new_calls_passes :
  server_drain_completes_existing_call_and_rejects_new_calls.
Proof. run_test. Qed.

Definition drain_timeout_cancels_stuck_requests_and_releases_permits : Prop :=
  built (builder_route Router_builder 1 (λ _, Hung)) (λ router,
    serve_test_connection PeerSettingsV2_default PeerSettingsV2_default (λ negotiated c,
      let c := first_poll (client_writes router negotiated c (Frame_new FrameKind.Request 1 51 [])) 0 in
      h_active_requests (HealthHandle_snapshot (cn_runtime c) 0) = 1 ∧
      match poll_task router negotiated c 0 with
      | Some c =>
          poll_task router negotiated c 0 = None ∧
          let c := on_drain c in
          cn_status c = Running ∧
          let c := aborted (goodbye c) 0 in
          let health := HealthHandle_snapshot (count_connection (cn_runtime c) (-1)) 0 in
          cn_status c = Closed (Ok tt) ∧ h_active_connections health = 0 ∧ h_active_requests health = 0
      | None => False
      end)).

Example drain_timeout_cancels_stuck_requests_and_releases_permits_passes :
  drain_timeout_cancels_stuck_requests_and_releases_permits.
Proof. run_test. Qed.

(** The handler sleeps longer than the test lasts. *)
Definition duplicate_active_request_id_terminates_connection_and_cleans_up : Prop :=
  built (builder_route Router_builder 1 (λ _, Hung)) (λ router,
    serve_test_connection PeerSettingsV2_default PeerSettingsV2_default (λ negotiated c,
      let request := Frame_new FrameKind.Request 1 9 [] in
      let c := client_writes router negotiated c request in
      let c := client_writes router negotiated (first_poll c 0) request in
      match poll_task router negotiated c 0 with
      | Some c =>
          let rt := count_connection (cn_runtime (aborted c 0)) (-1) in
          match cn_status c with
          | Closed (Err error) => ekind error = ErrorKind.InvalidData
          | _ => False
          end ∧
          rt_active_connections rt = 0 ∧ rt_active_requests rt = 0
      | None => False
      end)).

Example duplicate_active_request_id_terminates_connection_and_cleans_up_passes :
  duplicate_active_request_id_terminates_connection_and_cleans_up.
Proof. run_test. Qed.

(** The reader keeps its partial frame while the event goes out. *)
Definition event_does_not_cancel_a_partially_read_client_frame : Prop :=
  built (Some Router_builder) (λ router,
    serve_test_connection PeerSettingsV2_default PeerSettingsV2_default (λ negotiated c,
      unwrap ping := Frame_encode (Frame_new FrameKind.Ping 0 77 (as_bytes "partial-ping")) in
      let room := MkCounting (max_buffered_request_bytes ServerLimits_default) false in
      let read bytes := read_frame_buffered (MkStream bytes false) (max_body_len negotiated) room false 0 in
      (read (take 8 ping)).2 = Err read_timed_out ∧
      let c := on_hub_event negotiated c (Frame_new FrameKind.Event 91 0 (as_bytes "event")) true in
      unwrap (bf, _) := (read (take 8 ping ++ drop 8 ping)).2 in
      let c := on_frame router negotiated (push_received c (bf_frame bf)) bf 0 in
      match cn_sent c with
      | [event; pong] =>
          kind event = FrameKind.Event ∧ method_id event = 91 ∧
          kind pong = FrameKind.Pong ∧ request_id pong = 77 ∧ body pong = as_bytes "partial-ping"
      | _ => False
      end ∧
      cn_status (client_writes router negotiated c (Frame_new FrameKind.Goodbye 0 0 []))
        = Closed (Ok tt))).

Example event_does_not_cancel_a_partially_read_client_frame_passes :
  event_does_not_cancel_a_partially_read_client_frame.
Proof. run_test. Qed.

(** A call through the connection, the writer and back; the peer's frame. *)
Definition called (client : PeerSettingsV2) (handler : handler_fn) (id : Z)
    (P : Frame → Prop) : Prop :=
  built (builder_route Router_builder 1 handler) (λ router,
    serve_test_connection client PeerSettingsV2_default (λ negotiated c,
      let c := first_poll (client_writes router negotiated c (Frame_new FrameKind.Request 1 id [])) 0 in
      match (c ← poll_task router negotiated c 0; poll_task router negotiated c 0) with
      | Some c =>
          unwrap (batches, _) :=
            writer_run negotiated (connection_policy negotiated (runtime_policy PeerSettingsV2_default))
              [0%nat] {| ws_deferred := None; ws_channel := cn_sent c |} in
          match read_frame (MkStream (concat (map fst batches)) false) (max_body_len client) with
          | Ready (Ok (response, _)) =>
              P response ∧
              cn_status (client_writes router negotiated c (Frame_new FrameKind.Goodbye 0 0 []))
                = Closed (Ok tt)
          | _ => False
          end
      | None => False
      end)).

Definition oversized_handler_response_is_replaced_before_writing : Prop :=
  let client_settings :=
    {| max_body_len := 64; Protocol.max_decoded_body_len := 128; max_metadata_len := 1024;
       max_in_flight := DEFAULT_MAX_IN_FLIGHT; max_concurrent_streams := 8;
       initial_stream_credit := 4; compression_codecs := 1; features := SERVER_FEATURES;
       diagnostic_features := 0 |} in
  called client_settings (λ _, Returned (Ok (replicate 128 x07))) 88 (λ response,
    kind response = FrameKind.Error ∧ request_id response = 88 ∧
    (zlen (body response) <=? max_body_len client_settings) = true ∧
    error_code response = Ok ErrorCode.ResourceExhausted).

Example oversized_handler_response_is_replaced_before_writing_passes :
  oversized_handler_response_is_replaced_before_writing.
Proof. run_test. Qed.

Definition compressible_response_may_exceed_encoded_but_not_decoded_limit : Prop :=
  let client_settings :=
    {| max_body_len := 256; Protocol.max_decoded_body_len := 4096; max_metadata_len := 1024;
       max_in_flight := DEFAULT_MAX_IN_FLIGHT; max_concurrent_streams := 8;
       initial_stream_credit := 4; compression_codecs := both_codecs; features := SERVER_FEATURES;
       diagnostic_features := 0 |} in
  let block := map (λ index, b8 ((Z.of_nat index * 73 + 19) mod 251)) (seq 0 128) in
  let expected := cycle 4096 block in
  called client_settings (λ _, Returned (Ok expected)) 89 (λ response,
    kind response = FrameKind.Response ∧ negb (Z.land (flags response) FLAG_HAS_METADATA =? 0) = true ∧
    unwrap (metadata, compressed) := Metadata_decode (body response)
      {| max_bytes := max_metadata_len client_settings;
         max_entries := max_entries MetadataLimits_default;
         max_value_bytes := max_value_bytes MetadataLimits_default |} in
    match Metadata_get metadata (Reserved ReservedMetadataKey.OriginalLength) with
    | Some original_len =>
        unwrap budget := DecodedByteBudget_new 8192 in
        (CompressionPolicy_decode []
           {| min_payload_bytes := min_payload_bytes CompressionPolicy_default;
              min_savings_bytes := min_savings_bytes CompressionPolicy_default;
              Compression.max_decoded_body_len := Protocol.max_decoded_body_len client_settings;
              max_expansion_ratio := max_expansion_ratio CompressionPolicy_default;
              compression_level := compression_level CompressionPolicy_default |}
           CompressionCodec.Zstd compressed (be_val original_len) budget).2 = Ok expected
    | None => False
    end).

Example compressible_response_may_exceed_encoded_but_not_decoded_limit_passes :
  compressible_response_may_exceed_encoded_but_not_decoded_limit.
Proof. run_test. Qed.

(** The client reads nothing more, so the writer never ends by itself. *)
Definition goodbye_bounds_blocked_writer_shutdown : Prop :=
  built (builder_route Router_builder 1 (λ _, Returned (Ok []))) (λ router,
    serve_test_connection PeerSettingsV2_default PeerSettingsV2_default (λ negotiated c,
      let c := first_poll (client_writes router negotiated c (Frame_new FrameKind.Request 1 1 [])) 0 in
      match (c ← poll_task router negotiated c 0; poll_task router negotiated c 0) with
      | Some c =>
          match cn_status (client_writes router negotiated c (Frame_new FrameKind.Goodbye 0 0 [])) with
          | Closed connection_result =>
              match serve_result connection_result WriterLate with
              | Err error => ekind error = ErrorKind.TimedOut
              | Ok _ => False
              end
          | Running => False
          end
      | None => False
      end)).

Example goodbye_bounds_blocked_writer_shutdown_passes : goodbye_bounds_blocked_writer_shutdown.
Proof. run_test. Qed.

(** * Shutdown *)

(** A whole call of [begin_drain] by caller [i], from its compare-exchange. *)
Definition begin_drain (w : server_world) (i : nat) : server_world :=
  let step w := match sw_callers w !! i with Some pc => drain_step w i pc | None => w end in
  step (step (step (step w))).

Definition returned (w : server_world) (i : nat) : option bool :=
  match sw_callers w !! i with Some (DrainReturned first) => Some first | _ => None end.

Definition begin_drain_immediately_clears_readiness : Prop :=
  let w := server_start 2 in
  let w := sw_set_flags w true (sw_draining w) (sw_drain w) (sw_connections w) in
  let w := begin_drain w 0 in
  returned w 0 = Some true ∧ sw_ready w = false ∧ returned (begin_drain w 1) 1 = Some false.

Example begin_drain_immediately_clears_readiness_passes : begin_drain_immediately_clears_readiness.
Proof. run_test. Qed.

(** [yield_now] lets the server start, up to its accept loop. *)
Definition begin_drain_stops_the_accept_loop : Prop :=
  let w := run_step (run_step (run_step (server_start 1))) in
  sw_run w = RunAccept false ∧
  let w := begin_drain w 0 in
  returned w 0 = Some true ∧ sw_run (run_step w) = RunDone.

Example begin_drain_stops_the_accept_loop_passes : begin_drain_stops_the_accept_loop.
Proof. run_test. Qed.

(** The dispatch waits in its middleware; aborting it drops its guard. *)
Definition middleware_cancellation_signal_is_set_when_dispatch_is_aborted : Prop :=
  built (builder_route (builder_layer Router_builder (λ _ _, Finish Hung)) 1 (λ _, Returned (Ok [])))
    (λ router,
    let d := dispatch_test router (Frame_new FrameKind.Request 1 12 []) in
    d_end d = Stuck ∧ d_cancelled d = false ∧
    is_cancelled (CancellationGuard_drop CancellationGuard_new) = true).

Example middleware_cancellation_signal_is_set_when_dispatch_is_aborted_passes :
  middleware_cancellation_signal_is_set_when_dispatch_is_aborted.
Proof. run_test. Qed.
