(* ===== verification/ConformanceObservability.v ===== *)
(** The unit tests of the telemetry adapters, run on the model: the calls that
    [otel.rs] makes on its tracer, seen as the spans that an in-memory exporter
    collects, the counters of [prometheus.rs] and the Sentry observation. *)
From S2P Require Import Prelude Text Protocol Middleware Router Dispatch Telemetry Adapters Conformance.

(** * Spans *)

(** A finished span as the exporter shows it. *)
Record SpanData := MkSpanData {
  sd_name : string;
  sd_kind : SpanKind;
  sd_start : Z;
  sd_end : Z;
  sd_parent : span_parent;
  sd_attributes : list (string * attribute_value);
  sd_events : nat;
}.

(** The spans of one observation: every stage starts and ends at once, and the
    request's span ends with [EndSpan], at [now]. *)
Fixpoint spans_of (now : Z) (request : option SpanData) (stage : option SpanData)
    (calls : list otel_call) : list SpanData :=
  match calls with
  | [] => []
  | StartSpan name k start attributes parent :: calls =>
      let span := {| sd_name := name; sd_kind := k; sd_start := start; sd_end := start;
                     sd_parent := parent; sd_attributes := attributes; sd_events := 0 |} in
      match request with
      | None => spans_of now (Some span) stage calls
      | Some _ => spans_of now request (Some span) calls
      end
  | EndStageSpan finished_at :: calls =>
      match stage with
      | Some s =>
          {| sd_name := sd_name s; sd_kind := sd_kind s; sd_start := sd_start s;
             sd_end := finished_at; sd_parent := sd_parent s; sd_attributes := sd_attributes s;
             sd_events := sd_events s |} :: spans_of now request None calls
      | None => spans_of now request None calls
      end
  | AddEvent _ _ :: calls =>
      spans_of now
        ((λ s, {| sd_name := sd_name s; sd_kind := sd_kind s; sd_start := sd_start s;
                  sd_end := sd_end s; sd_parent := sd_parent s;
                  sd_attributes := sd_attributes s; sd_events := S (sd_events s) |}) <$> request)
        stage calls
  | EndSpan :: calls =>
      match request with
      | Some s =>
          {| sd_name := sd_name s; sd_kind := sd_kind s; sd_start := sd_start s; sd_end := now;
             sd_parent := sd_parent s; sd_attributes := sd_attributes s;
             sd_events := sd_events s |} :: spans_of now None stage calls
      | None => spans_of now None stage calls
      end
  | _ :: calls => spans_of now request stage calls
  end.

(** Exactly one span has the name. *)
Definition span_named (spans : list SpanData) (name : string) (P : SpanData → Prop) : Prop :=
  match filter (λ s, sd_name s = name) spans with [s] => P s | _ => False end.

(** A request at instant [now], when the wall clock shows [wall]; times in
    nanoseconds. *)
Definition observed_spans (info : RequestInfo) (received now wall : Z)
    (stages : OpenTelemetryObservation → list otel_call) (outcome : RequestOutcome) : list SpanData :=
  match OpenTelemetry_start_request (λ _, true) (λ _, wall) info received now with
  | (calls, Some observation) =>
      spans_of wall None None (calls ++ stages observation ++ finish now outcome observation)
  | (_, None) => []
  end.

Definition ping_info (method request bytes : Z) (trace : option TraceContext) : RequestInfo :=
  {| ri_method_id := method; ri_method_name := Some "MonitoringService/Ping";
     ri_request_id := request; ri_request_bytes := bytes; ri_trace_context := trace |}.

Definition exports_request_span_and_stage_with_full_unsigned_request_id : Prop :=
  let now := 10 ^ 9 in
  let spans := observed_spans (ping_info 0x1234 u64_max 42 None) now now (10 ^ 18)
    (λ o, (otel_record_stage now "decode" 4000 o).2) (Failure ErrorCode.Unavailable) in
  length spans = 2%nat ∧
  span_named spans "decode" (λ stage, sd_parent stage = RequestSpan) ∧
  span_named spans "MonitoringService/Ping" (λ request,
    sd_events request = 1%nat ∧
    ("rpc.request_id", AttrStr "18446744073709551615") ∈ sd_attributes request).

Example exports_request_span_and_stage_with_full_unsigned_request_id_passes :
  exports_request_span_and_stage_with_full_unsigned_request_id.
Proof. vm_compute. repeat split. repeat (left + right). Qed.

Definition stages_keep_their_real_offsets_inside_the_request_span : Prop :=
  let ms := 10 ^ 6 in
  let now := 10 ^ 9 in
  let received := now - 10 * ms in
  let spans := observed_spans (ping_info 1 1 1 None) received now (10 ^ 18)
    (λ o, (otel_record_stage_at "handler" (received + 4 * ms) (2 * ms) o).2
          ++ (otel_record_stage_at "queue" received (1 * ms) o).2) (Success 1) in
  span_named spans "MonitoringService/Ping" (λ request,
  span_named spans "queue" (λ queue,
  span_named spans "handler" (λ handler,
    sd_kind request = SpanServer ∧ sd_start queue = sd_start request ∧
    sd_start handler - sd_start request = 4 * ms ∧
    sd_end handler - sd_start handler = 2 * ms ∧
    (sd_end handler <=? sd_end request) = true))).

Example stages_keep_their_real_offsets_inside_the_request_span_passes :
  stages_keep_their_real_offsets_inside_the_request_span.
Proof. run_test. Qed.

Definition server_span_continues_the_propagated_java_trace : Prop :=
  let trace := {| trace_id := replicate 16 x07; parent_span_id := replicate 8 x09; sampled := true |} in
  let spans := observed_spans (ping_info 1 2 3 (Some trace)) 0 0 (10 ^ 18) (λ _, []) (Success 4) in
  sd_parent <$> head spans = Some (RemoteParent (replicate 16 x07) (replicate 8 x09) true).

Example server_span_continues_the_propagated_java_trace_passes :
  server_span_continues_the_propagated_java_trace.
Proof. run_test. Qed.

(** * Prometheus *)

(** The values of [exports_stable_low_cardinality_names_without_request_ids]; the
    rendered text is the library's. *)
Definition exports_snapshot_counts : Prop :=
  let '(updated, exporter) := try_update false
    {| started := 3; succeeded := 2; failed := 1; request_bytes := 120; response_bytes := 80;
       total_latency_nanos := 900; max_latency_nanos := 500 |} PrometheusSnapshotExporter_new in
  updated = true ∧ pe_started exporter = 3 ∧ pe_failed exporter = 1.

Example exports_snapshot_counts_passes :
  exports_snapshot_counts.
Proof. run_test. Qed.

(** * Sentry *)

Definition trace_ids_are_lower_hex : Prop := hex (map b8 [0x00; 0xab; 0xff]) = "00abff".

Example trace_ids_are_lower_hex_passes : trace_ids_are_lower_hex.
Proof. run_test. Qed.

Definition requests_without_trace_context_still_create_log_observations : Prop :=
  is_Some (Sentry_start_request
    {| ri_method_id := 7; ri_method_name := None; ri_request_id := 11; ri_request_bytes := 13;
       ri_trace_context := None |} 0 0).2.

Example requests_without_trace_context_still_create_log_observations_passes :
  requests_without_trace_context_still_create_log_observations.
Proof. vm_compute. eauto. Qed.
